(** * AudioPolicyManager: routing, patch and mute sequencing

    A shallow embedding of the parts of
    [services/audiopolicy/managerdefault/AudioPolicyManager.cpp] that decide
    device selection, output selection, the audio patch life cycle, the
    mute/volume sequencing and the capture concurrency checks, together with
    the properties proved about them.

    The manager is a record of registries that every operation receives and
    returns.  Descriptors are shared objects in the C++ code ([sp<>]); here
    they live in the registries and are addressed by their I/O handle, so
    that a mutation made through one reference is seen through all of them.
    Calls made to the client interface (the transport) are appended to a
    trace; what the transport answers is given by an oracle that reads the
    trace so far. *)

From Stdlib Require Import ZArith List Bool Lia String.
From Stdlib Require Import Floats.SpecFloat.
From stdpp Require Import base option list gmap.
From Stdlib Require Import Sorted.
Import ListNotations.
Local Open Scope Z_scope.

(** ** Scalar types of [system/audio.h] *)

Abbreviation audio_devices_t := Z.
Abbreviation audio_io_handle_t := Z.
Abbreviation audio_patch_handle_t := Z.
Abbreviation audio_port_handle_t := Z.
Abbreviation audio_session_t := Z.
Abbreviation audio_format_t := Z.
Abbreviation audio_mode_t := Z.
Abbreviation status_t := Z.
Abbreviation uid_t := Z.

Definition AUDIO_DEVICE_NONE : Z := 0.
Definition AUDIO_IO_HANDLE_NONE : Z := 0.
Definition AUDIO_PATCH_HANDLE_NONE : Z := 0.
Definition AUDIO_PATCH_PORTS_MAX : nat := 16.

(** [utils/Errors.h]: the codes are the negated errno values. *)
Definition NO_ERROR : Z := 0.
Definition BAD_VALUE : Z := -22.
Definition INVALID_OPERATION : Z := -38.

(** Unsigned and signed 32 bit conversions, as the C++ performs them when a
    value is stored in a [uint32_t] or passed as an [int]. *)
Definition u32 (x : Z) : Z := x mod 2 ^ 32.
Definition i32 (x : Z) : Z := (x + 2 ^ 31) mod 2 ^ 32 - 2 ^ 31.

Fixpoint popcount_pos (p : positive) : Z :=
  match p with
  | xH => 1
  | xO q => popcount_pos q
  | xI q => 1 + popcount_pos q
  end.

Definition popcount (x : Z) : Z :=
  match x with
  | Zpos p => popcount_pos p
  | _ => 0
  end.

Inductive audio_stream_type_t :=
| AUDIO_STREAM_VOICE_CALL
| AUDIO_STREAM_SYSTEM
| AUDIO_STREAM_RING
| AUDIO_STREAM_MUSIC
| AUDIO_STREAM_ALARM
| AUDIO_STREAM_NOTIFICATION
| AUDIO_STREAM_BLUETOOTH_SCO
| AUDIO_STREAM_ENFORCED_AUDIBLE
| AUDIO_STREAM_DTMF
| AUDIO_STREAM_TTS
| AUDIO_STREAM_ACCESSIBILITY
| AUDIO_STREAM_REROUTING
| AUDIO_STREAM_PATCH.

#[global] Instance audio_stream_type_eq_dec : EqDecision audio_stream_type_t.
Proof. solve_decision. Defined.

(** The stream types below [AUDIO_STREAM_FOR_POLICY_CNT], in the order of the
    [for (stream = 0; stream < AUDIO_STREAM_FOR_POLICY_CNT; stream++)] loops. *)
Definition policy_streams : list audio_stream_type_t :=
  [ AUDIO_STREAM_VOICE_CALL; AUDIO_STREAM_SYSTEM; AUDIO_STREAM_RING;
    AUDIO_STREAM_MUSIC; AUDIO_STREAM_ALARM; AUDIO_STREAM_NOTIFICATION;
    AUDIO_STREAM_BLUETOOTH_SCO; AUDIO_STREAM_ENFORCED_AUDIBLE;
    AUDIO_STREAM_DTMF; AUDIO_STREAM_TTS; AUDIO_STREAM_ACCESSIBILITY;
    AUDIO_STREAM_REROUTING ].

Inductive routing_strategy :=
| STRATEGY_NONE
| STRATEGY_MEDIA
| STRATEGY_PHONE
| STRATEGY_SONIFICATION
| STRATEGY_SONIFICATION_RESPECTFUL
| STRATEGY_DTMF
| STRATEGY_ENFORCED_AUDIBLE
| STRATEGY_TRANSMITTED_THROUGH_SPEAKER
| STRATEGY_ACCESSIBILITY
| STRATEGY_REROUTING.

#[global] Instance routing_strategy_eq_dec : EqDecision routing_strategy.
Proof. solve_decision. Defined.

(** The strategies below [NUM_STRATEGIES], in the order of the
    [for (i = 0; i < NUM_STRATEGIES; i++)] loops. *)
Definition all_strategies : list routing_strategy :=
  [ STRATEGY_MEDIA; STRATEGY_PHONE; STRATEGY_SONIFICATION;
    STRATEGY_SONIFICATION_RESPECTFUL; STRATEGY_DTMF; STRATEGY_ENFORCED_AUDIBLE;
    STRATEGY_TRANSMITTED_THROUGH_SPEAKER; STRATEGY_ACCESSIBILITY;
    STRATEGY_REROUTING ].

Inductive audio_policy_force_use_t :=
| AUDIO_POLICY_FORCE_FOR_COMMUNICATION
| AUDIO_POLICY_FORCE_FOR_MEDIA
| AUDIO_POLICY_FORCE_FOR_RECORD
| AUDIO_POLICY_FORCE_FOR_DOCK
| AUDIO_POLICY_FORCE_FOR_SYSTEM.

Inductive audio_policy_forced_cfg_t :=
| AUDIO_POLICY_FORCE_NONE
| AUDIO_POLICY_FORCE_BT_SCO
| AUDIO_POLICY_FORCE_SYSTEM_ENFORCED
| AUDIO_POLICY_FORCE_OTHER (cfg : Z).

#[global] Instance audio_policy_forced_cfg_eq_dec :
  EqDecision audio_policy_forced_cfg_t.
Proof. solve_decision. Defined.

Inductive audio_source_t :=
| AUDIO_SOURCE_DEFAULT
| AUDIO_SOURCE_MIC
| AUDIO_SOURCE_VOICE_RECOGNITION
| AUDIO_SOURCE_VOICE_COMMUNICATION
| AUDIO_SOURCE_CAMCORDER
| AUDIO_SOURCE_FM_TUNER
| AUDIO_SOURCE_HOTWORD
| AUDIO_SOURCE_OTHER (src : Z).

#[global] Instance audio_source_eq_dec : EqDecision audio_source_t.
Proof. solve_decision. Defined.

(** Concurrency flags returned by [startInput]. *)
Definition API_INPUT_CONCURRENCY_NONE : Z := 0.
Definition API_INPUT_CONCURRENCY_CALL : Z := 1.
Definition API_INPUT_CONCURRENCY_CAPTURE : Z := 2.
Definition API_INPUT_CONCURRENCY_HOTWORD : Z := 4.
Definition API_INPUT_CONCURRENCY_PREEMPT : Z := 8.

(** Flag bits of [audio_output_flags_t] and [audio_input_flags_t] that the
    manager tests. *)
Definition AUDIO_OUTPUT_FLAG_DIRECT : Z := 1.
Definition AUDIO_OUTPUT_FLAG_PRIMARY : Z := 2.
Definition AUDIO_INPUT_FLAG_MMAP_NOIRQ : Z := 16.
Definition AUDIO_FORMAT_INVALID : Z := 4294967295.
Definition AUDIO_DEVICE_OUT_ALL_SCO : Z := 112.

(** ** Collaborators that live outside this file

    Helpers of the policy and audio headers that the manager calls.  Their
    bodies are not part of [AudioPolicyManager.cpp], so the manager is
    verified for any implementation of them. *)

Record DeviceDescriptor := mkDevice {
  dev_id : audio_port_handle_t;
  dev_type : audio_devices_t;
  dev_address : string;
  dev_module : Z
}.

Class PolicyHeader := {
  (** [is_state_in_call] of [policy.h] *)
  is_state_in_call : audio_mode_t -> bool;
  (** [is_virtual_input_device] of [policy.h] *)
  is_virtual_input_device : audio_devices_t -> bool;
  (** [source_priority] of [policy.h] *)
  source_priority : audio_source_t -> Z;
  (** [audio_is_linear_pcm] of [system/audio.h] *)
  audio_is_linear_pcm : audio_format_t -> bool;
  (** [AudioPort::isBetterFormatMatch (newFormat, currentFormat, targetFormat)] *)
  isBetterFormatMatch : audio_format_t -> audio_format_t -> audio_format_t -> bool;
  (** [DeviceVector::getDevicesFromTypeMask] *)
  getDevicesFromTypeMask : list DeviceDescriptor -> audio_devices_t -> list DeviceDescriptor;
  (** [DeviceVector::getDevice (type, address)] *)
  getDevice : list DeviceDescriptor -> audio_devices_t -> string -> option DeviceDescriptor
}.

(** The C++ [float]: the manager only converts, divides, scales and compares
    such values; their arithmetic is that of the target's floating point
    unit and is left to the instance. *)
Class CFloat := {
  cfloat : Type;
  float_of_int : Z -> cfloat;
  float_add : cfloat -> cfloat -> cfloat;
  float_sub : cfloat -> cfloat -> cfloat;
  float_mul : cfloat -> cfloat -> cfloat;
  float_div : cfloat -> cfloat -> cfloat;
  int_of_float : cfloat -> Z;
  float_eqb : cfloat -> cfloat -> bool;
  float_one : cfloat
}.

(** The policy engine, queried through [mEngine]. *)
Record Engine := mkEngine {
  getStrategyForStream : audio_stream_type_t -> routing_strategy;
  engine_getDeviceForStrategy : routing_strategy -> audio_devices_t;
  getForceUse : audio_policy_force_use_t -> audio_policy_forced_cfg_t;
  getPhoneState : audio_mode_t
}.

(** The volume curve table, queried through [mVolumeCurves]. *)
Record VolumeCurves := mkVolumeCurves {
  canBeMuted : audio_stream_type_t -> bool;
  getVolumeIndex : audio_stream_type_t -> audio_devices_t -> Z;
  getVolumeIndexMin : audio_stream_type_t -> Z;
  getVolumeIndexMax : audio_stream_type_t -> Z
}.

(** ** Patches, clients and stream descriptors *)

Inductive audio_port_config :=
| MixPort (hw_module : Z) (handle : audio_io_handle_t)
| DevicePort (id : audio_port_handle_t) (hw_module : Z) (type : audio_devices_t).

Record audio_patch := mkPatch {
  sources : list audio_port_config;
  sinks : list audio_port_config
}.

Record AudioPatch := mkAudioPatch {
  mHandle : audio_patch_handle_t;
  mPatch : audio_patch;
  mUid : uid_t;
  mAfPatchHandle : audio_patch_handle_t
}.

Record TrackClientDescriptor := mkTrackClient {
  tc_portId : audio_port_handle_t;
  tc_stream : audio_stream_type_t;
  tc_strategy : routing_strategy;
  tc_preferredDeviceId : audio_port_handle_t;
  tc_active : bool
}.

Record RecordClientDescriptor := mkRecordClient {
  rc_portId : audio_port_handle_t;
  rc_session : audio_session_t;
  rc_source : audio_source_t;
  rc_flags : Z;
  rc_active : bool;
  rc_silenced : bool
}.

(** One open output stream.  [mOutput1] and [mOutput2] hold the handles of
    the two sub-outputs of a duplicated output. *)
Record AudioOutputDescriptor := mkOutput {
  mIoHandle : audio_io_handle_t;
  mModuleHandle : Z;
  mDevice : audio_devices_t;
  mSupportedDevices : audio_devices_t;
  mProfileFlags : Z;
  mFlags : Z;
  mFormat : audio_format_t;
  mLatency : Z;
  mOutput1 : option audio_io_handle_t;
  mOutput2 : option audio_io_handle_t;
  mPatchHandle : audio_patch_handle_t;
  mActiveCount : audio_stream_type_t -> Z;
  mMuteCount : audio_stream_type_t -> Z;
  mStrategyMutedByDevice : routing_strategy -> bool;
  mFixedVolume : audio_devices_t -> bool;
  mClients : list TrackClientDescriptor
}.

(** One open input stream. *)
Record AudioInputDescriptor := mkInput {
  in_mIoHandle : audio_io_handle_t;
  in_mId : audio_port_handle_t;
  in_mModuleHandle : Z;
  in_mDevice : audio_devices_t;
  in_mProfileFlags : Z;
  in_mPatchHandle : audio_patch_handle_t;
  in_isSoundTrigger : bool;
  (** the status [start ()] returns, decided by the resource accounting of
      the profile *)
  in_startStatus : status_t;
  in_mPreemptedSessions : list audio_session_t;
  in_mClients : list RecordClientDescriptor
}.

(** The value handed to [AudioOutputDescriptor::setVolume]: either what
    [computeVolume (stream, index, device)] returns at that point, or the
    constant [0.0f]. *)
Inductive VolumeDb :=
| computeVolume (stream : audio_stream_type_t) (index : Z) (device : audio_devices_t)
| ZeroDb.

(** A candidate of [selectOutput] with its descriptor. *)
Abbreviation candidate := (audio_io_handle_t * AudioOutputDescriptor)%type.

(** ** The manager and its transport *)

Section Model.
Context {FL : CFloat} {PH : PolicyHeader}.

(** Calls that leave the manager, in the order they are made. *)
Inductive Event :=
| setVolume_call (output : audio_io_handle_t) (volumeDb : VolumeDb)
    (stream : audio_stream_type_t) (device : audio_devices_t) (delayMs : Z)
    (force : bool)
| setVoiceVolume_call (volume : cfloat) (delayMs : Z)
| createAudioPatch_call (patch : audio_patch) (afPatchHandle : audio_patch_handle_t)
    (delayMs : Z)
| releaseAudioPatch_call (afPatchHandle : audio_patch_handle_t) (delayMs : Z)
| onAudioPatchListUpdate_call
| setParameters_call (ioHandle : audio_io_handle_t) (routing : audio_devices_t)
    (delayMs : Z)
| closeInput_call (input : audio_io_handle_t)
| onAudioPortListUpdate_call
| usleep_call (usec : Z).

(** What the transport answers, given the calls made so far. *)
Record ClientInterface := mkClientInterface {
  createAudioPatch_answer :
    list Event -> audio_patch -> audio_patch_handle_t -> Z ->
    status_t * audio_patch_handle_t;
  releaseAudioPatch_answer :
    list Event -> audio_patch_handle_t -> Z -> status_t
}.

Record AudioPolicyManager := mkManager {
  mOutputs : list AudioOutputDescriptor;
  mInputs : list AudioInputDescriptor;
  mAudioPatches : gmap Z AudioPatch;
  mAvailableOutputDevices : list DeviceDescriptor;
  mAvailableInputDevices : list DeviceDescriptor;
  mDeviceForStrategy : routing_strategy -> audio_devices_t;
  mUidCached : uid_t;
  mAudioPortGeneration : Z;
  mLastVoiceVolume : cfloat;
  mCallTxPatch : option AudioPatch;
  (** the answer [soundTriggerSupportsConcurrentCapture ()] has computed from
      the sound trigger modules *)
  mSoundTriggerSupportsConcurrentCapture : bool;
  (** the counter from which [new AudioPatch] draws its handle *)
  mNextPatchHandle : audio_patch_handle_t;
  mEngine : Engine;
  mVolumeCurves : VolumeCurves;
  mpClientInterface : ClientInterface;
  mTrace : list Event
}.

(** *** Field updates *)

Definition set_mOutputs (m : AudioPolicyManager) (v : list AudioOutputDescriptor) :=
  mkManager v (mInputs m) (mAudioPatches m) (mAvailableOutputDevices m)
    (mAvailableInputDevices m) (mDeviceForStrategy m) (mUidCached m)
    (mAudioPortGeneration m) (mLastVoiceVolume m) (mCallTxPatch m)
    (mSoundTriggerSupportsConcurrentCapture m)
    (mNextPatchHandle m) (mEngine m) (mVolumeCurves m) (mpClientInterface m)
    (mTrace m).

Definition set_mInputs (m : AudioPolicyManager) (v : list AudioInputDescriptor) :=
  mkManager (mOutputs m) v (mAudioPatches m) (mAvailableOutputDevices m)
    (mAvailableInputDevices m) (mDeviceForStrategy m) (mUidCached m)
    (mAudioPortGeneration m) (mLastVoiceVolume m) (mCallTxPatch m)
    (mSoundTriggerSupportsConcurrentCapture m)
    (mNextPatchHandle m) (mEngine m) (mVolumeCurves m) (mpClientInterface m)
    (mTrace m).

Definition set_mAudioPatches (m : AudioPolicyManager) (v : gmap Z AudioPatch) :=
  mkManager (mOutputs m) (mInputs m) v (mAvailableOutputDevices m)
    (mAvailableInputDevices m) (mDeviceForStrategy m) (mUidCached m)
    (mAudioPortGeneration m) (mLastVoiceVolume m) (mCallTxPatch m)
    (mSoundTriggerSupportsConcurrentCapture m)
    (mNextPatchHandle m) (mEngine m) (mVolumeCurves m) (mpClientInterface m)
    (mTrace m).

Definition set_mAudioPortGeneration (m : AudioPolicyManager) (v : Z) :=
  mkManager (mOutputs m) (mInputs m) (mAudioPatches m) (mAvailableOutputDevices m)
    (mAvailableInputDevices m) (mDeviceForStrategy m) (mUidCached m)
    v (mLastVoiceVolume m) (mCallTxPatch m)
    (mSoundTriggerSupportsConcurrentCapture m)
    (mNextPatchHandle m) (mEngine m) (mVolumeCurves m) (mpClientInterface m)
    (mTrace m).

Definition set_mLastVoiceVolume (m : AudioPolicyManager) (v : cfloat) :=
  mkManager (mOutputs m) (mInputs m) (mAudioPatches m) (mAvailableOutputDevices m)
    (mAvailableInputDevices m) (mDeviceForStrategy m) (mUidCached m)
    (mAudioPortGeneration m) v (mCallTxPatch m)
    (mSoundTriggerSupportsConcurrentCapture m)
    (mNextPatchHandle m) (mEngine m) (mVolumeCurves m) (mpClientInterface m)
    (mTrace m).

Definition set_mNextPatchHandle (m : AudioPolicyManager) (v : Z) :=
  mkManager (mOutputs m) (mInputs m) (mAudioPatches m) (mAvailableOutputDevices m)
    (mAvailableInputDevices m) (mDeviceForStrategy m) (mUidCached m)
    (mAudioPortGeneration m) (mLastVoiceVolume m) (mCallTxPatch m)
    (mSoundTriggerSupportsConcurrentCapture m)
    v (mEngine m) (mVolumeCurves m) (mpClientInterface m)
    (mTrace m).

Definition set_mTrace (m : AudioPolicyManager) (v : list Event) :=
  mkManager (mOutputs m) (mInputs m) (mAudioPatches m) (mAvailableOutputDevices m)
    (mAvailableInputDevices m) (mDeviceForStrategy m) (mUidCached m)
    (mAudioPortGeneration m) (mLastVoiceVolume m) (mCallTxPatch m)
    (mSoundTriggerSupportsConcurrentCapture m)
    (mNextPatchHandle m) (mEngine m) (mVolumeCurves m) (mpClientInterface m)
    v.

(** A call to the client interface. *)
Definition emit (m : AudioPolicyManager) (e : Event) : AudioPolicyManager :=
  set_mTrace m (mTrace m ++ [e]).

Definition set_mDevice (d : AudioOutputDescriptor) (v : audio_devices_t) :=
  mkOutput (mIoHandle d) (mModuleHandle d) v (mSupportedDevices d)
    (mProfileFlags d) (mFlags d) (mFormat d) (mLatency d) (mOutput1 d)
    (mOutput2 d) (mPatchHandle d) (mActiveCount d) (mMuteCount d)
    (mStrategyMutedByDevice d) (mFixedVolume d) (mClients d).

Definition set_mPatchHandle (d : AudioOutputDescriptor) (v : audio_patch_handle_t) :=
  mkOutput (mIoHandle d) (mModuleHandle d) (mDevice d) (mSupportedDevices d)
    (mProfileFlags d) (mFlags d) (mFormat d) (mLatency d) (mOutput1 d)
    (mOutput2 d) v (mActiveCount d) (mMuteCount d)
    (mStrategyMutedByDevice d) (mFixedVolume d) (mClients d).

Definition set_mMuteCount (d : AudioOutputDescriptor)
    (v : audio_stream_type_t -> Z) :=
  mkOutput (mIoHandle d) (mModuleHandle d) (mDevice d) (mSupportedDevices d)
    (mProfileFlags d) (mFlags d) (mFormat d) (mLatency d) (mOutput1 d)
    (mOutput2 d) (mPatchHandle d) (mActiveCount d) v
    (mStrategyMutedByDevice d) (mFixedVolume d) (mClients d).

Definition set_mStrategyMutedByDevice (d : AudioOutputDescriptor)
    (v : routing_strategy -> bool) :=
  mkOutput (mIoHandle d) (mModuleHandle d) (mDevice d) (mSupportedDevices d)
    (mProfileFlags d) (mFlags d) (mFormat d) (mLatency d) (mOutput1 d)
    (mOutput2 d) (mPatchHandle d) (mActiveCount d) (mMuteCount d)
    v (mFixedVolume d) (mClients d).

Definition set_in_mDevice (d : AudioInputDescriptor) (v : audio_devices_t) :=
  mkInput (in_mIoHandle d) (in_mId d) (in_mModuleHandle d) v
    (in_mProfileFlags d) (in_mPatchHandle d) (in_isSoundTrigger d)
    (in_startStatus d) (in_mPreemptedSessions d) (in_mClients d).

Definition set_in_mPatchHandle (d : AudioInputDescriptor) (v : audio_patch_handle_t) :=
  mkInput (in_mIoHandle d) (in_mId d) (in_mModuleHandle d) (in_mDevice d)
    (in_mProfileFlags d) v (in_isSoundTrigger d)
    (in_startStatus d) (in_mPreemptedSessions d) (in_mClients d).

Definition set_in_mPreemptedSessions (d : AudioInputDescriptor)
    (v : list audio_session_t) :=
  mkInput (in_mIoHandle d) (in_mId d) (in_mModuleHandle d) (in_mDevice d)
    (in_mProfileFlags d) (in_mPatchHandle d) (in_isSoundTrigger d)
    (in_startStatus d) v (in_mClients d).

Definition set_in_mClients (d : AudioInputDescriptor)
    (v : list RecordClientDescriptor) :=
  mkInput (in_mIoHandle d) (in_mId d) (in_mModuleHandle d) (in_mDevice d)
    (in_mProfileFlags d) (in_mPatchHandle d) (in_isSoundTrigger d)
    (in_startStatus d) (in_mPreemptedSessions d) v.

(** [a[k] = v] on an array indexed by an enumeration. *)
Definition array_set {K V : Type} `{EqDecision K} (a : K -> V) (k : K) (v : V)
    : K -> V :=
  fun k' => if decide (k' = k) then v else a k'.

(** *** The registries *)

(** [mOutputs.valueFor (output)]. *)
Definition valueFor (outputs : list AudioOutputDescriptor) (output : audio_io_handle_t)
    : option AudioOutputDescriptor :=
  List.find (fun d => mIoHandle d =? output) outputs.

(** A mutation of the descriptor registered under [output]. *)
Definition update_output (m : AudioPolicyManager) (output : audio_io_handle_t)
    (f : AudioOutputDescriptor -> AudioOutputDescriptor) : AudioPolicyManager :=
  set_mOutputs m
    (List.map (fun d => if mIoHandle d =? output then f d else d) (mOutputs m)).

(** [mInputs.valueFor (input)]. *)
Definition inputFor (inputs : list AudioInputDescriptor) (input : audio_io_handle_t)
    : option AudioInputDescriptor :=
  List.find (fun d => in_mIoHandle d =? input) inputs.

Definition update_input (m : AudioPolicyManager) (input : audio_io_handle_t)
    (f : AudioInputDescriptor -> AudioInputDescriptor) : AudioPolicyManager :=
  set_mInputs m
    (List.map (fun d => if in_mIoHandle d =? input then f d else d) (mInputs m)).

(** *** Descriptor methods

    The descriptor classes are declared outside [AudioPolicyManager.cpp];
    their accessors follow the data model of the specification. *)

(** Modelled from the spec: [AudioOutputDescriptor::isDuplicated], missing
    from the sources; a duplicated output is one logical output that owns
    references to two sub-outputs. *)
Definition isDuplicated (d : AudioOutputDescriptor) : bool :=
  match mOutput1 d, mOutput2 d with
  | Some _, Some _ => true
  | _, _ => false
  end.

(** Modelled from the spec: the pair of sub-outputs a duplicated output fans
    out to ([subOutput1 ()], [subOutput2 ()]), resolved in the registry. *)
Definition subOutputs (m : AudioPolicyManager) (d : AudioOutputDescriptor)
    : option (AudioOutputDescriptor * AudioOutputDescriptor) :=
  match mOutput1 d, mOutput2 d with
  | Some h1, Some h2 =>
      match valueFor (mOutputs m) h1, valueFor (mOutputs m) h2 with
      | Some d1, Some d2 => Some (d1, d2)
      | _, _ => None
      end
  | _, _ => None
  end.

(** Modelled from the spec: [AudioOutputDescriptor::device], missing from
    the sources; the current device bitmask of the stream, which for a
    duplicated output is carried by its two sub-outputs. *)
Definition device (m : AudioPolicyManager) (d : AudioOutputDescriptor)
    : audio_devices_t :=
  match subOutputs m d with
  | Some (d1, d2) => Z.lor (mDevice d1) (mDevice d2)
  | None => mDevice d
  end.

(** Modelled from the spec: [AudioOutputDescriptor::supportedDevices],
    missing from the sources; the supported device bitmask of the stream's
    profile, which for a duplicated output is that of its two sub-outputs. *)
Definition supportedDevices (m : AudioPolicyManager) (d : AudioOutputDescriptor)
    : audio_devices_t :=
  match subOutputs m d with
  | Some (d1, d2) => Z.lor (mSupportedDevices d1) (mSupportedDevices d2)
  | None => mSupportedDevices d
  end.

(** Modelled from the spec: [AudioOutputDescriptor::latency], missing from
    the sources; the latency of the stream in milliseconds, which for a
    duplicated output is the larger one of its two sub-outputs. *)
Definition latency (m : AudioPolicyManager) (d : AudioOutputDescriptor) : Z :=
  match subOutputs m d with
  | Some (d1, d2) => Z.max (mLatency d1) (mLatency d2)
  | None => mLatency d
  end.

(** Modelled from the spec: [AudioOutputDescriptor::isStreamActive] with
    [inPastMs = 0], missing from the sources; a stream type is active when
    its active-client counter is not zero. *)
Definition isStreamActive (d : AudioOutputDescriptor) (stream : audio_stream_type_t)
    : bool :=
  negb (mActiveCount d stream =? 0).

(** Modelled from the spec: [AudioOutputDescriptor::isActive], missing from
    the sources; the stream is active when one of its stream types is. *)
Definition isActive (d : AudioOutputDescriptor) : bool :=
  existsb (isStreamActive d) policy_streams.

(** Modelled from the spec: [AudioOutputDescriptor::sharesHwModuleWith],
    missing from the sources; two streams share a module when they are owned
    by the same hardware module, a duplicated output standing for its two
    sub-outputs. *)
Definition sharesHwModuleWith (m : AudioPolicyManager)
    (d desc : AudioOutputDescriptor) : bool :=
  let same (a b : AudioOutputDescriptor) := mModuleHandle a =? mModuleHandle b in
  let with_plain (a : AudioOutputDescriptor) :=
    match subOutputs m desc with
    | Some (s1, s2) => same a s1 || same a s2
    | None => same a desc
    end in
  match subOutputs m d with
  | Some (d1, d2) => with_plain d1 || with_plain d2
  | None => with_plain d
  end.

(** Modelled from the spec: [AudioOutputDescriptor::clientsList (activeOnly,
    strategy, preferredDeviceOnly)], missing from the sources; the attached
    clients, filtered by activity, by strategy unless it is [STRATEGY_NONE],
    and by the presence of an explicit preferred device. *)
Definition clientsList (d : AudioOutputDescriptor) (activeOnly : bool)
    (strategy : routing_strategy) (preferredDeviceOnly : bool)
    : list TrackClientDescriptor :=
  List.filter
    (fun c =>
       (negb activeOnly || tc_active c)
       && (bool_decide (strategy = STRATEGY_NONE)
           || bool_decide (strategy = tc_strategy c))
       && (negb preferredDeviceOnly || negb (tc_preferredDeviceId c =? 0)))
    (mClients d).

(** Modelled from the spec: [DeviceVector::getDeviceFromId], missing from the
    sources; the available device carrying a port identifier, if any. *)
Definition getDeviceFromId (devices : list DeviceDescriptor) (id : audio_port_handle_t)
    : option DeviceDescriptor :=
  List.find (fun dev => dev_id dev =? id) devices.

(** ** Volume and mute *)

Definition getStrategy (m : AudioPolicyManager) (stream : audio_stream_type_t)
    : routing_strategy :=
  getStrategyForStream (mEngine m) stream.

Definition isInCall (m : AudioPolicyManager) : bool :=
  is_state_in_call (getPhoneState (mEngine m)).

Definition is_voice_stream (stream : audio_stream_type_t) : bool :=
  bool_decide (stream = AUDIO_STREAM_VOICE_CALL)
  || bool_decide (stream = AUDIO_STREAM_BLUETOOTH_SCO).

(** [checkAndSetVolume (stream, index, outputDesc, device, delayMs, force)].
    The descriptor is given by its handle; a handle that is not registered
    stands for a descriptor the manager does not own and leaves the state as
    it is. *)
Definition checkAndSetVolume (m : AudioPolicyManager) (stream : audio_stream_type_t)
    (index : Z) (output : audio_io_handle_t) (dev : audio_devices_t)
    (delayMs : Z) (force : bool) : AudioPolicyManager * status_t :=
  match valueFor (mOutputs m) output with
  | None => (m, BAD_VALUE)
  | Some outputDesc =>
    (* do not change actual stream volume if the stream is muted *)
    if negb (mMuteCount outputDesc stream =? 0) then (m, NO_ERROR)
    else
      let forceUseForComm :=
        getForceUse (mEngine m) AUDIO_POLICY_FORCE_FOR_COMMUNICATION in
      (* do not change in call volume if bluetooth is connected and vice versa *)
      if (bool_decide (stream = AUDIO_STREAM_VOICE_CALL)
          && bool_decide (forceUseForComm = AUDIO_POLICY_FORCE_BT_SCO))
         || (bool_decide (stream = AUDIO_STREAM_BLUETOOTH_SCO)
             && negb (bool_decide (forceUseForComm = AUDIO_POLICY_FORCE_BT_SCO)))
      then (m, INVALID_OPERATION)
      else
        let dev :=
          if dev =? AUDIO_DEVICE_NONE then device m outputDesc else dev in
        let volumeDb :=
          if mFixedVolume outputDesc dev
             || (is_voice_stream stream
                 && negb (Z.land dev AUDIO_DEVICE_OUT_ALL_SCO =? 0))
          then ZeroDb
          else computeVolume stream index dev in
        let m1 := emit m (setVolume_call output volumeDb stream dev delayMs force) in
        let m2 :=
          if is_voice_stream stream then
            let voiceVolume :=
              if bool_decide (stream = AUDIO_STREAM_VOICE_CALL)
              then float_div (float_of_int index)
                     (float_of_int (getVolumeIndexMax (mVolumeCurves m) stream))
              else float_one in
            if negb (float_eqb voiceVolume (mLastVoiceVolume m1))
            then set_mLastVoiceVolume
                   (emit m1 (setVoiceVolume_call voiceVolume delayMs)) voiceVolume
            else m1
          else m1 in
        (m2, NO_ERROR)
  end.

(** [applyStreamVolumes (outputDesc, device, delayMs, force)]. *)
Definition applyStreamVolumes (m : AudioPolicyManager) (output : audio_io_handle_t)
    (dev : audio_devices_t) (delayMs : Z) (force : bool) : AudioPolicyManager :=
  List.fold_left
    (fun m stream =>
       fst (checkAndSetVolume m stream
              (getVolumeIndex (mVolumeCurves m) stream dev) output dev delayMs force))
    policy_streams m.

(** [setStreamMute (stream, on, outputDesc, delayMs, device)]. *)
Definition setStreamMute (m : AudioPolicyManager) (stream : audio_stream_type_t)
    (on : bool) (output : audio_io_handle_t) (delayMs : Z) (dev : audio_devices_t)
    : AudioPolicyManager :=
  match valueFor (mOutputs m) output with
  | None => m
  | Some outputDesc =>
    let dev := if dev =? AUDIO_DEVICE_NONE then device m outputDesc else dev in
    let count := mMuteCount outputDesc stream in
    if on then
      let m1 :=
        if count =? 0 then
          if canBeMuted (mVolumeCurves m) stream
             && (negb (bool_decide (stream = AUDIO_STREAM_ENFORCED_AUDIBLE))
                 || bool_decide (getForceUse (mEngine m) AUDIO_POLICY_FORCE_FOR_SYSTEM
                                 = AUDIO_POLICY_FORCE_NONE))
          then fst (checkAndSetVolume m stream 0 output dev delayMs false)
          else m
        else m in
      (* increment mMuteCount after calling checkAndSetVolume() so that volume
         change is not ignored *)
      update_output m1 output
        (fun d => set_mMuteCount d (array_set (mMuteCount d) stream (mMuteCount d stream + 1)))
    else
      if count =? 0 then
        (* unmuting non muted stream! *)
        m
      else
        let m1 :=
          update_output m output
            (fun d => set_mMuteCount d
                        (array_set (mMuteCount d) stream (mMuteCount d stream - 1))) in
        if count - 1 =? 0 then
          fst (checkAndSetVolume m1 stream
                 (getVolumeIndex (mVolumeCurves m) stream dev) output dev delayMs false)
        else m1
  end.

(** [setStrategyMute (strategy, on, outputDesc, delayMs, device)]. *)
Definition setStrategyMute (m : AudioPolicyManager) (strategy : routing_strategy)
    (on : bool) (output : audio_io_handle_t) (delayMs : Z) (dev : audio_devices_t)
    : AudioPolicyManager :=
  List.fold_left
    (fun m stream =>
       if bool_decide (getStrategy m stream = strategy)
       then setStreamMute m stream on output delayMs dev
       else m)
    policy_streams m.

(** [isStrategyActive (outputDesc, strategy)] with [inPastMs = 0]. *)
Definition isStrategyActive (m : AudioPolicyManager) (outputDesc : AudioOutputDescriptor)
    (strategy : routing_strategy) : bool :=
  existsb
    (fun stream =>
       (bool_decide (getStrategy m stream = strategy)
        || bool_decide (STRATEGY_NONE = strategy))
       && isStreamActive outputDesc stream)
    policy_streams.

(** [isStrategyActiveOnSameModule (outputDesc, strategy)]. *)
Definition isStrategyActiveOnSameModule (m : AudioPolicyManager)
    (outputDesc : AudioOutputDescriptor) (strategy : routing_strategy) : bool :=
  existsb
    (fun desc => sharesHwModuleWith m outputDesc desc && isStrategyActive m desc strategy)
    (mOutputs m).

(** ** Device selection *)

(** [findPreferredDevice (desc, filter, active, devices)] on one output; the
    second component is the [active] out-parameter. *)
Definition findPreferredDevice (desc : AudioOutputDescriptor)
    (filter : routing_strategy) (devices : list DeviceDescriptor)
    : option DeviceDescriptor * bool :=
  let activeClients := clientsList desc true STRATEGY_NONE false in
  let activeClientsWithRoute := clientsList desc true filter true in
  let active := negb (length activeClients =? 0)%nat in
  if active && (length activeClients =? length activeClientsWithRoute)%nat then
    match activeClientsWithRoute with
    | c :: _ => (getDeviceFromId devices (tc_preferredDeviceId c), active)
    | [] => (None, active)
    end
  else (None, active).

(** [findPreferredDevice (ioCollection, filter, devices)] on the outputs;
    [dev] is the local variable [device] of the loop. *)
Fixpoint findPreferredDevice_in (ioCollection : list AudioOutputDescriptor)
    (filter : routing_strategy) (devices : list DeviceDescriptor)
    (dev : option DeviceDescriptor) : option DeviceDescriptor :=
  match ioCollection with
  | [] => dev
  | desc :: rest =>
      match findPreferredDevice desc filter devices with
      | (None, true) => None
      | (None, false) => findPreferredDevice_in rest filter devices dev
      | (Some curDevice, _) => findPreferredDevice_in rest filter devices (Some curDevice)
      end
  end.

(** [getDeviceForStrategy (strategy, fromCache)]. *)
Definition getDeviceForStrategy (m : AudioPolicyManager) (strategy : routing_strategy)
    (fromCache : bool) : audio_devices_t :=
  (* Honor explicit routing requests only if all active clients have a
     preferred route in which case the last active client route is used *)
  match findPreferredDevice_in (mOutputs m) strategy (mAvailableOutputDevices m) None with
  | Some deviceDesc => dev_type deviceDesc
  | None =>
      if fromCache then mDeviceForStrategy m strategy
      else engine_getDeviceForStrategy (mEngine m) strategy
  end.

(** [updateDevicesAndOutputs ()], as far as the strategy cache goes. *)
Definition updateDevicesAndOutputs (m : AudioPolicyManager) : AudioPolicyManager :=
  mkManager (mOutputs m) (mInputs m) (mAudioPatches m) (mAvailableOutputDevices m)
    (mAvailableInputDevices m)
    (fun strategy =>
       if bool_decide (strategy = STRATEGY_NONE) then mDeviceForStrategy m strategy
       else getDeviceForStrategy m strategy false)
    (mUidCached m) (mAudioPortGeneration m) (mLastVoiceVolume m) (mCallTxPatch m)
    (mSoundTriggerSupportsConcurrentCapture m)
    (mNextPatchHandle m) (mEngine m) (mVolumeCurves m) (mpClientInterface m)
    (mTrace m).

(** [getNewOutputDevice (outputDesc, fromCache)]. *)
Definition getNewOutputDevice (m : AudioPolicyManager)
    (outputDesc : AudioOutputDescriptor) (fromCache : bool) : audio_devices_t :=
  let forced :=
    match mAudioPatches m !! mPatchHandle outputDesc with
    | Some patchDesc => negb (mUid patchDesc =? mUidCached m)
    | None => false
    end in
  if forced then device m outputDesc
  else
    (* Honor explicit routing requests only if no client using default routing
       is active on this input *)
    match fst (findPreferredDevice outputDesc STRATEGY_NONE (mAvailableOutputDevices m)) with
    | Some deviceDesc => dev_type deviceDesc
    | None =>
      if isStrategyActive m outputDesc STRATEGY_ENFORCED_AUDIBLE
         && bool_decide (getForceUse (mEngine m) AUDIO_POLICY_FORCE_FOR_SYSTEM
                         = AUDIO_POLICY_FORCE_SYSTEM_ENFORCED)
      then getDeviceForStrategy m STRATEGY_ENFORCED_AUDIBLE fromCache
      else if isInCall m || isStrategyActiveOnSameModule m outputDesc STRATEGY_PHONE
      then getDeviceForStrategy m STRATEGY_PHONE fromCache
      else if isStrategyActiveOnSameModule m outputDesc STRATEGY_SONIFICATION
      then getDeviceForStrategy m STRATEGY_SONIFICATION fromCache
      else if isStrategyActive m outputDesc STRATEGY_ENFORCED_AUDIBLE
      then getDeviceForStrategy m STRATEGY_ENFORCED_AUDIBLE fromCache
      else if isStrategyActive m outputDesc STRATEGY_ACCESSIBILITY
      then getDeviceForStrategy m STRATEGY_ACCESSIBILITY fromCache
      else if isStrategyActive m outputDesc STRATEGY_SONIFICATION_RESPECTFUL
      then getDeviceForStrategy m STRATEGY_SONIFICATION_RESPECTFUL fromCache
      else if isStrategyActive m outputDesc STRATEGY_MEDIA
      then getDeviceForStrategy m STRATEGY_MEDIA fromCache
      else if isStrategyActive m outputDesc STRATEGY_DTMF
      then getDeviceForStrategy m STRATEGY_DTMF fromCache
      else if isStrategyActive m outputDesc STRATEGY_TRANSMITTED_THROUGH_SPEAKER
      then getDeviceForStrategy m STRATEGY_TRANSMITTED_THROUGH_SPEAKER fromCache
      else if isStrategyActive m outputDesc STRATEGY_REROUTING
      then getDeviceForStrategy m STRATEGY_REROUTING fromCache
      else AUDIO_DEVICE_NONE
    end.

(** ** Patch life cycle *)

(** A reference to the descriptor a patch is attached to
    ([AudioIODescriptorInterface *]). *)
Inductive io_ref :=
| OutputRef (output : audio_io_handle_t)
| InputRef (input : audio_io_handle_t).

Definition getPatchHandle (m : AudioPolicyManager) (io : io_ref) : audio_patch_handle_t :=
  match io with
  | OutputRef h =>
      match valueFor (mOutputs m) h with
      | Some d => mPatchHandle d
      | None => AUDIO_PATCH_HANDLE_NONE
      end
  | InputRef h =>
      match inputFor (mInputs m) h with
      | Some d => in_mPatchHandle d
      | None => AUDIO_PATCH_HANDLE_NONE
      end
  end.

Definition setPatchHandle (m : AudioPolicyManager) (io : io_ref)
    (handle : audio_patch_handle_t) : AudioPolicyManager :=
  match io with
  | OutputRef h => update_output m h (fun d => set_mPatchHandle d handle)
  | InputRef h => update_input m h (fun d => set_in_mPatchHandle d handle)
  end.

(** [mAudioPatches.indexOfKey (handle)]: the position of a key is given by
    the entry found there, so that [valueAt] is its second component. *)
Definition indexOfKey (patches : gmap Z AudioPatch) (handle : audio_patch_handle_t)
    : option (audio_patch_handle_t * AudioPatch) :=
  match patches !! handle with
  | Some patchDesc => Some (handle, patchDesc)
  | None => None
  end.

(** Modelled from the spec: [addAudioPatch], missing from the sources; the
    patch is recorded under its local handle unless a record with that handle
    exists. *)
Definition addAudioPatch (m : AudioPolicyManager) (handle : audio_patch_handle_t)
    (patchDesc : AudioPatch) : AudioPolicyManager :=
  match mAudioPatches m !! handle with
  | Some _ => m
  | None => set_mAudioPatches m (<[handle := patchDesc]> (mAudioPatches m))
  end.

(** Modelled from the spec: [removeAudioPatch], missing from the sources; the
    local record with that handle is removed. *)
Definition removeAudioPatch (m : AudioPolicyManager) (handle : audio_patch_handle_t)
    : AudioPolicyManager :=
  set_mAudioPatches m (delete handle (mAudioPatches m)).

Definition nextAudioPortGeneration (m : AudioPolicyManager) : AudioPolicyManager :=
  set_mAudioPortGeneration m (u32 (mAudioPortGeneration m + 1)).

(** The outcome of the index overload of [installPatch]: the status, the
    value left in [*patchHandle] and the one left in [*patchDescPtr]. *)
Record install_result := mkInstallResult {
  ir_status : status_t;
  ir_patchHandle : option audio_patch_handle_t;
  ir_patchDesc : option AudioPatch
}.

(** [installPatch (caller, index, patchHandle, patch, delayMs, uid,
    patchDescPtr)].  [patchHandle] is [None] for a null pointer. *)
Definition installPatch_at (m : AudioPolicyManager)
    (index : option (audio_patch_handle_t * AudioPatch))
    (patchHandle : option audio_patch_handle_t) (patch : audio_patch)
    (delayMs : Z) (uid : uid_t) : AudioPolicyManager * install_result :=
  let afPatchHandle :=
    match index with
    | Some (_, patchDesc) => mAfPatchHandle patchDesc
    | None => AUDIO_PATCH_HANDLE_NONE
    end in
  let '(status, afPatchHandle') :=
    createAudioPatch_answer (mpClientInterface m) (mTrace m) patch afPatchHandle delayMs in
  let m1 := emit m (createAudioPatch_call patch afPatchHandle delayMs) in
  if status =? NO_ERROR then
    let '(m2, patchDesc) :=
      match index with
      | None =>
          (* new AudioPatch (patch, uid) *)
          let fresh := mkAudioPatch (mNextPatchHandle m1) patch uid afPatchHandle' in
          let m' := set_mNextPatchHandle m1 (mNextPatchHandle m1 + 1) in
          (addAudioPatch m' (mHandle fresh) fresh, fresh)
      | Some (key, patchDesc) =>
          let updated :=
            mkAudioPatch (mHandle patchDesc) patch (mUid patchDesc) afPatchHandle' in
          (set_mAudioPatches m1 (<[key := updated]> (mAudioPatches m1)), updated)
      end in
    let patchHandle' :=
      match patchHandle with
      | Some _ => Some (mHandle patchDesc)
      | None => None
      end in
    let m3 := emit (nextAudioPortGeneration m2) onAudioPatchListUpdate_call in
    (m3, mkInstallResult status patchHandle' (Some patchDesc))
  else
    (m1, mkInstallResult status patchHandle (option_map snd index)).

(** [installPatch (caller, patchHandle, ioDescriptor, patch, delayMs)]. *)
Definition installPatch (m : AudioPolicyManager)
    (patchHandle : option audio_patch_handle_t) (ioDescriptor : io_ref)
    (patch : audio_patch) (delayMs : Z) : AudioPolicyManager * install_result :=
  let key :=
    match patchHandle with
    | Some h => if negb (h =? AUDIO_PATCH_HANDLE_NONE) then h
                else getPatchHandle m ioDescriptor
    | None => getPatchHandle m ioDescriptor
    end in
  let index := indexOfKey (mAudioPatches m) key in
  let '(m1, r) := installPatch_at m index patchHandle patch delayMs (mUidCached m) in
  if ir_status r =? NO_ERROR then
    match ir_patchDesc r with
    | Some patchDesc => (setPatchHandle m1 ioDescriptor (mHandle patchDesc), r)
    | None => (m1, r)
    end
  else (m1, r).

(** [resetOutputDevice (outputDesc, delayMs, patchHandle)]. *)
Definition resetOutputDevice (m : AudioPolicyManager) (output : audio_io_handle_t)
    (delayMs : Z) (patchHandle : option audio_patch_handle_t)
    : AudioPolicyManager * status_t :=
  let index :=
    match patchHandle with
    | Some h => indexOfKey (mAudioPatches m) h
    | None => indexOfKey (mAudioPatches m) (getPatchHandle m (OutputRef output))
    end in
  match index with
  | None => (m, INVALID_OPERATION)
  | Some (_, patchDesc) =>
      let status :=
        releaseAudioPatch_answer (mpClientInterface m) (mTrace m)
          (mAfPatchHandle patchDesc) delayMs in
      let m1 := emit m (releaseAudioPatch_call (mAfPatchHandle patchDesc) delayMs) in
      let m2 := setPatchHandle m1 (OutputRef output) AUDIO_PATCH_HANDLE_NONE in
      let m3 := removeAudioPatch m2 (mHandle patchDesc) in
      let m4 := nextAudioPortGeneration m3 in
      (emit m4 onAudioPatchListUpdate_call, status)
  end.

(** [resetInputDevice (input, patchHandle)]. *)
Definition resetInputDevice (m : AudioPolicyManager) (input : audio_io_handle_t)
    (patchHandle : option audio_patch_handle_t) : AudioPolicyManager * status_t :=
  let index :=
    match patchHandle with
    | Some h => indexOfKey (mAudioPatches m) h
    | None => indexOfKey (mAudioPatches m) (getPatchHandle m (InputRef input))
    end in
  match index with
  | None => (m, INVALID_OPERATION)
  | Some (_, patchDesc) =>
      let status :=
        releaseAudioPatch_answer (mpClientInterface m) (mTrace m)
          (mAfPatchHandle patchDesc) 0 in
      let m1 := emit m (releaseAudioPatch_call (mAfPatchHandle patchDesc) 0) in
      let m2 := setPatchHandle m1 (InputRef input) AUDIO_PATCH_HANDLE_NONE in
      let m3 := removeAudioPatch m2 (mHandle patchDesc) in
      let m4 := nextAudioPortGeneration m3 in
      (emit m4 onAudioPatchListUpdate_call, status)
  end.

(** ** Mute sequencing around a device change *)

(** The body of the inner loop of [checkDeviceMuteStrategies], for the output
    at position [j] of [mOutputs]. *)
Definition muteStrategyOnOutput (output : audio_io_handle_t) (i : routing_strategy)
    (mute : bool) (delayMs : Z) (acc : AudioPolicyManager * Z) (j : nat)
    : AudioPolicyManager * Z :=
  let '(m, muteWaitMs) := acc in
  match nth_error (mOutputs m) j, valueFor (mOutputs m) output with
  | Some desc, Some outputDesc =>
      (* skip output if it does not share any device with current output *)
      if Z.land (supportedDevices m desc) (supportedDevices m outputDesc)
         =? AUDIO_DEVICE_NONE
      then acc
      else
        let m1 :=
          setStrategyMute m i mute (mIoHandle desc)
            (if mute then 0 else i32 delayMs) AUDIO_DEVICE_NONE in
        match nth_error (mOutputs m1) j with
        | Some desc1 =>
            if isStrategyActive m1 desc1 i && mute
               && (muteWaitMs <? u32 (latency m1 desc1 * 2))
            then (m1, u32 (latency m1 desc1 * 2))
            else (m1, muteWaitMs)
        | None => (m1, muteWaitMs)
        end
  | _, _ => acc
  end.

(** The body of the first loop of [checkDeviceMuteStrategies], for strategy
    [i]. *)
Definition muteStrategyByDevice (output : audio_io_handle_t) (dev : audio_devices_t)
    (shouldMute : bool) (delayMs : Z) (acc : AudioPolicyManager * Z)
    (i : routing_strategy) : AudioPolicyManager * Z :=
  let '(m, muteWaitMs) := acc in
  match valueFor (mOutputs m) output with
  | None => acc
  | Some outputDesc =>
      let curDevice :=
        Z.land (getDeviceForStrategy m i false) (supportedDevices m outputDesc) in
      let mute :=
        shouldMute && negb (Z.land curDevice dev =? 0) && negb (curDevice =? dev) in
      let '(doMute, m1) :=
        if mute && negb (mStrategyMutedByDevice outputDesc i) then
          (true,
           update_output m output
             (fun d => set_mStrategyMutedByDevice d
                         (array_set (mStrategyMutedByDevice d) i true)))
        else if negb mute && mStrategyMutedByDevice outputDesc i then
          (true,
           update_output m output
             (fun d => set_mStrategyMutedByDevice d
                         (array_set (mStrategyMutedByDevice d) i false)))
        else (false, m) in
      if doMute then
        List.fold_left (muteStrategyOnOutput output i mute delayMs)
          (seq 0 (length (mOutputs m1))) (m1, muteWaitMs)
      else (m1, muteWaitMs)
  end.

(** The body of the second loop of [checkDeviceMuteStrategies]: the temporary
    mute of strategy [i] on the output. *)
Definition tempMuteStrategy (output : audio_io_handle_t) (dev : audio_devices_t)
    (delayMs tempMuteDurationMs : Z) (m : AudioPolicyManager) (i : routing_strategy)
    : AudioPolicyManager :=
  match valueFor (mOutputs m) output with
  | None => m
  | Some outputDesc =>
      if isStrategyActive m outputDesc i then
        (* make sure that we do not start the temporary mute period too early
           in case of delayed device change *)
        let m1 := setStrategyMute m i true output (i32 delayMs) AUDIO_DEVICE_NONE in
        setStrategyMute m1 i false output (i32 (u32 (delayMs + tempMuteDurationMs))) dev
      else m
  end.

(** [checkDeviceMuteStrategies (outputDesc, prevDevice, delayMs)]; [delayMs]
    is the [uint32_t] parameter. *)
Definition checkDeviceMuteStrategies (m : AudioPolicyManager)
    (output : audio_io_handle_t) (prevDevice : audio_devices_t) (delayMs : Z)
    : AudioPolicyManager * Z :=
  match valueFor (mOutputs m) output with
  | None => (m, 0)
  | Some outputDesc =>
    if isDuplicated outputDesc then (m, 0)
    else
      let dev := device m outputDesc in
      let shouldMute := isActive outputDesc && (2 <=? popcount dev) in
      let '(m1, muteWaitMs) :=
        List.fold_left (muteStrategyByDevice output dev shouldMute delayMs)
          all_strategies (m, 0) in
      (* temporary mute output if device selection changes to avoid volume
         bursts due to different per device volumes *)
      let '(m2, muteWaitMs) :=
        match valueFor (mOutputs m1) output with
        | None => (m1, muteWaitMs)
        | Some outputDesc1 =>
            if isActive outputDesc1 && negb (dev =? prevDevice) then
              let tempMuteWaitMs := u32 (latency m1 outputDesc1 * 2) in
              (* temporary mute duration is conservatively set to 4 times the
                 reported latency *)
              let tempMuteDurationMs := u32 (latency m1 outputDesc1 * 4) in
              let muteWaitMs :=
                if muteWaitMs <? tempMuteWaitMs then tempMuteWaitMs else muteWaitMs in
              (List.fold_left (tempMuteStrategy output dev delayMs tempMuteDurationMs)
                 all_strategies m1,
               muteWaitMs)
            else (m1, muteWaitMs)
        end in
      (* wait for the PCM output buffers to empty before proceeding with the
         rest of the command *)
      if delayMs <? muteWaitMs then
        let muteWaitMs := muteWaitMs - delayMs in
        (emit m2 (usleep_call (u32 (muteWaitMs * 1000))), muteWaitMs)
      else (m2, 0)
  end.

(** ** Routing an output to a device *)

(** The list of sinks the patch builder receives in [setOutputDevice]. *)
Definition deviceListFor (m : AudioPolicyManager) (dev : audio_devices_t)
    (address : option string) : list DeviceDescriptor :=
  match address with
  | None => getDevicesFromTypeMask (mAvailableOutputDevices m) dev
  | Some a =>
      if (String.length a =? 0)%nat
      then getDevicesFromTypeMask (mAvailableOutputDevices m) dev
      else
        match getDevice (mAvailableOutputDevices m) dev a with
        | Some deviceDesc => [deviceDesc]
        | None => []
        end
  end.

Definition devicePort (d : DeviceDescriptor) : audio_port_config :=
  DevicePort (dev_id d) (dev_module d) (dev_type d).

(** The loop of [setOutputDevice] that informs the inputs of the new output
    device. *)
Definition informInputs (m : AudioPolicyManager) (dev : audio_devices_t) (delayMs : Z)
    : AudioPolicyManager :=
  List.fold_left
    (fun m inputDescriptor =>
       if negb (is_virtual_input_device (in_mDevice inputDescriptor))
       then emit m (setParameters_call (in_mIoHandle inputDescriptor) dev delayMs)
       else m)
    (mInputs m) m.

(** The outcome of [setOutputDevice]: the mute wait and the value left in
    [*patchHandle]. *)
Record route_result := mkRouteResult {
  rr_muteWaitMs : Z;
  rr_patchHandle : option audio_patch_handle_t
}.

(** [setOutputDevice (outputDesc, device, force, delayMs, patchHandle,
    address, requiresMuteCheck)].  [fuel] bounds the recursion through
    duplicated outputs; one unit is spent per level of duplication. *)
Fixpoint setOutputDevice_rec (fuel : nat) (m : AudioPolicyManager)
    (output : audio_io_handle_t) (dev : audio_devices_t) (force : bool)
    (delayMs : Z) (patchHandle : option audio_patch_handle_t)
    (address : option string) (requiresMuteCheck : bool)
    : AudioPolicyManager * route_result :=
  match valueFor (mOutputs m) output with
  | None => (m, mkRouteResult 0 patchHandle)
  | Some outputDesc =>
    if isDuplicated outputDesc then
      match fuel, mOutput1 outputDesc, mOutput2 outputDesc with
      | S fuel', Some subOutput1, Some subOutput2 =>
          let '(m1, r1) :=
            setOutputDevice_rec fuel' m subOutput1 dev force delayMs None None
              requiresMuteCheck in
          let '(m2, r2) :=
            setOutputDevice_rec fuel' m1 subOutput2 dev force delayMs None None
              requiresMuteCheck in
          (m2, mkRouteResult (u32 (rr_muteWaitMs r1 + rr_muteWaitMs r2)) patchHandle)
      | _, _, _ => (m, mkRouteResult 0 patchHandle)
      end
    else
      (* no need to proceed if new device is not AUDIO_DEVICE_NONE and not
         supported by current output profile *)
      if negb (dev =? AUDIO_DEVICE_NONE)
         && (Z.land dev (supportedDevices m outputDesc) =? AUDIO_DEVICE_NONE)
      then (m, mkRouteResult 0 patchHandle)
      else
        (* filter devices according to output selected *)
        let dev := Z.land dev (supportedDevices m outputDesc) in
        let prevDevice := mDevice outputDesc in
        let m1 :=
          if negb (dev =? AUDIO_DEVICE_NONE)
          then update_output m output (fun d => set_mDevice d dev)
          else m in
        (* if the outputs are not materially active, there is no need to mute *)
        let '(m2, muteWaitMs) :=
          if requiresMuteCheck
          then checkDeviceMuteStrategies m1 output prevDevice (u32 delayMs)
          else (m1, 0) in
        if ((dev =? AUDIO_DEVICE_NONE) || (dev =? prevDevice))
           && negb force
           && negb (getPatchHandle m2 (OutputRef output) =? 0)
        then (m2, mkRouteResult muteWaitMs patchHandle)
        else
          (* do the routing *)
          let '(m3, patchHandle') :=
            if dev =? AUDIO_DEVICE_NONE then
              (fst (resetOutputDevice m2 output delayMs None), patchHandle)
            else
              let deviceList := deviceListFor m2 dev address in
              let '(m', patchHandle') :=
                match deviceList with
                | [] => (m2, patchHandle)
                | _ :: _ =>
                    let patch :=
                      mkPatch [MixPort (mModuleHandle outputDesc) output]
                        (List.map devicePort (firstn AUDIO_PATCH_PORTS_MAX deviceList)) in
                    let '(m', r) :=
                      installPatch m2 patchHandle (OutputRef output) patch delayMs in
                    (m', ir_patchHandle r)
                end in
              (* inform all input as well *)
              (informInputs m' dev delayMs, patchHandle') in
          (* update stream volumes according to new device *)
          (applyStreamVolumes m3 output dev delayMs false,
           mkRouteResult muteWaitMs patchHandle')
  end.

Definition setOutputDevice (m : AudioPolicyManager)
    (output : audio_io_handle_t) (dev : audio_devices_t) (force : bool)
    (delayMs : Z) (patchHandle : option audio_patch_handle_t)
    (address : option string) (requiresMuteCheck : bool)
    : AudioPolicyManager * route_result :=
  setOutputDevice_rec (S (length (mOutputs m))) m output dev force delayMs
    patchHandle address requiresMuteCheck.

(** ** Selection of an output among candidates *)

(** The local variables of [selectOutput]. *)
Record select_state := mkSelect {
  maxCommonFlags : Z;
  outputForFlags : audio_io_handle_t;
  outputForPrimary : audio_io_handle_t;
  outputForFormat : audio_io_handle_t;
  bestFormat : audio_format_t;
  bestFormatForFlags : audio_format_t
}.

Definition select_init : select_state :=
  mkSelect 0 AUDIO_IO_HANDLE_NONE AUDIO_IO_HANDLE_NONE AUDIO_IO_HANDLE_NONE
    AUDIO_FORMAT_INVALID AUDIO_FORMAT_INVALID.

(** One iteration of the loop of [selectOutput], for the candidate [output]
    whose descriptor is [outputDesc]. *)
Definition selectOutput_step (flags : Z) (format : audio_format_t)
    (st : select_state) (output : audio_io_handle_t)
    (outputDesc : AudioOutputDescriptor) : select_state :=
  if negb (isDuplicated outputDesc) then
    if negb (Z.land (mFlags outputDesc) AUDIO_OUTPUT_FLAG_DIRECT =? 0) then st
    else if negb (format =? AUDIO_FORMAT_INVALID) && negb (audio_is_linear_pcm format)
    then st
    else
      (* if a valid format is specified, skip output if not compatible *)
      let st1 :=
        if negb (format =? AUDIO_FORMAT_INVALID)
           && isBetterFormatMatch (mFormat outputDesc) (bestFormat st) format
        then mkSelect (maxCommonFlags st) (outputForFlags st) (outputForPrimary st)
               output (mFormat outputDesc) (bestFormatForFlags st)
        else st in
      let commonFlags := popcount (Z.land (mProfileFlags outputDesc) flags) in
      let st2 :=
        if maxCommonFlags st1 <=? commonFlags then
          if commonFlags =? maxCommonFlags st1 then
            if negb (format =? AUDIO_FORMAT_INVALID)
               && isBetterFormatMatch (mFormat outputDesc) (bestFormatForFlags st1) format
            then mkSelect (maxCommonFlags st1) output (outputForPrimary st1)
                   (outputForFormat st1) (bestFormat st1) (mFormat outputDesc)
            else st1
          else mkSelect commonFlags output (outputForPrimary st1)
                 (outputForFormat st1) (bestFormat st1) (mFormat outputDesc)
        else st1 in
      if negb (Z.land (mProfileFlags outputDesc) AUDIO_OUTPUT_FLAG_PRIMARY =? 0)
      then mkSelect (maxCommonFlags st2) (outputForFlags st2) output
             (outputForFormat st2) (bestFormat st2) (bestFormatForFlags st2)
      else st2
  else st.

(** The loop of [selectOutput].  A candidate that is not registered in
    [mOutputs] makes [valueFor] return a null descriptor, whose dereference
    ends the run: the loop then has no result. *)
Fixpoint selectOutput_loop (m : AudioPolicyManager) (flags : Z)
    (format : audio_format_t) (outputs : list audio_io_handle_t)
    (st : select_state) : option select_state :=
  match outputs with
  | [] => Some st
  | output :: rest =>
      match valueFor (mOutputs m) output with
      | None => None
      | Some outputDesc =>
          selectOutput_loop m flags format rest
            (selectOutput_step flags format st output outputDesc)
      end
  end.

(** [selectOutput (outputs, flags, format)]. *)
Definition selectOutput (m : AudioPolicyManager) (outputs : list audio_io_handle_t)
    (flags : Z) (format : audio_format_t) : option audio_io_handle_t :=
  match outputs with
  | [] => Some AUDIO_IO_HANDLE_NONE
  | [output] => Some output
  | first :: _ =>
      match selectOutput_loop m flags format outputs select_init with
      | None => None
      | Some st =>
          if negb (outputForFlags st =? AUDIO_IO_HANDLE_NONE)
          then Some (outputForFlags st)
          else if negb (outputForFormat st =? AUDIO_IO_HANDLE_NONE)
          then Some (outputForFormat st)
          else if negb (outputForPrimary st =? AUDIO_IO_HANDLE_NONE)
          then Some (outputForPrimary st)
          else Some first
      end
  end.

(** [rescaleVolumeIndex (srcIndex, srcStream, dstStream)]. *)
Definition rescaleVolumeIndex (m : AudioPolicyManager) (srcIndex : Z)
    (srcStream dstStream : audio_stream_type_t) : Z :=
  if bool_decide (srcStream = dstStream) then srcIndex
  else
    let minSrc := float_of_int (getVolumeIndexMin (mVolumeCurves m) srcStream) in
    let maxSrc := float_of_int (getVolumeIndexMax (mVolumeCurves m) srcStream) in
    let minDst := float_of_int (getVolumeIndexMin (mVolumeCurves m) dstStream) in
    let maxDst := float_of_int (getVolumeIndexMax (mVolumeCurves m) dstStream) in
    int_of_float
      (float_add minDst
         (float_div
            (float_mul (float_sub (float_of_int srcIndex) minSrc)
               (float_sub maxDst minDst))
            (float_sub maxSrc minSrc))).

(** ** Capture: clients of the inputs

    The input descriptor and its client collection are declared outside
    [AudioPolicyManager.cpp]; their accessors follow the data model of the
    specification. *)

Definition set_rc_active (c : RecordClientDescriptor) (v : bool) :=
  mkRecordClient (rc_portId c) (rc_session c) (rc_source c) (rc_flags c) v
    (rc_silenced c).

Definition set_rc_silenced (c : RecordClientDescriptor) (v : bool) :=
  mkRecordClient (rc_portId c) (rc_session c) (rc_source c) (rc_flags c)
    (rc_active c) v.

(** Modelled from the spec: [AudioInputDescriptor::clientsList (activeOnly,
    source)], missing from the sources; the attached capture clients,
    filtered by activity and by source unless it is [AUDIO_SOURCE_DEFAULT]. *)
Definition in_clientsList (d : AudioInputDescriptor) (activeOnly : bool)
    (source : audio_source_t) : list RecordClientDescriptor :=
  List.filter
    (fun c =>
       (negb activeOnly || rc_active c)
       && (bool_decide (source = AUDIO_SOURCE_DEFAULT)
           || bool_decide (source = rc_source c)))
    (in_mClients d).

(** Modelled from the spec: [AudioInputDescriptor::isActive], missing from
    the sources; an input is active when one of its clients is. *)
Definition in_isActive (d : AudioInputDescriptor) : bool :=
  existsb rc_active (in_mClients d).

(** Modelled from the spec: [AudioInputCollection::getActiveInputs], missing
    from the sources; the inputs that are active, in registry order. *)
Definition getActiveInputs (m : AudioPolicyManager) : list AudioInputDescriptor :=
  List.filter in_isActive (mInputs m).

(** Modelled from the spec: [AudioInputCollection::getInputForClient],
    missing from the sources; every attached client belongs to one input,
    which this returns. *)
Definition getInputForClient (inputs : list AudioInputDescriptor)
    (portId : audio_port_handle_t) : option AudioInputDescriptor :=
  List.find (fun d => existsb (fun c => rc_portId c =? portId) (in_mClients d)) inputs.

(** Modelled from the spec: [AudioInputDescriptor::getClient], missing from
    the sources; the attached client with that port identifier. *)
Definition getClient (d : AudioInputDescriptor) (portId : audio_port_handle_t)
    : option RecordClientDescriptor :=
  List.find (fun c => rc_portId c =? portId) (in_mClients d).

(** Modelled from the spec: [AudioInputDescriptor::inputSource (activeOnly)],
    missing from the sources; the highest-priority source among the (active)
    clients, [AUDIO_SOURCE_DEFAULT] when there is none. *)
Definition inputSource (d : AudioInputDescriptor) (activeOnly : bool)
    : audio_source_t :=
  fst (List.fold_left
         (fun best c =>
            if activeOnly && negb (rc_active c) then best
            else if snd best <? source_priority (rc_source c)
            then (rc_source c, source_priority (rc_source c))
            else best)
         (in_mClients d) (AUDIO_SOURCE_DEFAULT, -1)).

(** Modelled from the spec: [AudioInputDescriptor::hasPreemptedSession],
    missing from the sources; the session is among those this input has
    preempted. *)
Definition hasPreemptedSession (d : AudioInputDescriptor) (session : audio_session_t)
    : bool :=
  existsb (Z.eqb session) (in_mPreemptedSessions d).

(** [SortedVector::add]: sorted insertion, an element present is kept once. *)
Fixpoint sorted_add (x : Z) (l : list Z) : list Z :=
  match l with
  | [] => [x]
  | y :: rest =>
      if x <? y then x :: l
      else if x =? y then l
      else y :: sorted_add x rest
  end.

(** Modelled from the spec: [AudioInputDescriptor::setClientActive], missing
    from the sources; the active flag of the client with that port
    identifier. *)
Definition setClientActive (m : AudioPolicyManager) (input : audio_io_handle_t)
    (portId : audio_port_handle_t) (active : bool) : AudioPolicyManager :=
  update_input m input
    (fun d => set_in_mClients d
                (List.map (fun c => if rc_portId c =? portId then set_rc_active c active
                                    else c)
                   (in_mClients d))).

(** [client->setSilenced (silenced)]. *)
Definition setSilenced (m : AudioPolicyManager) (input : audio_io_handle_t)
    (portId : audio_port_handle_t) (silenced : bool) : AudioPolicyManager :=
  update_input m input
    (fun d => set_in_mClients d
                (List.map (fun c => if rc_portId c =? portId then set_rc_silenced c silenced
                                    else c)
                   (in_mClients d))).

(** Modelled from the spec: [ClientMapHandler::removeClient], missing from
    the sources; the client leaves the input. *)
Definition removeClient (m : AudioPolicyManager) (input : audio_io_handle_t)
    (portId : audio_port_handle_t) : AudioPolicyManager :=
  update_input m input
    (fun d => set_in_mClients d
                (List.filter (fun c => negb (rc_portId c =? portId)) (in_mClients d))).

(** [closeInput (input)], as far as the registries and the transport go: the
    patch of the input is released and its record removed, the stream is
    closed and leaves [mInputs].  The capture state reported to the sound
    trigger service is outside the model. *)
Definition closeInput (m : AudioPolicyManager) (input : audio_io_handle_t)
    : AudioPolicyManager :=
  match inputFor (mInputs m) input with
  | None => m
  | Some inputDesc =>
      let m1 := nextAudioPortGeneration m in
      let m2 :=
        match indexOfKey (mAudioPatches m1) (in_mPatchHandle inputDesc) with
        | Some (key, patchDesc) =>
            let m' := emit m1 (releaseAudioPatch_call (mAfPatchHandle patchDesc) 0) in
            emit (set_mAudioPatches m' (delete key (mAudioPatches m')))
              onAudioPatchListUpdate_call
        | None => m1
        end in
      let m3 := emit m2 (closeInput_call input) in
      set_mInputs m3
        (List.filter (fun d => negb (in_mIoHandle d =? input)) (mInputs m3))
  end.

(** [stopInput (portId)], as far as the registries go: the client is made
    inactive and, when the input has no active client left, its patch is
    released and its preempted sessions are cleared.  The re-routing of an
    input that stays active and the notifications to the policy mixes, the
    remote submix device and the sound trigger service are outside the
    model. *)
Definition stopInput (m : AudioPolicyManager) (portId : audio_port_handle_t)
    : AudioPolicyManager * status_t :=
  match getInputForClient (mInputs m) portId with
  | None => (m, BAD_VALUE)
  | Some inputDesc =>
      let input := in_mIoHandle inputDesc in
      match getClient inputDesc portId with
      | None => (m, BAD_VALUE)
      | Some client =>
          if negb (rc_active client) then (m, INVALID_OPERATION)
          else
            let m1 := setClientActive m input portId false in
            match inputFor (mInputs m1) input with
            | None => (m1, NO_ERROR)
            | Some inputDesc1 =>
                if in_isActive inputDesc1 then (m1, NO_ERROR)
                else
                  let m2 := fst (resetInputDevice m1 input None) in
                  (update_input m2 input (fun d => set_in_mPreemptedSessions d []),
                   NO_ERROR)
            end
      end
  end.

(** [releaseInput (portId)]. *)
Definition releaseInput (m : AudioPolicyManager) (portId : audio_port_handle_t)
    : AudioPolicyManager :=
  match getInputForClient (mInputs m) portId with
  | None => m
  | Some inputDesc =>
      let input := in_mIoHandle inputDesc in
      let m1 := removeClient m input portId in
      match inputFor (mInputs m1) input with
      | None => m1
      | Some inputDesc1 =>
          if negb (length (in_mClients inputDesc1) =? 0)%nat then m1
          else emit (closeInput m1 input) onAudioPortListUpdate_call
      end
  end.

(** [closeClient (portId)]. *)
Definition closeClient (m : AudioPolicyManager) (portId : audio_port_handle_t)
    : AudioPolicyManager :=
  releaseInput (fst (stopInput m portId)) portId.

(** ** Capture concurrency *)

(** The first loop of [startInput], run when the new client is not silenced:
    on every input that was active on entry, except the MMAP no-IRQ input the
    client is attached to, the active clients that are silenced are closed. *)
Definition stopSilencedClients (m : AudioPolicyManager) (inputDesc : AudioInputDescriptor)
    (activeInputs : list AudioInputDescriptor) : AudioPolicyManager :=
  List.fold_left
    (fun m activeHandle =>
       match inputFor (mInputs m) activeHandle with
       | None => m
       | Some activeDesc =>
           if negb (Z.land (in_mProfileFlags activeDesc) AUDIO_INPUT_FLAG_MMAP_NOIRQ =? 0)
              && (in_mId activeDesc =? in_mId inputDesc)
           then m
           else
             List.fold_left
               (fun m activeClient =>
                  if rc_silenced activeClient then closeClient m (rc_portId activeClient)
                  else m)
               (in_clientsList activeDesc true AUDIO_SOURCE_DEFAULT) m
       end)
    (List.map in_mIoHandle activeInputs) m.

(** The second loop of [startInput]: the concurrency flag of the first
    active input that rules the new client out, if any. *)
Fixpoint concurrencyConflict (client : RecordClientDescriptor)
    (inputDesc : AudioInputDescriptor) (activeInputs : list AudioInputDescriptor)
    : option Z :=
  match activeInputs with
  | [] => None
  | activeDesc :: rest =>
      if negb (Z.land (rc_flags client) AUDIO_INPUT_FLAG_MMAP_NOIRQ =? 0)
         && (in_mId activeDesc =? in_mId inputDesc)
      then concurrencyConflict client inputDesc rest
      else
        let activeSource := inputSource activeDesc true in
        if bool_decide (rc_source client = AUDIO_SOURCE_HOTWORD) then
          if bool_decide (activeSource = AUDIO_SOURCE_HOTWORD) then
            if hasPreemptedSession activeDesc (rc_session client)
            then Some (Z.lor API_INPUT_CONCURRENCY_NONE API_INPUT_CONCURRENCY_HOTWORD)
            else concurrencyConflict client inputDesc rest
          else Some (Z.lor API_INPUT_CONCURRENCY_NONE API_INPUT_CONCURRENCY_CAPTURE)
        else
          if negb (bool_decide (activeSource = AUDIO_SOURCE_HOTWORD))
          then Some (Z.lor API_INPUT_CONCURRENCY_NONE API_INPUT_CONCURRENCY_CAPTURE)
          else concurrencyConflict client inputDesc rest
  end.

(** The third loop of [startInput]: the active HOTWORD clients are preempted
    and their sessions recorded in the input of the new client. *)
Definition preemptHotword (input : audio_io_handle_t)
    (allowConcurrentWithSoundTrigger : bool) (acc : AudioPolicyManager * Z)
    (activeHandle : audio_io_handle_t) : AudioPolicyManager * Z :=
  let '(m, concurrency) := acc in
  match inputFor (mInputs m) activeHandle with
  | None => acc
  | Some activeDesc =>
      if allowConcurrentWithSoundTrigger && in_isSoundTrigger activeDesc then acc
      else
        let activeHotwordClients := in_clientsList activeDesc true AUDIO_SOURCE_HOTWORD in
        match activeHotwordClients with
        | [] => acc
        | _ :: _ =>
            let '(m1, concurrency1, sessions) :=
              List.fold_left
                (fun '(m, concurrency, sessions) activeClient =>
                   (closeClient m (rc_portId activeClient),
                    Z.lor concurrency API_INPUT_CONCURRENCY_PREEMPT,
                    sorted_add (rc_session activeClient) sessions))
                activeHotwordClients
                (m, concurrency, in_mPreemptedSessions activeDesc) in
            (update_input m1 input (fun d => set_in_mPreemptedSessions d sessions),
             concurrency1)
        end
  end.

(** The hardware module of the first source of the call TX patch
    ([mCallTxPatch->mPatch.sources[0].ext.device.hw_module]). *)
Definition callTxModule (patchDesc : AudioPatch) : Z :=
  match sources (mPatch patchDesc) with
  | DevicePort _ hw_module _ :: _ => hw_module
  | MixPort hw_module _ :: _ => hw_module
  | [] => 0
  end.

(** The outcome of [startInput]: the status and the value left in
    [*concurrency]. *)
Record start_result := mkStartResult {
  sr_status : status_t;
  sr_concurrency : Z
}.

(** [startInput (portId, silenced, concurrency)], through the arbitration and
    the activation of the client.  The routing of the input once the client
    is active ([getNewInputDevice], [setInputDevice]) and the notifications
    that follow a successful start are outside the model. *)
Definition startInput (m : AudioPolicyManager) (portId : audio_port_handle_t)
    (silenced : bool) : AudioPolicyManager * start_result :=
  match getInputForClient (mInputs m) portId with
  | None => (m, mkStartResult BAD_VALUE API_INPUT_CONCURRENCY_NONE)
  | Some inputDesc =>
    let input := in_mIoHandle inputDesc in
    match getClient inputDesc portId with
    | None => (m, mkStartResult BAD_VALUE API_INPUT_CONCURRENCY_NONE)
    | Some client =>
      if rc_active client
      then (m, mkStartResult INVALID_OPERATION API_INPUT_CONCURRENCY_NONE)
      else
        let session := rc_session client in
        let activate (m : AudioPolicyManager) (concurrency : Z) :=
          (* Make sure we start with the correct silence state *)
          let m1 := setSilenced m input portId silenced in
          (* increment activity count before calling getNewInputDevice() *)
          let m2 := setClientActive m1 input portId true in
          let status := in_startStatus inputDesc in
          if negb (status =? NO_ERROR)
          then (setClientActive m2 input portId false, mkStartResult status concurrency)
          else (m2, mkStartResult NO_ERROR concurrency) in
        if negb (is_virtual_input_device (in_mDevice inputDesc)) then
          if match mCallTxPatch m with
             | Some txPatch => in_mModuleHandle inputDesc =? callTxModule txPatch
             | None => false
             end
          then (m, mkStartResult INVALID_OPERATION
                     (Z.lor API_INPUT_CONCURRENCY_NONE API_INPUT_CONCURRENCY_CALL))
          else
            (* If a UID is idle and records silence and another not silenced
               recording starts from another UID (idle or active) we stop the
               current idle UID recording in favor of the new one *)
            let m1 :=
              if negb silenced
              then stopSilencedClients m inputDesc (getActiveInputs m)
              else m in
            let activeInputs := getActiveInputs m1 in
            match concurrencyConflict client inputDesc activeInputs with
            | Some concurrency => (m1, mkStartResult INVALID_OPERATION concurrency)
            | None =>
                let allowConcurrentWithSoundTrigger :=
                  if in_isSoundTrigger inputDesc
                  then mSoundTriggerSupportsConcurrentCapture m1
                  else false in
                (* if capture is allowed, preempt currently active HOTWORD
                   captures *)
                let '(m2, concurrency) :=
                  List.fold_left (preemptHotword input allowConcurrentWithSoundTrigger)
                    (List.map in_mIoHandle activeInputs)
                    (m1, API_INPUT_CONCURRENCY_NONE) in
                activate m2 concurrency
            end
        else activate m API_INPUT_CONCURRENCY_NONE
    end
  end.

(** The client with that port identifier is attached to an input and
    active. *)
Definition client_active (m : AudioPolicyManager) (portId : audio_port_handle_t)
    : bool :=
  existsb
    (fun d => existsb (fun c => (rc_portId c =? portId) && rc_active c) (in_mClients d))
    (mInputs m).

(** ** Views of the state used in the statements

    [forget_trace] keeps everything but the record of the transport calls
    and the last voice volume sent; [routing_core] keeps what routing
    decisions read: it also drops the mute bookkeeping of the outputs, their
    patch handles and the patch collection. *)

Definition forget_trace (m : AudioPolicyManager) : AudioPolicyManager :=
  set_mTrace (set_mLastVoiceVolume m float_one) [].

Definition erase_output (d : AudioOutputDescriptor) : AudioOutputDescriptor :=
  mkOutput (mIoHandle d) (mModuleHandle d) (mDevice d) (mSupportedDevices d)
    (mProfileFlags d) (mFlags d) (mFormat d) (mLatency d) (mOutput1 d)
    (mOutput2 d) 0 (mActiveCount d) (fun _ => 0) (fun _ => false)
    (mFixedVolume d) (mClients d).

Definition routing_core (m : AudioPolicyManager) : AudioPolicyManager :=
  mkManager (List.map erase_output (mOutputs m)) (mInputs m) ∅
    (mAvailableOutputDevices m) (mAvailableInputDevices m)
    (mDeviceForStrategy m) (mUidCached m) 0 float_one (mCallTxPatch m)
    (mSoundTriggerSupportsConcurrentCapture m) 0
    (mEngine m) (mVolumeCurves m) (mpClientInterface m) [].

(** The mute counter of a stream type on a registered output. *)
Definition muteCount (m : AudioPolicyManager) (output : audio_io_handle_t)
    (stream : audio_stream_type_t) : Z :=
  match valueFor (mOutputs m) output with
  | Some d => mMuteCount d stream
  | None => 0
  end.

(** What one run of [checkAndSetVolume (stream, index, outputDesc, device,
    delayMs, force)] appends to the trace when it applies a volume: the call
    of [setVolume] with the computed volume (or [0.0f]), possibly followed by
    a voice volume update. *)
Definition volume_events (stream : audio_stream_type_t) (index : Z)
    (output : audio_io_handle_t) (delayMs : Z) (force : bool)
    (evs : list Event) : Prop :=
  exists volumeDb dev,
    (volumeDb = computeVolume stream index dev \/ volumeDb = ZeroDb) /\
    (evs = [setVolume_call output volumeDb stream dev delayMs force] \/
     exists v, evs = [setVolume_call output volumeDb stream dev delayMs force;
                      setVoiceVolume_call v delayMs]).

(** A run of [setStreamMute] calls on one stream type of one output; a call
    is given by its [on] flag, its delay and its device. *)
Definition setStreamMute_run (m : AudioPolicyManager) (stream : audio_stream_type_t)
    (output : audio_io_handle_t) (calls : list (bool * Z * Z)) : AudioPolicyManager :=
  List.fold_left
    (fun m call => setStreamMute m stream (fst (fst call)) output (snd (fst call)) (snd call))
    calls m.

(** The mute calls of a run that no later unmute call has matched, most
    recent first, by position in the run: an unmute call matches the most
    recent mute call that is still pending, and matches nothing when none
    is. *)
Fixpoint pending_mutes (calls : list bool) (pos : nat) (pending : list nat)
    : list nat :=
  match calls with
  | [] => pending
  | true :: rest => pending_mutes rest (S pos) (pos :: pending)
  | false :: rest => pending_mutes rest (S pos) (tl pending)
  end.

Definition unmatched_mutes (calls : list bool) : Z :=
  Z.of_nat (length (pending_mutes calls 0 [])).

(** The descriptor a patch operation acts on is one the manager owns. *)
Definition io_registered (m : AudioPolicyManager) (io : io_ref) : Prop :=
  match io with
  | OutputRef h => is_Some (valueFor (mOutputs m) h)
  | InputRef h => is_Some (inputFor (mInputs m) h)
  end.

(** The key [installPatch] looks up: the handle supplied by the caller when
    there is one, the handle recorded in the descriptor otherwise. *)
Definition install_key (m : AudioPolicyManager)
    (patchHandle : option audio_patch_handle_t) (io : io_ref) : audio_patch_handle_t :=
  match patchHandle with
  | Some h => if negb (h =? AUDIO_PATCH_HANDLE_NONE) then h else getPatchHandle m io
  | None => getPatchHandle m io
  end.

(** The key [resetOutputDevice] and [resetInputDevice] look up. *)
Definition reset_key (m : AudioPolicyManager)
    (patchHandle : option audio_patch_handle_t) (io : io_ref) : audio_patch_handle_t :=
  match patchHandle with
  | Some h => h
  | None => getPatchHandle m io
  end.

(** What a release does to the state when the looked-up patch is
    [patchDesc]: the transport is asked to release the low-level connection
    and told of the new patch list, the patch handle of the stream is
    cleared and the record leaves the collection. *)
Definition released (m m' : AudioPolicyManager) (io : io_ref)
    (patchDesc : AudioPatch) (delayMs : Z) : Prop :=
  mTrace m'
  = mTrace m ++ [releaseAudioPatch_call (mAfPatchHandle patchDesc) delayMs;
                 onAudioPatchListUpdate_call]
  /\ getPatchHandle m' io = AUDIO_PATCH_HANDLE_NONE
  /\ mAudioPatches m' = delete (mHandle patchDesc) (mAudioPatches m)
  /\ mAudioPatches m' !! mHandle patchDesc = None.

(** The transport's answer to the [createAudioPatch] call that
    [installPatch] makes. *)
Definition install_answer (m : AudioPolicyManager)
    (patchHandle : option audio_patch_handle_t) (io : io_ref)
    (patch : audio_patch) (delayMs : Z) : status_t * audio_patch_handle_t :=
  createAudioPatch_answer (mpClientInterface m) (mTrace m) patch
    (match mAudioPatches m !! install_key m patchHandle io with
     | Some patchDesc => mAfPatchHandle patchDesc
     | None => AUDIO_PATCH_HANDLE_NONE
     end) delayMs.

(** Every record of the collection is stored under its own local handle,
    and the handle generator is ahead of the handles in use, none of which
    is [AUDIO_PATCH_HANDLE_NONE]. *)
Definition patches_wf (m : AudioPolicyManager) : Prop :=
  forall key patchDesc,
    mAudioPatches m !! key = Some patchDesc ->
    mHandle patchDesc = key /\ 0 < key < mNextPatchHandle m.

(** A device bitmask [a] is a subset of the bitmask [b]. *)
Definition mask_subset (a b : audio_devices_t) : Prop := Z.land a b = a.

(** The strategy loop that starts [checkDeviceMuteStrategies], from a zero
    wait. *)
Definition muteByDevice_phase (m : AudioPolicyManager) (output : audio_io_handle_t)
    (outputDesc : AudioOutputDescriptor) (delayMs : Z) : AudioPolicyManager * Z :=
  List.fold_left
    (muteStrategyByDevice output (device m outputDesc)
       (isActive outputDesc && (2 <=? popcount (device m outputDesc))) delayMs)
    all_strategies (m, 0).

(** A temporary mute of the strategies that are active on the output
    [outputDesc] in the state [m0]: each one is muted with delay [delayMs]
    and then unmuted on device [dev] with delay [delayMs + duration]. *)
Definition temporaryMute (m0 : AudioPolicyManager) (outputDesc : AudioOutputDescriptor)
    (output : audio_io_handle_t) (dev delayMs duration : Z)
    (m : AudioPolicyManager) : AudioPolicyManager :=
  List.fold_left
    (fun m i =>
       if isStrategyActive m0 outputDesc i then
         setStrategyMute
           (setStrategyMute m i true output delayMs AUDIO_DEVICE_NONE)
           i false output (delayMs + duration) dev
       else m)
    all_strategies m.

(** The calls of a trace that set the volume of a stream type or sleep, in
    the order they were made. *)
Definition is_sequencing_call (e : Event) : bool :=
  match e with
  | setVolume_call _ _ _ _ _ _ => true
  | usleep_call _ => true
  | _ => false
  end.

Definition sequencing_calls (evs : list Event) : list Event :=
  List.filter is_sequencing_call evs.

(** The in-call volume is not changed while communication is forced to SCO,
    nor the SCO volume while it is not. *)
Definition sco_refused (m : AudioPolicyManager) (stream : audio_stream_type_t) : bool :=
  let forceUseForComm := getForceUse (mEngine m) AUDIO_POLICY_FORCE_FOR_COMMUNICATION in
  (bool_decide (stream = AUDIO_STREAM_VOICE_CALL)
   && bool_decide (forceUseForComm = AUDIO_POLICY_FORCE_BT_SCO))
  || (bool_decide (stream = AUDIO_STREAM_BLUETOOTH_SCO)
      && negb (bool_decide (forceUseForComm = AUDIO_POLICY_FORCE_BT_SCO))).

(** A mute silences a stream type that can be muted; the enforced audible
    stream type only while the system sounds are not enforced. *)
Definition mute_applies (m : AudioPolicyManager) (stream : audio_stream_type_t) : bool :=
  canBeMuted (mVolumeCurves m) stream
  && (negb (bool_decide (stream = AUDIO_STREAM_ENFORCED_AUDIBLE))
      || bool_decide (getForceUse (mEngine m) AUDIO_POLICY_FORCE_FOR_SYSTEM
                      = AUDIO_POLICY_FORCE_NONE)).

(** The [setVolume] call that gives a stream type of the output the volume
    of an index on a device, after [delayMs]; none when the stream type is
    refused. *)
Definition volume_call (m : AudioPolicyManager) (outputDesc : AudioOutputDescriptor)
    (output : audio_io_handle_t) (stream : audio_stream_type_t) (index : Z)
    (dev : audio_devices_t) (delayMs : Z) : list Event :=
  if sco_refused m stream then []
  else
    [setVolume_call output
       (if mFixedVolume outputDesc dev
           || (is_voice_stream stream
               && negb (Z.land dev AUDIO_DEVICE_OUT_ALL_SCO =? 0))
        then ZeroDb
        else computeVolume stream index dev)
       stream dev delayMs false].

(** The volume call of one mute or unmute of a stream type whose mute
    counter is [count stream]: a mute silences a stream type that was not
    muted, with the volume of index 0; an unmute restores the volume of the
    current index when it takes the last mute away. *)
Definition stream_mute_calls (m : AudioPolicyManager) (outputDesc : AudioOutputDescriptor)
    (output : audio_io_handle_t) (count : audio_stream_type_t -> Z)
    (stream : audio_stream_type_t) (on : bool) (dev : audio_devices_t) (delayMs : Z)
    : list Event :=
  if on then
    if (count stream =? 0) && mute_applies m stream
    then volume_call m outputDesc output stream 0 dev delayMs
    else []
  else
    if count stream =? 1
    then volume_call m outputDesc output stream
           (getVolumeIndex (mVolumeCurves m) stream dev) dev delayMs
    else [].

(** The volume calls of a mute or an unmute of the stream types of a
    strategy. *)
Definition strategy_mute_calls (m : AudioPolicyManager) (outputDesc : AudioOutputDescriptor)
    (output : audio_io_handle_t) (count : audio_stream_type_t -> Z)
    (i : routing_strategy) (on : bool) (dev : audio_devices_t) (delayMs : Z)
    (streams : list audio_stream_type_t) : list Event :=
  List.flat_map
    (fun stream =>
       if bool_decide (getStrategy m stream = i)
       then stream_mute_calls m outputDesc output count stream on dev delayMs
       else [])
    streams.

(** The volume calls of a temporary mute of the output: for every strategy
    that is active on it, in the order of the strategies, the stream types
    of the strategy that are not muted yet ([count stream = 0]) are silenced
    after [delayMs], and then given back the volume of their current index
    after [delayMs + duration]. *)
Definition temporary_mute_calls (m : AudioPolicyManager) (outputDesc : AudioOutputDescriptor)
    (output : audio_io_handle_t) (count : audio_stream_type_t -> Z)
    (dev : audio_devices_t) (delayMs duration : Z) : list Event :=
  List.flat_map
    (fun i =>
       if isStrategyActive m outputDesc i then
         List.flat_map
           (fun stream =>
              if bool_decide (getStrategy m stream = i) && (count stream =? 0)
                 && mute_applies m stream
              then volume_call m outputDesc output stream 0 dev delayMs
              else [])
           policy_streams
         ++ List.flat_map
              (fun stream =>
                 if bool_decide (getStrategy m stream = i) && (count stream =? 0)
                 then volume_call m outputDesc output stream
                        (getVolumeIndex (mVolumeCurves m) stream dev) dev
                        (delayMs + duration)
                 else [])
              policy_streams
       else [])
    all_strategies.

(** The mute counters of a registered output are not negative. *)
Definition counts_nonneg (output : audio_io_handle_t) (m : AudioPolicyManager) : Prop :=
  exists d, valueFor (mOutputs m) output = Some d /\ forall s, 0 <= mMuteCount d s.

(** ** The priority list of [getNewOutputDevice] *)

(** The patch attached to the output was installed by another uid than the
    manager's own. *)
Definition forced_by_patch (m : AudioPolicyManager) (outputDesc : AudioOutputDescriptor)
    : bool :=
  match mAudioPatches m !! mPatchHandle outputDesc with
  | Some patchDesc => negb (mUid patchDesc =? mUidCached m)
  | None => false
  end.

(** The strategies in the order [getNewOutputDevice] examines them, each with
    the condition under which it is selected. *)
Definition strategy_priority (m : AudioPolicyManager) (outputDesc : AudioOutputDescriptor)
    : list (routing_strategy * bool) :=
  [ (STRATEGY_ENFORCED_AUDIBLE,
     isStrategyActive m outputDesc STRATEGY_ENFORCED_AUDIBLE
     && bool_decide (getForceUse (mEngine m) AUDIO_POLICY_FORCE_FOR_SYSTEM
                     = AUDIO_POLICY_FORCE_SYSTEM_ENFORCED));
    (STRATEGY_PHONE,
     isInCall m || isStrategyActiveOnSameModule m outputDesc STRATEGY_PHONE);
    (STRATEGY_SONIFICATION,
     isStrategyActiveOnSameModule m outputDesc STRATEGY_SONIFICATION);
    (STRATEGY_ENFORCED_AUDIBLE, isStrategyActive m outputDesc STRATEGY_ENFORCED_AUDIBLE);
    (STRATEGY_ACCESSIBILITY, isStrategyActive m outputDesc STRATEGY_ACCESSIBILITY);
    (STRATEGY_SONIFICATION_RESPECTFUL,
     isStrategyActive m outputDesc STRATEGY_SONIFICATION_RESPECTFUL);
    (STRATEGY_MEDIA, isStrategyActive m outputDesc STRATEGY_MEDIA);
    (STRATEGY_DTMF, isStrategyActive m outputDesc STRATEGY_DTMF);
    (STRATEGY_TRANSMITTED_THROUGH_SPEAKER,
     isStrategyActive m outputDesc STRATEGY_TRANSMITTED_THROUGH_SPEAKER);
    (STRATEGY_REROUTING, isStrategyActive m outputDesc STRATEGY_REROUTING) ].

(** The same list read as the specification words it: every strategy is
    tested for activity on the stream itself, the phone strategy being
    selected also when a call is in progress. *)
Definition strategy_priority_on_stream (m : AudioPolicyManager)
    (outputDesc : AudioOutputDescriptor) : list (routing_strategy * bool) :=
  [ (STRATEGY_ENFORCED_AUDIBLE,
     isStrategyActive m outputDesc STRATEGY_ENFORCED_AUDIBLE
     && bool_decide (getForceUse (mEngine m) AUDIO_POLICY_FORCE_FOR_SYSTEM
                     = AUDIO_POLICY_FORCE_SYSTEM_ENFORCED));
    (STRATEGY_PHONE, isInCall m || isStrategyActive m outputDesc STRATEGY_PHONE);
    (STRATEGY_SONIFICATION, isStrategyActive m outputDesc STRATEGY_SONIFICATION);
    (STRATEGY_ENFORCED_AUDIBLE, isStrategyActive m outputDesc STRATEGY_ENFORCED_AUDIBLE);
    (STRATEGY_ACCESSIBILITY, isStrategyActive m outputDesc STRATEGY_ACCESSIBILITY);
    (STRATEGY_SONIFICATION_RESPECTFUL,
     isStrategyActive m outputDesc STRATEGY_SONIFICATION_RESPECTFUL);
    (STRATEGY_MEDIA, isStrategyActive m outputDesc STRATEGY_MEDIA);
    (STRATEGY_DTMF, isStrategyActive m outputDesc STRATEGY_DTMF);
    (STRATEGY_TRANSMITTED_THROUGH_SPEAKER,
     isStrategyActive m outputDesc STRATEGY_TRANSMITTED_THROUGH_SPEAKER);
    (STRATEGY_REROUTING, isStrategyActive m outputDesc STRATEGY_REROUTING) ].

(** The first strategy of a priority list whose condition holds. *)
Definition first_selected (priority : list (routing_strategy * bool))
    : option routing_strategy :=
  option_map fst (List.find snd priority).

(** The device selection as the specification states it: a device forced by a
    foreign patch, else the explicitly preferred device, else the device the
    engine provides for the first strategy active on the stream. *)
Definition specified_output_device (m : AudioPolicyManager)
    (outputDesc : AudioOutputDescriptor) : audio_devices_t :=
  if forced_by_patch m outputDesc then device m outputDesc
  else
    match fst (findPreferredDevice outputDesc STRATEGY_NONE (mAvailableOutputDevices m)) with
    | Some deviceDesc => dev_type deviceDesc
    | None =>
        match first_selected (strategy_priority_on_stream m outputDesc) with
        | Some strategy => engine_getDeviceForStrategy (mEngine m) strategy
        | None => AUDIO_DEVICE_NONE
        end
    end.

(** No strategy but [STRATEGY_MEDIA] is active on an output. *)
Definition only_media_active (m : AudioPolicyManager) (desc : AudioOutputDescriptor)
    : Prop :=
  forall strategy,
    In strategy all_strategies -> strategy <> STRATEGY_MEDIA ->
    isStrategyActive m desc strategy = false.

(** ** The selection rule of [selectOutput], stated on the candidates *)

(** The candidates with their descriptors, when all are registered. *)
Fixpoint candidates (m : AudioPolicyManager) (outputs : list audio_io_handle_t)
    : option (list (audio_io_handle_t * AudioOutputDescriptor)) :=
  match outputs with
  | [] => Some []
  | output :: rest =>
      match valueFor (mOutputs m) output, candidates m rest with
      | Some outputDesc, Some l => Some ((output, outputDesc) :: l)
      | _, _ => None
      end
  end.

(** The candidates the selection considers: neither duplicated nor direct,
    and, when a format is requested, only if that format is linear PCM. *)
Definition eligible (format : audio_format_t)
    (c : audio_io_handle_t * AudioOutputDescriptor) : bool :=
  negb (isDuplicated (snd c))
  && (Z.land (mFlags (snd c)) AUDIO_OUTPUT_FLAG_DIRECT =? 0)
  && ((format =? AUDIO_FORMAT_INVALID) || audio_is_linear_pcm format).

(** The number of requested flags the profile of a candidate shares. *)
Definition commonFlagsOf (flags : Z) (c : audio_io_handle_t * AudioOutputDescriptor) : Z :=
  popcount (Z.land (mProfileFlags (snd c)) flags).

(** The largest number of shared flags among candidates (0 when none). *)
Definition mostCommonFlags (flags : Z)
    (l : list (audio_io_handle_t * AudioOutputDescriptor)) : Z :=
  List.fold_left (fun acc c => Z.max acc (commonFlagsOf flags c)) l 0.

(** The closest format match: candidates are compared in order against the
    best one so far, which a later candidate replaces when
    [isBetterFormatMatch] prefers its format for the requested one. *)
Definition closestFormat (format : audio_format_t)
    (start : audio_io_handle_t * audio_format_t)
    (l : list (audio_io_handle_t * AudioOutputDescriptor))
    : audio_io_handle_t * audio_format_t :=
  List.fold_left
    (fun best c =>
       if negb (format =? AUDIO_FORMAT_INVALID)
          && isBetterFormatMatch (mFormat (snd c)) (snd best) format
       then (fst c, mFormat (snd c))
       else best)
    l start.

(** The candidates that are neither duplicated nor direct. *)
Definition mixable (c : audio_io_handle_t * AudioOutputDescriptor) : bool :=
  negb (isDuplicated (snd c))
  && (Z.land (mFlags (snd c)) AUDIO_OUTPUT_FLAG_DIRECT =? 0).

(** The candidate selected by flags among the considered candidates [E]:
    among those that share the most flags, the closest format match; when no
    candidate shares any flag, one is selected only through a format
    match. *)
Definition selectedByFlags (flags : Z) (format : audio_format_t)
    (E : list (audio_io_handle_t * AudioOutputDescriptor))
    : audio_io_handle_t * audio_format_t :=
  let top := mostCommonFlags flags E in
  let ties := List.filter (fun c => commonFlagsOf flags c =? top) E in
  if top =? 0 then closestFormat format (AUDIO_IO_HANDLE_NONE, AUDIO_FORMAT_INVALID) ties
  else
    match ties with
    | first :: rest => closestFormat format (fst first, mFormat (snd first)) rest
    | [] => (AUDIO_IO_HANDLE_NONE, AUDIO_FORMAT_INVALID)
    end.

(** The closest format match among the considered candidates. *)
Definition selectedByFormat (format : audio_format_t)
    (E : list (audio_io_handle_t * AudioOutputDescriptor))
    : audio_io_handle_t * audio_format_t :=
  closestFormat format (AUDIO_IO_HANDLE_NONE, AUDIO_FORMAT_INVALID) E.

(** The primary output among the considered candidates (the last one when
    several carry the primary flag). *)
Definition selectedPrimary (E : list (audio_io_handle_t * AudioOutputDescriptor))
    : audio_io_handle_t :=
  List.fold_left
    (fun acc c =>
       if negb (Z.land (mProfileFlags (snd c)) AUDIO_OUTPUT_FLAG_PRIMARY =? 0)
       then fst c else acc)
    E AUDIO_IO_HANDLE_NONE.

(** The priority among the selections, for two candidates or more, of which
    [E] are considered. *)
Definition selectedOutput (flags : Z) (format : audio_format_t)
    (first : audio_io_handle_t)
    (E : list (audio_io_handle_t * AudioOutputDescriptor)) : audio_io_handle_t :=
  if negb (fst (selectedByFlags flags format E) =? AUDIO_IO_HANDLE_NONE)
  then fst (selectedByFlags flags format E)
  else if negb (fst (selectedByFormat format E) =? AUDIO_IO_HANDLE_NONE)
  then fst (selectedByFormat format E)
  else if negb (selectedPrimary E =? AUDIO_IO_HANDLE_NONE)
  then selectedPrimary E
  else first.

(** One iteration of the loop of [selectOutput] on a candidate with its
    descriptor. *)
Definition step (flags : Z) (format : audio_format_t) (st : select_state)
    (c : audio_io_handle_t * AudioOutputDescriptor) : select_state :=
  selectOutput_step flags format st (fst c) (snd c).

(** The local variables of the loop of [selectOutput] after the candidates
    [l]. *)
Definition loop_state (flags : Z) (format : audio_format_t)
    (l : list (audio_io_handle_t * AudioOutputDescriptor)) (st : select_state) : Prop :=
  let E := List.filter (eligible format) l in
  maxCommonFlags st = mostCommonFlags flags E
  /\ (outputForFlags st, bestFormatForFlags st) = selectedByFlags flags format E
  /\ (outputForFormat st, bestFormat st) = selectedByFormat format E
  /\ outputForPrimary st = selectedPrimary E.

(** ** The arbitration of [startInput], stated on the competing inputs *)

(** An active input competes with the new client unless it is the MMAP
    no-IRQ input the client reuses. *)
Definition competing (client : RecordClientDescriptor) (inputDesc : AudioInputDescriptor)
    (activeDesc : AudioInputDescriptor) : bool :=
  negb (negb (Z.land (rc_flags client) AUDIO_INPUT_FLAG_MMAP_NOIRQ =? 0)
        && (in_mId activeDesc =? in_mId inputDesc)).

(** The concurrency flag with which a competing input rules the new client
    out: a HOTWORD request fails for CAPTURE against another source and for
    HOTWORD against a HOTWORD input that has preempted its session; any other
    request fails for CAPTURE against another source than HOTWORD. *)
Definition conflict (client : RecordClientDescriptor) (activeDesc : AudioInputDescriptor)
    : option Z :=
  if bool_decide (rc_source client = AUDIO_SOURCE_HOTWORD) then
    if bool_decide (inputSource activeDesc true = AUDIO_SOURCE_HOTWORD) then
      if hasPreemptedSession activeDesc (rc_session client)
      then Some API_INPUT_CONCURRENCY_HOTWORD
      else None
    else Some API_INPUT_CONCURRENCY_CAPTURE
  else
    if bool_decide (inputSource activeDesc true = AUDIO_SOURCE_HOTWORD) then None
    else Some API_INPUT_CONCURRENCY_CAPTURE.

(** The state in which [startInput] arbitrates: silenced clients have been
    stopped when the new client is not silenced. *)
Definition arbitration_state (m : AudioPolicyManager) (inputDesc : AudioInputDescriptor)
    (silenced : bool) : AudioPolicyManager :=
  if negb silenced then stopSilencedClients m inputDesc (getActiveInputs m) else m.

(** [startInput] reaches the arbitration: the client is attached and not
    started, its input is not on a virtual device and no call occupies the
    module of the input. *)
Definition reaches_arbitration (m : AudioPolicyManager) (portId : audio_port_handle_t)
    (inputDesc : AudioInputDescriptor) (client : RecordClientDescriptor) : Prop :=
  getInputForClient (mInputs m) portId = Some inputDesc
  /\ getClient inputDesc portId = Some client
  /\ rc_active client = false
  /\ is_virtual_input_device (in_mDevice inputDesc) = false
  /\ match mCallTxPatch m with
     | Some txPatch => in_mModuleHandle inputDesc =? callTxModule txPatch
     | None => false
     end = false.

(** The rule for a HOTWORD failure as the specification states it: such a
    failure occurs only against a competing HOTWORD input that has not
    preempted the session of the new client. *)
Definition hotword_failure_as_specified (m : AudioPolicyManager)
    (portId : audio_port_handle_t) (silenced : bool) : Prop :=
  forall inputDesc client,
    reaches_arbitration m portId inputDesc client ->
    sr_status (snd (startInput m portId silenced)) = INVALID_OPERATION ->
    sr_concurrency (snd (startInput m portId silenced)) = API_INPUT_CONCURRENCY_HOTWORD ->
    exists activeDesc,
      In activeDesc (getActiveInputs (fst (startInput m portId silenced)))
      /\ competing client inputDesc activeDesc = true
      /\ inputSource activeDesc true = AUDIO_SOURCE_HOTWORD
      /\ hasPreemptedSession activeDesc (rc_session client) = false.

(** The active clients of [m'] were active in [m]. *)
Definition active_shrink (m' m : AudioPolicyManager) : Prop :=
  forall portId, client_active m' portId = true -> client_active m portId = true.

(** A descriptor update that starts no client. *)
Definition starts_none (f : AudioInputDescriptor -> AudioInputDescriptor) : Prop :=
  forall d c', In c' (in_mClients (f d)) -> rc_active c' = true ->
    exists c, In c (in_mClients d) /\ rc_portId c = rc_portId c' /\ rc_active c = true.

End Model.

(** ** A reference platform and sample states

    An implementation of the header helpers, after the policy headers of the
    platform, and a stand-in for the floating point unit, on which the model
    runs on concrete states. *)

Definition AUDIO_MODE_NORMAL : Z := 0.
Definition AUDIO_MODE_RINGTONE : Z := 1.
Definition AUDIO_MODE_IN_CALL : Z := 2.
Definition AUDIO_MODE_IN_COMMUNICATION : Z := 3.

Definition AUDIO_DEVICE_OUT_EARPIECE : Z := 1.
Definition AUDIO_DEVICE_OUT_SPEAKER : Z := 2.
Definition AUDIO_DEVICE_OUT_WIRED_HEADSET : Z := 4.
Definition AUDIO_DEVICE_OUT_BLUETOOTH_SCO : Z := 16.
Definition AUDIO_DEVICE_IN_BUILTIN_MIC : Z := 2147483652.
Definition AUDIO_DEVICE_IN_REMOTE_SUBMIX : Z := 2147483904.

Definition AUDIO_FORMAT_PCM_16_BIT : Z := 1.
Definition AUDIO_FORMAT_PCM_8_BIT : Z := 2.
Definition AUDIO_FORMAT_PCM_32_BIT : Z := 3.
Definition AUDIO_FORMAT_AC3 : Z := 150994944.
Definition AUDIO_OUTPUT_FLAG_FAST : Z := 4.
Definition AUDIO_OUTPUT_FLAG_DEEP_BUFFER : Z := 8.

Definition bytes_per_sample (format : audio_format_t) : Z :=
  if format =? AUDIO_FORMAT_PCM_16_BIT then 2
  else if format =? AUDIO_FORMAT_PCM_8_BIT then 1
  else if format =? AUDIO_FORMAT_PCM_32_BIT then 4
  else 0.

Definition reference_header : PolicyHeader := {|
  is_state_in_call mode :=
    (mode =? AUDIO_MODE_IN_CALL) || (mode =? AUDIO_MODE_IN_COMMUNICATION);
  is_virtual_input_device dev := dev =? AUDIO_DEVICE_IN_REMOTE_SUBMIX;
  source_priority source :=
    match source with
    | AUDIO_SOURCE_VOICE_COMMUNICATION => 6
    | AUDIO_SOURCE_CAMCORDER => 5
    | AUDIO_SOURCE_MIC => 4
    | AUDIO_SOURCE_FM_TUNER => 3
    | AUDIO_SOURCE_VOICE_RECOGNITION => 2
    | AUDIO_SOURCE_HOTWORD => 1
    | _ => 0
    end;
  audio_is_linear_pcm format := Z.land format 4278190080 =? 0;
  isBetterFormatMatch newFormat currentFormat targetFormat :=
    if newFormat =? currentFormat then false
    else if currentFormat =? AUDIO_FORMAT_INVALID then true
    else if newFormat =? targetFormat then true
    else
      let currentDiff := bytes_per_sample targetFormat - bytes_per_sample currentFormat in
      let newDiff := bytes_per_sample targetFormat - bytes_per_sample newFormat in
      if Z.abs newDiff <? Z.abs currentDiff then true
      else if Z.abs newDiff =? Z.abs currentDiff then 0 <=? newDiff
      else false;
  getDevicesFromTypeMask devices type :=
    List.filter (fun d => negb (Z.land (dev_type d) type =? 0)) devices;
  getDevice devices type address :=
    List.find (fun d => (dev_type d =? type) && String.eqb (dev_address d) address) devices
|}.

(** Integers with truncating division, standing in for [float] where a
    sample state needs a value of that type. *)
Definition integer_float : CFloat := {|
  cfloat := Z;
  float_of_int := fun i => i;
  float_add := Z.add;
  float_sub := Z.sub;
  float_mul := Z.mul;
  float_div := Z.quot;
  int_of_float := fun f => f;
  float_eqb := Z.eqb;
  float_one := 1
|}.

(** *** The [float] of the targets: IEEE 754 binary32

    Numbers of 24 bits of precision with exponents up to 128, every
    operation rounded to nearest, ties to even. *)

(** [(float) i]: the integer, rounded to 24 bits. *)
Definition f32_of_int (i : Z) : spec_float := binary_normalize 24 128 i 0 false.

(** [(int) f]: the fraction is dropped, towards zero. *)
Definition int_of_f32 (f : spec_float) : Z :=
  match f with
  | S754_finite s m e =>
      let a := Z.shiftl (Zpos m) e in
      if s then - a else a
  | _ => 0
  end.

Definition binary32_float : CFloat := {|
  cfloat := spec_float;
  float_of_int := f32_of_int;
  float_add := SFadd 24 128;
  float_sub := SFsub 24 128;
  float_mul := SFmul 24 128;
  float_div := SFdiv 24 128;
  int_of_float := int_of_f32;
  float_eqb := SFeqb;
  float_one := f32_of_int 1
|}.

(** Nothing has been shifted out of a mantissa. *)
Definition shr_exact (mrs : shr_record) : Prop :=
  shr_r mrs = false /\ shr_s mrs = false.

(** A positive normal number whose value, counted in units of [2 ^ -100],
    lies between [lo] and [hi]. *)
Definition f32_between (f : spec_float) (lo hi : Z) : Prop :=
  exists m e,
    f = S754_finite false m e
    /\ 2 ^ 23 <= Zpos m < 2 ^ 24
    /\ -100 <= e <= 0
    /\ lo <= Zpos m * 2 ^ (e + 100) <= hi.

(** The number is the integer [n]. *)
Definition f32_int (f : spec_float) (n : Z) : Prop :=
  (n = 0 /\ f = S754_zero false)
  \/ (0 < n /\ f32_between f (n * 2 ^ 100) (n * 2 ^ 100)).

(** The number lies between the integer [n] and the last number of twelve
    fractional bits below [n + 1]. *)
Definition f32_frac (f : spec_float) (n : Z) : Prop :=
  (n = 0 /\ f = S754_zero false)
  \/ f32_between f (n * 2 ^ 100) (((n + 1) * 2 ^ 12 - 1) * 2 ^ 88).

(** The round trip of [rescaleVolumeIndex] as the specification states it:
    the index that comes back is within one step of the index that went in
    for each of the two truncations to [int]. *)
Definition round_trip_as_specified (srcIndex back : Z) : Prop :=
  Z.abs (srcIndex - back) <= 2.

Module Sample.

#[local] Existing Instance reference_header.
#[local] Existing Instance integer_float.

Definition engine : Engine := {|
  getStrategyForStream stream :=
    match stream with
    | AUDIO_STREAM_VOICE_CALL | AUDIO_STREAM_BLUETOOTH_SCO => STRATEGY_PHONE
    | AUDIO_STREAM_RING | AUDIO_STREAM_ALARM => STRATEGY_SONIFICATION
    | AUDIO_STREAM_NOTIFICATION => STRATEGY_SONIFICATION_RESPECTFUL
    | AUDIO_STREAM_DTMF => STRATEGY_DTMF
    | AUDIO_STREAM_ENFORCED_AUDIBLE => STRATEGY_ENFORCED_AUDIBLE
    | AUDIO_STREAM_TTS => STRATEGY_TRANSMITTED_THROUGH_SPEAKER
    | AUDIO_STREAM_ACCESSIBILITY => STRATEGY_ACCESSIBILITY
    | AUDIO_STREAM_REROUTING => STRATEGY_REROUTING
    | _ => STRATEGY_MEDIA
    end;
  engine_getDeviceForStrategy strategy :=
    match strategy with
    | STRATEGY_PHONE => AUDIO_DEVICE_OUT_EARPIECE
    | STRATEGY_SONIFICATION => Z.lor AUDIO_DEVICE_OUT_SPEAKER AUDIO_DEVICE_OUT_WIRED_HEADSET
    | STRATEGY_MEDIA => AUDIO_DEVICE_OUT_WIRED_HEADSET
    | _ => AUDIO_DEVICE_OUT_SPEAKER
    end;
  getForceUse usage := AUDIO_POLICY_FORCE_NONE;
  getPhoneState := AUDIO_MODE_NORMAL
|}.

(** The engine while communication is forced to Bluetooth SCO. *)
Definition engine_sco : Engine := {|
  getStrategyForStream := getStrategyForStream engine;
  engine_getDeviceForStrategy := engine_getDeviceForStrategy engine;
  getForceUse usage :=
    match usage with
    | AUDIO_POLICY_FORCE_FOR_COMMUNICATION => AUDIO_POLICY_FORCE_BT_SCO
    | _ => AUDIO_POLICY_FORCE_NONE
    end;
  getPhoneState := AUDIO_MODE_NORMAL
|}.

Definition curves : VolumeCurves := {|
  canBeMuted stream := true;
  getVolumeIndex stream dev := 5;
  getVolumeIndexMin stream := 0;
  getVolumeIndexMax stream := 15
|}.

(** A transport that accepts every patch and names it after the number of
    calls made so far. *)
Definition transport : ClientInterface := {|
  createAudioPatch_answer trace patch afPatchHandle delayMs :=
    (NO_ERROR,
     if afPatchHandle =? AUDIO_PATCH_HANDLE_NONE
     then 1000 + Z.of_nat (length trace) else afPatchHandle);
  releaseAudioPatch_answer trace afPatchHandle delayMs := NO_ERROR
|}.

(** A transport that refuses every patch. *)
Definition failing_transport : ClientInterface := {|
  createAudioPatch_answer trace patch afPatchHandle delayMs :=
    (INVALID_OPERATION, afPatchHandle);
  releaseAudioPatch_answer trace afPatchHandle delayMs := INVALID_OPERATION
|}.

Definition speaker : DeviceDescriptor :=
  mkDevice 501 AUDIO_DEVICE_OUT_SPEAKER "" 10.
Definition headset : DeviceDescriptor :=
  mkDevice 502 AUDIO_DEVICE_OUT_WIRED_HEADSET "" 10.

(** A deep-buffer output on module 10 playing music on the speaker. *)
Definition music_output : AudioOutputDescriptor := {|
  mIoHandle := 1;
  mModuleHandle := 10;
  mDevice := AUDIO_DEVICE_OUT_SPEAKER;
  mSupportedDevices := 7;
  mProfileFlags := AUDIO_OUTPUT_FLAG_DEEP_BUFFER;
  mFlags := AUDIO_OUTPUT_FLAG_DEEP_BUFFER;
  mFormat := AUDIO_FORMAT_PCM_16_BIT;
  mLatency := 20;
  mOutput1 := None;
  mOutput2 := None;
  mPatchHandle := AUDIO_PATCH_HANDLE_NONE;
  mActiveCount stream := if bool_decide (stream = AUDIO_STREAM_MUSIC) then 1 else 0;
  mMuteCount stream := 0;
  mStrategyMutedByDevice strategy := false;
  mFixedVolume dev := false;
  mClients := [mkTrackClient 11 AUDIO_STREAM_MUSIC STRATEGY_MEDIA 0 true]
|}.

(** The primary output of the same module, on which a ringtone plays. *)
Definition ring_output : AudioOutputDescriptor := {|
  mIoHandle := 2;
  mModuleHandle := 10;
  mDevice := AUDIO_DEVICE_OUT_SPEAKER;
  mSupportedDevices := 7;
  mProfileFlags := Z.lor AUDIO_OUTPUT_FLAG_PRIMARY AUDIO_OUTPUT_FLAG_FAST;
  mFlags := Z.lor AUDIO_OUTPUT_FLAG_PRIMARY AUDIO_OUTPUT_FLAG_FAST;
  mFormat := AUDIO_FORMAT_PCM_16_BIT;
  mLatency := 10;
  mOutput1 := None;
  mOutput2 := None;
  mPatchHandle := AUDIO_PATCH_HANDLE_NONE;
  mActiveCount stream := if bool_decide (stream = AUDIO_STREAM_RING) then 1 else 0;
  mMuteCount stream := 0;
  mStrategyMutedByDevice strategy := false;
  mFixedVolume dev := false;
  mClients := [mkTrackClient 12 AUDIO_STREAM_RING STRATEGY_SONIFICATION 0 true]
|}.

(** The primary output while idle. *)
Definition idle_output : AudioOutputDescriptor := {|
  mIoHandle := 2;
  mModuleHandle := 10;
  mDevice := AUDIO_DEVICE_OUT_SPEAKER;
  mSupportedDevices := 7;
  mProfileFlags := Z.lor AUDIO_OUTPUT_FLAG_PRIMARY AUDIO_OUTPUT_FLAG_FAST;
  mFlags := Z.lor AUDIO_OUTPUT_FLAG_PRIMARY AUDIO_OUTPUT_FLAG_FAST;
  mFormat := AUDIO_FORMAT_PCM_16_BIT;
  mLatency := 10;
  mOutput1 := None;
  mOutput2 := None;
  mPatchHandle := AUDIO_PATCH_HANDLE_NONE;
  mActiveCount stream := 0;
  mMuteCount stream := 0;
  mStrategyMutedByDevice strategy := false;
  mFixedVolume dev := false;
  mClients := []
|}.

(** An output on which the voice call stream is muted once. *)
Definition muted_call_output : AudioOutputDescriptor := {|
  mIoHandle := 1;
  mModuleHandle := 10;
  mDevice := AUDIO_DEVICE_OUT_EARPIECE;
  mSupportedDevices := 7;
  mProfileFlags := AUDIO_OUTPUT_FLAG_PRIMARY;
  mFlags := AUDIO_OUTPUT_FLAG_PRIMARY;
  mFormat := AUDIO_FORMAT_PCM_16_BIT;
  mLatency := 10;
  mOutput1 := None;
  mOutput2 := None;
  mPatchHandle := AUDIO_PATCH_HANDLE_NONE;
  mActiveCount stream := 0;
  mMuteCount stream := if bool_decide (stream = AUDIO_STREAM_VOICE_CALL) then 1 else 0;
  mStrategyMutedByDevice strategy := false;
  mFixedVolume dev := false;
  mClients := []
|}.

Definition manager (outputs : list AudioOutputDescriptor)
    (inputs : list AudioInputDescriptor) (patches : gmap Z AudioPatch)
    (e : Engine) (t : ClientInterface) : AudioPolicyManager := {|
  mOutputs := outputs;
  mInputs := inputs;
  mAudioPatches := patches;
  mAvailableOutputDevices := [speaker; headset];
  mAvailableInputDevices := [];
  mDeviceForStrategy := engine_getDeviceForStrategy e;
  mUidCached := 1041;
  mAudioPortGeneration := 1;
  mLastVoiceVolume := -1;
  mCallTxPatch := None;
  mSoundTriggerSupportsConcurrentCapture := false;
  mNextPatchHandle := 8;
  mEngine := e;
  mVolumeCurves := curves;
  mpClientInterface := t;
  mTrace := []
|}.

(** Music on the deep-buffer output, nothing on the primary output. *)
Definition playing_music : AudioPolicyManager :=
  manager [music_output; idle_output] [] ∅ engine transport.

(** Music on the deep-buffer output while a ringtone plays on the primary
    output of the same module. *)
Definition music_and_ring : AudioPolicyManager :=
  manager [music_output; ring_output] [] ∅ engine transport.

(** An idle output while communication is forced to SCO. *)
Definition idle_on_sco : AudioPolicyManager :=
  manager [idle_output] [] ∅ engine_sco transport.

(** The voice call stream muted while communication is forced to SCO. *)
Definition muted_call_on_sco : AudioPolicyManager :=
  manager [muted_call_output] [] ∅ engine_sco transport.

(** The record of a patch between the deep-buffer output and the speaker. *)
Definition speaker_patch : AudioPatch :=
  mkAudioPatch 7 (mkPatch [MixPort 10 1] [DevicePort 501 10 AUDIO_DEVICE_OUT_SPEAKER])
    1041 1007.

Definition patched_music_output : AudioOutputDescriptor :=
  set_mPatchHandle music_output 7.

(** Music playing through an installed patch. *)
Definition patched_music : AudioPolicyManager :=
  manager [patched_music_output; idle_output] [] {[ 7 := speaker_patch ]} engine transport.

Definition headset_patch : audio_patch :=
  mkPatch [MixPort 10 1] [DevicePort 502 10 AUDIO_DEVICE_OUT_WIRED_HEADSET].

(** An input on which a HOTWORD client of session 7 captures, and which has
    preempted session 9. *)
Definition hotword_input : AudioInputDescriptor := {|
  in_mIoHandle := 21;
  in_mId := 121;
  in_mModuleHandle := 10;
  in_mDevice := AUDIO_DEVICE_IN_BUILTIN_MIC;
  in_mProfileFlags := 0;
  in_mPatchHandle := AUDIO_PATCH_HANDLE_NONE;
  in_isSoundTrigger := true;
  in_startStatus := NO_ERROR;
  in_mPreemptedSessions := [9];
  in_mClients := [mkRecordClient 31 7 AUDIO_SOURCE_HOTWORD 0 true false]
|}.

(** An input on which a microphone client of session 7 captures. *)
Definition mic_input : AudioInputDescriptor := {|
  in_mIoHandle := 21;
  in_mId := 121;
  in_mModuleHandle := 10;
  in_mDevice := AUDIO_DEVICE_IN_BUILTIN_MIC;
  in_mProfileFlags := 0;
  in_mPatchHandle := AUDIO_PATCH_HANDLE_NONE;
  in_isSoundTrigger := false;
  in_startStatus := NO_ERROR;
  in_mPreemptedSessions := [];
  in_mClients := [mkRecordClient 31 7 AUDIO_SOURCE_MIC 0 true false]
|}.

(** A second input to which a HOTWORD client of session 9 is attached, not
    started. *)
Definition new_hotword_client : RecordClientDescriptor :=
  mkRecordClient 32 9 AUDIO_SOURCE_HOTWORD 0 false false.

Definition new_hotword_input : AudioInputDescriptor := {|
  in_mIoHandle := 22;
  in_mId := 122;
  in_mModuleHandle := 10;
  in_mDevice := AUDIO_DEVICE_IN_BUILTIN_MIC;
  in_mProfileFlags := 0;
  in_mPatchHandle := AUDIO_PATCH_HANDLE_NONE;
  in_isSoundTrigger := true;
  in_startStatus := NO_ERROR;
  in_mPreemptedSessions := [];
  in_mClients := [new_hotword_client]
|}.

(** A HOTWORD request of session 9 while the other input captures HOTWORD and
    has preempted session 9. *)
Definition hotword_after_preemption : AudioPolicyManager :=
  manager [] [hotword_input; new_hotword_input] ∅ engine transport.

(** A HOTWORD request while the other input captures from the microphone. *)
Definition hotword_during_capture : AudioPolicyManager :=
  manager [] [mic_input; new_hotword_input] ∅ engine transport.

End Sample.

(** A manager over binary32 numbers with the index ranges of a handset:
    1 to 5 for the voice call, 0 to 15 for music, 0 to 7 for the others. *)
Module Sample32.

#[local] Existing Instance reference_header.
#[local] Existing Instance binary32_float.

Definition curves : VolumeCurves := {|
  canBeMuted stream := true;
  getVolumeIndex stream dev := 5;
  getVolumeIndexMin stream :=
    match stream with
    | AUDIO_STREAM_VOICE_CALL => 1
    | _ => 0
    end;
  getVolumeIndexMax stream :=
    match stream with
    | AUDIO_STREAM_VOICE_CALL => 5
    | AUDIO_STREAM_MUSIC => 15
    | _ => 7
    end
|}.

Definition transport : ClientInterface := {|
  createAudioPatch_answer trace patch afPatchHandle delayMs :=
    (NO_ERROR, afPatchHandle);
  releaseAudioPatch_answer trace afPatchHandle delayMs := NO_ERROR
|}.

(** No output is open. *)
Definition at_rest : AudioPolicyManager := {|
  mOutputs := [];
  mInputs := [];
  mAudioPatches := ∅;
  mAvailableOutputDevices := [];
  mAvailableInputDevices := [];
  mDeviceForStrategy := engine_getDeviceForStrategy Sample.engine;
  mUidCached := 1041;
  mAudioPortGeneration := 1;
  mLastVoiceVolume := f32_of_int (-1);
  mCallTxPatch := None;
  mSoundTriggerSupportsConcurrentCapture := false;
  mNextPatchHandle := 8;
  mEngine := Sample.engine;
  mVolumeCurves := curves;
  mpClientInterface := transport;
  mTrace := []
|}.

End Sample32.

(** [selectOutput] as the specification states it: among two candidates or
    more, the candidates that are neither duplicated nor direct are
    considered, whatever the requested format. *)
Definition selectOutput_as_specified {FL : CFloat} {PH : PolicyHeader}
    (m : AudioPolicyManager) (outputs : list audio_io_handle_t) (flags : Z)
    (format : audio_format_t) : option audio_io_handle_t :=
  match outputs with
  | [] => Some AUDIO_IO_HANDLE_NONE
  | [output] => Some output
  | first :: _ =>
      option_map
        (fun l => selectedOutput flags format first (List.filter mixable l))
        (candidates m outputs)
  end.

(** The refusal of [checkAndSetVolume] as the specification states it:
    whenever the VOICE_CALL volume is set while communication is forced to
    Bluetooth SCO, or the BLUETOOTH_SCO volume while it is not, the call
    returns [INVALID_OPERATION] and changes nothing. *)
Definition refusal_as_specified {FL : CFloat} {PH : PolicyHeader}
    (m : AudioPolicyManager) (stream : audio_stream_type_t) (index : Z)
    (output : audio_io_handle_t) (dev delayMs : Z) (force : bool) : Prop :=
  let forceUseForComm := getForceUse (mEngine m) AUDIO_POLICY_FORCE_FOR_COMMUNICATION in
  (stream = AUDIO_STREAM_VOICE_CALL /\ forceUseForComm = AUDIO_POLICY_FORCE_BT_SCO)
  \/ (stream = AUDIO_STREAM_BLUETOOTH_SCO /\ forceUseForComm <> AUDIO_POLICY_FORCE_BT_SCO) ->
  checkAndSetVolume m stream index output dev delayMs force = (m, INVALID_OPERATION).

(** ** Further operations of the manager

    Queries built on the device and output selection, the beacon mute
    bookkeeping and the routing of inputs. *)

(** The number of the stream type in [audio_stream_type_t]. *)
Definition stream_index (stream : audio_stream_type_t) : Z :=
  match stream with
  | AUDIO_STREAM_VOICE_CALL => 0
  | AUDIO_STREAM_SYSTEM => 1
  | AUDIO_STREAM_RING => 2
  | AUDIO_STREAM_MUSIC => 3
  | AUDIO_STREAM_ALARM => 4
  | AUDIO_STREAM_NOTIFICATION => 5
  | AUDIO_STREAM_BLUETOOTH_SCO => 6
  | AUDIO_STREAM_ENFORCED_AUDIBLE => 7
  | AUDIO_STREAM_DTMF => 8
  | AUDIO_STREAM_TTS => 9
  | AUDIO_STREAM_ACCESSIBILITY => 10
  | AUDIO_STREAM_REROUTING => 11
  | AUDIO_STREAM_PATCH => 12
  end.

(** [AUDIO_STREAM_PUBLIC_CNT = AUDIO_STREAM_ACCESSIBILITY + 1]. *)
Definition AUDIO_STREAM_PUBLIC_CNT : Z := 11.

Definition AUDIO_OUTPUT_FLAG_NONE : Z := 0.
Definition AUDIO_DEVICE_OUT_SPEAKER_SAFE : Z := 4194304.

Section Queries.
Context {FL : CFloat} {PH : PolicyHeader}.

(** [streamsMatchForvolume (stream1, stream2)]. *)
Definition streamsMatchForvolume (stream1 stream2 : audio_stream_type_t) : bool :=
  bool_decide (stream1 = stream2).

(** [getOutputsForDevice (device, openOutputs)]: the result is a
    [SortedVector], filled by sorted insertion. *)
Definition getOutputsForDevice (m : AudioPolicyManager) (device : audio_devices_t)
    (openOutputs : list AudioOutputDescriptor) : list audio_io_handle_t :=
  List.fold_left
    (fun outputs desc =>
       if Z.land device (supportedDevices m desc) =? device
       then sorted_add (mIoHandle desc) outputs
       else outputs)
    openOutputs [].

(** [getOutput (stream)]; the result is [None] when [selectOutput] meets a
    handle that is not registered. *)
Definition getOutput (m : AudioPolicyManager) (stream : audio_stream_type_t)
    : option audio_io_handle_t :=
  let strategy := getStrategy m stream in
  let device := getDeviceForStrategy m strategy false in
  let outputs := getOutputsForDevice m device (mOutputs m) in
  selectOutput m outputs AUDIO_OUTPUT_FLAG_NONE AUDIO_FORMAT_INVALID.

(** The inner loop of [getDevicesForStream]: the devices of the outputs on
    which the stream type is active are added to [activeDevices].  The
    handles come from the registry; one that is not registered is passed
    over. *)
Definition activeDevicesOn (m : AudioPolicyManager) (curStream : audio_stream_type_t)
    (outputs : list audio_io_handle_t) (activeDevices : audio_devices_t)
    : audio_devices_t :=
  List.fold_left
    (fun activeDevices output =>
       match valueFor (mOutputs m) output with
       | Some outputDesc =>
           if isStreamActive outputDesc curStream
           then Z.lor activeDevices (device m outputDesc)
           else activeDevices
       | None => activeDevices
       end)
    outputs activeDevices.

(** [getDevicesForStream (stream)]. *)
Definition getDevicesForStream (m : AudioPolicyManager) (stream : audio_stream_type_t)
    : audio_devices_t :=
  (* By checking the range of stream before calling getStrategy, we avoid
     getStrategy's behavior for invalid streams *)
  if (stream_index stream <? 0) || (AUDIO_STREAM_PUBLIC_CNT <=? stream_index stream)
  then AUDIO_DEVICE_NONE
  else
    let '(activeDevices, devices) :=
      List.fold_left
        (fun '(activeDevices, devices) curStream =>
           if negb (streamsMatchForvolume stream curStream)
           then (activeDevices, devices)
           else
             let curStrategy := getStrategy m curStream in
             let curDevices := getDeviceForStrategy m curStrategy false in
             (activeDevicesOn m curStream
                (getOutputsForDevice m curDevices (mOutputs m)) activeDevices,
              Z.lor devices curDevices))
        policy_streams (AUDIO_DEVICE_NONE, AUDIO_DEVICE_NONE) in
    (* Favor devices selected on active streams if any to report correct
       device in case of explicit device selection *)
    let devices :=
      if negb (activeDevices =? AUDIO_DEVICE_NONE) then activeDevices else devices in
    (* Filter SPEAKER_SAFE out of results, as AudioService doesn't know about
       it and doesn't really need to *)
    if negb (Z.land devices AUDIO_DEVICE_OUT_SPEAKER_SAFE =? 0)
    then Z.land (Z.lor devices AUDIO_DEVICE_OUT_SPEAKER)
           (Z.lnot AUDIO_DEVICE_OUT_SPEAKER_SAFE)
    else devices.

(** The outputs the loop of [selectOutput] has retained are candidates of
    the list [outputs]. *)
Definition selected_among (outputs : list audio_io_handle_t) (st : select_state)
    : Prop :=
  (outputForFlags st = AUDIO_IO_HANDLE_NONE \/ In (outputForFlags st) outputs)
  /\ (outputForFormat st = AUDIO_IO_HANDLE_NONE \/ In (outputForFormat st) outputs)
  /\ (outputForPrimary st = AUDIO_IO_HANDLE_NONE \/ In (outputForPrimary st) outputs).

End Queries.

(** ** Beacon mute

    The members of the manager that keep track of the mute of the beacon
    (the TTS stream type) while other playback is active. *)

(** The events [handleEventForBeacon] receives. *)
Inductive beacon_event :=
| STARTING_OUTPUT
| STARTING_BEACON
| STOPPING_OUTPUT
| STOPPING_BEACON.

Section Beacon.
Context {FL : CFloat} {PH : PolicyHeader}.

(** The manager with its beacon members; the two reference counts are
    [uint32_t]. *)
Record BeaconManager := mkBeaconManager {
  bm_base : AudioPolicyManager;
  mTtsOutputAvailable : bool;
  mBeaconMuteRefCount : Z;
  mBeaconPlayingRefCount : Z;
  mBeaconMuted : bool
}.

Definition set_bm_base (s : BeaconManager) (v : AudioPolicyManager) :=
  mkBeaconManager v (mTtsOutputAvailable s) (mBeaconMuteRefCount s)
    (mBeaconPlayingRefCount s) (mBeaconMuted s).

Definition set_mBeaconMuteRefCount (s : BeaconManager) (v : Z) :=
  mkBeaconManager (bm_base s) (mTtsOutputAvailable s) v
    (mBeaconPlayingRefCount s) (mBeaconMuted s).

Definition set_mBeaconPlayingRefCount (s : BeaconManager) (v : Z) :=
  mkBeaconManager (bm_base s) (mTtsOutputAvailable s) (mBeaconMuteRefCount s)
    v (mBeaconMuted s).

Definition set_mBeaconMuted (s : BeaconManager) (v : bool) :=
  mkBeaconManager (bm_base s) (mTtsOutputAvailable s) (mBeaconMuteRefCount s)
    (mBeaconPlayingRefCount s) v.

(** The body of the loop of [setBeaconMute], for the output at position [i]
    of [mOutputs]. *)
Definition muteBeaconOnOutput (mute : bool) (acc : AudioPolicyManager * Z) (i : nat)
    : AudioPolicyManager * Z :=
  let '(m, maxLatency) := acc in
  match nth_error (mOutputs m) i with
  | Some desc =>
      let m1 :=
        setStreamMute m AUDIO_STREAM_TTS mute (mIoHandle desc) 0 AUDIO_DEVICE_NONE in
      match nth_error (mOutputs m1) i with
      | Some desc1 =>
          let latency := u32 (latency m1 desc1 * 2) in
          (m1, if maxLatency <? latency then latency else maxLatency)
      | None => (m1, maxLatency)
      end
  | None => acc
  end.

(** [setBeaconMute (mute)]. *)
Definition setBeaconMute (s : BeaconManager) (mute : bool) : BeaconManager * Z :=
  (* keep track of muted state to avoid repeating mute/unmute operations *)
  if negb (Bool.eqb (mBeaconMuted s) mute) then
    (* mute/unmute AUDIO_STREAM_TTS on all outputs *)
    let '(m, maxLatency) :=
      List.fold_left (muteBeaconOnOutput mute)
        (seq 0 (length (mOutputs (bm_base s)))) (bm_base s, 0) in
    (set_mBeaconMuted (set_bm_base s m) mute, maxLatency)
  else (s, 0).

(** [handleEventForBeacon (event)]. *)
Definition handleEventForBeacon (s : BeaconManager) (event : beacon_event)
    : BeaconManager * Z :=
  (* skip beacon mute management if a dedicated TTS output is available *)
  if mTtsOutputAvailable s then (s, 0)
  else
    let s1 :=
      match event with
      | STARTING_OUTPUT =>
          set_mBeaconMuteRefCount s (u32 (mBeaconMuteRefCount s + 1))
      | STOPPING_OUTPUT =>
          if 0 <? mBeaconMuteRefCount s
          then set_mBeaconMuteRefCount s (mBeaconMuteRefCount s - 1)
          else s
      | STARTING_BEACON =>
          set_mBeaconPlayingRefCount s (u32 (mBeaconPlayingRefCount s + 1))
      | STOPPING_BEACON =>
          if 0 <? mBeaconPlayingRefCount s
          then set_mBeaconPlayingRefCount s (mBeaconPlayingRefCount s - 1)
          else s
      end in
    if 0 <? mBeaconMuteRefCount s1 then
      (* any playback causes beacon to be muted *)
      setBeaconMute s1 true
    else
      (* no other playback: unmute when beacon starts playing, mute when it
         stops *)
      setBeaconMute s1 (mBeaconPlayingRefCount s1 =? 0).

(** A run of beacon events. *)
Definition beacon_run (s : BeaconManager) (events : list beacon_event) : BeaconManager :=
  List.fold_left (fun s event => fst (handleEventForBeacon s event)) events s.

(** What one mute or unmute call does to the counter of the TTS stream type
    of a descriptor. *)
Definition beaconMuted (mute : bool) (d : AudioOutputDescriptor) : AudioOutputDescriptor :=
  if mute then
    set_mMuteCount d
      (array_set (mMuteCount d) AUDIO_STREAM_TTS (mMuteCount d AUDIO_STREAM_TTS + 1))
  else if mMuteCount d AUDIO_STREAM_TTS =? 0 then d
  else set_mMuteCount d
         (array_set (mMuteCount d) AUDIO_STREAM_TTS (mMuteCount d AUDIO_STREAM_TTS - 1)).

(** No two registered outputs share a handle: [mOutputs] is a keyed vector. *)
Definition handles_unique (m : AudioPolicyManager) : Prop :=
  NoDup (List.map mIoHandle (mOutputs m)).

(** The mute state [handleEventForBeacon] asks for: any other playback mutes
    the beacon, and so does the absence of a playing beacon. *)
Definition beacon_mute_wanted (s : BeaconManager) : bool :=
  (0 <? mBeaconMuteRefCount s) || (mBeaconPlayingRefCount s =? 0).

(** The mute of the beacon is accounted for in the counter of the TTS stream
    type of every output. *)
Definition beacon_accounted (s : BeaconManager) : Prop :=
  forall h d,
    valueFor (mOutputs (bm_base s)) h = Some d ->
    Z.b2z (mBeaconMuted s) <= mMuteCount d AUDIO_STREAM_TTS.

End Beacon.

(** ** Inputs: routing and closing *)

Section Inputs.
Context {FL : CFloat} {PH : PolicyHeader}.

(** [setInputDevice (input, device, force, patchHandle)]; the result is
    [None] when [input] is not registered, [mInputs.valueFor] then returning
    a null descriptor that is dereferenced. *)
Definition setInputDevice (m : AudioPolicyManager) (input : audio_io_handle_t)
    (dev : audio_devices_t) (force : bool)
    (patchHandle : option audio_patch_handle_t)
    : option (AudioPolicyManager * status_t) :=
  match inputFor (mInputs m) input with
  | None => None
  | Some inputDesc =>
      if negb (dev =? AUDIO_DEVICE_NONE)
         && (negb (dev =? in_mDevice inputDesc) || force)
      then
        let m1 := update_input m input (fun d => set_in_mDevice d dev) in
        let deviceList := getDevicesFromTypeMask (mAvailableInputDevices m1) dev in
        match deviceList with
        | [] => Some (m1, NO_ERROR)
        | first :: _ =>
            (* only one input device for now *)
            let patch :=
              mkPatch [devicePort first]
                [MixPort (in_mModuleHandle inputDesc) input] in
            let '(m2, r) := installPatch m1 patchHandle (InputRef input) patch 0 in
            Some (m2, ir_status r)
        end
      else Some (m, NO_ERROR)
  end.

(** The body of the loop of [closeAllInputs]: the patch of the input is
    released and its record removed, and the stream is closed. *)
Definition closeOneInput (acc : AudioPolicyManager * bool)
    (inputDesc : AudioInputDescriptor) : AudioPolicyManager * bool :=
  let '(m, patchRemoved) := acc in
  let '(m1, patchRemoved1) :=
    match indexOfKey (mAudioPatches m) (in_mPatchHandle inputDesc) with
    | Some (key, patchDesc) =>
        let m' := emit m (releaseAudioPatch_call (mAfPatchHandle patchDesc) 0) in
        (set_mAudioPatches m' (delete key (mAudioPatches m')), true)
    | None => (m, patchRemoved)
    end in
  (emit m1 (closeInput_call (in_mIoHandle inputDesc)), patchRemoved1).

(** [closeAllInputs ()]; the capture state reported to the sound trigger
    service is outside the model. *)
Definition closeAllInputs (m : AudioPolicyManager) : AudioPolicyManager :=
  let '(m1, patchRemoved) := List.fold_left closeOneInput (mInputs m) (m, false) in
  let m2 := set_mInputs m1 [] in
  let m3 := nextAudioPortGeneration m2 in
  if patchRemoved then emit m3 onAudioPatchListUpdate_call else m3.

(** The inputs a trace has closed, in order. *)
Definition closed_inputs (evs : list Event) : list audio_io_handle_t :=
  List.flat_map
    (fun e => match e with closeInput_call input => [input] | _ => [] end) evs.

(** The low-level patches a trace has released, in order. *)
Definition released_patches (evs : list Event) : list audio_patch_handle_t :=
  List.flat_map
    (fun e => match e with releaseAudioPatch_call h _ => [h] | _ => [] end) evs.

End Inputs.

(** ** Views of the state for the patch life cycle *)

Section PatchViews.
Context {FL : CFloat} {PH : PolicyHeader}.

(** The calls of a trace that concern patches. *)
Definition is_patch_event (e : Event) : bool :=
  match e with
  | createAudioPatch_call _ _ _ => true
  | releaseAudioPatch_call _ _ => true
  | onAudioPatchListUpdate_call => true
  | _ => false
  end.

(** The patches a trace has asked the transport to create, in order. *)
Definition created_patches (evs : list Event) : list audio_patch :=
  List.flat_map
    (fun e => match e with createAudioPatch_call patch _ _ => [patch] | _ => [] end) evs.

(** A descriptor without its mute bookkeeping. *)
Definition erase_mute (d : AudioOutputDescriptor) : AudioOutputDescriptor :=
  mkOutput (mIoHandle d) (mModuleHandle d) (mDevice d) (mSupportedDevices d)
    (mProfileFlags d) (mFlags d) (mFormat d) (mLatency d) (mOutput1 d)
    (mOutput2 d) (mPatchHandle d) (mActiveCount d) (fun _ => 0) (fun _ => false)
    (mFixedVolume d) (mClients d).

(** [patch_core] keeps everything but the mute bookkeeping of the outputs,
    the last voice volume sent and the calls of the trace that do not concern
    patches. *)
Definition patch_core (m : AudioPolicyManager) : AudioPolicyManager :=
  mkManager (List.map erase_mute (mOutputs m)) (mInputs m) (mAudioPatches m)
    (mAvailableOutputDevices m) (mAvailableInputDevices m)
    (mDeviceForStrategy m) (mUidCached m) (mAudioPortGeneration m) float_one
    (mCallTxPatch m) (mSoundTriggerSupportsConcurrentCapture m)
    (mNextPatchHandle m) (mEngine m) (mVolumeCurves m) (mpClientInterface m)
    (List.filter is_patch_event (mTrace m)).

(** The patch handle of an output is [AUDIO_PATCH_HANDLE_NONE] or names a
    record of the patch collection. *)
Definition patch_attached (m : AudioPolicyManager) (output : audio_io_handle_t) : Prop :=
  getPatchHandle m (OutputRef output) = AUDIO_PATCH_HANDLE_NONE
  \/ is_Some (mAudioPatches m !! getPatchHandle m (OutputRef output)).

(** A patch from the mix of an output to between one and
    [AUDIO_PATCH_PORTS_MAX] device sinks. *)
Definition output_patch (outputDesc : AudioOutputDescriptor) (patch : audio_patch)
    : Prop :=
  sources patch = [MixPort (mModuleHandle outputDesc) (mIoHandle outputDesc)]
  /\ (0 < length (sinks patch) <= AUDIO_PATCH_PORTS_MAX)%nat
  /\ forall sink, In sink (sinks patch) ->
       exists id hw_module type, sink = DevicePort id hw_module type.

End PatchViews.

Section RoutingStages.
Context {FL : CFloat} {PH : PolicyHeader}.

(** The patch [setOutputDevice] builds for an output and a list of sink
    devices. *)
Definition outputPatch (outputDesc : AudioOutputDescriptor) (output : audio_io_handle_t)
    (deviceList : list DeviceDescriptor) : audio_patch :=
  mkPatch [MixPort (mModuleHandle outputDesc) output]
    (List.map devicePort (firstn AUDIO_PATCH_PORTS_MAX deviceList)).

(** What the routing step of [setOutputDevice] does to the state [m2] it
    starts from: nothing, a release of the patch of the output, or the
    installation of a patch to a list of devices that is not empty. *)
Definition routing_step (m2 : AudioPolicyManager) (outputDesc : AudioOutputDescriptor)
    (output : audio_io_handle_t) (delayMs : Z)
    (patchHandle : option audio_patch_handle_t) (m3 : AudioPolicyManager) : Prop :=
  m3 = m2
  \/ m3 = fst (resetOutputDevice m2 output delayMs None)
  \/ exists first rest,
       m3 = fst (installPatch m2 patchHandle (OutputRef output)
                   (outputPatch outputDesc output (first :: rest)) delayMs).

End RoutingStages.

(** ** The strategies muted by device *)

Section MuteFlags.
Context {FL : CFloat} {PH : PolicyHeader}.

(** A descriptor without its mute counters. *)
Definition erase_counts (d : AudioOutputDescriptor) : AudioOutputDescriptor :=
  mkOutput (mIoHandle d) (mModuleHandle d) (mDevice d) (mSupportedDevices d)
    (mProfileFlags d) (mFlags d) (mFormat d) (mLatency d) (mOutput1 d)
    (mOutput2 d) (mPatchHandle d) (mActiveCount d) (fun _ => 0)
    (mStrategyMutedByDevice d) (mFixedVolume d) (mClients d).

(** [count_core] keeps everything but the mute counters of the outputs, the
    last voice volume sent and the trace. *)
Definition count_core (m : AudioPolicyManager) : AudioPolicyManager :=
  mkManager (List.map erase_counts (mOutputs m)) (mInputs m) (mAudioPatches m)
    (mAvailableOutputDevices m) (mAvailableInputDevices m)
    (mDeviceForStrategy m) (mUidCached m) (mAudioPortGeneration m) float_one
    (mCallTxPatch m) (mSoundTriggerSupportsConcurrentCapture m)
    (mNextPatchHandle m) (mEngine m) (mVolumeCurves m) (mpClientInterface m) [].

(** The value of [mute] in the first loop of [checkDeviceMuteStrategies],
    for strategy [i] on the output. *)
Definition muteByDevice (m : AudioPolicyManager) (outputDesc : AudioOutputDescriptor)
    (i : routing_strategy) : bool :=
  let dev := device m outputDesc in
  let shouldMute := isActive outputDesc && (2 <=? popcount dev) in
  let curDevice :=
    Z.land (getDeviceForStrategy m i false) (supportedDevices m outputDesc) in
  shouldMute && negb (Z.land curDevice dev =? 0) && negb (curDevice =? dev).

End MuteFlags.

(** ** Surround formats and channel masks *)

(** Values of [system/audio-base.h] and [system/audio_policy.h]. *)
Definition AUDIO_FORMAT_E_AC3 : audio_format_t := 167772160.
Definition AUDIO_FORMAT_DTS : audio_format_t := 184549376.
Definition AUDIO_FORMAT_DTS_HD : audio_format_t := 201326592.
Definition AUDIO_FORMAT_IEC61937 : audio_format_t := 218103808.
Definition AUDIO_CHANNEL_OUT_STEREO : Z := 3.
Definition AUDIO_CHANNEL_OUT_5POINT1 : Z := 63.
Definition AUDIO_POLICY_FORCE_ENCODED_SURROUND_NEVER : audio_policy_forced_cfg_t :=
  AUDIO_POLICY_FORCE_OTHER 13.
Definition AUDIO_POLICY_FORCE_ENCODED_SURROUND_ALWAYS : audio_policy_forced_cfg_t :=
  AUDIO_POLICY_FORCE_OTHER 14.
Definition AUDIO_POLICY_FORCE_ENCODED_SURROUND_MANUAL : audio_policy_forced_cfg_t :=
  AUDIO_POLICY_FORCE_OTHER 15.

(** [Vector::removeAt (index)]. *)
Definition removeAt (items : list Z) (index : nat) : list Z :=
  firstn index items ++ skipn (S index) items.

(** The formats of the second and third case groups of the switch of
    [filterSurroundFormats]. *)
Definition is_other_surround (format : audio_format_t) : bool :=
  (format =? AUDIO_FORMAT_E_AC3) || (format =? AUDIO_FORMAT_DTS)
  || (format =? AUDIO_FORMAT_DTS_HD).

Definition is_surround (format : audio_format_t) : bool :=
  (format =? AUDIO_FORMAT_AC3) || is_other_surround format
  || (format =? AUDIO_FORMAT_IEC61937).

(** The three flags of [filterSurroundFormats]. *)
Record SurroundSupport := mkSurroundSupport {
  supportsAC3 : bool;
  supportsOtherSurround : bool;
  supportsIEC61937 : bool
}.

Section Surround.

(** [add] of the format and channel mask vectors, declared outside this
    file. *)
Variable add : Z -> list Z -> list Z.

(** The loop of [filterSurroundFormats] that analyses the original support.
    After a removal the index is decremented and incremented again, so the
    next turn reads the same position. *)
Fixpoint analyzeFormats (fuel : nat) (forceUse : audio_policy_forced_cfg_t)
    (formats : list audio_format_t) (formatIndex : nat) (s : SurroundSupport)
    : list audio_format_t * SurroundSupport :=
  match fuel with
  | O => (formats, s)
  | S fuel =>
      match nth_error formats formatIndex with
      | None => (formats, s)
      | Some format =>
          if format =? AUDIO_FORMAT_AC3 then
            analyzeFormats fuel forceUse formats (S formatIndex)
              (mkSurroundSupport true (supportsOtherSurround s) (supportsIEC61937 s))
          else if is_other_surround format then
            let s' := mkSurroundSupport (supportsAC3 s) true (supportsIEC61937 s) in
            if bool_decide (forceUse = AUDIO_POLICY_FORCE_ENCODED_SURROUND_ALWAYS)
            then analyzeFormats fuel forceUse (removeAt formats formatIndex) formatIndex s'
            else analyzeFormats fuel forceUse formats (S formatIndex) s'
          else if format =? AUDIO_FORMAT_IEC61937 then
            analyzeFormats fuel forceUse formats (S formatIndex)
              (mkSurroundSupport (supportsAC3 s) (supportsOtherSurround s) true)
          else analyzeFormats fuel forceUse formats (S formatIndex) s
      end
  end.

(** The loop of [filterSurroundFormats] that removes the surround formats. *)
Fixpoint removeSurroundFormats (fuel : nat) (formats : list audio_format_t)
    (formatIndex : nat) : list audio_format_t :=
  match fuel with
  | O => formats
  | S fuel =>
      match nth_error formats formatIndex with
      | None => formats
      | Some format =>
          if is_surround format
          then removeSurroundFormats fuel (removeAt formats formatIndex) formatIndex
          else removeSurroundFormats fuel formats (S formatIndex)
      end
  end.

(** [filterSurroundFormats (formatsPtr)]: the formats left in the vector and
    the new [mSurroundFormats].  [forceUse] is the answer of the engine for
    [AUDIO_POLICY_FORCE_FOR_ENCODED_SURROUND], [surroundFormats] is
    [mConfig.getSurroundFormats ()]. *)
Definition filterSurroundFormats (forceUse : audio_policy_forced_cfg_t)
    (surroundFormats : gmap audio_format_t (list audio_format_t))
    (mSurroundFormats : gset audio_format_t) (formats : list audio_format_t)
    : list audio_format_t * gset audio_format_t :=
  let alwaysForceAC3 := true in
  if bool_decide (forceUse = AUDIO_POLICY_FORCE_ENCODED_SURROUND_MANUAL) then
    let formats1 :=
      List.fold_left (fun formats it => add it formats) (elements mSurroundFormats) [] in
    (add AUDIO_FORMAT_IEC61937 formats1, mSurroundFormats)
  else
    let '(formats1, s) :=
      analyzeFormats (length formats) forceUse formats 0
        (mkSurroundSupport false false false) in
    if bool_decide (forceUse = AUDIO_POLICY_FORCE_ENCODED_SURROUND_NEVER) then
      if supportsAC3 s || supportsOtherSurround s || supportsIEC61937 s
      then (removeSurroundFormats (length formats1) formats1 0, ∅)
      else (formats1, ∅)
    else
      let '(formats2, supportsAC3) :=
        if (alwaysForceAC3
            || bool_decide (forceUse = AUDIO_POLICY_FORCE_ENCODED_SURROUND_ALWAYS))
           && negb (supportsAC3 s)
        then (add AUDIO_FORMAT_AC3 formats1, true)
        else (formats1, supportsAC3 s) in
      let '(formats3, supportsOtherSurround) :=
        if bool_decide (forceUse = AUDIO_POLICY_FORCE_ENCODED_SURROUND_ALWAYS)
        then (add AUDIO_FORMAT_DTS_HD
                (add AUDIO_FORMAT_DTS (add AUDIO_FORMAT_E_AC3 formats2)), true)
        else (formats2, supportsOtherSurround s) in
      let formats4 :=
        if (supportsAC3 || supportsOtherSurround) && negb (supportsIEC61937 s)
        then add AUDIO_FORMAT_IEC61937 formats3
        else formats3 in
      (formats4,
       List.fold_left
         (fun (enabled : gset audio_format_t) format =>
            match surroundFormats !! format with
            | Some _ => {[ format ]} ∪ enabled
            | None => enabled
            end)
         formats4 ∅).

(** The loop of [filterSurroundChannelMasks] for the NEVER setting. *)
Fixpoint removeSurroundChannelMasks (fuel : nat) (channelMasks : list Z)
    (maskIndex : nat) : list Z :=
  match fuel with
  | O => channelMasks
  | S fuel =>
      match nth_error channelMasks maskIndex with
      | None => channelMasks
      | Some channelMask =>
          if negb (Z.land channelMask (Z.lnot AUDIO_CHANNEL_OUT_STEREO) =? 0)
          then removeSurroundChannelMasks fuel (removeAt channelMasks maskIndex) maskIndex
          else removeSurroundChannelMasks fuel channelMasks (S maskIndex)
      end
  end.

(** [filterSurroundChannelMasks (channelMasksPtr)]. *)
Definition filterSurroundChannelMasks (forceUse : audio_policy_forced_cfg_t)
    (channelMasks : list Z) : list Z :=
  if bool_decide (forceUse = AUDIO_POLICY_FORCE_ENCODED_SURROUND_NEVER) then
    removeSurroundChannelMasks (length channelMasks) channelMasks 0
  else if bool_decide (forceUse = AUDIO_POLICY_FORCE_ENCODED_SURROUND_ALWAYS)
          || bool_decide (forceUse = AUDIO_POLICY_FORCE_ENCODED_SURROUND_MANUAL) then
    let supports5dot1 :=
      existsb (fun channelMask =>
                 Z.land channelMask AUDIO_CHANNEL_OUT_5POINT1 =? AUDIO_CHANNEL_OUT_5POINT1)
        channelMasks in
    if negb supports5dot1 then add AUDIO_CHANNEL_OUT_5POINT1 channelMasks
    else channelMasks
  else channelMasks.

(** What the theorems ask of [add]: the item joins the items present. *)
Definition add_inserts : Prop :=
  forall item items x, In x (add item items) <-> x = item \/ In x items.

End Surround.

(** [Vector::add]: the item is appended. *)
Definition vector_add (item : Z) (items : list Z) : list Z := items ++ [item].

(** ** Further sample states *)

Module Sample2.

#[local] Existing Instance reference_header.
#[local] Existing Instance integer_float.

(** The built-in microphone. *)
Definition builtin_mic : DeviceDescriptor :=
  mkDevice 503 AUDIO_DEVICE_IN_BUILTIN_MIC "" 10.

(** An open input with one client, not routed yet. *)
Definition idle_input : AudioInputDescriptor := {|
  in_mIoHandle := 21;
  in_mId := 121;
  in_mModuleHandle := 10;
  in_mDevice := AUDIO_DEVICE_NONE;
  in_mProfileFlags := 0;
  in_mPatchHandle := AUDIO_PATCH_HANDLE_NONE;
  in_isSoundTrigger := false;
  in_startStatus := NO_ERROR;
  in_mPreemptedSessions := [];
  in_mClients := [mkRecordClient 31 7 AUDIO_SOURCE_MIC 0 false false]
|}.

(** The idle input open while the microphone is available. *)
Definition capture_ready : AudioPolicyManager := {|
  mOutputs := [Sample.idle_output];
  mInputs := [idle_input];
  mAudioPatches := ∅;
  mAvailableOutputDevices := [Sample.speaker; Sample.headset];
  mAvailableInputDevices := [builtin_mic];
  mDeviceForStrategy := engine_getDeviceForStrategy Sample.engine;
  mUidCached := 1041;
  mAudioPortGeneration := 1;
  mLastVoiceVolume := -1;
  mCallTxPatch := None;
  mSoundTriggerSupportsConcurrentCapture := false;
  mNextPatchHandle := 8;
  mEngine := Sample.engine;
  mVolumeCurves := Sample.curves;
  mpClientInterface := Sample.transport;
  mTrace := []
|}.

(** The beacon bookkeeping at rest while music plays, without a dedicated
    TTS output. *)
Definition beacon_at_rest : BeaconManager :=
  mkBeaconManager Sample.playing_music false 0 0 false.

(** An output whose two active clients both ask for the headset. *)
Definition routed_output : AudioOutputDescriptor := {|
  mIoHandle := 1;
  mModuleHandle := 10;
  mDevice := AUDIO_DEVICE_OUT_SPEAKER;
  mSupportedDevices := 7;
  mProfileFlags := AUDIO_OUTPUT_FLAG_DEEP_BUFFER;
  mFlags := AUDIO_OUTPUT_FLAG_DEEP_BUFFER;
  mFormat := AUDIO_FORMAT_PCM_16_BIT;
  mLatency := 20;
  mOutput1 := None;
  mOutput2 := None;
  mPatchHandle := AUDIO_PATCH_HANDLE_NONE;
  mActiveCount stream := if bool_decide (stream = AUDIO_STREAM_MUSIC) then 2 else 0;
  mMuteCount stream := 0;
  mStrategyMutedByDevice strategy := false;
  mFixedVolume dev := false;
  mClients := [mkTrackClient 11 AUDIO_STREAM_MUSIC STRATEGY_MEDIA 502 true;
               mkTrackClient 13 AUDIO_STREAM_MUSIC STRATEGY_MEDIA 502 true]
|}.

End Sample2.

(** * Properties *)

(** Boolean comparisons in the context, turned into propositions. *)
Ltac zbool :=
  repeat match goal with
  | H : (_ =? _) = true |- _ => apply Z.eqb_eq in H
  | H : (_ =? _) = false |- _ => apply Z.eqb_neq in H
  | H : (_ <? _) = true |- _ => apply Z.ltb_lt in H
  | H : (_ <? _) = false |- _ => apply Z.ltb_ge in H
  | H : (_ <=? _) = true |- _ => apply Z.leb_le in H
  | H : (_ <=? _) = false |- _ => apply Z.leb_gt in H
  end.

(** ** The registries *)

Section RegistryFacts.
Context {FL : CFloat} {PH : PolicyHeader}.

Lemma valueFor_map_same (f : AudioOutputDescriptor -> AudioOutputDescriptor)
    (outputs : list AudioOutputDescriptor) (h : Z) (d : AudioOutputDescriptor) :
  (forall x, mIoHandle (f x) = mIoHandle x) ->
  valueFor outputs h = Some d ->
  valueFor (List.map (fun x => if mIoHandle x =? h then f x else x) outputs) h
  = Some (f d).
Proof.
  intros Hf. unfold valueFor.
  induction outputs as [|x xs IH]; simpl; [discriminate|].
  destruct (mIoHandle x =? h) eqn:E.
  - intros [= ->]. rewrite Hf, E. reflexivity.
  - rewrite E. exact IH.
Qed.

Lemma valueFor_map_other (f : AudioOutputDescriptor -> AudioOutputDescriptor)
    (outputs : list AudioOutputDescriptor) (h h' : Z) :
  (forall x, mIoHandle (f x) = mIoHandle x) ->
  h' <> h ->
  valueFor (List.map (fun x => if mIoHandle x =? h then f x else x) outputs) h'
  = valueFor outputs h'.
Proof.
  intros Hf Hne. unfold valueFor.
  induction outputs as [|x xs IH]; simpl; [reflexivity|].
  destruct (mIoHandle x =? h) eqn:E.
  - rewrite Hf. apply Z.eqb_eq in E.
    destruct (mIoHandle x =? h') eqn:E'; [apply Z.eqb_eq in E'; congruence|].
    exact IH.
  - destruct (mIoHandle x =? h'); [reflexivity|exact IH].
Qed.

Lemma valueFor_map_none (f : AudioOutputDescriptor -> AudioOutputDescriptor)
    (outputs : list AudioOutputDescriptor) (h : Z) :
  valueFor outputs h = None ->
  List.map (fun x => if mIoHandle x =? h then f x else x) outputs = outputs.
Proof.
  unfold valueFor.
  induction outputs as [|x xs IH]; simpl; [reflexivity|].
  destruct (mIoHandle x =? h) eqn:E; [discriminate|].
  intros Hn. rewrite IH by exact Hn. reflexivity.
Qed.

Lemma valueFor_handle (outputs : list AudioOutputDescriptor) (h : Z)
    (d : AudioOutputDescriptor) :
  valueFor outputs h = Some d -> mIoHandle d = h.
Proof.
  unfold valueFor. intros Hf. apply find_some in Hf as [_ Hf].
  apply Z.eqb_eq in Hf. exact Hf.
Qed.

Lemma valueFor_In (outputs : list AudioOutputDescriptor) (h : Z)
    (d : AudioOutputDescriptor) :
  valueFor outputs h = Some d -> In d outputs.
Proof. unfold valueFor. intros Hf. apply find_some in Hf as [Hin _]. exact Hin. Qed.

End RegistryFacts.

(** ** Volume application and mute counters *)

Section VolumeFacts.
Context {FL : CFloat} {PH : PolicyHeader}.

Lemma checkAndSetVolume_frame m stream index output dev delayMs force :
  forget_trace (fst (checkAndSetVolume m stream index output dev delayMs force))
  = forget_trace m.
Proof.
  unfold checkAndSetVolume.
  destruct (valueFor (mOutputs m) output) as [d|]; [|reflexivity].
  destruct (negb (mMuteCount d stream =? 0)); [reflexivity|].
  match goal with |- context [if ?c then (m, INVALID_OPERATION) else _] =>
    destruct c end; [reflexivity|].
  cbn [fst].
  destruct (is_voice_stream stream); [|reflexivity].
  match goal with |- context [if negb ?c then _ else _] => destruct c end;
    reflexivity.
Qed.

Lemma forget_trace_mOutputs m m' :
  forget_trace m' = forget_trace m -> mOutputs m' = mOutputs m.
Proof. intros H. apply (f_equal mOutputs) in H. exact H. Qed.

Lemma forget_trace_mEngine m m' :
  forget_trace m' = forget_trace m -> mEngine m' = mEngine m.
Proof. intros H. apply (f_equal mEngine) in H. exact H. Qed.

Lemma forget_trace_mVolumeCurves m m' :
  forget_trace m' = forget_trace m -> mVolumeCurves m' = mVolumeCurves m.
Proof. intros H. apply (f_equal mVolumeCurves) in H. exact H. Qed.

Lemma forget_trace_mAudioPatches m m' :
  forget_trace m' = forget_trace m -> mAudioPatches m' = mAudioPatches m.
Proof. intros H. apply (f_equal mAudioPatches) in H. exact H. Qed.

Lemma checkAndSetVolume_trace m stream index output dev delayMs force :
  mTrace (fst (checkAndSetVolume m stream index output dev delayMs force)) = mTrace m
  \/ exists evs,
       volume_events stream index output delayMs force evs /\
       mTrace (fst (checkAndSetVolume m stream index output dev delayMs force))
       = mTrace m ++ evs.
Proof.
  unfold checkAndSetVolume.
  destruct (valueFor (mOutputs m) output) as [d|]; [|left; reflexivity].
  destruct (negb (mMuteCount d stream =? 0)); [left; reflexivity|].
  match goal with |- context [if ?c then (m, INVALID_OPERATION) else _] =>
    destruct c end; [left; reflexivity|].
  right. cbn [fst].
  set (dev' := if dev =? AUDIO_DEVICE_NONE then device m d else dev).
  set (vol := if _ : bool then ZeroDb else computeVolume stream index dev').
  assert (Hvol : vol = computeVolume stream index dev' \/ vol = ZeroDb).
  { subst vol. match goal with |- context [if ?c then ZeroDb else _] =>
      destruct c end; auto. }
  destruct (is_voice_stream stream).
  - match goal with |- context [if negb ?c then _ else _] => destruct c end; cbn.
    + eexists. split; [exists vol, dev'; split; [exact Hvol|left; reflexivity]|].
      reflexivity.
    + eexists. split; [exists vol, dev'; split; [exact Hvol|right; eexists; reflexivity]|].
      rewrite <- app_assoc. reflexivity.
  - eexists. split; [exists vol, dev'; split; [exact Hvol|left; reflexivity]|].
    reflexivity.
Qed.

End VolumeFacts.

(** ** Patch handles of descriptors *)

Section PatchHandleFacts.
Context {FL : CFloat} {PH : PolicyHeader}.

Lemma inputFor_map_same (f : AudioInputDescriptor -> AudioInputDescriptor)
    (inputs : list AudioInputDescriptor) (h : Z) (d : AudioInputDescriptor) :
  (forall x, in_mIoHandle (f x) = in_mIoHandle x) ->
  inputFor inputs h = Some d ->
  inputFor (List.map (fun x => if in_mIoHandle x =? h then f x else x) inputs) h
  = Some (f d).
Proof.
  intros Hf. unfold inputFor.
  induction inputs as [|x xs IH]; simpl; [discriminate|].
  destruct (in_mIoHandle x =? h) eqn:E.
  - intros [= ->]. rewrite Hf, E. reflexivity.
  - rewrite E. exact IH.
Qed.

Lemma inputFor_map_none (f : AudioInputDescriptor -> AudioInputDescriptor)
    (inputs : list AudioInputDescriptor) (h : Z) :
  inputFor inputs h = None ->
  List.map (fun x => if in_mIoHandle x =? h then f x else x) inputs = inputs.
Proof.
  unfold inputFor.
  induction inputs as [|x xs IH]; simpl; [reflexivity|].
  destruct (in_mIoHandle x =? h) eqn:E; [discriminate|].
  intros Hn. rewrite IH by exact Hn. reflexivity.
Qed.

Lemma getPatchHandle_setPatchHandle m io handle :
  io_registered m io ->
  getPatchHandle (setPatchHandle m io handle) io = handle.
Proof.
  destruct io as [h|h]; intros [d Hd];
    unfold getPatchHandle, setPatchHandle.
  - unfold update_output. cbn [mOutputs set_mOutputs].
    rewrite (valueFor_map_same (fun d => set_mPatchHandle d handle) _ _ _
               (fun _ => eq_refl) Hd).
    reflexivity.
  - unfold update_input. cbn [mInputs set_mInputs].
    rewrite (inputFor_map_same (fun d => set_in_mPatchHandle d handle) _ _ _
               (fun _ => eq_refl) Hd).
    reflexivity.
Qed.

Lemma getPatchHandle_cleared m io :
  getPatchHandle (setPatchHandle m io AUDIO_PATCH_HANDLE_NONE) io
  = AUDIO_PATCH_HANDLE_NONE.
Proof.
  destruct io as [h|h]; unfold getPatchHandle, setPatchHandle.
  - unfold update_output. cbn [mOutputs set_mOutputs].
    destruct (valueFor (mOutputs m) h) as [d|] eqn:Hd.
    + rewrite (valueFor_map_same (fun d => set_mPatchHandle d AUDIO_PATCH_HANDLE_NONE)
                 _ _ _ (fun _ => eq_refl) Hd).
      reflexivity.
    + rewrite valueFor_map_none by exact Hd. rewrite Hd. reflexivity.
  - unfold update_input. cbn [mInputs set_mInputs].
    destruct (inputFor (mInputs m) h) as [d|] eqn:Hd.
    + rewrite (inputFor_map_same (fun d => set_in_mPatchHandle d AUDIO_PATCH_HANDLE_NONE)
                 _ _ _ (fun _ => eq_refl) Hd).
      reflexivity.
    + rewrite inputFor_map_none by exact Hd. rewrite Hd. reflexivity.
Qed.

Lemma setPatchHandle_mAudioPatches m io handle :
  mAudioPatches (setPatchHandle m io handle) = mAudioPatches m.
Proof. destruct io; reflexivity. Qed.

Lemma setPatchHandle_mTrace m io handle :
  mTrace (setPatchHandle m io handle) = mTrace m.
Proof. destruct io; reflexivity. Qed.

Lemma indexOfKey_Some (patches : gmap Z AudioPatch) handle patchDesc :
  patches !! handle = Some patchDesc ->
  indexOfKey patches handle = Some (handle, patchDesc).
Proof. intros H. unfold indexOfKey. rewrite H. reflexivity. Qed.

Lemma indexOfKey_None (patches : gmap Z AudioPatch) handle :
  patches !! handle = None -> indexOfKey patches handle = None.
Proof. intros H. unfold indexOfKey. rewrite H. reflexivity. Qed.

End PatchHandleFacts.

(** ** What mute, volume and patch operations leave untouched *)

Section CoreFacts.
Context {FL : CFloat} {PH : PolicyHeader}.

Lemma routing_core_forget_trace m m' :
  forget_trace m' = forget_trace m -> routing_core m' = routing_core m.
Proof.
  intros H. change (routing_core (forget_trace m') = routing_core (forget_trace m)).
  rewrite H. reflexivity.
Qed.

Lemma routing_core_emit m e : routing_core (emit m e) = routing_core m.
Proof. reflexivity. Qed.

Lemma routing_core_update_output m h f :
  (forall d, erase_output (f d) = erase_output d) ->
  routing_core (update_output m h f) = routing_core m.
Proof.
  intros Hf. unfold routing_core, update_output. cbn.
  f_equal. rewrite List.map_map. apply List.map_ext.
  intros d. destruct (mIoHandle d =? h); [apply Hf|reflexivity].
Qed.

Lemma fold_left_invariant {A B S : Type} (view : A -> S) (f : A -> B -> A) (l : list B) :
  (forall a b, view (f a b) = view a) ->
  forall a, view (List.fold_left f l a) = view a.
Proof.
  intros Hf. induction l as [|b l IH]; intros a; [reflexivity|].
  cbn. rewrite IH. apply Hf.
Qed.

Lemma checkAndSetVolume_core m stream index output dev delayMs force :
  routing_core (fst (checkAndSetVolume m stream index output dev delayMs force))
  = routing_core m.
Proof. apply routing_core_forget_trace, checkAndSetVolume_frame. Qed.

Lemma applyStreamVolumes_core m output dev delayMs force :
  routing_core (applyStreamVolumes m output dev delayMs force) = routing_core m.
Proof.
  unfold applyStreamVolumes. apply fold_left_invariant.
  intros a b. apply checkAndSetVolume_core.
Qed.

Lemma setStreamMute_core m stream on output delayMs dev :
  routing_core (setStreamMute m stream on output delayMs dev) = routing_core m.
Proof.
  unfold setStreamMute.
  destruct (valueFor (mOutputs m) output) as [d|]; [|reflexivity].
  destruct on.
  - rewrite routing_core_update_output by reflexivity.
    destruct (mMuteCount d stream =? 0); [|reflexivity].
    match goal with |- context [if ?c then _ else m] => destruct c end;
      [apply checkAndSetVolume_core|reflexivity].
  - destruct (mMuteCount d stream =? 0); [reflexivity|].
    destruct (mMuteCount d stream - 1 =? 0).
    + rewrite checkAndSetVolume_core. apply routing_core_update_output. reflexivity.
    + apply routing_core_update_output. reflexivity.
Qed.

Lemma setStrategyMute_core m strategy on output delayMs dev :
  routing_core (setStrategyMute m strategy on output delayMs dev) = routing_core m.
Proof.
  unfold setStrategyMute. apply fold_left_invariant.
  intros a b. destruct (bool_decide _); [apply setStreamMute_core|reflexivity].
Qed.

Lemma informInputs_core m dev delayMs :
  routing_core (informInputs m dev delayMs) = routing_core m.
Proof.
  unfold informInputs. generalize (mInputs m). intros l. revert m.
  induction l as [|i l IH]; intros m; [reflexivity|].
  cbn. rewrite IH. destruct (negb _); reflexivity.
Qed.

Lemma muteStrategyOnOutput_core output i mute delayMs acc j :
  routing_core (fst (muteStrategyOnOutput output i mute delayMs acc j))
  = routing_core (fst acc).
Proof.
  unfold muteStrategyOnOutput. destruct acc as [m w].
  destruct (nth_error (mOutputs m) j) as [desc|]; [|reflexivity].
  destruct (valueFor (mOutputs m) output) as [outputDesc|]; [|reflexivity].
  destruct (_ =? AUDIO_DEVICE_NONE); [reflexivity|].
  destruct (nth_error _ j) as [desc1|].
  - match goal with |- context [if ?c then _ else _] => destruct c end;
      cbn [fst]; apply setStrategyMute_core.
  - cbn [fst]. apply setStrategyMute_core.
Qed.

Lemma muteStrategyByDevice_core output dev shouldMute delayMs acc i :
  routing_core (fst (muteStrategyByDevice output dev shouldMute delayMs acc i))
  = routing_core (fst acc).
Proof.
  unfold muteStrategyByDevice. destruct acc as [m w].
  destruct (valueFor (mOutputs m) output) as [outputDesc|]; [|reflexivity].
  match goal with |- context [if ?c then (true, _) else _] => destruct c end;
    cbv beta iota zeta.
  - rewrite (fold_left_invariant (fun acc => routing_core (fst acc)))
      by (intros; apply muteStrategyOnOutput_core).
    cbn [fst]. apply routing_core_update_output. reflexivity.
  - match goal with |- context [if ?c then (true, _) else _] => destruct c end;
      cbv beta iota zeta; [|reflexivity].
    rewrite (fold_left_invariant (fun acc => routing_core (fst acc)))
      by (intros; apply muteStrategyOnOutput_core).
    cbn [fst]. apply routing_core_update_output. reflexivity.
Qed.

Lemma tempMuteStrategy_core output dev delayMs duration m i :
  routing_core (tempMuteStrategy output dev delayMs duration m i) = routing_core m.
Proof.
  unfold tempMuteStrategy.
  destruct (valueFor (mOutputs m) output) as [outputDesc|]; [|reflexivity].
  destruct (isStrategyActive m outputDesc i); [|reflexivity].
  rewrite !setStrategyMute_core. reflexivity.
Qed.

Lemma checkDeviceMuteStrategies_core m output prevDevice delayMs :
  routing_core (fst (checkDeviceMuteStrategies m output prevDevice delayMs))
  = routing_core m.
Proof.
  unfold checkDeviceMuteStrategies.
  destruct (valueFor (mOutputs m) output) as [outputDesc|]; [|reflexivity].
  destruct (isDuplicated outputDesc); [reflexivity|].
  match goal with |- context [List.fold_left ?f all_strategies (m, 0)] =>
    pose proof (fold_left_invariant (fun acc => routing_core (fst acc)) f all_strategies
                  (fun a b => muteStrategyByDevice_core _ _ _ _ a b) (m, 0)) as H1;
    destruct (List.fold_left f all_strategies (m, 0)) as [m1 w1] end.
  cbn [fst] in H1.
  assert (H2 : forall dur, routing_core
            (List.fold_left (tempMuteStrategy output (device m outputDesc) delayMs dur)
               all_strategies m1) = routing_core m).
  { intros dur. rewrite (fold_left_invariant routing_core)
      by (intros; apply tempMuteStrategy_core). exact H1. }
  destruct (valueFor (mOutputs m1) output) as [outputDesc1|].
  - destruct (isActive outputDesc1 && negb (device m outputDesc =? prevDevice)).
    + match goal with |- context [if ?c then _ else _] => destruct c end;
        cbn [fst]; rewrite ?routing_core_emit; apply H2.
    + destruct (delayMs <? w1); cbn [fst]; rewrite ?routing_core_emit; exact H1.
  - destruct (delayMs <? w1); cbn [fst]; rewrite ?routing_core_emit; exact H1.
Qed.

Lemma setPatchHandle_output_core m output handle :
  routing_core (setPatchHandle m (OutputRef output) handle) = routing_core m.
Proof. apply routing_core_update_output. reflexivity. Qed.

Lemma resetOutputDevice_core m output delayMs patchHandle :
  routing_core (fst (resetOutputDevice m output delayMs patchHandle))
  = routing_core m.
Proof.
  unfold resetOutputDevice.
  match goal with |- context [match ?x with Some _ => _ | None => (m, _) end] =>
    destruct x as [[k p]|] end; [|reflexivity].
  cbn [fst]. rewrite routing_core_emit.
  change (routing_core
            (setPatchHandle (emit m (releaseAudioPatch_call (mAfPatchHandle p) delayMs))
               (OutputRef output) AUDIO_PATCH_HANDLE_NONE) = routing_core m).
  rewrite setPatchHandle_output_core. reflexivity.
Qed.

Lemma installPatch_at_core m index patchHandle patch delayMs uid :
  routing_core (fst (installPatch_at m index patchHandle patch delayMs uid))
  = routing_core m.
Proof.
  unfold installPatch_at.
  destruct (createAudioPatch_answer _ _ _ _ _) as [status af'].
  destruct (status =? NO_ERROR); [|reflexivity].
  destruct index as [[k p]|]; cbn [fst]; [reflexivity|].
  unfold addAudioPatch.
  match goal with |- context [match ?x with Some _ => _ | None => _ end] =>
    destruct x end; reflexivity.
Qed.

Lemma installPatch_output_core m patchHandle output patch delayMs :
  routing_core (fst (installPatch m patchHandle (OutputRef output) patch delayMs))
  = routing_core m.
Proof.
  unfold installPatch.
  match goal with |- context [installPatch_at ?a ?b ?c ?d ?e ?f] =>
    pose proof (installPatch_at_core a b c d e f) as H;
    destruct (installPatch_at a b c d e f) as [m1 r] end.
  cbn [fst] in H.
  destruct (ir_status r =? NO_ERROR); [|exact H].
  destruct (ir_patchDesc r); [|exact H].
  cbn [fst]. rewrite setPatchHandle_output_core. exact H.
Qed.

(** Reading a descriptor through the core. *)
Lemma valueFor_erase outputs h :
  valueFor (List.map erase_output outputs) h
  = option_map erase_output (valueFor outputs h).
Proof.
  unfold valueFor. induction outputs as [|x xs IH]; [reflexivity|].
  cbn. destruct (mIoHandle x =? h); [reflexivity|exact IH].
Qed.

Lemma routing_core_valueFor m m' h d :
  routing_core m' = routing_core m ->
  valueFor (mOutputs m) h = Some d ->
  exists d', valueFor (mOutputs m') h = Some d' /\ erase_output d' = erase_output d.
Proof.
  intros Hc Hd. apply (f_equal mOutputs) in Hc. cbn in Hc.
  apply (f_equal (fun l => valueFor l h)) in Hc.
  rewrite !valueFor_erase, Hd in Hc.
  destruct (valueFor (mOutputs m') h) as [d'|]; [|discriminate].
  exists d'. split; [reflexivity|]. cbn in Hc. congruence.
Qed.

End CoreFacts.

(** ** The mute counter *)

Section MuteCounter.
Context {FL : CFloat} {PH : PolicyHeader}.

Lemma array_set_same {K V : Type} `{EqDecision K} (a : K -> V) k v :
  array_set a k v k = v.
Proof. unfold array_set. destruct (decide (k = k)); congruence. Qed.

Lemma array_set_other {K V : Type} `{EqDecision K} (a : K -> V) k k' v :
  k' <> k -> array_set a k v k' = a k'.
Proof. unfold array_set. intros Hne. destruct (decide (k' = k)); congruence. Qed.

Lemma checkAndSetVolume_mOutputs m stream index output dev delayMs force :
  mOutputs (fst (checkAndSetVolume m stream index output dev delayMs force))
  = mOutputs m.
Proof. apply forget_trace_mOutputs, checkAndSetVolume_frame. Qed.

(** The descriptor of the output after one call of [setStreamMute]. *)
Lemma setStreamMute_output m stream on output delayMs dev d :
  valueFor (mOutputs m) output = Some d ->
  valueFor (mOutputs (setStreamMute m stream on output delayMs dev)) output
  = Some (if on then
            set_mMuteCount d (array_set (mMuteCount d) stream (mMuteCount d stream + 1))
          else if mMuteCount d stream =? 0 then d
          else set_mMuteCount d
                 (array_set (mMuteCount d) stream (mMuteCount d stream - 1))).
Proof.
  intros Hd. unfold setStreamMute. rewrite Hd.
  destruct on.
  - unfold update_output. cbn [mOutputs set_mOutputs].
    match goal with |- context [mOutputs ?m1] =>
      assert (Ho : mOutputs m1 = mOutputs m) end.
    { destruct (mMuteCount d stream =? 0); [|reflexivity].
      match goal with |- context [if ?c then _ else m] => destruct c end;
        [apply checkAndSetVolume_mOutputs|reflexivity]. }
    rewrite Ho.
    apply (valueFor_map_same
             (fun d => set_mMuteCount d
                         (array_set (mMuteCount d) stream (mMuteCount d stream + 1))));
      [reflexivity|exact Hd].
  - destruct (mMuteCount d stream =? 0); [exact Hd|].
    match goal with |- context [if ?c then fst ?x else ?y] =>
      assert (Ho : mOutputs (if c then fst x else y) = mOutputs y) end.
    { destruct (_ =? 0); [apply checkAndSetVolume_mOutputs|reflexivity]. }
    rewrite Ho. unfold update_output. cbn [mOutputs set_mOutputs].
    apply (valueFor_map_same
             (fun d => set_mMuteCount d
                         (array_set (mMuteCount d) stream (mMuteCount d stream - 1))));
      [reflexivity|exact Hd].
Qed.

Lemma setStreamMute_count m stream on output delayMs dev d :
  valueFor (mOutputs m) output = Some d ->
  muteCount (setStreamMute m stream on output delayMs dev) output stream
  = if on then mMuteCount d stream + 1
    else if mMuteCount d stream =? 0 then 0 else mMuteCount d stream - 1.
Proof.
  intros Hd. unfold muteCount.
  rewrite (setStreamMute_output _ _ _ _ _ _ _ Hd).
  destruct on; cbn; [apply array_set_same|].
  destruct (mMuteCount d stream =? 0) eqn:E; cbn; [lia|apply array_set_same].
Qed.

(** The trace after one call of [setStreamMute]. *)
Lemma setStreamMute_trace m stream on output delayMs dev d :
  valueFor (mOutputs m) output = Some d ->
  mTrace (setStreamMute m stream on output delayMs dev) = mTrace m
  \/ (mMuteCount d stream = (if on then 0 else 1)
      /\ exists index evs,
           index = (if on then 0
                    else getVolumeIndex (mVolumeCurves m) stream
                           (if dev =? AUDIO_DEVICE_NONE then device m d else dev))
           /\ volume_events stream index output delayMs false evs
           /\ mTrace (setStreamMute m stream on output delayMs dev) = mTrace m ++ evs).
Proof.
  intros Hd. unfold setStreamMute. rewrite Hd.
  destruct on.
  - unfold update_output. cbn [mTrace set_mOutputs].
    destruct (mMuteCount d stream =? 0) eqn:E; [|left; reflexivity].
    match goal with |- context [if ?c then _ else m] => destruct c end;
      [|left; reflexivity].
    match goal with |- context [checkAndSetVolume ?a ?b ?c ?e ?f ?g ?h] =>
      destruct (checkAndSetVolume_trace a b c e f g h) as [Ht|(evs & Hev & Ht)] end.
    + left. exact Ht.
    + right. split; [lia|]. exists 0, evs. auto.
  - destruct (mMuteCount d stream =? 0) eqn:E; [left; reflexivity|].
    destruct (mMuteCount d stream - 1 =? 0) eqn:E1; [|left; reflexivity].
    match goal with |- context [checkAndSetVolume ?a ?b ?c ?e ?f ?g ?h] =>
      destruct (checkAndSetVolume_trace a b c e f g h) as [Ht|(evs & Hev & Ht)] end.
    + left. exact Ht.
    + right. split; [lia|]. eexists _, evs. split; [reflexivity|]. auto.
Qed.

Lemma pending_mutes_length calls : forall pos pending,
  Z.of_nat (length (pending_mutes calls pos pending))
  = List.fold_left
      (fun c (on : bool) => if on then c + 1 else if c =? 0 then 0 else c - 1)
      calls (Z.of_nat (length pending)).
Proof.
  induction calls as [|on calls IH]; intros pos pending; [reflexivity|].
  destruct on; cbn [pending_mutes List.fold_left].
  - rewrite IH. f_equal. cbn [length]. lia.
  - rewrite IH. f_equal. destruct pending as [|p pending]; [reflexivity|].
    change (tl (p :: pending)) with pending.
    change (length (p :: pending)) with (S (length pending)).
    destruct (Z.of_nat (S (length pending)) =? 0) eqn:E; zbool; lia.
Qed.

Lemma setStreamMute_run_count calls : forall m stream output d,
  valueFor (mOutputs m) output = Some d ->
  muteCount (setStreamMute_run m stream output calls) output stream
  = List.fold_left
      (fun c (on : bool) => if on then c + 1 else if c =? 0 then 0 else c - 1)
      (List.map (fun call => fst (fst call)) calls) (mMuteCount d stream).
Proof.
  induction calls as [|[[on delayMs] dev] calls IH]; intros m stream output d Hd.
  - cbn. unfold muteCount. rewrite Hd. reflexivity.
  - cbn [setStreamMute_run List.fold_left List.map fst snd].
    pose proof (setStreamMute_output m stream on output delayMs dev d Hd) as Hd'.
    pose proof (IH _ stream output _ Hd') as IH'.
    unfold setStreamMute_run in IH'. rewrite IH'. f_equal.
    destruct on; cbn; [apply array_set_same|].
    destruct (mMuteCount d stream =? 0) eqn:E; cbn; [lia|apply array_set_same].
Qed.

Lemma saturating_counter_nonneg (calls : list bool) : forall c,
  0 <= c ->
  0 <= List.fold_left
         (fun c (on : bool) => if on then c + 1 else if c =? 0 then 0 else c - 1)
         calls c.
Proof.
  induction calls as [|on calls IH]; intros c Hc; [exact Hc|].
  cbn. apply IH. destruct on; [lia|]. destruct (c =? 0) eqn:E; zbool; lia.
Qed.


End MuteCounter.

(** ** The guard of the volume command *)

Section VolumeGuard.
Context {FL : CFloat} {PH : PolicyHeader}.

(** C10 (amended).  On a stream type that is not muted, [checkAndSetVolume]
    refuses with [INVALID_OPERATION], leaving the state as it is, when it is
    asked to set the VOICE_CALL volume while the forced use for communication
    is Bluetooth SCO, or the BLUETOOTH_SCO volume while it is anything else;
    in every other case it returns [NO_ERROR] after handing the computed
    volume ([0.0f] on a fixed-volume device or a voice stream on a SCO
    device) to the output.  On a muted stream type it returns [NO_ERROR] and
    changes nothing. *)
Theorem checkAndSetVolume_refuses_on_sco_mismatch
    (m : AudioPolicyManager) (stream : audio_stream_type_t) (index : Z)
    (output : audio_io_handle_t) (outputDesc : AudioOutputDescriptor)
    (dev delayMs : Z) (force : bool) :
  valueFor (mOutputs m) output = Some outputDesc ->
  let forceUseForComm := getForceUse (mEngine m) AUDIO_POLICY_FORCE_FOR_COMMUNICATION in
  let refused :=
    (stream = AUDIO_STREAM_VOICE_CALL /\ forceUseForComm = AUDIO_POLICY_FORCE_BT_SCO)
    \/ (stream = AUDIO_STREAM_BLUETOOTH_SCO
        /\ forceUseForComm <> AUDIO_POLICY_FORCE_BT_SCO) in
  let result := checkAndSetVolume m stream index output dev delayMs force in
  (mMuteCount outputDesc stream = 0 -> refused ->
   result = (m, INVALID_OPERATION))
  /\ (mMuteCount outputDesc stream = 0 -> ~ refused ->
      snd result = NO_ERROR
      /\ forget_trace (fst result) = forget_trace m
      /\ let dev' := if dev =? AUDIO_DEVICE_NONE then device m outputDesc else dev in
         let volumeDb :=
           if mFixedVolume outputDesc dev'
              || (is_voice_stream stream
                  && negb (Z.land dev' AUDIO_DEVICE_OUT_ALL_SCO =? 0))
           then ZeroDb else computeVolume stream index dev' in
         exists rest,
           mTrace (fst result)
           = mTrace m
             ++ setVolume_call output volumeDb stream dev' delayMs force :: rest)
  /\ (mMuteCount outputDesc stream <> 0 -> result = (m, NO_ERROR)).
Proof.
  intros Hd forceUseForComm refused result.
  subst result. unfold checkAndSetVolume. rewrite Hd. fold forceUseForComm.
  repeat split.
  - intros Hc Hr. rewrite Hc. cbn [Z.eqb negb].
    destruct Hr as [[Hs Hf]|[Hs Hne]]; repeat case_bool_decide;
      try congruence; reflexivity.
  - rewrite H. cbn [Z.eqb negb].
    match goal with |- context [if ?c then (m, INVALID_OPERATION) else _] =>
      destruct c eqn:E end; [|reflexivity].
    exfalso. apply H0. unfold refused.
    apply orb_true_iff in E as [E|E]; apply andb_true_iff in E as [E1 E2].
    + left. split; [exact (bool_decide_eq_true_1 _ E1)|exact (bool_decide_eq_true_1 _ E2)].
    + right. split; [exact (bool_decide_eq_true_1 _ E1)|].
      apply negb_true_iff in E2. exact (bool_decide_eq_false_1 _ E2).
  - pose proof (checkAndSetVolume_frame m stream index output dev delayMs force) as Hf.
    unfold checkAndSetVolume in Hf. rewrite Hd in Hf. exact Hf.
  - rewrite H. cbn [Z.eqb negb].
    match goal with |- context [if ?c then (m, INVALID_OPERATION) else _] =>
      destruct c eqn:E end.
    + exfalso. apply H0. unfold refused.
      apply orb_true_iff in E as [E|E]; apply andb_true_iff in E as [E1 E2].
      * left. split; [exact (bool_decide_eq_true_1 _ E1)|exact (bool_decide_eq_true_1 _ E2)].
      * right. split; [exact (bool_decide_eq_true_1 _ E1)|].
        apply negb_true_iff in E2. exact (bool_decide_eq_false_1 _ E2).
    + cbn [fst]. destruct (is_voice_stream stream).
      * match goal with |- context [if negb ?c then _ else _] => destruct c end; cbn.
        -- eexists. reflexivity.
        -- eexists. rewrite <- app_assoc. reflexivity.
      * eexists. reflexivity.
  - intros Hc. destruct (mMuteCount outputDesc stream =? 0) eqn:E; zbool; [contradiction|].
    reflexivity.
Qed.

End VolumeGuard.

(** ** Releasing a patch *)

Section PatchRelease.
Context {FL : CFloat} {PH : PolicyHeader}.

Lemma resetOutputDevice_unfold m output delayMs patchHandle :
  resetOutputDevice m output delayMs patchHandle
  = match mAudioPatches m !! reset_key m patchHandle (OutputRef output) with
    | None => (m, INVALID_OPERATION)
    | Some patchDesc =>
        (emit (nextAudioPortGeneration
                 (removeAudioPatch
                    (setPatchHandle
                       (emit m (releaseAudioPatch_call (mAfPatchHandle patchDesc) delayMs))
                       (OutputRef output) AUDIO_PATCH_HANDLE_NONE)
                    (mHandle patchDesc)))
           onAudioPatchListUpdate_call,
         releaseAudioPatch_answer (mpClientInterface m) (mTrace m)
           (mAfPatchHandle patchDesc) delayMs)
    end.
Proof.
  unfold resetOutputDevice, reset_key, indexOfKey.
  destruct patchHandle as [h|];
    match goal with |- context [mAudioPatches m !! ?k] =>
      destruct (mAudioPatches m !! k) end; reflexivity.
Qed.

Lemma resetInputDevice_unfold m input patchHandle :
  resetInputDevice m input patchHandle
  = match mAudioPatches m !! reset_key m patchHandle (InputRef input) with
    | None => (m, INVALID_OPERATION)
    | Some patchDesc =>
        (emit (nextAudioPortGeneration
                 (removeAudioPatch
                    (setPatchHandle
                       (emit m (releaseAudioPatch_call (mAfPatchHandle patchDesc) 0))
                       (InputRef input) AUDIO_PATCH_HANDLE_NONE)
                    (mHandle patchDesc)))
           onAudioPatchListUpdate_call,
         releaseAudioPatch_answer (mpClientInterface m) (mTrace m)
           (mAfPatchHandle patchDesc) 0)
    end.
Proof.
  unfold resetInputDevice, reset_key, indexOfKey.
  destruct patchHandle as [h|];
    match goal with |- context [mAudioPatches m !! ?k] =>
      destruct (mAudioPatches m !! k) end; reflexivity.
Qed.

(** C7.  [resetOutputDevice] and [resetInputDevice] return
    [INVALID_OPERATION] and leave the state as it is when no patch is found
    for the stream; when one is found they ask the transport to release its
    low-level connection, clear the patch handle of the stream, remove the
    record from the patch collection, and return the transport's status. *)
Theorem resetDevice_releases_attached_patch
    (m : AudioPolicyManager) (output input : audio_io_handle_t) (delayMs : Z)
    (patchHandle : option audio_patch_handle_t) :
  let outKey := reset_key m patchHandle (OutputRef output) in
  let inKey := reset_key m patchHandle (InputRef input) in
  (mAudioPatches m !! outKey = None ->
   resetOutputDevice m output delayMs patchHandle = (m, INVALID_OPERATION))
  /\ (forall patchDesc, mAudioPatches m !! outKey = Some patchDesc ->
      released m (fst (resetOutputDevice m output delayMs patchHandle))
        (OutputRef output) patchDesc delayMs
      /\ snd (resetOutputDevice m output delayMs patchHandle)
         = releaseAudioPatch_answer (mpClientInterface m) (mTrace m)
             (mAfPatchHandle patchDesc) delayMs)
  /\ (mAudioPatches m !! inKey = None ->
      resetInputDevice m input patchHandle = (m, INVALID_OPERATION))
  /\ (forall patchDesc, mAudioPatches m !! inKey = Some patchDesc ->
      released m (fst (resetInputDevice m input patchHandle))
        (InputRef input) patchDesc 0
      /\ snd (resetInputDevice m input patchHandle)
         = releaseAudioPatch_answer (mpClientInterface m) (mTrace m)
             (mAfPatchHandle patchDesc) 0).
Proof.
  intros outKey inKey.
  rewrite resetOutputDevice_unfold, resetInputDevice_unfold.
  fold outKey inKey.
  split; [intros ->; reflexivity|].
  split.
  { intros patchDesc ->. cbn [fst snd]. split; [|reflexivity].
    unfold released. repeat split.
    - cbn. rewrite <- app_assoc. reflexivity.
    - change (getPatchHandle
                (setPatchHandle
                   (emit m (releaseAudioPatch_call (mAfPatchHandle patchDesc) delayMs))
                   (OutputRef output) AUDIO_PATCH_HANDLE_NONE) (OutputRef output)
              = AUDIO_PATCH_HANDLE_NONE).
      apply getPatchHandle_cleared.
    - cbn [fst mAudioPatches emit set_mTrace nextAudioPortGeneration
           set_mAudioPortGeneration removeAudioPatch set_mAudioPatches].
      apply lookup_delete_eq. }
  split; [intros ->; reflexivity|].
  intros patchDesc ->. cbn [fst snd]. split; [|reflexivity].
  unfold released. repeat split.
  - cbn. rewrite <- app_assoc. reflexivity.
  - change (getPatchHandle
              (setPatchHandle
                 (emit m (releaseAudioPatch_call (mAfPatchHandle patchDesc) 0))
                 (InputRef input) AUDIO_PATCH_HANDLE_NONE) (InputRef input)
            = AUDIO_PATCH_HANDLE_NONE).
    apply getPatchHandle_cleared.
  - cbn [fst mAudioPatches emit set_mTrace nextAudioPortGeneration
         set_mAudioPortGeneration removeAudioPatch set_mAudioPatches].
    apply lookup_delete_eq.
Qed.

End PatchRelease.

(** ** Installing a patch *)

Section PatchInstall.
Context {FL : CFloat} {PH : PolicyHeader}.

Lemma installPatch_failure m patchHandle io patch delayMs :
  fst (install_answer m patchHandle io patch delayMs) <> NO_ERROR ->
  installPatch m patchHandle io patch delayMs
  = (emit m (createAudioPatch_call patch
               (match mAudioPatches m !! install_key m patchHandle io with
                | Some patchDesc => mAfPatchHandle patchDesc
                | None => AUDIO_PATCH_HANDLE_NONE
                end) delayMs),
     mkInstallResult (fst (install_answer m patchHandle io patch delayMs))
       patchHandle (mAudioPatches m !! install_key m patchHandle io)).
Proof.
  unfold install_answer, installPatch, installPatch_at. fold (install_key m patchHandle io).
  unfold indexOfKey.
  destruct (mAudioPatches m !! install_key m patchHandle io) as [p|];
    destruct (createAudioPatch_answer _ _ _ _ _) as [status af'];
    cbn [fst]; intros Hs; apply Z.eqb_neq in Hs; rewrite Hs;
    cbn [ir_status]; rewrite Hs; reflexivity.
Qed.

Lemma installPatch_update m patchHandle io patch delayMs patchDesc :
  fst (install_answer m patchHandle io patch delayMs) = NO_ERROR ->
  mAudioPatches m !! install_key m patchHandle io = Some patchDesc ->
  let updated :=
    mkAudioPatch (mHandle patchDesc) patch (mUid patchDesc)
      (snd (install_answer m patchHandle io patch delayMs)) in
  installPatch m patchHandle io patch delayMs
  = (setPatchHandle
       (emit (nextAudioPortGeneration
                (set_mAudioPatches
                   (emit m (createAudioPatch_call patch (mAfPatchHandle patchDesc) delayMs))
                   (<[install_key m patchHandle io := updated]> (mAudioPatches m))))
          onAudioPatchListUpdate_call)
       io (mHandle patchDesc),
     mkInstallResult NO_ERROR
       (match patchHandle with Some _ => Some (mHandle patchDesc) | None => None end)
       (Some updated)).
Proof.
  unfold install_answer, installPatch, installPatch_at. fold (install_key m patchHandle io).
  unfold indexOfKey. intros Hs Hp. rewrite Hp in *.
  destruct (createAudioPatch_answer _ _ _ _ _) as [status af'].
  cbn [fst snd] in *. subst status. reflexivity.
Qed.

Lemma installPatch_create m patchHandle io patch delayMs :
  fst (install_answer m patchHandle io patch delayMs) = NO_ERROR ->
  mAudioPatches m !! install_key m patchHandle io = None ->
  mAudioPatches m !! mNextPatchHandle m = None ->
  let fresh :=
    mkAudioPatch (mNextPatchHandle m) patch (mUidCached m)
      (snd (install_answer m patchHandle io patch delayMs)) in
  installPatch m patchHandle io patch delayMs
  = (setPatchHandle
       (emit (nextAudioPortGeneration
                (set_mAudioPatches
                   (set_mNextPatchHandle
                      (emit m (createAudioPatch_call patch AUDIO_PATCH_HANDLE_NONE delayMs))
                      (mNextPatchHandle m + 1))
                   (<[mNextPatchHandle m := fresh]> (mAudioPatches m))))
          onAudioPatchListUpdate_call)
       io (mNextPatchHandle m),
     mkInstallResult NO_ERROR
       (match patchHandle with Some _ => Some (mNextPatchHandle m) | None => None end)
       (Some fresh)).
Proof.
  unfold install_answer, installPatch, installPatch_at. fold (install_key m patchHandle io).
  unfold indexOfKey. intros Hs Hp Hfresh. rewrite Hp in *.
  destruct (createAudioPatch_answer _ _ _ _ _) as [status af'].
  cbn [fst snd] in *. subst status.
  unfold addAudioPatch.
  change (mNextPatchHandle (emit m (createAudioPatch_call patch AUDIO_PATCH_HANDLE_NONE
                                      delayMs)))
    with (mNextPatchHandle m).
  cbn [mAudioPatches emit set_mTrace set_mNextPatchHandle mHandle].
  rewrite Hfresh. reflexivity.
Qed.

(** C2.  [installPatch] looks up the patch recorded under the handle the
    caller supplies, or else under the handle of the target descriptor.  When
    the transport refuses, the patch collection and the handle of the
    descriptor stay as they were.  When it accepts and a record was found,
    that record is updated in place: the collection keeps its keys and its
    size, and the descriptor is attached to the record's handle.  When it
    accepts and no record was found, one record is added under a handle drawn
    from the generator and the descriptor is attached to it; with handles
    that are absent or valid keys, this happens only when the descriptor had
    no patch attached. *)
Theorem installPatch_updates_in_place
    (m : AudioPolicyManager) (patchHandle : option audio_patch_handle_t)
    (io : io_ref) (patch : audio_patch) (delayMs : Z) :
  io_registered m io ->
  patches_wf m ->
  let key := install_key m patchHandle io in
  let answer := install_answer m patchHandle io patch delayMs in
  let m' := fst (installPatch m patchHandle io patch delayMs) in
  let status := ir_status (snd (installPatch m patchHandle io patch delayMs)) in
  status = fst answer
  /\ (fst answer <> NO_ERROR ->
      mAudioPatches m' = mAudioPatches m
      /\ getPatchHandle m' io = getPatchHandle m io
      /\ forget_trace m' = forget_trace m)
  /\ (forall patchDesc,
        fst answer = NO_ERROR -> mAudioPatches m !! key = Some patchDesc ->
        mAudioPatches m'
        = <[key := mkAudioPatch (mHandle patchDesc) patch (mUid patchDesc) (snd answer)]>
            (mAudioPatches m)
        /\ dom (mAudioPatches m') = dom (mAudioPatches m)
        /\ size (mAudioPatches m') = size (mAudioPatches m)
        /\ getPatchHandle m' io = key)
  /\ (fst answer = NO_ERROR -> mAudioPatches m !! key = None ->
      mAudioPatches m'
      = <[mNextPatchHandle m :=
            mkAudioPatch (mNextPatchHandle m) patch (mUidCached m) (snd answer)]>
          (mAudioPatches m)
      /\ mAudioPatches m !! mNextPatchHandle m = None
      /\ size (mAudioPatches m') = S (size (mAudioPatches m))
      /\ getPatchHandle m' io = mNextPatchHandle m)
  /\ (size (mAudioPatches m') <> size (mAudioPatches m) ->
      (forall h, patchHandle = Some h ->
                 h = AUDIO_PATCH_HANDLE_NONE \/ is_Some (mAudioPatches m !! h)) ->
      (getPatchHandle m io = AUDIO_PATCH_HANDLE_NONE
       \/ is_Some (mAudioPatches m !! getPatchHandle m io)) ->
      getPatchHandle m io = AUDIO_PATCH_HANDLE_NONE).
Proof.
  intros Hreg Hwf key answer m' status.
  assert (Hfresh : mAudioPatches m !! mNextPatchHandle m = None).
  { destruct (mAudioPatches m !! mNextPatchHandle m) as [p|] eqn:E; [|reflexivity].
    destruct (Hwf _ _ E) as [_ Hlt]. lia. }
  destruct (Z.eq_dec (fst answer) NO_ERROR) as [Hok|Hko].
  - destruct (mAudioPatches m !! key) as [patchDesc|] eqn:Hkey.
    + pose proof (installPatch_update m patchHandle io patch delayMs patchDesc Hok Hkey)
        as Heq. cbn zeta in Heq.
      assert (Hm : mAudioPatches m'
                   = <[key := mkAudioPatch (mHandle patchDesc) patch (mUid patchDesc)
                                (snd answer)]> (mAudioPatches m)).
      { subst m'. rewrite Heq. cbn [fst]. rewrite setPatchHandle_mAudioPatches.
        reflexivity. }
      assert (Hsz : size (mAudioPatches m') = size (mAudioPatches m)).
      { rewrite Hm. apply map_size_insert_Some. eauto. }
      split; [subst status; rewrite Heq; cbn; symmetry; exact Hok|].
      split; [intros; contradiction|].
      split.
      { intros p _ [= <-]. split; [exact Hm|]. split.
        - rewrite Hm. apply dom_insert_lookup_L. eauto.
        - split; [exact Hsz|].
          subst m'. rewrite Heq. cbn [fst].
          destruct (Hwf _ _ Hkey) as [-> _].
          apply getPatchHandle_setPatchHandle.
          destruct io; exact Hreg. }
      split; [intros _ [=]|].
      intros Hne. contradiction.
    + pose proof (installPatch_create m patchHandle io patch delayMs Hok Hkey Hfresh)
        as Heq.
      cbn zeta in Heq.
      assert (Hm : mAudioPatches m'
                   = <[mNextPatchHandle m :=
                         mkAudioPatch (mNextPatchHandle m) patch (mUidCached m)
                           (snd answer)]> (mAudioPatches m)).
      { subst m'. rewrite Heq. cbn [fst]. rewrite setPatchHandle_mAudioPatches.
        reflexivity. }
      split; [subst status; rewrite Heq; cbn; symmetry; exact Hok|].
      split; [intros; contradiction|].
      split; [intros p _ [=]|].
      split.
      { intros _ _. split; [exact Hm|]. split; [exact Hfresh|]. split.
        - rewrite Hm. apply map_size_insert_None. exact Hfresh.
        - subst m'. rewrite Heq. cbn [fst].
          apply getPatchHandle_setPatchHandle.
          destruct io; exact Hreg. }
      intros _ Hcaller Hdesc.
      destruct Hdesc as [Hnone|Hsome]; [exact Hnone|].
      exfalso. subst key. unfold install_key in Hkey.
      destruct patchHandle as [h|].
      * destruct (Hcaller h eq_refl) as [Hh|Hh].
        -- subst h. cbn in Hkey. rewrite Hkey in Hsome. destruct Hsome as [? [=]].
        -- destruct (h =? AUDIO_PATCH_HANDLE_NONE) eqn:E; cbn in Hkey.
           ++ rewrite Hkey in Hsome. destruct Hsome as [? [=]].
           ++ rewrite Hkey in Hh. destruct Hh as [? [=]].
      * rewrite Hkey in Hsome. destruct Hsome as [? [=]].
  - pose proof (installPatch_failure m patchHandle io patch delayMs Hko) as Heq.
    split; [subst status; rewrite Heq; reflexivity|].
    split.
    { intros _. subst m'. rewrite Heq. cbn [fst]. repeat split. }
    split; [intros; contradiction|].
    split; [intros; contradiction|].
    intros Hne. exfalso. apply Hne. subst m'. rewrite Heq. reflexivity.
Qed.

(** The well-formedness of the patch collection is an invariant of
    [installPatch], whose generator never decreases. *)
Lemma installPatch_patches_wf m patchHandle io patch delayMs :
  patches_wf m -> 0 < mNextPatchHandle m ->
  patches_wf (fst (installPatch m patchHandle io patch delayMs))
  /\ mNextPatchHandle m
     <= mNextPatchHandle (fst (installPatch m patchHandle io patch delayMs)).
Proof.
  intros Hwf Hpos.
  assert (Hfresh : mAudioPatches m !! mNextPatchHandle m = None).
  { destruct (mAudioPatches m !! mNextPatchHandle m) as [p|] eqn:E; [|reflexivity].
    destruct (Hwf _ _ E) as [_ Hlt]. lia. }
  assert (Hnext : forall m0 h, mNextPatchHandle (setPatchHandle m0 io h)
                               = mNextPatchHandle m0)
    by (intros; destruct io; reflexivity).
  destruct (Z.eq_dec (fst (install_answer m patchHandle io patch delayMs)) NO_ERROR)
    as [Hok|Hko].
  - destruct (mAudioPatches m !! install_key m patchHandle io) as [patchDesc|] eqn:Hkey.
    + rewrite (installPatch_update m patchHandle io patch delayMs patchDesc Hok Hkey).
      cbn [fst]. rewrite Hnext.
      cbn [mAudioPatches mNextPatchHandle emit nextAudioPortGeneration
             set_mAudioPortGeneration set_mAudioPatches set_mTrace].
      split; [|lia].
      intros key p. rewrite setPatchHandle_mAudioPatches, Hnext.
      cbn [mAudioPatches mNextPatchHandle emit nextAudioPortGeneration
             set_mAudioPortGeneration set_mAudioPatches set_mTrace].
      destruct (Z.eq_dec (install_key m patchHandle io) key) as [<-|Hne].
      * rewrite lookup_insert_eq. intros [= <-]. cbn [mHandle]. exact (Hwf _ _ Hkey).
      * rewrite lookup_insert_ne by exact Hne. apply Hwf.
    + rewrite (installPatch_create m patchHandle io patch delayMs Hok Hkey Hfresh).
      cbn [fst]. rewrite Hnext.
      cbn [mAudioPatches mNextPatchHandle emit nextAudioPortGeneration
             set_mAudioPortGeneration set_mAudioPatches set_mNextPatchHandle set_mTrace].
      split; [|lia].
      intros key p. rewrite setPatchHandle_mAudioPatches, Hnext.
      cbn [mAudioPatches mNextPatchHandle emit nextAudioPortGeneration
             set_mAudioPortGeneration set_mAudioPatches set_mNextPatchHandle set_mTrace].
      destruct (Z.eq_dec (mNextPatchHandle m) key) as [<-|Hne].
      * rewrite lookup_insert_eq. intros [= <-]. cbn [mHandle].
        split; [reflexivity|lia].
      * rewrite lookup_insert_ne by exact Hne. intros Hp.
        destruct (Hwf _ _ Hp). split; [assumption|lia].
  - rewrite (installPatch_failure m patchHandle io patch delayMs Hko).
    split; [exact Hwf|reflexivity].
Qed.

End PatchInstall.

(** ** The device of an output *)

Section DeviceWithinSupported.
Context {FL : CFloat} {PH : PolicyHeader}.

Lemma supportedDevices_plain m d :
  isDuplicated d = false -> supportedDevices m d = mSupportedDevices d.
Proof.
  unfold isDuplicated, supportedDevices, subOutputs.
  destruct (mOutput1 d), (mOutput2 d); intros; try discriminate; reflexivity.
Qed.

Lemma device_plain m d :
  isDuplicated d = false -> device m d = mDevice d.
Proof.
  unfold isDuplicated, device, subOutputs.
  destruct (mOutput1 d), (mOutput2 d); intros; try discriminate; reflexivity.
Qed.

Lemma latency_plain m d :
  isDuplicated d = false -> latency m d = mLatency d.
Proof.
  unfold isDuplicated, latency, subOutputs.
  destruct (mOutput1 d), (mOutput2 d); intros; try discriminate; reflexivity.
Qed.

(** The routing core after [setOutputDevice] on an output that is not
    duplicated: only the device of that output may have changed. *)
Lemma setOutputDevice_rec_core fuel m output outputDesc dev force delayMs
    patchHandle address requiresMuteCheck :
  valueFor (mOutputs m) output = Some outputDesc ->
  isDuplicated outputDesc = false ->
  let dev' := Z.land dev (mSupportedDevices outputDesc) in
  routing_core
    (fst (setOutputDevice_rec fuel m output dev force delayMs patchHandle address
            requiresMuteCheck))
  = routing_core
      (if dev' =? AUDIO_DEVICE_NONE then m
       else update_output m output (fun d => set_mDevice d dev')).
Proof.
  intros Hd Hdup dev'.
  destruct fuel; cbn [setOutputDevice_rec]; rewrite Hd, Hdup;
    rewrite (supportedDevices_plain _ _ Hdup); fold dev'.
  all: destruct (dev' =? AUDIO_DEVICE_NONE) eqn:E0; cbn [negb].
  all: try (destruct (negb (dev =? AUDIO_DEVICE_NONE)); cbn [andb]; [reflexivity|]).
  all: rewrite ?andb_false_r.
  all: match goal with
       | |- context [if ?rm then checkDeviceMuteStrategies ?a ?b ?c ?e else _] =>
           pose proof (checkDeviceMuteStrategies_core a b c e) as Hmute;
           destruct rm;
           [destruct (checkDeviceMuteStrategies a b c e) as [m2 w]; cbn [fst] in Hmute|]
       end.
  all: cbv beta iota zeta.
  all: match goal with
       | |- context [if ?c then (?mm, mkRouteResult _ _) else _] =>
           destruct c; [cbn [fst]; try exact Hmute; reflexivity|]
       end.
  all: cbn [orb fst]; rewrite ?applyStreamVolumes_core.
  all: try (rewrite resetOutputDevice_core; try exact Hmute; reflexivity).
  all: match goal with
       | |- context [deviceListFor ?mm ?dd ?aa] => destruct (deviceListFor mm dd aa)
       end.
  all: cbv beta iota zeta.
  all: try match goal with
       | |- context [installPatch ?a ?b (OutputRef ?o) ?e ?f] =>
           pose proof (installPatch_output_core a b o e f) as Hinst;
           destruct (installPatch a b (OutputRef o) e f) as [m3 r]; cbn [fst] in Hinst
       end.
  all: cbv beta iota zeta.
  all: cbn [fst]; rewrite applyStreamVolumes_core, informInputs_core.
  all: try rewrite Hinst.
  all: try exact Hmute; reflexivity.
Qed.

(** C3.  On an output that is not duplicated, [setOutputDevice] returns at
    once, leaving the state as it is, when the requested device is not
    [AUDIO_DEVICE_NONE] and shares no bit with the supported devices;
    otherwise the device it stores is the requested one intersected with the
    supported devices (and nothing is stored when that intersection is
    empty).  The supported devices do not change, and the device of the
    output is a subset of them after the run whenever it was before, and
    whenever a device is stored. *)
Theorem setOutputDevice_device_within_supported
    (m : AudioPolicyManager) (output : audio_io_handle_t)
    (outputDesc : AudioOutputDescriptor) (dev : audio_devices_t) (force : bool)
    (delayMs : Z) (patchHandle : option audio_patch_handle_t)
    (address : option string) (requiresMuteCheck : bool) :
  valueFor (mOutputs m) output = Some outputDesc ->
  isDuplicated outputDesc = false ->
  let run :=
    setOutputDevice m output dev force delayMs patchHandle address requiresMuteCheck in
  let supported := supportedDevices m outputDesc in
  (dev <> AUDIO_DEVICE_NONE -> Z.land dev supported = AUDIO_DEVICE_NONE ->
   run = (m, mkRouteResult 0 patchHandle))
  /\ exists outputDesc',
       valueFor (mOutputs (fst run)) output = Some outputDesc'
       /\ isDuplicated outputDesc' = false
       /\ supportedDevices (fst run) outputDesc' = supported
       /\ (Z.land dev supported <> AUDIO_DEVICE_NONE ->
           mDevice outputDesc' = Z.land dev supported
           /\ mask_subset (mDevice outputDesc') supported)
       /\ (Z.land dev supported = AUDIO_DEVICE_NONE ->
           mDevice outputDesc' = mDevice outputDesc)
       /\ (mask_subset (mDevice outputDesc) supported ->
           mask_subset (mDevice outputDesc') supported).
Proof.
  intros Hd Hdup run supported.
  assert (Hs : supported = mSupportedDevices outputDesc)
    by apply (supportedDevices_plain _ _ Hdup).
  split.
  { intros Hne Hz. subst run. unfold setOutputDevice.
    cbn [setOutputDevice_rec]. rewrite Hd, Hdup. fold supported. rewrite Hz.
    apply Z.eqb_neq in Hne. rewrite Hne. reflexivity. }
  pose proof (setOutputDevice_rec_core (S (length (mOutputs m))) m output outputDesc
                dev force delayMs patchHandle address requiresMuteCheck Hd Hdup) as Hc.
  cbv zeta in Hc. fold (setOutputDevice m output dev force delayMs patchHandle address
                          requiresMuteCheck) in Hc.
  fold run in Hc. rewrite <- Hs in Hc.
  assert (Hmid : exists dmid,
            valueFor (mOutputs (if Z.land dev supported =? AUDIO_DEVICE_NONE then m
                                else update_output m output
                                       (fun d => set_mDevice d (Z.land dev supported))))
              output = Some dmid
            /\ dmid = (if Z.land dev supported =? AUDIO_DEVICE_NONE then outputDesc
                       else set_mDevice outputDesc (Z.land dev supported))).
  { destruct (Z.land dev supported =? AUDIO_DEVICE_NONE).
    - exists outputDesc. auto.
    - eexists. split; [|reflexivity].
      unfold update_output. cbn [mOutputs set_mOutputs].
      apply (valueFor_map_same (fun d => set_mDevice d (Z.land dev supported)));
        [reflexivity|exact Hd]. }
  destruct Hmid as (dmid & Hvm & Hdm).
  destruct (routing_core_valueFor _ _ _ _ Hc Hvm) as (d' & Hv' & He).
  assert (Hfields : mDevice d' = mDevice dmid
                    /\ mSupportedDevices d' = mSupportedDevices dmid
                    /\ mOutput1 d' = mOutput1 dmid /\ mOutput2 d' = mOutput2 dmid).
  { repeat split.
    - exact (f_equal mDevice He).
    - exact (f_equal mSupportedDevices He).
    - exact (f_equal mOutput1 He).
    - exact (f_equal mOutput2 He). }
  destruct Hfields as (Hdev & Hsup & Ho1 & Ho2).
  assert (Hdup' : isDuplicated d' = false).
  { unfold isDuplicated in *. rewrite Ho1, Ho2.
    subst dmid. destruct (_ =? AUDIO_DEVICE_NONE); exact Hdup. }
  assert (Hsup' : mSupportedDevices d' = supported).
  { rewrite Hsup, Hs. subst dmid. destruct (_ =? AUDIO_DEVICE_NONE); reflexivity. }
  exists d'. split; [exact Hv'|]. split; [exact Hdup'|].
  split; [rewrite (supportedDevices_plain _ _ Hdup'); exact Hsup'|].
  assert (Hstore : Z.land dev supported <> AUDIO_DEVICE_NONE ->
                   mDevice d' = Z.land dev supported).
  { intros Hne. rewrite Hdev. subst dmid. apply Z.eqb_neq in Hne. rewrite Hne.
    reflexivity. }
  assert (Hkeep : Z.land dev supported = AUDIO_DEVICE_NONE ->
                  mDevice d' = mDevice outputDesc).
  { intros Hz. rewrite Hdev. subst dmid. rewrite Hz. reflexivity. }
  assert (Hsub : Z.land dev supported <> AUDIO_DEVICE_NONE ->
                 mask_subset (mDevice d') supported).
  { intros Hne. rewrite (Hstore Hne). unfold mask_subset.
    rewrite <- Z.land_assoc, Z.land_diag. reflexivity. }
  split; [intros Hne; split; [exact (Hstore Hne)|exact (Hsub Hne)]|].
  split; [exact Hkeep|].
  intros Hinv.
  destruct (Z.eq_dec (Z.land dev supported) AUDIO_DEVICE_NONE) as [Hz|Hne].
  - rewrite (Hkeep Hz). exact Hinv.
  - exact (Hsub Hne).
Qed.

End DeviceWithinSupported.

(** ** The temporary mute *)

Section TemporaryMute.
Context {FL : CFloat} {PH : PolicyHeader}.

Lemma u32_small x : 0 <= x < 2 ^ 32 -> u32 x = x.
Proof. intros H. unfold u32. apply Z.mod_small. exact H. Qed.

Lemma i32_small x : 0 <= x < 2 ^ 31 -> i32 x = x.
Proof. intros H. unfold i32. rewrite Z.mod_small; lia. Qed.

Lemma isStrategyActive_core m m' d d' i :
  routing_core m' = routing_core m ->
  erase_output d' = erase_output d ->
  isStrategyActive m' d' i = isStrategyActive m d i.
Proof.
  intros Hc He. unfold isStrategyActive, getStrategy, isStreamActive.
  rewrite (f_equal mEngine Hc : mEngine m' = mEngine m).
  rewrite (f_equal mActiveCount He : mActiveCount d' = mActiveCount d).
  reflexivity.
Qed.

Lemma isActive_core d d' :
  erase_output d' = erase_output d -> isActive d' = isActive d.
Proof.
  intros He. unfold isActive, isStreamActive.
  rewrite (f_equal mActiveCount He : mActiveCount d' = mActiveCount d).
  reflexivity.
Qed.

Lemma isDuplicated_core d d' :
  erase_output d' = erase_output d -> isDuplicated d' = isDuplicated d.
Proof.
  intros He. unfold isDuplicated.
  rewrite (f_equal mOutput1 He : mOutput1 d' = mOutput1 d).
  rewrite (f_equal mOutput2 He : mOutput2 d' = mOutput2 d).
  reflexivity.
Qed.

Lemma fold_left_ext_inv {A B : Type} (P : A -> Prop) (f g : A -> B -> A) (l : list B) :
  (forall a b, P a -> f a b = g a b) ->
  (forall a b, P a -> P (g a b)) ->
  forall a, P a -> List.fold_left f l a = List.fold_left g l a.
Proof.
  intros Hfg Hg. induction l as [|b l IH]; intros a Ha; [reflexivity|].
  cbn. rewrite Hfg by exact Ha. apply IH. apply Hg. exact Ha.
Qed.

(** The second loop of [checkDeviceMuteStrategies] is the temporary mute of
    the strategies active at entry. *)
Lemma tempMuteStrategy_fold m0 outputDesc output dev delayMs duration m1 :
  isDuplicated outputDesc = false ->
  valueFor (mOutputs m0) output = Some outputDesc ->
  routing_core m1 = routing_core m0 ->
  0 <= delayMs -> 0 <= duration < 2 ^ 32 -> delayMs + duration < 2 ^ 31 ->
  List.fold_left (tempMuteStrategy output dev delayMs duration) all_strategies m1
  = temporaryMute m0 outputDesc output dev delayMs duration m1.
Proof.
  intros Hdup Hd Hc Hdel Hdur Hsum. unfold temporaryMute.
  apply (fold_left_ext_inv (fun a => routing_core a = routing_core m0)); [| |exact Hc].
  - intros a i Ha. unfold tempMuteStrategy.
    destruct (routing_core_valueFor _ _ _ _ Ha Hd) as (da & Hda & Hea).
    rewrite Hda. rewrite (isStrategyActive_core _ _ _ _ _ Ha Hea).
    destruct (isStrategyActive m0 outputDesc i); [|reflexivity].
    rewrite (i32_small delayMs) by lia.
    rewrite (u32_small (delayMs + duration)) by lia.
    rewrite (i32_small (delayMs + duration)) by lia.
    reflexivity.
  - intros a i Ha. destruct (isStrategyActive m0 outputDesc i); [|exact Ha].
    rewrite !setStrategyMute_core. exact Ha.
Qed.

(** The mute counters of an output after [setStrategyMute]. *)
Lemma setStrategyMute_streams_count streams : forall m strategy on output delayMs dev d stream,
  valueFor (mOutputs m) output = Some d ->
  NoDup streams ->
  let m' :=
    List.fold_left
      (fun m s =>
         if bool_decide (getStrategy m s = strategy)
         then setStreamMute m s on output delayMs dev else m)
      streams m in
  exists d',
    valueFor (mOutputs m') output = Some d'
    /\ mEngine m' = mEngine m
    /\ mMuteCount d' stream
       = if bool_decide (stream ∈ streams /\ getStrategy m stream = strategy)
         then (if on then mMuteCount d stream + 1
               else if mMuteCount d stream =? 0 then 0 else mMuteCount d stream - 1)
         else mMuteCount d stream.
Proof.
  induction streams as [|s streams IH]; intros m strategy on output delayMs dev d stream Hd Hnd.
  - cbn. exists d. split; [exact Hd|]. split; [reflexivity|].
    rewrite bool_decide_eq_false_2; [reflexivity|].
    intros [Hin _]. apply elem_of_nil in Hin. exact Hin.
  - apply NoDup_cons in Hnd as [Hnotin Hnd]. cbn [List.fold_left].
    set (m1 := if bool_decide (getStrategy m s = strategy)
               then setStreamMute m s on output delayMs dev else m).
    assert (He1 : mEngine m1 = mEngine m).
    { subst m1. destruct (bool_decide _); [|reflexivity].
      exact (f_equal mEngine (setStreamMute_core m s on output delayMs dev)). }
    assert (Hd1 : exists d1, valueFor (mOutputs m1) output = Some d1
              /\ mMuteCount d1 stream
                 = if bool_decide (stream = s /\ getStrategy m s = strategy)
                   then (if on then mMuteCount d stream + 1
                         else if mMuteCount d stream =? 0 then 0
                              else mMuteCount d stream - 1)
                   else mMuteCount d stream).
    { subst m1. destruct (bool_decide (getStrategy m s = strategy)) eqn:Es.
      - apply bool_decide_eq_true_1 in Es.
        eexists. split; [apply (setStreamMute_output _ _ _ _ _ _ _ Hd)|].
        destruct (decide (stream = s)) as [->|Hne].
        + rewrite bool_decide_eq_true_2 by auto.
          destruct on; cbn; [apply array_set_same|].
          destruct (mMuteCount d s =? 0) eqn:E0; cbn; zbool;
            [exact E0|apply array_set_same].
        + rewrite bool_decide_eq_false_2 by (intros [? _]; contradiction).
          destruct on; cbn; [apply array_set_other; exact Hne|].
          destruct (mMuteCount d s =? 0); cbn; [reflexivity|].
          apply array_set_other; exact Hne.
      - apply bool_decide_eq_false_1 in Es. exists d. split; [exact Hd|].
        rewrite bool_decide_eq_false_2 by (intros [_ ?]; contradiction).
        reflexivity. }
    destruct Hd1 as (d1 & Hv1 & Hc1).
    destruct (IH m1 strategy on output delayMs dev d1 stream Hv1 Hnd)
      as (d' & Hv' & He' & Hc').
    exists d'. split; [exact Hv'|]. split; [congruence|].
    rewrite Hc'. unfold getStrategy in *. rewrite He1.
    destruct (decide (stream = s)) as [->|Hne].
    + rewrite (bool_decide_eq_false_2 (s ∈ streams /\ _))
        by (intros [? _]; contradiction).
      rewrite Hc1.
      destruct (decide (getStrategyForStream (mEngine m) s = strategy)) as [Hs|Hs].
      * rewrite !bool_decide_eq_true_2
          by (first [split; [apply elem_of_cons; auto|auto] | auto]).
        reflexivity.
      * rewrite !bool_decide_eq_false_2 by (intros [_ ?]; contradiction). reflexivity.
    + rewrite Hc1.
      rewrite (bool_decide_eq_false_2 (stream = s /\ _))
        by (intros [? _]; contradiction).
      destruct (decide (stream ∈ streams
                        /\ getStrategyForStream (mEngine m) stream = strategy))
        as [[Hin Hs]|Hno].
      * rewrite !bool_decide_eq_true_2
          by (first [split; [apply elem_of_cons; auto|auto] | auto]).
        reflexivity.
      * rewrite !bool_decide_eq_false_2; [reflexivity| |exact Hno].
        intros [Hin Hs]. apply elem_of_cons in Hin as [Heq|Hin];
          [congruence|apply Hno; auto].
Qed.

Lemma policy_streams_NoDup : NoDup policy_streams.
Proof.
  unfold policy_streams.
  repeat (apply NoDup_cons_2;
          [rewrite ?elem_of_cons, elem_of_nil; intuition discriminate|]).
  apply NoDup_nil_2.
Qed.

(** Muting a strategy and unmuting it again leaves the mute counters of
    an output whose counters are not negative as they were. *)
Lemma mute_unmute_counts m i output d delayMs delayMs' dev dev' :
  valueFor (mOutputs m) output = Some d ->
  (forall s, 0 <= mMuteCount d s) ->
  exists d',
    valueFor (mOutputs (setStrategyMute (setStrategyMute m i true output delayMs dev)
                          i false output delayMs' dev')) output = Some d'
    /\ forall s, mMuteCount d' s = mMuteCount d s.
Proof.
  intros Hd Hnn.
  assert (H1 : forall s, exists d1,
            valueFor (mOutputs (setStrategyMute m i true output delayMs dev)) output
            = Some d1
            /\ mEngine (setStrategyMute m i true output delayMs dev) = mEngine m
            /\ mMuteCount d1 s
               = if bool_decide (s ∈ policy_streams /\ getStrategy m s = i)
                 then mMuteCount d s + 1 else mMuteCount d s).
  { intros s. apply (setStrategyMute_streams_count policy_streams m i true output
                       delayMs dev d s Hd policy_streams_NoDup). }
  destruct (H1 AUDIO_STREAM_MUSIC) as (d1 & Hv1 & He1 & _).
  assert (H2 : forall s, exists d2,
            valueFor (mOutputs (setStrategyMute (setStrategyMute m i true output delayMs dev)
                                  i false output delayMs' dev')) output = Some d2
            /\ mMuteCount d2 s
               = if bool_decide (s ∈ policy_streams
                                 /\ getStrategy (setStrategyMute m i true output delayMs dev) s
                                    = i)
                 then (if mMuteCount d1 s =? 0 then 0 else mMuteCount d1 s - 1)
                 else mMuteCount d1 s).
  { intros s.
    destruct (setStrategyMute_streams_count policy_streams
                (setStrategyMute m i true output delayMs dev) i false output
                delayMs' dev' d1 s Hv1 policy_streams_NoDup) as (d2 & Hv2 & _ & Hc2).
    exists d2. split; [exact Hv2|exact Hc2]. }
  destruct (H2 AUDIO_STREAM_MUSIC) as (d2 & Hv2 & _).
  exists d2. split; [exact Hv2|]. intros s.
  destruct (H2 s) as (d2' & Hv2' & Hc2). rewrite Hv2 in Hv2'. injection Hv2' as <-.
  destruct (H1 s) as (d1' & Hv1' & _ & Hc1). rewrite Hv1 in Hv1'. injection Hv1' as <-.
  rewrite Hc2, Hc1. unfold getStrategy. rewrite He1.
  specialize (Hnn s).
  destruct (bool_decide (s ∈ policy_streams ∧ getStrategyForStream (mEngine m) s = i));
    [|reflexivity].
  destruct (mMuteCount d s + 1 =? 0) eqn:E; zbool; lia.
Qed.

Lemma temporaryMute_counts m0 outputDesc output dev delayMs duration :
  forall m d,
    valueFor (mOutputs m) output = Some d ->
    (forall s, 0 <= mMuteCount d s) ->
    exists d',
      valueFor (mOutputs (temporaryMute m0 outputDesc output dev delayMs duration m))
        output = Some d'
      /\ forall s, mMuteCount d' s = mMuteCount d s.
Proof.
  unfold temporaryMute. generalize all_strategies as l.
  induction l as [|i l IH]; intros m d Hd Hnn.
  - exists d. split; [exact Hd|reflexivity].
  - cbn [List.fold_left]. destruct (isStrategyActive m0 outputDesc i).
    + destruct (mute_unmute_counts m i output d delayMs (delayMs + duration)
                  AUDIO_DEVICE_NONE dev Hd Hnn) as (d1 & Hv1 & Hc1).
      destruct (IH _ d1 Hv1) as (d' & Hv' & Hc').
      { intros s. rewrite Hc1. apply Hnn. }
      exists d'. split; [exact Hv'|]. intros s. rewrite Hc', Hc1. reflexivity.
    + apply IH; assumption.
Qed.

Lemma setStreamMute_valueFor_other m stream on out' delayMs dev output :
  out' <> output ->
  valueFor (mOutputs (setStreamMute m stream on out' delayMs dev)) output
  = valueFor (mOutputs m) output.
Proof.
  intros Hne. unfold setStreamMute.
  destruct (valueFor (mOutputs m) out') as [d|]; [|reflexivity].
  destruct on.
  - unfold update_output. cbn [mOutputs set_mOutputs].
    match goal with |- context [mOutputs ?m1] =>
      assert (Ho : mOutputs m1 = mOutputs m) end.
    { destruct (mMuteCount d stream =? 0); [|reflexivity].
      match goal with |- context [if ?c then _ else m] => destruct c end;
        [apply checkAndSetVolume_mOutputs|reflexivity]. }
    rewrite Ho.
    apply (valueFor_map_other
             (fun d => set_mMuteCount d
                         (array_set (mMuteCount d) stream (mMuteCount d stream + 1))));
      [reflexivity|congruence].
  - destruct (mMuteCount d stream =? 0); [reflexivity|].
    match goal with |- context [if ?c then fst ?x else ?y] =>
      assert (Ho : mOutputs (if c then fst x else y) = mOutputs y) end.
    { destruct (_ =? 0); [apply checkAndSetVolume_mOutputs|reflexivity]. }
    rewrite Ho. unfold update_output. cbn [mOutputs set_mOutputs].
    apply (valueFor_map_other
             (fun d => set_mMuteCount d
                         (array_set (mMuteCount d) stream (mMuteCount d stream - 1))));
      [reflexivity|congruence].
Qed.

Lemma setStreamMute_counts_nonneg output m stream on out' delayMs dev :
  counts_nonneg output m ->
  counts_nonneg output (setStreamMute m stream on out' delayMs dev).
Proof.
  intros (d & Hd & Hnn). destruct (Z.eq_dec out' output) as [->|Hne].
  - eexists. split; [apply (setStreamMute_output _ _ _ _ _ _ _ Hd)|].
    intros s. pose proof (Hnn s) as Hs. pose proof (Hnn stream) as Hst.
    destruct on; cbn.
    + unfold array_set. destruct (decide (s = stream)); lia.
    + destruct (mMuteCount d stream =? 0) eqn:E; [exact Hs|]. cbn.
      unfold array_set. destruct (decide (s = stream)); zbool; lia.
  - exists d. split; [|exact Hnn].
    rewrite setStreamMute_valueFor_other by exact Hne. exact Hd.
Qed.

Lemma fold_left_preserves {A B : Type} (P : A -> Prop) (f : A -> B -> A) (l : list B) :
  (forall a b, P a -> P (f a b)) -> forall a, P a -> P (List.fold_left f l a).
Proof.
  intros Hf. induction l as [|b l IH]; intros a Ha; [exact Ha|].
  cbn. apply IH, Hf, Ha.
Qed.

Lemma setStrategyMute_counts_nonneg output m i on out' delayMs dev :
  counts_nonneg output m ->
  counts_nonneg output (setStrategyMute m i on out' delayMs dev).
Proof.
  unfold setStrategyMute. apply fold_left_preserves.
  intros a s Ha. destruct (bool_decide _); [|exact Ha].
  apply setStreamMute_counts_nonneg. exact Ha.
Qed.

Lemma update_muted_counts_nonneg output m out' i b :
  counts_nonneg output m ->
  counts_nonneg output
    (update_output m out'
       (fun d => set_mStrategyMutedByDevice d (array_set (mStrategyMutedByDevice d) i b))).
Proof.
  intros (d & Hd & Hnn). unfold update_output. cbn [mOutputs set_mOutputs].
  destruct (Z.eq_dec output out') as [->|Hne].
  - eexists. split.
    + apply (valueFor_map_same
               (fun d => set_mStrategyMutedByDevice d
                           (array_set (mStrategyMutedByDevice d) i b)));
        [reflexivity|exact Hd].
    + exact Hnn.
  - exists d. split; [|exact Hnn].
    rewrite <- Hd.
    apply (valueFor_map_other
             (fun d => set_mStrategyMutedByDevice d
                         (array_set (mStrategyMutedByDevice d) i b)));
      [reflexivity|exact Hne].
Qed.

Lemma muteStrategyOnOutput_counts_nonneg output out' i mute delayMs acc j :
  counts_nonneg output (fst acc) ->
  counts_nonneg output (fst (muteStrategyOnOutput out' i mute delayMs acc j)).
Proof.
  unfold muteStrategyOnOutput. destruct acc as [m w]. cbn [fst]. intros Hm.
  destruct (nth_error (mOutputs m) j) as [desc|]; [|exact Hm].
  destruct (valueFor (mOutputs m) out') as [outputDesc|]; [|exact Hm].
  destruct (_ =? AUDIO_DEVICE_NONE); [exact Hm|].
  destruct (nth_error _ j) as [desc1|].
  - match goal with |- context [if ?c then _ else _] => destruct c end;
      cbn [fst]; apply setStrategyMute_counts_nonneg; exact Hm.
  - cbn [fst]. apply setStrategyMute_counts_nonneg; exact Hm.
Qed.

Lemma muteStrategyByDevice_counts_nonneg output out' dev shouldMute delayMs acc i :
  counts_nonneg output (fst acc) ->
  counts_nonneg output (fst (muteStrategyByDevice out' dev shouldMute delayMs acc i)).
Proof.
  unfold muteStrategyByDevice. destruct acc as [m w]. cbn [fst]. intros Hm.
  destruct (valueFor (mOutputs m) out') as [outputDesc|]; [|exact Hm].
  match goal with |- context [if ?c then (true, _) else _] => destruct c end;
    cbv beta iota zeta.
  - apply (fold_left_preserves (fun acc => counts_nonneg output (fst acc))).
    + intros; apply muteStrategyOnOutput_counts_nonneg; assumption.
    + cbn [fst]. apply update_muted_counts_nonneg. exact Hm.
  - match goal with |- context [if ?c then (true, _) else _] => destruct c end;
      cbv beta iota zeta; [|exact Hm].
    apply (fold_left_preserves (fun acc => counts_nonneg output (fst acc))).
    + intros; apply muteStrategyOnOutput_counts_nonneg; assumption.
    + cbn [fst]. apply update_muted_counts_nonneg. exact Hm.
Qed.

Lemma muteByDevice_phase_counts_nonneg m output outputDesc delayMs :
  counts_nonneg output m ->
  counts_nonneg output (fst (muteByDevice_phase m output outputDesc delayMs)).
Proof.
  intros Hm. unfold muteByDevice_phase.
  apply (fold_left_preserves (fun acc => counts_nonneg output (fst acc))).
  - intros; apply muteStrategyByDevice_counts_nonneg; assumption.
  - exact Hm.
Qed.

Lemma sequencing_calls_app evs evs' :
  sequencing_calls (evs ++ evs') = sequencing_calls evs ++ sequencing_calls evs'.
Proof. apply List.filter_app. Qed.

Lemma sco_refused_core m m' stream :
  routing_core m' = routing_core m -> sco_refused m' stream = sco_refused m stream.
Proof.
  intros Hc. unfold sco_refused.
  rewrite (f_equal mEngine Hc : mEngine m' = mEngine m). reflexivity.
Qed.

Lemma mute_applies_core m m' stream :
  routing_core m' = routing_core m -> mute_applies m' stream = mute_applies m stream.
Proof.
  intros Hc. unfold mute_applies.
  rewrite (f_equal mEngine Hc : mEngine m' = mEngine m).
  rewrite (f_equal mVolumeCurves Hc : mVolumeCurves m' = mVolumeCurves m). reflexivity.
Qed.

Lemma volume_call_core m m' d d' output stream index dev delayMs :
  routing_core m' = routing_core m ->
  erase_output d' = erase_output d ->
  volume_call m' d' output stream index dev delayMs
  = volume_call m d output stream index dev delayMs.
Proof.
  intros Hc He. unfold volume_call.
  rewrite (sco_refused_core _ _ stream Hc).
  rewrite (f_equal mFixedVolume He : mFixedVolume d' = mFixedVolume d). reflexivity.
Qed.

Lemma stream_mute_calls_core m m' d d' output count count' stream on dev delayMs :
  routing_core m' = routing_core m ->
  erase_output d' = erase_output d ->
  count' stream = count stream ->
  stream_mute_calls m' d' output count' stream on dev delayMs
  = stream_mute_calls m d output count stream on dev delayMs.
Proof.
  intros Hc He Hn. unfold stream_mute_calls.
  rewrite Hn, (mute_applies_core _ _ stream Hc), !(volume_call_core _ _ _ _ _ _ _ _ _ Hc He).
  rewrite (f_equal mVolumeCurves Hc : mVolumeCurves m' = mVolumeCurves m). reflexivity.
Qed.

(** The volume call of [checkAndSetVolume] on a stream type that is not
    muted. *)
Lemma checkAndSetVolume_calls m stream index output dev delayMs d :
  valueFor (mOutputs m) output = Some d ->
  mMuteCount d stream = 0 ->
  sequencing_calls
    (mTrace (fst (checkAndSetVolume m stream index output dev delayMs false)))
  = sequencing_calls (mTrace m)
    ++ volume_call m d output stream index
         (if dev =? AUDIO_DEVICE_NONE then device m d else dev) delayMs.
Proof.
  intros Hd Hc. unfold checkAndSetVolume, volume_call, sco_refused.
  rewrite Hd, Hc. cbn [Z.eqb negb].
  match goal with |- context [if ?c then (m, INVALID_OPERATION) else _] =>
    destruct c end; [cbn [fst]; rewrite app_nil_r; reflexivity|].
  cbn [fst].
  destruct (is_voice_stream stream).
  - match goal with |- context [if negb ?c then _ else _] => destruct c end;
      cbn [negb mTrace emit set_mTrace set_mLastVoiceVolume];
      rewrite ?sequencing_calls_app; cbn; rewrite ?app_nil_r; reflexivity.
  - cbn [mTrace emit set_mTrace]. rewrite sequencing_calls_app. reflexivity.
Qed.

Lemma device_or_none m d dev :
  let dev' := if dev =? AUDIO_DEVICE_NONE then device m d else dev in
  (if dev' =? AUDIO_DEVICE_NONE then device m d else dev') = dev'.
Proof.
  cbn zeta. destruct (dev =? AUDIO_DEVICE_NONE) eqn:E.
  - destruct (device m d =? AUDIO_DEVICE_NONE); reflexivity.
  - rewrite E. reflexivity.
Qed.

Lemma flat_map_ext_In {A B : Type} (f g : A -> list B) (l : list A) :
  (forall a, In a l -> f a = g a) -> List.flat_map f l = List.flat_map g l.
Proof.
  induction l as [|a l IH]; intros H; [reflexivity|].
  cbn. rewrite (H a) by (left; reflexivity). f_equal. apply IH.
  intros b Hb. apply H. right. exact Hb.
Qed.

Lemma device_or_none_same m d :
  (if device m d =? AUDIO_DEVICE_NONE then device m d else device m d) = device m d.
Proof. destruct (device m d =? AUDIO_DEVICE_NONE); reflexivity. Qed.

(** The volume call of one [setStreamMute]. *)
Lemma setStreamMute_calls m stream on output delayMs dev d :
  valueFor (mOutputs m) output = Some d ->
  isDuplicated d = false ->
  sequencing_calls (mTrace (setStreamMute m stream on output delayMs dev))
  = sequencing_calls (mTrace m)
    ++ stream_mute_calls m d output (mMuteCount d) stream on
         (if dev =? AUDIO_DEVICE_NONE then device m d else dev) delayMs.
Proof.
  intros Hd Hdup. unfold setStreamMute, stream_mute_calls, mute_applies. rewrite Hd.
  set (dev' := if dev =? AUDIO_DEVICE_NONE then device m d else dev).
  pose proof (device_or_none m d dev) as Hdev. cbn zeta in Hdev. fold dev' in Hdev.
  destruct on.
  - unfold update_output. cbn [mTrace set_mOutputs].
    destruct (mMuteCount d stream =? 0) eqn:E; cbn [andb];
      [|rewrite app_nil_r; reflexivity].
    match goal with |- context [if ?c then _ else m] => destruct c end;
      [|rewrite app_nil_r; reflexivity].
    rewrite (checkAndSetVolume_calls m stream 0 output dev' delayMs d Hd)
      by (apply Z.eqb_eq; exact E).
    rewrite Hdev. reflexivity.
  - destruct (mMuteCount d stream =? 0) eqn:E.
    + replace (mMuteCount d stream =? 1) with false
        by (symmetry; apply Z.eqb_neq; apply Z.eqb_eq in E; lia).
      rewrite app_nil_r. reflexivity.
    + replace (mMuteCount d stream - 1 =? 0) with (mMuteCount d stream =? 1).
      2: { destruct (mMuteCount d stream =? 1) eqn:E1; symmetry; zbool; lia. }
      destruct (mMuteCount d stream =? 1) eqn:E1.
      * set (f := fun d0 => set_mMuteCount d0
                            (array_set (mMuteCount d0) stream (mMuteCount d0 stream - 1))).
        set (m1 := update_output m output f).
        assert (Hd1 : valueFor (mOutputs m1) output = Some (f d)).
        { subst m1. unfold update_output. cbn [mOutputs set_mOutputs].
          apply (valueFor_map_same f); [reflexivity|exact Hd]. }
        assert (Hc1 : mMuteCount (f d) stream = 0).
        { subst f. cbn. rewrite array_set_same. apply Z.eqb_eq in E1. lia. }
        assert (Hcore : routing_core m1 = routing_core m).
        { subst m1. apply routing_core_update_output. reflexivity. }
        assert (Hdev1 : device m1 (f d) = device m d).
        { rewrite (device_plain m1 (f d)) by exact Hdup.
          rewrite (device_plain m d Hdup). reflexivity. }
        rewrite (checkAndSetVolume_calls m1 stream _ output dev' delayMs (f d) Hd1 Hc1).
        rewrite Hdev1, Hdev.
        rewrite (volume_call_core m m1 d (f d)) by (auto; reflexivity).
        reflexivity.
      * rewrite app_nil_r. reflexivity.
Qed.

(** The volume calls of one [setStrategyMute], over a list of stream
    types. *)
Lemma setStrategyMute_calls m0 d0 output count i on delayMs dev :
  isDuplicated d0 = false ->
  forall streams, NoDup streams -> forall m d,
    routing_core m = routing_core m0 ->
    valueFor (mOutputs m) output = Some d ->
    erase_output d = erase_output d0 ->
    (forall stream, stream ∈ streams -> mMuteCount d stream = count stream) ->
    sequencing_calls
      (mTrace
         (List.fold_left
            (fun m stream =>
               if bool_decide (getStrategy m stream = i)
               then setStreamMute m stream on output delayMs dev
               else m)
            streams m))
    = sequencing_calls (mTrace m)
      ++ strategy_mute_calls m0 d0 output count i on
           (if dev =? AUDIO_DEVICE_NONE then device m0 d0 else dev) delayMs streams.
Proof.
  intros Hdup. induction streams as [|stream streams IH]; intros Hnd m d Hc Hd He Hn.
  - cbn. rewrite app_nil_r. reflexivity.
  - apply NoDup_cons in Hnd as [Hnotin Hnd].
    assert (Hdupd : isDuplicated d = false)
      by (rewrite (isDuplicated_core _ _ He); exact Hdup).
    assert (Hdevd : device m d = device m0 d0).
    { rewrite (device_plain m d Hdupd), (device_plain m0 d0 Hdup).
      exact (f_equal mDevice He). }
    cbn [List.fold_left]. unfold strategy_mute_calls. cbn [List.flat_map].
    fold (strategy_mute_calls m0 d0 output count i on
            (if dev =? AUDIO_DEVICE_NONE then device m0 d0 else dev) delayMs streams).
    assert (Hstr : getStrategy m stream = getStrategy m0 stream).
    { unfold getStrategy. rewrite (f_equal mEngine Hc : mEngine m = mEngine m0).
      reflexivity. }
    rewrite Hstr.
    destruct (bool_decide (getStrategy m0 stream = i)).
    + destruct (routing_core_valueFor m (setStreamMute m stream on output delayMs dev)
                  output d (setStreamMute_core _ _ _ _ _ _) Hd) as (d' & Hd' & He').
      rewrite (IH Hnd (setStreamMute m stream on output delayMs dev) d').
      * rewrite (setStreamMute_calls m stream on output delayMs dev d Hd Hdupd).
        rewrite Hdevd, <- app_assoc.
        rewrite (stream_mute_calls_core m0 m d0 d output count (mMuteCount d))
          by (auto; apply Hn; apply elem_of_cons; left; reflexivity).
        reflexivity.
      * rewrite setStreamMute_core. exact Hc.
      * exact Hd'.
      * rewrite He'. exact He.
      * intros s Hs.
        assert (Hne : s <> stream) by (intros ->; contradiction).
        pose proof (setStreamMute_output m stream on output delayMs dev d Hd) as Hout.
        rewrite Hd' in Hout. injection Hout as ->.
        rewrite <- (Hn s) by (apply elem_of_cons; right; exact Hs).
        destruct on; cbn [mMuteCount set_mMuteCount].
        -- apply array_set_other. exact Hne.
        -- destruct (mMuteCount d stream =? 0); [reflexivity|].
           cbn [mMuteCount set_mMuteCount]. apply array_set_other. exact Hne.
    + rewrite (IH Hnd m d Hc Hd He).
      * reflexivity.
      * intros s Hs. apply Hn. apply elem_of_cons. right. exact Hs.
Qed.

(** The volume calls of the temporary mute of one strategy. *)
Lemma mute_unmute_calls m0 d0 output i delayMs delayMs' m d :
  isDuplicated d0 = false ->
  routing_core m = routing_core m0 ->
  valueFor (mOutputs m) output = Some d ->
  erase_output d = erase_output d0 ->
  (forall s, 0 <= mMuteCount d s) ->
  sequencing_calls
    (mTrace (setStrategyMute (setStrategyMute m i true output delayMs AUDIO_DEVICE_NONE)
               i false output delayMs' (device m0 d0)))
  = sequencing_calls (mTrace m)
    ++ (List.flat_map
          (fun stream =>
             if bool_decide (getStrategy m0 stream = i) && (mMuteCount d stream =? 0)
                && mute_applies m0 stream
             then volume_call m0 d0 output stream 0 (device m0 d0) delayMs
             else [])
          policy_streams
        ++ List.flat_map
             (fun stream =>
                if bool_decide (getStrategy m0 stream = i) && (mMuteCount d stream =? 0)
                then volume_call m0 d0 output stream
                       (getVolumeIndex (mVolumeCurves m0) stream (device m0 d0))
                       (device m0 d0) delayMs'
                else [])
             policy_streams).
Proof.
  intros Hdup Hc Hd He Hnn.
  set (m1 := setStrategyMute m i true output delayMs AUDIO_DEVICE_NONE).
  assert (Hc1 : routing_core m1 = routing_core m0).
  { subst m1. rewrite setStrategyMute_core. exact Hc. }
  assert (H1 : forall s, exists d1,
            valueFor (mOutputs m1) output = Some d1
            /\ mEngine m1 = mEngine m
            /\ mMuteCount d1 s
               = if bool_decide (s ∈ policy_streams /\ getStrategy m s = i)
                 then mMuteCount d s + 1 else mMuteCount d s).
  { intros s. apply (setStrategyMute_streams_count policy_streams m i true output
                       delayMs AUDIO_DEVICE_NONE d s Hd policy_streams_NoDup). }
  destruct (H1 AUDIO_STREAM_MUSIC) as (d1 & Hd1 & _ & _).
  assert (He1 : erase_output d1 = erase_output d0).
  { destruct (routing_core_valueFor m m1 output d) as (d1' & Hd1' & He1');
      [subst m1; apply setStrategyMute_core|exact Hd|].
    rewrite Hd1 in Hd1'. injection Hd1' as <-. rewrite He1'. exact He. }
  unfold setStrategyMute at 1. fold m1.
  rewrite (setStrategyMute_calls m0 d0 output (mMuteCount d1) i false delayMs'
             (device m0 d0) Hdup policy_streams policy_streams_NoDup m1 d1 Hc1 Hd1 He1)
    by reflexivity.
  subst m1. unfold setStrategyMute at 1.
  rewrite (setStrategyMute_calls m0 d0 output (mMuteCount d) i true delayMs
             AUDIO_DEVICE_NONE Hdup policy_streams policy_streams_NoDup m d Hc Hd He)
    by reflexivity.
  rewrite <- app_assoc. f_equal. f_equal.
  - cbn [Z.eqb AUDIO_DEVICE_NONE]. unfold strategy_mute_calls.
    apply List.flat_map_ext. intros s.
    unfold stream_mute_calls.
    destruct (bool_decide (getStrategy m0 s = i)); reflexivity.
  - rewrite (device_or_none_same m0 d0). unfold strategy_mute_calls.
    apply flat_map_ext_In. intros s Hs. unfold stream_mute_calls.
    destruct (bool_decide (getStrategy m0 s = i)) eqn:Ei; [|reflexivity].
    cbn [andb].
    destruct (H1 s) as (d1' & Hd1' & _ & Hcount).
    fold (setStrategyMute m i true output delayMs AUDIO_DEVICE_NONE) in Hd1.
    rewrite Hd1 in Hd1'. injection Hd1' as <-.
    rewrite Hcount. rewrite bool_decide_eq_true_2.
    2: { split; [apply list_elem_of_In; exact Hs|].
         apply bool_decide_eq_true_1 in Ei. unfold getStrategy in *.
         rewrite (f_equal mEngine Hc : mEngine m = mEngine m0). exact Ei. }
    replace (mMuteCount d s + 1 =? 1) with (mMuteCount d s =? 0).
    2: { destruct (mMuteCount d s =? 0) eqn:E; symmetry; zbool; lia. }
    reflexivity.
Qed.

(** The volume calls of the temporary mute of the strategies that are active
    on the output. *)
Lemma temporaryMute_calls m0 d0 output delayMs duration count :
  isDuplicated d0 = false ->
  forall strategies m d,
    routing_core m = routing_core m0 ->
    valueFor (mOutputs m) output = Some d ->
    erase_output d = erase_output d0 ->
    (forall s, mMuteCount d s = count s) ->
    (forall s, 0 <= count s) ->
    exists d',
      valueFor
        (mOutputs
           (List.fold_left
              (fun m i =>
                 if isStrategyActive m0 d0 i then
                   setStrategyMute
                     (setStrategyMute m i true output delayMs AUDIO_DEVICE_NONE)
                     i false output (delayMs + duration) (device m0 d0)
                 else m)
              strategies m)) output = Some d'
      /\ (forall s, mMuteCount d' s = count s)
      /\ sequencing_calls
           (mTrace
              (List.fold_left
                 (fun m i =>
                    if isStrategyActive m0 d0 i then
                      setStrategyMute
                        (setStrategyMute m i true output delayMs AUDIO_DEVICE_NONE)
                        i false output (delayMs + duration) (device m0 d0)
                    else m)
                 strategies m))
         = sequencing_calls (mTrace m)
           ++ List.flat_map
                (fun i =>
                   if isStrategyActive m0 d0 i then
                     List.flat_map
                       (fun stream =>
                          if bool_decide (getStrategy m0 stream = i)
                             && (count stream =? 0) && mute_applies m0 stream
                          then volume_call m0 d0 output stream 0 (device m0 d0) delayMs
                          else [])
                       policy_streams
                     ++ List.flat_map
                          (fun stream =>
                             if bool_decide (getStrategy m0 stream = i)
                                && (count stream =? 0)
                             then volume_call m0 d0 output stream
                                    (getVolumeIndex (mVolumeCurves m0) stream
                                       (device m0 d0))
                                    (device m0 d0) (delayMs + duration)
                             else [])
                          policy_streams
                   else [])
                strategies.
Proof.
  intros Hdup. induction strategies as [|i strategies IH]; intros m d Hc Hd He Hn Hnn.
  - exists d. cbn. rewrite app_nil_r. auto.
  - cbn [List.fold_left List.flat_map].
    destruct (isStrategyActive m0 d0 i).
    + assert (Hnnd : forall s, 0 <= mMuteCount d s) by (intros s; rewrite Hn; apply Hnn).
      destruct (mute_unmute_counts m i output d delayMs (delayMs + duration)
                  AUDIO_DEVICE_NONE (device m0 d0) Hd Hnnd) as (d2 & Hd2 & Hc2).
      set (m2 := setStrategyMute
                   (setStrategyMute m i true output delayMs AUDIO_DEVICE_NONE)
                   i false output (delayMs + duration) (device m0 d0)) in *.
      assert (Hcore2 : routing_core m2 = routing_core m0).
      { subst m2. rewrite !setStrategyMute_core. exact Hc. }
      assert (He2 : erase_output d2 = erase_output d0).
      { destruct (routing_core_valueFor m m2 output d) as (d2' & Hd2' & He2');
          [subst m2; rewrite !setStrategyMute_core; reflexivity|exact Hd|].
        rewrite Hd2 in Hd2'. injection Hd2' as <-. rewrite He2'. exact He. }
      destruct (IH m2 d2 Hcore2 Hd2 He2) as (d' & Hd' & Hn' & Hcalls).
      { intros s. rewrite Hc2. apply Hn. }
      { exact Hnn. }
      exists d'. split; [exact Hd'|]. split; [exact Hn'|].
      rewrite Hcalls. subst m2.
      rewrite (mute_unmute_calls m0 d0 output i delayMs (delayMs + duration) m d
                 Hdup Hc Hd He Hnnd).
      rewrite <- !app_assoc. f_equal. f_equal; [|f_equal].
      * apply List.flat_map_ext. intros s. rewrite Hn. reflexivity.
      * apply List.flat_map_ext. intros s. rewrite Hn. reflexivity.
    + apply (IH m d); assumption.
Qed.

(** C6.  On an output that is not duplicated, is active and whose device
    differs from the previous one, [checkDeviceMuteStrategies] first runs its
    per-strategy loop and then mutes the output for a while: for every
    strategy active on the output, the transport is asked to silence, after
    the caller's delay, the stream types of the strategy that are not muted
    yet, and to give them back the volume of their current index after that
    delay plus four times the latency of the output; these are all the
    volume calls it makes after the first loop, and the mute counters end as
    the first loop left them.  The mute wait is raised to at least twice the
    latency; the function sleeps for and returns the mute wait minus the
    caller's delay when that is positive, and returns zero without sleeping
    otherwise. *)
Theorem checkDeviceMuteStrategies_temporary_mute
    (m : AudioPolicyManager) (output : audio_io_handle_t)
    (outputDesc : AudioOutputDescriptor) (prevDevice : audio_devices_t)
    (delayMs : Z) :
  valueFor (mOutputs m) output = Some outputDesc ->
  isDuplicated outputDesc = false ->
  isActive outputDesc = true ->
  device m outputDesc <> prevDevice ->
  (forall s, 0 <= mMuteCount outputDesc s) ->
  0 <= delayMs -> 0 <= latency m outputDesc ->
  delayMs + 4 * latency m outputDesc < 2 ^ 31 ->
  let lat := latency m outputDesc in
  let phase1 := muteByDevice_phase m output outputDesc delayMs in
  let muteWaitMs := Z.max (snd phase1) (2 * lat) in
  let result := checkDeviceMuteStrategies m output prevDevice delayMs in
  2 * lat <= muteWaitMs
  /\ snd result = (if delayMs <? muteWaitMs then muteWaitMs - delayMs else 0)
  /\ sequencing_calls (mTrace (fst result))
     = sequencing_calls (mTrace (fst phase1))
       ++ temporary_mute_calls m outputDesc output (muteCount (fst phase1) output)
            (device m outputDesc) delayMs (4 * lat)
       ++ (if delayMs <? muteWaitMs
           then [usleep_call (u32 ((muteWaitMs - delayMs) * 1000))]
           else [])
  /\ forall s, muteCount (fst result) output s = muteCount (fst phase1) output s.
Proof.
  intros Hd Hdup Hact Hdev Hnn Hdel Hlat Hsum lat phase1 muteWaitMs result.
  set (muted :=
         temporaryMute m outputDesc output (device m outputDesc) delayMs (4 * lat)
           (fst phase1)).
  assert (Hc1 : routing_core (fst phase1) = routing_core m).
  { subst phase1. unfold muteByDevice_phase.
    rewrite (fold_left_invariant (fun acc => routing_core (fst acc)))
      by (intros; apply muteStrategyByDevice_core).
    reflexivity. }
  destruct (routing_core_valueFor _ _ _ _ Hc1 Hd) as (d1 & Hv1 & He1).
  assert (Hdup1 : isDuplicated d1 = false)
    by (rewrite (isDuplicated_core _ _ He1); exact Hdup).
  assert (Hlat1 : latency (fst phase1) d1 = lat).
  { rewrite (latency_plain _ _ Hdup1). subst lat. rewrite (latency_plain _ _ Hdup).
    exact (f_equal mLatency He1). }
  assert (Hfold : List.fold_left
                    (tempMuteStrategy output (device m outputDesc) delayMs (4 * lat))
                    all_strategies (fst phase1) = muted).
  { subst muted. apply tempMuteStrategy_fold; try assumption; subst lat; lia. }
  assert (Hres : result
                 = (if delayMs <? muteWaitMs
                    then (emit muted (usleep_call (u32 ((muteWaitMs - delayMs) * 1000))),
                          muteWaitMs - delayMs)
                    else (muted, 0))).
  { subst result. unfold checkDeviceMuteStrategies. rewrite Hd, Hdup.
    change (List.fold_left _ all_strategies (m, 0)) with phase1.
    destruct phase1 as [m1 w1] eqn:Ep. cbn [fst snd] in *.
    rewrite Hv1. rewrite (isActive_core _ _ He1), Hact. cbn [andb].
    apply Z.eqb_neq in Hdev. rewrite Hdev. cbn [negb].
    rewrite Hlat1. rewrite !u32_small by (subst lat; lia).
    rewrite (Z.mul_comm lat 4), Hfold.
    replace (if w1 <? lat * 2 then lat * 2 else w1) with muteWaitMs.
    2: { subst muteWaitMs. destruct (w1 <? lat * 2) eqn:E; zbool; lia. }
    destruct (delayMs <? muteWaitMs); reflexivity. }
  assert (Hnn1 : counts_nonneg output (fst phase1)).
  { apply muteByDevice_phase_counts_nonneg. exists outputDesc. auto. }
  destruct Hnn1 as (d1' & Hv1' & Hnn1). rewrite Hv1 in Hv1'. injection Hv1' as <-.
  destruct (temporaryMute_calls m outputDesc output delayMs (4 * lat) (mMuteCount d1)
              Hdup all_strategies (fst phase1) d1 Hc1 Hv1 He1 (fun s => eq_refl) Hnn1)
    as (d2 & Hv2 & Hc2 & Hcalls).
  fold (temporaryMute m outputDesc output (device m outputDesc) delayMs (4 * lat)
          (fst phase1)) in Hv2, Hcalls.
  fold muted in Hv2, Hcalls.
  assert (Hcount1 : muteCount (fst phase1) output = mMuteCount d1).
  { unfold muteCount. rewrite Hv1. reflexivity. }
  split; [subst muteWaitMs; lia|].
  split; [rewrite Hres; destruct (delayMs <? muteWaitMs); reflexivity|].
  split.
  - rewrite Hcount1. unfold temporary_mute_calls. rewrite Hres.
    destruct (delayMs <? muteWaitMs); cbn [fst mTrace emit set_mTrace].
    + rewrite sequencing_calls_app, Hcalls, <- app_assoc. reflexivity.
    + rewrite Hcalls, app_nil_r. reflexivity.
  - intros s. rewrite Hcount1. unfold muteCount.
    replace (valueFor (mOutputs (fst result)) output) with (Some d2).
    2: { rewrite Hres. destruct (delayMs <? muteWaitMs); cbn [fst]; symmetry; exact Hv2. }
    apply Hc2.
Qed.

End TemporaryMute.

(** ** The selection of a device *)

Section DeviceSelection.
Context {FL : CFloat} {PH : PolicyHeader}.

Lemma isStrategyActiveOnSameModule_false m outputDesc strategy :
  (forall desc, In desc (mOutputs m) ->
                sharesHwModuleWith m outputDesc desc = true ->
                isStrategyActive m desc strategy = false) ->
  isStrategyActiveOnSameModule m outputDesc strategy = false.
Proof.
  intros H. unfold isStrategyActiveOnSameModule.
  apply not_true_is_false. intros Hex.
  apply existsb_exists in Hex as (desc & Hin & Hb).
  apply andb_true_iff in Hb as [Hs Ha].
  rewrite (H desc Hin Hs) in Ha. discriminate.
Qed.

(** C1 (amended).  [getNewOutputDevice] returns, first match wins: the
    current device of the stream when its patch was installed by a foreign
    uid; else the explicitly preferred device when one is found; else the
    device [getDeviceForStrategy] gives for the first strategy of the list
    enforced-audible (when enforced for system), phone, sonification,
    enforced-audible, accessibility, sonification-respectful, media, DTMF,
    transmitted-through-speaker, rerouting whose condition holds, where phone
    is selected when a call is in progress or the strategy is active on an
    output of the same module, sonification when it is active on an output of
    the same module, and the others when active on the stream; that device is
    the cross-output explicit route if there is one, else the cached device
    when [fromCache] is set, else the engine's device.  When only MEDIA is
    active on the stream and on the outputs of its module, no call is in
    progress, nothing is forced or preferred and the cache is not used, the
    result is the engine's device for MEDIA. *)
Theorem getNewOutputDevice_priority
    (m : AudioPolicyManager) (outputDesc : AudioOutputDescriptor) (fromCache : bool) :
  let preferred :=
    fst (findPreferredDevice outputDesc STRATEGY_NONE (mAvailableOutputDevices m)) in
  let explicit_route strategy :=
    findPreferredDevice_in (mOutputs m) strategy (mAvailableOutputDevices m) None in
  (forced_by_patch m outputDesc = true ->
   getNewOutputDevice m outputDesc fromCache = device m outputDesc)
  /\ (forced_by_patch m outputDesc = false ->
      forall deviceDesc, preferred = Some deviceDesc ->
      getNewOutputDevice m outputDesc fromCache = dev_type deviceDesc)
  /\ (forced_by_patch m outputDesc = false -> preferred = None ->
      getNewOutputDevice m outputDesc fromCache
      = match first_selected (strategy_priority m outputDesc) with
        | Some strategy => getDeviceForStrategy m strategy fromCache
        | None => AUDIO_DEVICE_NONE
        end)
  /\ (forall strategy,
        getDeviceForStrategy m strategy fromCache
        = match explicit_route strategy with
          | Some deviceDesc => dev_type deviceDesc
          | None => if fromCache then mDeviceForStrategy m strategy
                    else engine_getDeviceForStrategy (mEngine m) strategy
          end)
  /\ (forced_by_patch m outputDesc = false -> preferred = None ->
      explicit_route STRATEGY_MEDIA = None ->
      isInCall m = false ->
      isStrategyActive m outputDesc STRATEGY_MEDIA = true ->
      only_media_active m outputDesc ->
      (forall desc, In desc (mOutputs m) ->
                    sharesHwModuleWith m outputDesc desc = true ->
                    only_media_active m desc) ->
      getNewOutputDevice m outputDesc false
      = engine_getDeviceForStrategy (mEngine m) STRATEGY_MEDIA).
Proof.
  intros preferred explicit_route.
  assert (Hprio : forced_by_patch m outputDesc = false -> preferred = None ->
            forall fc, getNewOutputDevice m outputDesc fc
            = match first_selected (strategy_priority m outputDesc) with
              | Some strategy => getDeviceForStrategy m strategy fc
              | None => AUDIO_DEVICE_NONE
              end).
  { intros Hf Hp fc. unfold getNewOutputDevice.
    fold (forced_by_patch m outputDesc). rewrite Hf. fold preferred. rewrite Hp.
    unfold first_selected, strategy_priority. cbn [List.find snd].
    repeat match goal with
           | |- (if ?c then _ else _) = _ => destruct c; [reflexivity|]
           end.
    reflexivity. }
  split.
  { intros Hf. unfold getNewOutputDevice. fold (forced_by_patch m outputDesc).
    rewrite Hf. reflexivity. }
  split.
  { intros Hf deviceDesc Hp. unfold getNewOutputDevice.
    fold (forced_by_patch m outputDesc). rewrite Hf. fold preferred. rewrite Hp.
    reflexivity. }
  split; [intros Hf Hp; apply Hprio; assumption|].
  split; [intros strategy; reflexivity|].
  intros Hf Hp Hroute Hcall Hmedia Honly Hmodule.
  rewrite (Hprio Hf Hp false).
  assert (Hoff : forall strategy, In strategy all_strategies ->
            strategy <> STRATEGY_MEDIA ->
            isStrategyActiveOnSameModule m outputDesc strategy = false).
  { intros strategy Hall Hne. apply isStrategyActiveOnSameModule_false.
    intros desc Hin Hs. apply (Hmodule desc Hin Hs); assumption. }
  unfold first_selected, strategy_priority. cbn [List.find snd].
  rewrite Hcall, Hmedia.
  rewrite !Hoff by first [discriminate | (cbn; tauto)].
  rewrite !Honly by first [discriminate | (cbn; tauto)].
  cbn. unfold getDeviceForStrategy. fold (explicit_route STRATEGY_MEDIA).
  rewrite Hroute. reflexivity.
Qed.

End DeviceSelection.

(** ** The selection of an output *)

Section OutputSelection.
Context {FL : CFloat} {PH : PolicyHeader}.

Lemma popcount_pos_positive p : 0 < popcount_pos p.
Proof. induction p; cbn [popcount_pos]; lia. Qed.

Lemma popcount_nonneg x : 0 <= popcount x.
Proof. destruct x; cbn; try lia. pose proof (popcount_pos_positive p). lia. Qed.

Lemma commonFlagsOf_nonneg flags (c : candidate) : 0 <= commonFlagsOf flags c.
Proof. apply popcount_nonneg. Qed.

(** *** The largest number of shared flags *)

Lemma fold_max_app flags (l : list candidate) : forall a,
  0 <= a ->
  List.fold_left (fun acc c => Z.max acc (commonFlagsOf flags c)) l a
  = Z.max a (mostCommonFlags flags l).
Proof.
  unfold mostCommonFlags.
  induction l as [|c l IH]; intros a Ha; cbn [List.fold_left].
  - lia.
  - pose proof (commonFlagsOf_nonneg flags c).
    rewrite IH, (IH (Z.max 0 _)) by lia. lia.
Qed.

Lemma mostCommonFlags_snoc flags (l : list candidate) c :
  mostCommonFlags flags (l ++ [c])
  = Z.max (mostCommonFlags flags l) (commonFlagsOf flags c).
Proof.
  unfold mostCommonFlags at 1. rewrite List.fold_left_app. cbn [List.fold_left].
  reflexivity.
Qed.

Lemma mostCommonFlags_nonneg flags (l : list candidate) : 0 <= mostCommonFlags flags l.
Proof.
  induction l as [|c l IH] using rev_ind; [cbn; lia|].
  rewrite mostCommonFlags_snoc. lia.
Qed.

Lemma mostCommonFlags_upper flags (l : list candidate) c :
  In c l -> commonFlagsOf flags c <= mostCommonFlags flags l.
Proof.
  induction l as [|x l IH] using rev_ind; [intros []|].
  rewrite mostCommonFlags_snoc. intros Hin. apply in_app_or in Hin as [Hin|[->|[]]].
  - specialize (IH Hin). lia.
  - lia.
Qed.

Lemma mostCommonFlags_attained flags (l : list candidate) :
  0 < mostCommonFlags flags l ->
  exists c, In c l /\ commonFlagsOf flags c = mostCommonFlags flags l.
Proof.
  induction l as [|x l IH] using rev_ind; [cbn; lia|].
  rewrite mostCommonFlags_snoc. intros Hpos.
  destruct (Z_le_gt_dec (commonFlagsOf flags x) (mostCommonFlags flags l)) as [Hle|Hgt].
  - rewrite Z.max_l in * by lia. destruct (IH Hpos) as (c & Hin & Hc).
    exists c. split; [apply in_or_app; auto|exact Hc].
  - rewrite Z.max_r by lia. exists x. split; [apply in_or_app; cbn; auto|reflexivity].
Qed.

Lemma filter_top_none flags (l : list candidate) top :
  mostCommonFlags flags l < top ->
  List.filter (fun c => commonFlagsOf flags c =? top) l = [].
Proof.
  intros Hlt. induction l as [|x l IH]; [reflexivity|].
  cbn [List.filter].
  pose proof (mostCommonFlags_upper flags (x :: l) x (or_introl eq_refl)) as Hx.
  destruct (commonFlagsOf flags x =? top) eqn:E; zbool; [lia|].
  apply IH.
  assert (Hl : mostCommonFlags flags l <= mostCommonFlags flags (x :: l)).
  { unfold mostCommonFlags at 2. cbn [List.fold_left].
    pose proof (commonFlagsOf_nonneg flags x). rewrite fold_max_app by lia. lia. }
  lia.
Qed.

(** *** The loop as a fold over the candidates *)

Lemma selectOutput_loop_fold m flags format outputs : forall l st,
  candidates m outputs = Some l ->
  selectOutput_loop m flags format outputs st
  = Some (List.fold_left (step flags format) l st).
Proof.
  induction outputs as [|o outputs IH]; intros l st Hl; cbn in *.
  - injection Hl as <-. reflexivity.
  - destruct (valueFor (mOutputs m) o) as [d|]; [|discriminate].
    destruct (candidates m outputs) as [l'|]; [|discriminate].
    injection Hl as <-. cbn. apply IH. reflexivity.
Qed.

Lemma step_not_eligible flags format st (c : candidate) :
  eligible format c = false -> step flags format st c = st.
Proof.
  unfold eligible, step, selectOutput_step. intros He.
  destruct (isDuplicated (snd c)); cbn [negb andb] in *; [reflexivity|].
  destruct (Z.land (mFlags (snd c)) AUDIO_OUTPUT_FLAG_DIRECT =? 0);
    cbn [negb andb] in *; [|reflexivity].
  destruct (format =? AUDIO_FORMAT_INVALID); cbn [negb andb orb] in *; [discriminate|].
  rewrite He. reflexivity.
Qed.

Lemma closestFormat_snoc format start (l : list candidate) c :
  closestFormat format start (l ++ [c])
  = (if negb (format =? AUDIO_FORMAT_INVALID)
        && isBetterFormatMatch (mFormat (snd c)) (snd (closestFormat format start l)) format
     then (fst c, mFormat (snd c))
     else closestFormat format start l).
Proof. unfold closestFormat. rewrite List.fold_left_app. reflexivity. Qed.

Lemma selectedByFlags_snoc flags format (E : list candidate) c :
  let top := mostCommonFlags flags E in
  let cf := commonFlagsOf flags c in
  selectedByFlags flags format (E ++ [c])
  = if top <? cf then (fst c, mFormat (snd c))
    else if cf =? top then
      (if negb (format =? AUDIO_FORMAT_INVALID)
          && isBetterFormatMatch (mFormat (snd c))
               (snd (selectedByFlags flags format E)) format
       then (fst c, mFormat (snd c))
       else selectedByFlags flags format E)
    else selectedByFlags flags format E.
Proof.
  intros top cf. unfold selectedByFlags.
  fold top. rewrite mostCommonFlags_snoc. fold top cf.
  pose proof (mostCommonFlags_nonneg flags E) as Htop. fold top in Htop.
  pose proof (commonFlagsOf_nonneg flags c) as Hcf. fold cf in Hcf.
  rewrite List.filter_app. cbn [List.filter]. fold cf.
  destruct (top <? cf) eqn:Elt; zbool.
  - rewrite Z.max_r by lia. rewrite Z.eqb_refl.
    rewrite (filter_top_none flags E cf) by (fold top; lia). cbn [app].
    destruct (cf =? 0) eqn:E0; zbool; [lia|]. reflexivity.
  - rewrite Z.max_l by lia.
    destruct (cf =? top) eqn:Eeq; zbool.
    + destruct (top =? 0) eqn:E0; zbool.
      * apply closestFormat_snoc.
      * destruct (mostCommonFlags_attained flags E) as (x & Hin & Hx); [fold top; lia|].
        fold top in Hx.
        assert (Hne : List.filter (fun c0 => commonFlagsOf flags c0 =? top) E <> []).
        { intros Hnil.
          assert (Hinf : In x (List.filter (fun c0 => commonFlagsOf flags c0 =? top) E)).
          { apply List.filter_In. split; [exact Hin|]. apply Z.eqb_eq. exact Hx. }
          rewrite Hnil in Hinf. exact Hinf. }
        destruct (List.filter (fun c0 => commonFlagsOf flags c0 =? top) E)
          as [|first rest]; [contradiction|].
        cbn [app]. apply closestFormat_snoc.
    + rewrite app_nil_r. reflexivity.
Qed.

Lemma step_eligible flags format (l : list candidate) st c :
  eligible format c = true ->
  loop_state flags format l st ->
  loop_state flags format (l ++ [c]) (step flags format st c).
Proof.
  unfold loop_state. cbv zeta.
  rewrite List.filter_app. cbn [List.filter]. intros He. rewrite He.
  set (E := List.filter (eligible format) l).
  intros (Hmax & Hflags & Hformat & Hprimary).
  assert (He' := He). unfold eligible in He'.
  apply andb_true_iff in He' as [He' Hfmt]. apply andb_true_iff in He' as [Hdup Hdir].
  apply negb_true_iff in Hdup.
  assert (Hskip : negb (format =? AUDIO_FORMAT_INVALID) && negb (audio_is_linear_pcm format)
                  = false).
  { destruct (format =? AUDIO_FORMAT_INVALID); [reflexivity|].
    cbn in Hfmt |- *. rewrite Hfmt. reflexivity. }
  pose proof (selectedByFlags_snoc flags format E c) as Hspec. cbv zeta in Hspec.
  rewrite <- Hmax, <- Hflags in Hspec. cbn [snd] in Hspec.
  assert (Hspec2 : selectedByFormat format (E ++ [c])
            = if negb (format =? AUDIO_FORMAT_INVALID)
                 && isBetterFormatMatch (mFormat (snd c)) (bestFormat st) format
              then (fst c, mFormat (snd c)) else (outputForFormat st, bestFormat st)).
  { unfold selectedByFormat.
    rewrite closestFormat_snoc. fold (selectedByFormat format E).
    rewrite <- Hformat. reflexivity. }
  assert (Hspec3 : selectedPrimary (E ++ [c])
            = if negb (Z.land (mProfileFlags (snd c)) AUDIO_OUTPUT_FLAG_PRIMARY =? 0)
              then fst c else outputForPrimary st).
  { unfold selectedPrimary.
    rewrite List.fold_left_app. cbn [List.fold_left].
    fold (selectedPrimary E). rewrite <- Hprimary. reflexivity. }
  rewrite mostCommonFlags_snoc, <- Hmax, Hspec, Hspec2, Hspec3.
  unfold step, selectOutput_step. rewrite Hdup, Hdir, Hskip. cbn [negb].
  fold (commonFlagsOf flags c).
  destruct (negb (format =? AUDIO_FORMAT_INVALID)
            && isBetterFormatMatch (mFormat (snd c)) (bestFormat st) format);
    cbn [maxCommonFlags bestFormatForFlags];
    destruct (maxCommonFlags st <=? commonFlagsOf flags c) eqn:Ele;
    destruct (commonFlagsOf flags c =? maxCommonFlags st) eqn:Eeq;
    destruct (maxCommonFlags st <? commonFlagsOf flags c) eqn:Elt;
    zbool; try lia;
    try destruct (negb (format =? AUDIO_FORMAT_INVALID)
                  && isBetterFormatMatch (mFormat (snd c)) (bestFormatForFlags st) format);
    destruct (negb (Z.land (mProfileFlags (snd c)) AUDIO_OUTPUT_FLAG_PRIMARY =? 0));
    cbn; repeat split; try lia; try reflexivity.
Qed.

Lemma loop_state_fold flags format (l : list candidate) :
  loop_state flags format l (List.fold_left (step flags format) l select_init).
Proof.
  induction l as [|c l IH] using rev_ind.
  - cbn. unfold loop_state, selectedByFlags, selectedByFormat, selectedPrimary. cbn.
    repeat split.
  - rewrite List.fold_left_app. cbn [List.fold_left].
    destruct (eligible format c) eqn:He.
    + apply step_eligible; assumption.
    + rewrite step_not_eligible by exact He.
      unfold loop_state in *. cbv zeta in *.
      rewrite List.filter_app. cbn [List.filter]. rewrite He, app_nil_r.
      exact IH.
Qed.

Lemma closestFormat_mem format start (l : list candidate) :
  closestFormat format start l = start
  \/ exists c, In c l /\ closestFormat format start l = (fst c, mFormat (snd c)).
Proof.
  induction l as [|c l IH] using rev_ind; [left; reflexivity|].
  rewrite closestFormat_snoc.
  destruct (negb _ && _).
  - right. exists c. split; [apply in_or_app; cbn; auto|reflexivity].
  - destruct IH as [IH|(x & Hin & Hx)]; [left; exact IH|].
    right. exists x. split; [apply in_or_app; auto|exact Hx].
Qed.

Lemma selectedByFlags_mem flags format (E : list candidate) :
  fst (selectedByFlags flags format E) <> AUDIO_IO_HANDLE_NONE ->
  exists c,
    In c E
    /\ fst c = fst (selectedByFlags flags format E)
    /\ commonFlagsOf flags c = mostCommonFlags flags E.
Proof.
  unfold selectedByFlags.
  set (top := mostCommonFlags flags E).
  set (ties := List.filter (fun c => commonFlagsOf flags c =? top) E).
  assert (Hties : forall c, In c ties -> In c E /\ commonFlagsOf flags c = top).
  { intros c Hin. apply List.filter_In in Hin as [Hin Hc]. zbool. auto. }
  destruct (top =? 0).
  - destruct (closestFormat_mem format (AUDIO_IO_HANDLE_NONE, AUDIO_FORMAT_INVALID) ties)
      as [Hs|(c & Hin & Hc)]; rewrite ?Hs, ?Hc; cbn [fst]; intros Hne.
    + contradiction.
    + exists c. destruct (Hties c Hin). auto.
  - destruct ties as [|first rest] eqn:Et; [cbn; intros []; reflexivity|].
    destruct (closestFormat_mem format (fst first, mFormat (snd first)) rest)
      as [Hs|(c & Hin & Hc)]; rewrite ?Hs, ?Hc; cbn [fst]; intros _.
    + exists first. destruct (Hties first (or_introl eq_refl)). auto.
    + exists c. destruct (Hties c (or_intror Hin)). auto.
Qed.

Lemma selectedPrimary_mem (E : list candidate) :
  selectedPrimary E <> AUDIO_IO_HANDLE_NONE ->
  exists c,
    In c E
    /\ fst c = selectedPrimary E
    /\ Z.land (mProfileFlags (snd c)) AUDIO_OUTPUT_FLAG_PRIMARY <> 0.
Proof.
  unfold selectedPrimary.
  induction E as [|c E IH] using rev_ind; [cbn; intros []; reflexivity|].
  rewrite List.fold_left_app. cbn [List.fold_left].
  destruct (Z.land (mProfileFlags (snd c)) AUDIO_OUTPUT_FLAG_PRIMARY =? 0) eqn:Ep;
    cbn [negb]; zbool; intros Hne.
  - destruct (IH Hne) as (x & Hin & Hx). exists x.
    split; [apply in_or_app; auto|exact Hx].
  - exists c. split; [apply in_or_app; cbn; auto|auto].
Qed.

(** C8 (amended).  With every candidate registered, [selectOutput] returns
    the single candidate of a one-element list and otherwise considers the
    candidates that are neither duplicated nor direct, and none at all when a
    valid format that is not linear PCM is requested.  Among the considered
    candidates it returns the one selected by flags, which shares the largest
    number of requested flags, ties being broken by the closest format match;
    else the closest format match; else the primary output; else the first
    candidate of the list. *)
Theorem selectOutput_selection_rule
    (m : AudioPolicyManager) (outputs : list audio_io_handle_t) (flags : Z)
    (format : audio_format_t) (l : list (audio_io_handle_t * AudioOutputDescriptor)) :
  candidates m outputs = Some l ->
  let E := List.filter (eligible format) l in
  selectOutput m outputs flags format
  = Some (match outputs with
          | [] => AUDIO_IO_HANDLE_NONE
          | [output] => output
          | first :: _ => selectedOutput flags format first E
          end)
  /\ E = (if negb (format =? AUDIO_FORMAT_INVALID) && negb (audio_is_linear_pcm format)
          then [] else List.filter mixable l)
  /\ (fst (selectedByFlags flags format E) <> AUDIO_IO_HANDLE_NONE ->
      exists c, In c E /\ fst c = fst (selectedByFlags flags format E)
                /\ forall c', In c' E -> commonFlagsOf flags c' <= commonFlagsOf flags c)
  /\ (fst (selectedByFormat format E) <> AUDIO_IO_HANDLE_NONE ->
      exists c, In c E /\ fst c = fst (selectedByFormat format E))
  /\ (selectedPrimary E <> AUDIO_IO_HANDLE_NONE ->
      exists c, In c E /\ fst c = selectedPrimary E
                /\ Z.land (mProfileFlags (snd c)) AUDIO_OUTPUT_FLAG_PRIMARY <> 0).
Proof.
  intros Hl E. split; [|split; [|split; [|split]]].
  - destruct outputs as [|first [|second rest]]; [reflexivity|reflexivity|].
    unfold selectOutput.
    rewrite (selectOutput_loop_fold m flags format _ l select_init Hl).
    destruct (loop_state_fold flags format l) as (_ & Hflags & Hformat & Hprimary).
    fold E in Hflags, Hformat, Hprimary.
    unfold selectedOutput. rewrite <- Hflags, <- Hformat, <- Hprimary. cbn [fst].
    repeat match goal with
           | |- (if ?c then _ else _) = _ => destruct c; [reflexivity|]
           end.
    reflexivity.
  - subst E. unfold eligible, mixable.
    destruct (format =? AUDIO_FORMAT_INVALID); cbn [negb andb orb].
    + apply List.filter_ext. intros c. rewrite andb_true_r. reflexivity.
    + destruct (audio_is_linear_pcm format); cbn [negb].
      * apply List.filter_ext. intros c. rewrite andb_true_r. reflexivity.
      * clear Hl. induction l as [|c l' IH]; [reflexivity|].
        cbn [List.filter]. rewrite andb_false_r. exact IH.
  - intros Hne. destruct (selectedByFlags_mem flags format E Hne) as (c & Hin & Hc & Hm).
    exists c. split; [exact Hin|]. split; [exact Hc|].
    intros c' Hin'. rewrite Hm. apply mostCommonFlags_upper. exact Hin'.
  - unfold selectedByFormat.
    destruct (closestFormat_mem format (AUDIO_IO_HANDLE_NONE, AUDIO_FORMAT_INVALID) E)
      as [Hs|(c & Hin & Hc)]; rewrite ?Hs, ?Hc; cbn [fst]; intros Hne.
    + contradiction.
    + exists c. auto.
  - apply selectedPrimary_mem.
Qed.

End OutputSelection.

(** ** Concurrent capture *)

Section CaptureConcurrency.
Context {FL : CFloat} {PH : PolicyHeader}.

(** *** Closing a client starts none *)

Lemma client_active_spec m portId :
  client_active m portId = true <->
  exists d c, In d (mInputs m) /\ In c (in_mClients d)
              /\ rc_portId c = portId /\ rc_active c = true.
Proof.
  unfold client_active. rewrite existsb_exists. split.
  - intros (d & Hd & Hc). apply existsb_exists in Hc as (c & Hc & Hb).
    apply andb_true_iff in Hb as [Hp Ha]. zbool. exists d, c. auto.
  - intros (d & c & Hd & Hc & Hp & Ha). exists d. split; [exact Hd|].
    apply existsb_exists. exists c. split; [exact Hc|].
    rewrite Ha, andb_true_r. apply Z.eqb_eq. exact Hp.
Qed.

Lemma active_shrink_refl m : active_shrink m m.
Proof. intros p H. exact H. Qed.

Lemma active_shrink_trans m1 m2 m3 :
  active_shrink m3 m2 -> active_shrink m2 m1 -> active_shrink m3 m1.
Proof. intros H32 H21 p H. apply H21, H32, H. Qed.

Lemma active_shrink_same_inputs m m' :
  mInputs m' = mInputs m -> active_shrink m' m.
Proof. intros He p H. unfold client_active in *. rewrite He in H. exact H. Qed.

Lemma active_shrink_update_input m input f :
  starts_none f -> active_shrink (update_input m input f) m.
Proof.
  intros Hf p H. apply client_active_spec in H as (d' & c' & Hd' & Hc' & Hp & Ha).
  unfold update_input in Hd'. cbn [mInputs set_mInputs] in Hd'.
  apply in_map_iff in Hd' as (d & Hd & Hin).
  apply client_active_spec.
  destruct (in_mIoHandle d =? input).
  - subst d'. destruct (Hf d c' Hc' Ha) as (c & Hc & Hpc & Hac).
    exists d, c. repeat split; [exact Hin|exact Hc|congruence|exact Hac].
  - subst d'. exists d, c'. auto.
Qed.

Lemma active_shrink_filter_inputs m (keep : AudioInputDescriptor -> bool) :
  active_shrink (set_mInputs m (List.filter keep (mInputs m))) m.
Proof.
  intros p H. apply client_active_spec in H as (d & c & Hd & Hc & Hp & Ha).
  cbn [mInputs set_mInputs] in Hd. apply List.filter_In in Hd as [Hd _].
  apply client_active_spec. exists d, c. auto.
Qed.

Lemma starts_none_patchHandle h : starts_none (fun d => set_in_mPatchHandle d h).
Proof. intros d c Hc Ha. exists c. auto. Qed.

Lemma starts_none_preempted l : starts_none (fun d => set_in_mPreemptedSessions d l).
Proof. intros d c Hc Ha. exists c. auto. Qed.

Lemma starts_none_deactivate portId :
  starts_none
    (fun d => set_in_mClients d
                (List.map (fun c => if rc_portId c =? portId then set_rc_active c false
                                    else c) (in_mClients d))).
Proof.
  intros d c' Hc' Ha. cbn in Hc'. apply in_map_iff in Hc' as (c & Hc & Hin).
  destruct (rc_portId c =? portId); subst c'; [discriminate|].
  exists c. auto.
Qed.

Lemma starts_none_remove portId :
  starts_none
    (fun d => set_in_mClients d
                (List.filter (fun c => negb (rc_portId c =? portId)) (in_mClients d))).
Proof.
  intros d c' Hc' Ha. cbn in Hc'. apply List.filter_In in Hc' as [Hc' _].
  exists c'. auto.
Qed.

Lemma resetInputDevice_active_shrink m input patchHandle :
  active_shrink (fst (resetInputDevice m input patchHandle)) m.
Proof.
  unfold resetInputDevice.
  match goal with |- context [match ?x with Some _ => _ | None => (m, _) end] =>
    destruct x as [[k p]|] end; [|apply active_shrink_refl].
  cbn [fst].
  eapply active_shrink_trans; [apply active_shrink_same_inputs; reflexivity|].
  eapply active_shrink_trans; [apply active_shrink_same_inputs; reflexivity|].
  eapply active_shrink_trans; [apply active_shrink_same_inputs; reflexivity|].
  eapply active_shrink_trans;
    [apply (active_shrink_update_input _ input _ (starts_none_patchHandle _))|].
  apply active_shrink_same_inputs. reflexivity.
Qed.

Lemma stopInput_active_shrink m portId :
  active_shrink (fst (stopInput m portId)) m.
Proof.
  unfold stopInput.
  destruct (getInputForClient (mInputs m) portId) as [inputDesc|];
    [|apply active_shrink_refl].
  destruct (getClient inputDesc portId) as [client|]; [|apply active_shrink_refl].
  destruct (negb (rc_active client)); [apply active_shrink_refl|].
  assert (H1 : active_shrink (setClientActive m (in_mIoHandle inputDesc) portId false) m)
    by apply active_shrink_update_input, starts_none_deactivate.
  destruct (inputFor _ _) as [inputDesc1|]; [|exact H1].
  destruct (in_isActive inputDesc1); [exact H1|].
  cbn [fst].
  eapply active_shrink_trans;
    [apply active_shrink_update_input, starts_none_preempted|].
  eapply active_shrink_trans; [apply resetInputDevice_active_shrink|exact H1].
Qed.

Lemma closeInput_active_shrink m input : active_shrink (closeInput m input) m.
Proof.
  unfold closeInput.
  destruct (inputFor (mInputs m) input) as [inputDesc|]; [|apply active_shrink_refl].
  eapply active_shrink_trans; [apply active_shrink_filter_inputs|].
  apply active_shrink_same_inputs.
  destruct (indexOfKey _ _) as [[k p]|]; reflexivity.
Qed.

Lemma releaseInput_active_shrink m portId : active_shrink (releaseInput m portId) m.
Proof.
  unfold releaseInput.
  destruct (getInputForClient (mInputs m) portId) as [inputDesc|];
    [|apply active_shrink_refl].
  assert (H1 : active_shrink (removeClient m (in_mIoHandle inputDesc) portId) m)
    by apply active_shrink_update_input, starts_none_remove.
  destruct (inputFor _ _) as [inputDesc1|]; [|exact H1].
  destruct (negb _); [exact H1|].
  eapply active_shrink_trans; [apply active_shrink_same_inputs; reflexivity|].
  eapply active_shrink_trans; [apply closeInput_active_shrink|exact H1].
Qed.

Lemma closeClient_active_shrink m portId : active_shrink (closeClient m portId) m.
Proof.
  unfold closeClient.
  eapply active_shrink_trans; [apply releaseInput_active_shrink|].
  apply stopInput_active_shrink.
Qed.

Lemma fold_left_active_shrink {B : Type} (f : AudioPolicyManager -> B -> AudioPolicyManager)
    (l : list B) :
  (forall a b, active_shrink (f a b) a) ->
  forall a, active_shrink (List.fold_left f l a) a.
Proof.
  intros Hf. induction l as [|b l IH]; intros a; [apply active_shrink_refl|].
  cbn. eapply active_shrink_trans; [apply IH|apply Hf].
Qed.

Lemma stopSilencedClients_active_shrink m inputDesc activeInputs :
  active_shrink (stopSilencedClients m inputDesc activeInputs) m.
Proof.
  unfold stopSilencedClients. apply fold_left_active_shrink.
  intros a h. destruct (inputFor (mInputs a) h) as [activeDesc|];
    [|apply active_shrink_refl].
  destruct (_ && _); [apply active_shrink_refl|].
  apply fold_left_active_shrink.
  intros a' c. destruct (rc_silenced c);
    [apply closeClient_active_shrink|apply active_shrink_refl].
Qed.

Lemma arbitration_state_active_shrink m inputDesc silenced :
  active_shrink (arbitration_state m inputDesc silenced) m.
Proof.
  unfold arbitration_state. destruct (negb silenced);
    [apply stopSilencedClients_active_shrink|apply active_shrink_refl].
Qed.

(** *** The arbitration loop *)

Lemma concurrencyConflict_cons client inputDesc activeDesc rest :
  concurrencyConflict client inputDesc (activeDesc :: rest)
  = if competing client inputDesc activeDesc then
      match conflict client activeDesc with
      | Some flag => Some flag
      | None => concurrencyConflict client inputDesc rest
      end
    else concurrencyConflict client inputDesc rest.
Proof.
  cbn [concurrencyConflict]. unfold competing, conflict.
  destruct (negb (Z.land (rc_flags client) AUDIO_INPUT_FLAG_MMAP_NOIRQ =? 0)
            && (in_mId activeDesc =? in_mId inputDesc)); cbn [negb]; [reflexivity|].
  destruct (bool_decide (rc_source client = AUDIO_SOURCE_HOTWORD));
    destruct (bool_decide (inputSource activeDesc true = AUDIO_SOURCE_HOTWORD));
    cbn [negb]; try reflexivity.
  destruct (hasPreemptedSession activeDesc (rc_session client)); reflexivity.
Qed.

Lemma concurrencyConflict_first client inputDesc activeInputs :
  forall before activeDesc after flag,
    List.filter (competing client inputDesc) activeInputs = before ++ activeDesc :: after ->
    (forall a, In a before -> conflict client a = None) ->
    conflict client activeDesc = Some flag ->
    concurrencyConflict client inputDesc activeInputs = Some flag.
Proof.
  induction activeInputs as [|x rest IH]; intros before activeDesc after flag Hf Hb Hc.
  - destruct before; discriminate.
  - rewrite concurrencyConflict_cons. cbn [List.filter] in Hf.
    destruct (competing client inputDesc x).
    + destruct before as [|b before]; cbn [app] in Hf; injection Hf as -> Hf.
      * rewrite Hc. reflexivity.
      * rewrite (Hb b (or_introl eq_refl)).
        apply (IH before activeDesc after flag Hf); [|exact Hc].
        intros a Ha. apply Hb. right. exact Ha.
    + apply (IH before activeDesc after flag Hf Hb Hc).
Qed.

Lemma concurrencyConflict_none client inputDesc activeInputs :
  (forall a, In a (List.filter (competing client inputDesc) activeInputs) ->
             conflict client a = None) ->
  concurrencyConflict client inputDesc activeInputs = None.
Proof.
  induction activeInputs as [|x rest IH]; intros Hn; [reflexivity|].
  rewrite concurrencyConflict_cons. cbn [List.filter] in Hn.
  destruct (competing client inputDesc x).
  - rewrite (Hn x (or_introl eq_refl)). apply IH. intros a Ha. apply Hn. right. exact Ha.
  - apply IH. exact Hn.
Qed.

Lemma startInput_at_arbitration m portId silenced inputDesc client :
  reaches_arbitration m portId inputDesc client ->
  forall flag,
    concurrencyConflict client inputDesc
      (getActiveInputs (arbitration_state m inputDesc silenced)) = Some flag ->
    startInput m portId silenced
    = (arbitration_state m inputDesc silenced, mkStartResult INVALID_OPERATION flag).
Proof.
  intros (Hi & Hc & Ha & Hv & Hcall) flag Hconf.
  unfold startInput. rewrite Hi, Hc, Ha, Hv. cbn [negb]. rewrite Hcall.
  fold (arbitration_state m inputDesc silenced). rewrite Hconf. reflexivity.
Qed.

(** C5 (amended).  When [startInput] reaches the arbitration, the first
    competing active input (one that is not the MMAP no-IRQ input the client
    reuses) that conflicts with the new client makes it fail: the call
    returns [INVALID_OPERATION] with that input's concurrency flag and starts
    no client.  A HOTWORD request conflicts with a competing input whose
    active source is not HOTWORD, for CAPTURE, and with one whose active
    source is HOTWORD and which has already preempted the session of the
    request, for HOTWORD; any other request conflicts with a competing input
    whose active source is not HOTWORD, for CAPTURE. *)
Theorem startInput_concurrency_conflict
    (m : AudioPolicyManager) (portId : audio_port_handle_t) (silenced : bool)
    (inputDesc : AudioInputDescriptor) (client : RecordClientDescriptor) :
  reaches_arbitration m portId inputDesc client ->
  let m1 := arbitration_state m inputDesc silenced in
  let competitors := List.filter (competing client inputDesc) (getActiveInputs m1) in
  (forall before activeDesc after flag,
     competitors = before ++ activeDesc :: after ->
     (forall a, In a before -> conflict client a = None) ->
     conflict client activeDesc = Some flag ->
     startInput m portId silenced = (m1, mkStartResult INVALID_OPERATION flag)
     /\ active_shrink m1 m
     /\ (client_active m portId = false -> client_active m1 portId = false))
  /\ (forall activeDesc,
       (conflict client activeDesc = Some API_INPUT_CONCURRENCY_CAPTURE
        <-> inputSource activeDesc true <> AUDIO_SOURCE_HOTWORD)
       /\ (conflict client activeDesc = Some API_INPUT_CONCURRENCY_HOTWORD
           <-> rc_source client = AUDIO_SOURCE_HOTWORD
               /\ inputSource activeDesc true = AUDIO_SOURCE_HOTWORD
               /\ hasPreemptedSession activeDesc (rc_session client) = true)
       /\ (conflict client activeDesc = None
           <-> inputSource activeDesc true = AUDIO_SOURCE_HOTWORD
               /\ (rc_source client = AUDIO_SOURCE_HOTWORD ->
                   hasPreemptedSession activeDesc (rc_session client) = false))).
Proof.
  intros Hreach m1 competitors. split.
  - intros before activeDesc after flag Hsplit Hbefore Hconf.
    assert (Hshrink : active_shrink m1 m) by apply arbitration_state_active_shrink.
    split; [|split; [exact Hshrink|]].
    + apply (startInput_at_arbitration m portId silenced inputDesc client Hreach).
      apply (concurrencyConflict_first client inputDesc _ before activeDesc after flag);
        assumption.
    + intros Hoff. apply not_true_is_false. intros Hon.
      apply Hshrink in Hon. congruence.
  - intros activeDesc. unfold conflict.
    destruct (decide (rc_source client = AUDIO_SOURCE_HOTWORD)) as [Hs|Hs];
      destruct (decide (inputSource activeDesc true = AUDIO_SOURCE_HOTWORD)) as [Ha|Ha];
      rewrite ?(bool_decide_eq_true_2 _ Hs), ?(bool_decide_eq_false_2 _ Hs),
              ?(bool_decide_eq_true_2 _ Ha), ?(bool_decide_eq_false_2 _ Ha);
      try destruct (hasPreemptedSession activeDesc (rc_session client));
      repeat split; intros; try discriminate; try congruence; try tauto;
      try (exfalso; intuition congruence).
Qed.

End CaptureConcurrency.

(** ** Rescaling a volume index *)

(** *** Rounding to binary32

    What [binary_round_aux] does to a mantissa of 24 bits or more, and what
    follows for the operations on small integers. *)

(** The number of binary digits of a mantissa. *)
Lemma digits2_pos_bounds (m : positive) :
  2 ^ (Zpos (digits2_pos m) - 1) <= Zpos m < 2 ^ Zpos (digits2_pos m).
Proof.
  induction m as [m IH|m IH|]; cbn [digits2_pos].
  - rewrite Pos2Z.inj_succ.
    replace (Z.succ (Zpos (digits2_pos m)) - 1) with (Z.succ (Zpos (digits2_pos m) - 1)) by lia.
    rewrite !Z.pow_succ_r by lia. lia.
  - rewrite Pos2Z.inj_succ.
    replace (Z.succ (Zpos (digits2_pos m)) - 1) with (Z.succ (Zpos (digits2_pos m) - 1)) by lia.
    rewrite !Z.pow_succ_r by lia. lia.
  - cbn. lia.
Qed.

Lemma digits2_pos_unique (m : positive) (k : Z) :
  2 ^ (k - 1) <= Zpos m < 2 ^ k -> Zpos (digits2_pos m) = k.
Proof.
  intros [Hlo Hhi]. pose proof (digits2_pos_bounds m) as [Hl Hh].
  assert (Hk : 0 < k).
  { destruct (Z.ltb_spec 0 k) as [|Hle]; [assumption|].
    exfalso. assert (2 ^ k <= 1).
    { destruct (Z.eq_dec k 0) as [->|]; [cbn; lia|]. rewrite Z.pow_neg_r by lia. lia. }
    lia. }
  set (D := Zpos (digits2_pos m)) in *.
  destruct (Z.lt_trichotomy D k) as [Hlt|[Heq|Hgt]]; [|exact Heq|].
  - exfalso. assert (2 ^ D <= 2 ^ (k - 1)) by (apply Z.pow_le_mono_r; lia). lia.
  - exfalso. assert (2 ^ k <= 2 ^ (D - 1)) by (apply Z.pow_le_mono_r; lia). lia.
Qed.

Lemma pow2_double n : 0 <= n -> 2 ^ (2 * n) = 2 ^ n * 2 ^ n.
Proof. intros H. rewrite <- Z.pow_add_r by lia. f_equal. lia. Qed.

Lemma pow2_double_succ n : 0 <= n -> 2 ^ (2 * n + 1) = 2 * (2 ^ n * 2 ^ n).
Proof.
  intros H. rewrite Z.pow_add_r by lia. rewrite pow2_double by lia.
  change (2 ^ 1) with 2. lia.
Qed.

(** Shifting a mantissa to the right divides it. *)
Lemma shr_1_m mrs : 0 <= shr_m mrs -> shr_m (shr_1 mrs) = shr_m mrs / 2 /\ 0 <= shr_m (shr_1 mrs).
Proof.
  destruct mrs as [m r s]. cbn [shr_m]. intros Hm.
  destruct m as [|p|p]; [cbn; split; [reflexivity|lia]| |lia].
  destruct p as [p|p|]; cbn [shr_1 shr_m].
  - rewrite Pos2Z.inj_xI. split; [|lia]. apply (Z.div_unique _ 2 _ 1); lia.
  - rewrite Pos2Z.inj_xO. split; [|lia]. apply (Z.div_unique _ 2 _ 0); lia.
  - split; [reflexivity|lia].
Qed.

Lemma iter_pos_shr_m (p : positive) : forall mrs,
  0 <= shr_m mrs ->
  shr_m (SpecFloat.iter_pos shr_1 p mrs) = shr_m mrs / 2 ^ Zpos p
  /\ 0 <= shr_m (SpecFloat.iter_pos shr_1 p mrs).
Proof.
  induction p as [p IH|p IH|]; intros mrs Hm; cbn [SpecFloat.iter_pos].
  - destruct (shr_1_m mrs Hm) as [H1 H1'].
    destruct (IH _ H1') as [H2 H2']. destruct (IH _ H2') as [H3 H3'].
    split; [|exact H3']. rewrite H3, H2, H1.
    rewrite !Z.div_div by (try apply Z.pow_pos_nonneg; lia).
    f_equal. change (Z.pos p~1) with (2 * Z.pos p + 1).
    rewrite pow2_double_succ by lia. lia.
  - destruct (IH _ Hm) as [H2 H2']. destruct (IH _ H2') as [H3 H3'].
    split; [|exact H3']. rewrite H3, H2.
    rewrite !Z.div_div by (try apply Z.pow_pos_nonneg; lia).
    f_equal. change (Z.pos p~0) with (2 * Z.pos p).
    rewrite pow2_double by lia. reflexivity.
  - destruct (shr_1_m mrs Hm) as [H1 H1']. split; [|exact H1'].
    rewrite H1. reflexivity.
Qed.

Lemma shr_1_exact mrs :
  0 <= shr_m mrs -> shr_exact mrs -> shr_m mrs mod 2 = 0 -> shr_exact (shr_1 mrs).
Proof.
  destruct mrs as [m r s]. cbn [shr_m]. intros Hm [Hr Hs] Hmod. cbn in Hr, Hs. subst r s.
  destruct m as [|p|p]; [split; reflexivity| |lia].
  destruct p as [p|p|]; cbn [shr_1]; try (split; reflexivity).
  - exfalso. pose proof (Z.div_mod (Z.pos p~1) 2 ltac:(lia)) as Hdm.
    rewrite Hmod in Hdm. clear Hmod. revert Hdm.
    generalize (Z.pos p~1 / 2). intros q Hdm.
    rewrite Pos2Z.inj_xI in Hdm. lia.
  - exfalso. revert Hmod. vm_compute. discriminate.
Qed.

Lemma iter_pos_shr_exact (p : positive) : forall mrs,
  0 <= shr_m mrs -> shr_exact mrs -> shr_m mrs mod 2 ^ Zpos p = 0 ->
  shr_exact (SpecFloat.iter_pos shr_1 p mrs).
Proof.
  assert (Hdiv : forall a b c, 0 < b -> 0 < c -> a mod (b * c) = 0 ->
                               a mod b = 0 /\ (a / b) mod c = 0).
  { intros a b c Hb Hc H. apply Z.mod_divide in H; [|lia]. destruct H as [k ->].
    split.
    - replace (k * (b * c)) with (k * c * b) by lia. apply Z.mod_mul. lia.
    - replace (k * (b * c)) with (k * c * b) by lia. rewrite Z.div_mul by lia.
      apply Z.mod_mul. lia. }
  induction p as [p IH|p IH|]; intros mrs Hm He Hmod; cbn [SpecFloat.iter_pos].
  - change (Z.pos p~1) with (2 * Z.pos p + 1) in Hmod.
    rewrite pow2_double_succ in Hmod by lia.
    assert (Hp : 0 < 2 ^ Zpos p) by (apply Z.pow_pos_nonneg; lia).
    destruct (Hdiv _ 2 _ ltac:(lia) (Z.mul_pos_pos _ _ Hp Hp) Hmod) as [M1 M2].
    destruct (Hdiv _ _ _ Hp Hp M2) as [M3 M4].
    destruct (shr_1_m mrs Hm) as [H1 H1'].
    pose proof (shr_1_exact mrs Hm He M1) as E1.
    destruct (iter_pos_shr_m p _ H1') as [H2 H2'].
    apply IH; [exact H2'|apply IH; [exact H1'|exact E1|rewrite H1; exact M3]|].
    rewrite H2, H1. exact M4.
  - change (Z.pos p~0) with (2 * Z.pos p) in Hmod.
    rewrite pow2_double in Hmod by lia.
    assert (Hp : 0 < 2 ^ Zpos p) by (apply Z.pow_pos_nonneg; lia).
    destruct (Hdiv _ _ _ Hp Hp Hmod) as [M3 M4].
    destruct (iter_pos_shr_m p _ Hm) as [H2 H2'].
    apply IH; [exact H2'|apply IH; assumption|]. rewrite H2. exact M4.
  - apply shr_1_exact; assumption.
Qed.

Lemma shr_m_of_loc m l : shr_m (shr_record_of_loc m l) = m.
Proof. destruct l as [|[| |]]; reflexivity. Qed.

Lemma shr_exact_of_loc m : shr_exact (shr_record_of_loc m loc_Exact).
Proof. split; reflexivity. Qed.

Lemma round_nearest_even_cases m l :
  round_nearest_even m l = m \/ round_nearest_even m l = m + 1.
Proof.
  destruct l as [|[| |]]; cbn; auto. destruct (Z.even m); auto.
Qed.

Lemma round_exact mrs :
  shr_exact mrs -> round_nearest_even (shr_m mrs) (loc_of_shr_record mrs) = shr_m mrs.
Proof. destruct mrs as [m r s]. intros [Hr Hs]. cbn in *. subst. reflexivity. Qed.

Lemma fexp_normal e : -149 <= e - 24 -> fexp 24 128 e = e - 24.
Proof. intros H. unfold fexp, emin. lia. Qed.

Lemma div_pow2_bounds m D sh :
  0 <= sh -> sh < D -> 2 ^ (D - 1) <= m < 2 ^ D ->
  2 ^ (D - sh - 1) <= m / 2 ^ sh < 2 ^ (D - sh).
Proof.
  intros Hsh HD [Hlo Hhi].
  assert (Hp : 0 < 2 ^ sh) by (apply Z.pow_pos_nonneg; lia).
  split.
  - apply Z.div_le_lower_bound; [exact Hp|].
    rewrite <- Z.pow_add_r by lia. replace (sh + (D - sh - 1)) with (D - 1) by lia.
    exact Hlo.
  - apply Z.div_lt_upper_bound; [exact Hp|].
    rewrite <- Z.pow_add_r by lia. replace (sh + (D - sh)) with D by lia. exact Hhi.
Qed.

(** The first shift of [binary_round_aux]. *)
Lemma shr_fexp_first (mx : positive) ex lx :
  let D := Zpos (digits2_pos mx) in
  24 <= D -> -149 <= D + ex - 24 ->
  exists mrs,
    shr_fexp 24 128 (Zpos mx) ex lx = (mrs, ex + (D - 24))
    /\ shr_m mrs = Zpos mx / 2 ^ (D - 24)
    /\ (lx = loc_Exact -> Zpos mx mod 2 ^ (D - 24) = 0 -> shr_exact mrs).
Proof.
  intros D HD Hn. unfold shr_fexp. cbn [Zdigits2]. fold D.
  rewrite fexp_normal by lia.
  replace (D + ex - 24 - ex) with (D - 24) by lia.
  destruct (D - 24) as [|p|p] eqn:E; [| |lia].
  - exists (shr_record_of_loc (Zpos mx) lx). cbn [shr]. rewrite Z.add_0_r.
    split; [reflexivity|]. split.
    + rewrite shr_m_of_loc. cbn. rewrite Z.div_1_r. reflexivity.
    + intros -> _. apply shr_exact_of_loc.
  - exists (SpecFloat.iter_pos shr_1 p (shr_record_of_loc (Zpos mx) lx)). cbn [shr].
    split; [reflexivity|].
    destruct (iter_pos_shr_m p (shr_record_of_loc (Zpos mx) lx)) as [Hm _].
    { rewrite shr_m_of_loc. lia. }
    split.
    + rewrite Hm, shr_m_of_loc. reflexivity.
    + intros -> Hmod. apply iter_pos_shr_exact.
      * rewrite shr_m_of_loc. lia.
      * apply shr_exact_of_loc.
      * rewrite shr_m_of_loc. exact Hmod.
Qed.

(** The second shift of [binary_round_aux], on a mantissa of 24 bits or on
    [2 ^ 24]. *)
Lemma shr_fexp_second (m2 : positive) e1 :
  -149 <= e1 ->
  (2 ^ 23 <= Zpos m2 < 2 ^ 24
   /\ exists mrs, shr_fexp 24 128 (Zpos m2) e1 loc_Exact = (mrs, e1)
                  /\ shr_m mrs = Zpos m2)
  \/ (Zpos m2 = 2 ^ 24
      /\ exists mrs, shr_fexp 24 128 (Zpos m2) e1 loc_Exact = (mrs, e1 + 1)
                     /\ shr_m mrs = 2 ^ 23)
  \/ ~ (2 ^ 23 <= Zpos m2 <= 2 ^ 24).
Proof.
  intros He.
  destruct (Z_lt_le_dec (Zpos m2) (2 ^ 23)) as [Hlt|Hge]; [right; right; lia|].
  destruct (Z_lt_le_dec (2 ^ 24) (Zpos m2)) as [Hgt|Hle]; [right; right; lia|].
  destruct (Z.eq_dec (Zpos m2) (2 ^ 24)) as [Heq|Hne].
  - right. left. split; [exact Heq|].
    assert (Hm : m2 = 16777216%positive) by (apply Pos2Z.inj; exact Heq).
    subst m2. unfold shr_fexp. cbn [Zdigits2].
    change (Z.pos (digits2_pos 16777216)) with 25.
    rewrite fexp_normal by lia.
    replace (25 + e1 - 24 - e1) with 1 by lia.
    eexists. split; [reflexivity|]. reflexivity.
  - left. split; [lia|].
    assert (HD : Zpos (digits2_pos m2) = 24) by (apply digits2_pos_unique; cbn; lia).
    unfold shr_fexp. cbn [Zdigits2]. rewrite HD, fexp_normal by lia.
    replace (24 + e1 - 24 - e1) with 0 by lia.
    eexists. split; [reflexivity|]. reflexivity.
Qed.

(** [binary_round_aux] on a mantissa of at least 24 bits, in the normal
    range: the mantissa is cut to 24 bits and kept or incremented; it is kept
    when nothing is cut off. *)
Lemma binary_round_aux_spec (sx : bool) (mx : positive) (ex : Z) (lx : location) :
  let D := Zpos (digits2_pos mx) in
  24 <= D -> -149 <= D + ex - 24 -> D + ex <= 127 ->
  let sh := D - 24 in
  let m1 := Zpos mx / 2 ^ sh in
  let e1 := ex + sh in
  2 ^ 23 <= m1 < 2 ^ 24
  /\ exists m' e',
       binary_round_aux 24 128 sx (Zpos mx) ex lx = S754_finite sx m' e'
       /\ 2 ^ 23 <= Zpos m' < 2 ^ 24
       /\ ((Zpos m' = m1 /\ e' = e1)
           \/ (~ (lx = loc_Exact /\ Zpos mx mod 2 ^ sh = 0)
               /\ ((Zpos m' = m1 + 1 /\ e' = e1)
                   \/ (Zpos m' = 2 ^ 23 /\ e' = e1 + 1 /\ m1 + 1 = 2 ^ 24)))).
Proof.
  intros D HD Hn Ho sh m1 e1.
  assert (Hm1 : 2 ^ 23 <= m1 < 2 ^ 24).
  { pose proof (digits2_pos_bounds mx) as Hb. fold D in Hb.
    pose proof (div_pow2_bounds (Zpos mx) D sh ltac:(subst sh; lia)
                  ltac:(subst sh; lia) Hb) as H.
    replace (D - sh - 1) with 23 in H by (subst sh; lia).
    replace (D - sh) with 24 in H by (subst sh; lia). exact H. }
  split; [exact Hm1|].
  destruct (shr_fexp_first mx ex lx HD Hn) as (mrs & Hfirst & Hm & Hexact).
  fold D in Hfirst, Hm, Hexact. fold sh in Hfirst, Hm, Hexact. fold m1 in Hm.
  fold e1 in Hfirst.
  unfold binary_round_aux. rewrite Hfirst.
  set (m2 := round_nearest_even (shr_m mrs) (loc_of_shr_record mrs)).
  assert (Hm2 : m2 = m1 \/ (~ (lx = loc_Exact /\ Zpos mx mod 2 ^ sh = 0) /\ m2 = m1 + 1)).
  { subst m2. rewrite <- Hm.
    destruct (round_nearest_even_cases (shr_m mrs) (loc_of_shr_record mrs)) as [H|H];
      [left; exact H|].
    right. split; [|exact H]. intros [Hl Hmod].
    rewrite (round_exact mrs (Hexact Hl Hmod)) in H. lia. }
  assert (Hpos : 0 < m2) by lia.
  destruct m2 as [|q|q] eqn:Eq; [lia| |lia].
  destruct (shr_fexp_second q e1 ltac:(subst e1 sh; lia))
    as [(Hq & mrs2 & Hsec & Hm2')|[(Hq & mrs2 & Hsec & Hm2')|Hbad]].
  - rewrite Hsec, Hm2'.
    replace (e1 <=? 128 - 24) with true by (symmetry; apply Z.leb_le; subst e1 sh; lia).
    exists q, e1. split; [reflexivity|]. split; [exact Hq|].
    destruct Hm2 as [H|[Hne H]]; [left; split; [exact H|reflexivity]|].
    right. split; [exact Hne|]. left. split; [exact H|reflexivity].
  - rewrite Hsec, Hm2'. change (2 ^ 23) with (Zpos 8388608).
    replace (e1 + 1 <=? 128 - 24) with true
      by (symmetry; apply Z.leb_le; subst e1 sh; lia).
    exists 8388608%positive, (e1 + 1). split; [reflexivity|]. split; [cbn; lia|].
    right. destruct Hm2 as [H|[Hne H]]; [lia|].
    split; [exact Hne|]. right. split; [reflexivity|]. split; [reflexivity|]. lia.
  - exfalso. apply Hbad. lia.
Qed.

Lemma pow2_pos k : 0 <= k -> 0 < 2 ^ k.
Proof. intros H. apply Z.pow_pos_nonneg; lia. Qed.

Lemma pow2_split a b : 0 <= a -> 0 <= b -> 2 ^ (a + b) = 2 ^ a * 2 ^ b.
Proof. intros Ha Hb. apply Z.pow_add_r; assumption. Qed.

Lemma pow2_le a b : 0 <= a <= b -> 2 ^ a <= 2 ^ b.
Proof. intros H. apply Z.pow_le_mono_r; lia. Qed.

(** A number of at most 24 bits, scaled, that is below [(m1 + 1) * 2 ^ sh]
    for a mantissa [m1] of 24 bits is at most [m1 * 2 ^ sh]. *)
Lemma round_down_lower A g sh m1 X :
  0 <= A < 2 ^ 24 -> 0 <= g -> 0 <= sh -> 2 ^ 23 <= m1 ->
  X < (m1 + 1) * 2 ^ sh -> A * 2 ^ g <= X ->
  A * 2 ^ g <= m1 * 2 ^ sh.
Proof.
  intros HA Hg Hsh Hm1 HX HAX.
  pose proof (pow2_pos sh Hsh) as HW.
  destruct (Z_lt_le_dec g sh) as [Hlt|Hge].
  - assert (H1 : 2 ^ 24 * 2 ^ g <= 2 ^ 23 * 2 ^ sh).
    { replace (2 ^ 24) with (2 ^ 23 * 2 ^ 1) by reflexivity.
      rewrite <- Z.mul_assoc, <- pow2_split by lia.
      apply Z.mul_le_mono_nonneg_l; [lia|]. apply pow2_le. lia. }
    pose proof (pow2_pos g Hg) as HG.
    assert (H2 : A * 2 ^ g <= 2 ^ 24 * 2 ^ g) by (apply Z.mul_le_mono_nonneg_r; lia).
    assert (H3 : 2 ^ 23 * 2 ^ sh <= m1 * 2 ^ sh) by (apply Z.mul_le_mono_nonneg_r; lia).
    lia.
  - replace g with ((g - sh) + sh) in * by lia.
    rewrite pow2_split in * by lia.
    pose proof (pow2_pos (g - sh) ltac:(lia)) as HG.
    rewrite Z.mul_assoc in *.
    assert (A * 2 ^ (g - sh) < m1 + 1).
    { apply (Z.mul_lt_mono_pos_r (2 ^ sh)); [exact HW|]. lia. }
    apply Z.mul_le_mono_nonneg_r; lia.
Qed.

Lemma round_up_upper B h sh m1 :
  0 <= B < 2 ^ 24 -> 0 <= h -> 0 <= sh -> 2 ^ 23 <= m1 ->
  m1 * 2 ^ sh < B * 2 ^ h ->
  (m1 + 1) * 2 ^ sh <= B * 2 ^ h.
Proof.
  intros HB Hh Hsh Hm1 Hlt.
  pose proof (pow2_pos sh Hsh) as HW.
  destruct (Z_lt_le_dec h sh) as [Hlt'|Hge].
  - exfalso.
    assert (H1 : 2 ^ 24 * 2 ^ h <= 2 ^ 23 * 2 ^ sh).
    { replace (2 ^ 24) with (2 ^ 23 * 2 ^ 1) by reflexivity.
      rewrite <- Z.mul_assoc, <- pow2_split by lia.
      apply Z.mul_le_mono_nonneg_l; [lia|]. apply pow2_le. lia. }
    pose proof (pow2_pos h Hh) as HG.
    assert (H2 : B * 2 ^ h <= 2 ^ 24 * 2 ^ h) by (apply Z.mul_le_mono_nonneg_r; lia).
    assert (H3 : 2 ^ 23 * 2 ^ sh <= m1 * 2 ^ sh) by (apply Z.mul_le_mono_nonneg_r; lia).
    lia.
  - replace h with ((h - sh) + sh) in * by lia.
    rewrite pow2_split in * by lia.
    pose proof (pow2_pos (h - sh) ltac:(lia)) as HG.
    rewrite Z.mul_assoc in *.
    assert (m1 < B * 2 ^ (h - sh)).
    { apply (Z.mul_lt_mono_pos_r (2 ^ sh)); [exact HW|]. lia. }
    apply Z.mul_le_mono_nonneg_r; lia.
Qed.

(** Rounding stays between two numbers of at most 24 bits that enclose the
    rounded value; everything is counted in units of [2 ^ ex]. *)
Lemma binary_round_aux_bracket (mx : positive) (ex : Z) (lx : location)
    (A g B h : Z) :
  let D := Zpos (digits2_pos mx) in
  24 <= D -> -149 <= D + ex - 24 -> D + ex <= 127 ->
  0 <= g -> 0 <= h -> 0 <= A < 2 ^ 24 -> 0 <= B < 2 ^ 24 ->
  A * 2 ^ g <= Zpos mx <= B * 2 ^ h ->
  (lx <> loc_Exact -> Zpos mx < B * 2 ^ h) ->
  exists m' e',
    binary_round_aux 24 128 false (Zpos mx) ex lx = S754_finite false m' e'
    /\ 2 ^ 23 <= Zpos m' < 2 ^ 24
    /\ ex <= e'
    /\ A * 2 ^ g <= Zpos m' * 2 ^ (e' - ex) <= B * 2 ^ h.
Proof.
  intros D HD Hn Ho Hg Hh HA HB [Hlo Hhi] Hstrict.
  destruct (binary_round_aux_spec false mx ex lx HD Hn Ho)
    as (Hm1 & m' & e' & Hbra & Hm' & Hcases).
  fold D in Hm1, Hcases.
  set (sh := D - 24) in *. set (m1 := Zpos mx / 2 ^ sh) in *.
  assert (Hsh : 0 <= sh) by (subst sh; lia).
  pose proof (pow2_pos sh Hsh) as HW.
  pose proof (Z.div_mod (Zpos mx) (2 ^ sh) ltac:(lia)) as Hdm.
  pose proof (Z.mod_pos_bound (Zpos mx) (2 ^ sh) HW) as Hmod.
  fold m1 in Hdm. rewrite (Z.mul_comm (2 ^ sh)) in Hdm.
  assert (HL : A * 2 ^ g <= m1 * 2 ^ sh).
  { apply (round_down_lower A g sh m1 (Zpos mx)); try assumption; lia. }
  exists m', e'. split; [exact Hbra|]. split; [exact Hm'|].
  destruct Hcases as [[Hm He]|[Hinexact Hup]].
  - subst e'. split; [lia|].
    replace (ex + sh - ex) with sh by lia. rewrite Hm. lia.
  - assert (Hlt : m1 * 2 ^ sh < B * 2 ^ h).
    { destruct lx as [|c].
      - destruct (Z.eq_dec (Zpos mx mod 2 ^ sh) 0) as [H0|H0];
          [exfalso; apply Hinexact; split; [reflexivity|exact H0]|]. lia.
      - assert (Zpos mx < B * 2 ^ h) by (apply Hstrict; discriminate). lia. }
    pose proof (round_up_upper B h sh m1 HB Hh Hsh ltac:(lia) Hlt) as HU.
    destruct Hup as [[Hm He]|(Hm & He & Hfull)].
    + subst e'. split; [lia|].
      replace (ex + sh - ex) with sh by lia. rewrite Hm. lia.
    + subst e'. split; [lia|].
      replace (ex + sh + 1 - ex) with (1 + sh) by lia.
      rewrite Hm, pow2_split by lia. rewrite Z.mul_assoc.
      change (2 ^ 23 * 2 ^ 1) with (2 ^ 24). rewrite <- Hfull. lia.
Qed.

Lemma pow2_lt_inv a b : 0 <= b -> 2 ^ a < 2 ^ b -> a < b.
Proof. intros Hb H. apply (Z.pow_lt_mono_r_iff 2); [lia|exact Hb|exact H]. Qed.

Lemma pow2_le_inv a b : 0 <= b -> 2 ^ a <= 2 ^ b -> a <= b.
Proof. intros Hb H. apply (Z.pow_le_mono_r_iff 2); [lia|exact Hb|exact H]. Qed.

Lemma digits2_pos_ge (m : positive) k : 2 ^ k <= Zpos m -> k + 1 <= Zpos (digits2_pos m).
Proof.
  intros H. pose proof (digits2_pos_bounds m) as [_ Hhi].
  assert (2 ^ k < 2 ^ Zpos (digits2_pos m)) by lia.
  apply pow2_lt_inv in H0; lia.
Qed.

Lemma digits2_pos_le (m : positive) k : 0 <= k -> Zpos m < 2 ^ k -> Zpos (digits2_pos m) <= k.
Proof.
  intros Hk H. pose proof (digits2_pos_bounds m) as [Hlo _].
  assert (2 ^ (Zpos (digits2_pos m) - 1) < 2 ^ k) by lia.
  apply pow2_lt_inv in H0; lia.
Qed.

(** Cancelling a common power of two. *)
Lemma scaled_le a b k : 0 <= k -> a * 2 ^ k <= b * 2 ^ k -> a <= b.
Proof.
  intros Hk H. apply (Z.mul_le_mono_pos_r _ _ (2 ^ k)); [apply pow2_pos; exact Hk|exact H].
Qed.

Lemma scaled_lt a b k : 0 <= k -> a * 2 ^ k < b * 2 ^ k -> a < b.
Proof.
  intros Hk H. apply (Z.mul_lt_mono_pos_r (2 ^ k)); [apply pow2_pos; exact Hk|exact H].
Qed.

Lemma rescale_pow a g u : 0 <= u -> 0 <= g -> a * 2 ^ (g + u) = a * 2 ^ g * 2 ^ u.
Proof. intros Hu Hg. rewrite pow2_split by lia. ring. Qed.

(** A mantissa of at least 24 bits whose value is below [2 ^ 24] has a
    non-positive exponent. *)
Lemma exponent_nonpos m e : 2 ^ 23 <= m -> -100 <= e -> m * 2 ^ (e + 100) < 2 ^ 124 -> e <= 0.
Proof.
  intros Hm He H.
  pose proof (pow2_pos (e + 100) ltac:(lia)) as Hp.
  assert (H1 : 2 ^ 23 * 2 ^ (e + 100) <= m * 2 ^ (e + 100))
    by (apply Z.mul_le_mono_nonneg_r; lia).
  rewrite <- pow2_split in H1 by lia.
  assert (H2 : 2 ^ (23 + (e + 100)) < 2 ^ 124) by lia.
  apply pow2_lt_inv in H2; lia.
Qed.

Lemma small_times_pow B h : 0 <= B < 2 ^ 24 -> -100 <= h <= 0 -> B * 2 ^ (h + 100) < 2 ^ 124.
Proof.
  intros HB Hh.
  pose proof (pow2_pos (h + 100) ltac:(lia)) as Hp.
  assert (H1 : 2 ^ (h + 100) <= 2 ^ 100) by (apply pow2_le; lia).
  assert (H2 : B * 2 ^ (h + 100) <= B * 2 ^ 100) by (apply Z.mul_le_mono_nonneg_l; lia).
  assert (H3 : B * 2 ^ 100 < 2 ^ 24 * 2 ^ 100) by (apply Z.mul_lt_mono_pos_r; lia).
  change (2 ^ 124) with (2 ^ 24 * 2 ^ 100). lia.
Qed.

(** Rounding, with values counted in units of [2 ^ -100]. *)
Lemma binary_round_aux_between (mx : positive) (ex : Z) (lx : location)
    (A g B h : Z) :
  2 ^ 23 <= Zpos mx -> -100 <= ex ->
  ex <= g -> ex <= h -> h <= 0 ->
  0 <= A < 2 ^ 24 -> 0 <= B < 2 ^ 24 ->
  A * 2 ^ (g + 100) <= Zpos mx * 2 ^ (ex + 100) <= B * 2 ^ (h + 100) ->
  (lx <> loc_Exact -> Zpos mx * 2 ^ (ex + 100) < B * 2 ^ (h + 100)) ->
  f32_between (binary_round_aux 24 128 false (Zpos mx) ex lx)
    (A * 2 ^ (g + 100)) (B * 2 ^ (h + 100)).
Proof.
  intros Hmx Hex Hg Hh Hh0 HA HB [Hlo Hhi] Hstrict.
  pose proof (small_times_pow B h HB ltac:(lia)) as HBs.
  assert (Hex0 : ex <= 0) by (apply (exponent_nonpos (Zpos mx)); lia).
  set (u := ex + 100) in *.
  assert (Hu : 0 <= u) by (subst u; lia).
  pose proof (pow2_pos u Hu) as Hs.
  assert (HD : 24 <= Zpos (digits2_pos mx)) by (apply (digits2_pos_ge mx 23); exact Hmx).
  assert (HD' : Zpos (digits2_pos mx) + ex <= 24).
  { assert (Zpos (digits2_pos mx) <= 24 - ex); [|lia].
    apply digits2_pos_le; [lia|].
    apply (scaled_lt _ _ u Hu). rewrite <- pow2_split by lia.
    replace (24 - ex + u) with 124 by (subst u; lia). lia. }
  replace (g + 100) with ((g - ex) + u) in * by (subst u; lia).
  replace (h + 100) with ((h - ex) + u) in * by (subst u; lia).
  rewrite (rescale_pow A) in * by lia. rewrite (rescale_pow B) in * by lia.
  destruct (binary_round_aux_bracket mx ex lx A (g - ex) B (h - ex))
    as (m' & e' & Hbra & Hm' & He' & Hlo' & Hhi'); try lia.
  { split; [apply (scaled_le _ _ u Hu); exact Hlo|apply (scaled_le _ _ u Hu); exact Hhi]. }
  { intros Hl. apply (scaled_lt _ _ u Hu). apply Hstrict. exact Hl. }
  assert (Hval : Zpos m' * 2 ^ (e' + 100) = Zpos m' * 2 ^ (e' - ex) * 2 ^ u).
  { replace (e' + 100) with ((e' - ex) + u) by (subst u; lia).
    apply rescale_pow; lia. }
  assert (Hin : A * 2 ^ (g - ex) * 2 ^ u <= Zpos m' * 2 ^ (e' + 100)
                <= B * 2 ^ (h - ex) * 2 ^ u).
  { rewrite Hval. split; apply Z.mul_le_mono_nonneg_r; lia. }
  exists m', e'. split; [exact Hbra|]. split; [exact Hm'|].
  split; [|exact Hin].
  split; [lia|]. apply (exponent_nonpos (Zpos m')); lia.
Qed.

Lemma iter_xO_pos (d : positive) (m : positive) :
  Zpos (Pos.iter xO m d) = Zpos m * 2 ^ Zpos d.
Proof.
  pose proof (shift_pos_correct d m) as H. unfold shift_pos in H.
  rewrite H. change (Z.pow_pos 2 d) with (2 ^ Zpos d). ring.
Qed.

(** Aligning a mantissa to a lower exponent multiplies it. *)
Lemma shl_align_spec (mx : positive) (ex ez : Z) :
  ez <= ex ->
  Zpos (fst (shl_align mx ex ez)) = Zpos mx * 2 ^ (ex - ez).
Proof.
  intros H. unfold shl_align.
  destruct (ez - ex) as [|d|d] eqn:E; cbn [fst].
  - replace (ex - ez) with 0 by lia. cbn. lia.
  - lia.
  - rewrite iter_xO_pos. replace (ex - ez) with (Zpos d) by lia. reflexivity.
Qed.

(** [binary_round] of an exact value. *)
Lemma binary_round_between (z : positive) (ez : Z) (A g B h : Z) :
  -76 <= ez -> ez <= g -> ez <= h -> h <= 0 ->
  0 <= A < 2 ^ 24 -> 0 <= B < 2 ^ 24 ->
  A * 2 ^ (g + 100) <= Zpos z * 2 ^ (ez + 100) <= B * 2 ^ (h + 100) ->
  f32_between (binary_round 24 128 false z ez)
    (A * 2 ^ (g + 100)) (B * 2 ^ (h + 100)).
Proof.
  intros Hez Hg Hh Hh0 HA HB Hv.
  unfold binary_round.
  set (D := Zpos (digits2_pos z)).
  assert (HDpos : 1 <= D) by (subst D; lia).
  rewrite fexp_normal by lia.
  unfold shl_align.
  destruct (D + ez - 24 - ez) as [|d|d] eqn:E.
  - apply binary_round_aux_between; try assumption; try lia;
      [|intros Hn; exfalso; apply Hn; reflexivity].
    pose proof (digits2_pos_bounds z) as Hb. fold D in Hb.
    replace (D - 1) with 23 in Hb by lia. lia.
  - apply binary_round_aux_between; try assumption; try lia;
      [|intros Hn; exfalso; apply Hn; reflexivity].
    pose proof (digits2_pos_bounds z) as Hb. fold D in Hb.
    assert (2 ^ 23 <= 2 ^ (D - 1)) by (apply pow2_le; lia). lia.
  - assert (Hd : Zpos d = 24 - D) by lia.
    pose proof (digits2_pos_bounds z) as [Hlo Hhi]. fold D in Hlo, Hhi.
    assert (Hval : Zpos (Pos.iter xO z d) * 2 ^ (D + ez - 24 + 100)
                   = Zpos z * 2 ^ (ez + 100)).
    { rewrite iter_xO_pos, Hd. rewrite <- Z.mul_assoc, <- pow2_split by lia.
      f_equal. f_equal. lia. }
    apply binary_round_aux_between; try assumption; try lia.
    + rewrite iter_xO_pos, Hd.
      assert (2 ^ (D - 1) * 2 ^ (24 - D) <= Zpos z * 2 ^ (24 - D)).
      { apply Z.mul_le_mono_nonneg_r; [apply Z.lt_le_incl, pow2_pos; lia|lia]. }
      rewrite <- pow2_split in H by lia.
      replace (D - 1 + (24 - D)) with 23 in H by lia. exact H.
    + intros Hn. exfalso. apply Hn. reflexivity.
Qed.

Lemma int_mantissa m e n :
  -100 <= e <= 0 -> m * 2 ^ (e + 100) = n * 2 ^ 100 -> m = n * 2 ^ (- e).
Proof.
  intros He H.
  assert (H100 : 2 ^ 100 = 2 ^ (- e) * 2 ^ (e + 100)).
  { rewrite <- pow2_split by lia. f_equal. lia. }
  rewrite H100, Z.mul_assoc in H.
  apply Z.mul_reg_r in H; [exact H|].
  pose proof (pow2_pos (e + 100) ltac:(lia)). lia.
Qed.

Lemma int_exponent m e n :
  m < 2 ^ 24 -> -100 <= e -> 1 <= n -> m * 2 ^ (e + 100) = n * 2 ^ 100 -> -23 <= e.
Proof.
  intros Hm He Hn H.
  pose proof (pow2_pos (e + 100) ltac:(lia)) as Hp.
  assert (H1 : m * 2 ^ (e + 100) < 2 ^ 24 * 2 ^ (e + 100))
    by (apply Z.mul_lt_mono_pos_r; lia).
  rewrite <- pow2_split in H1 by lia.
  assert (H2 : 2 ^ 100 < 2 ^ (24 + (e + 100))) by nia.
  apply pow2_lt_inv in H2; lia.
Qed.

Lemma f32_int_inv f n :
  f32_int f n -> 0 < n ->
  exists m e, f = S754_finite false m e /\ 2 ^ 23 <= Zpos m < 2 ^ 24
              /\ -23 <= e <= 0 /\ Zpos m * 2 ^ (e + 100) = n * 2 ^ 100
              /\ Zpos m = n * 2 ^ (- e).
Proof.
  intros [[H0 _]|[_ (m & e & Hf & Hm & He & Hv)]] Hn; [lia|].
  assert (Hv' : Zpos m * 2 ^ (e + 100) = n * 2 ^ 100) by lia.
  exists m, e. split; [exact Hf|]. split; [exact Hm|].
  split; [|split; [exact Hv'|apply int_mantissa; assumption]].
  split; [|lia]. apply (int_exponent (Zpos m) e n); lia.
Qed.

Lemma f32_int_zero f : f32_int f 0 -> f = S754_zero false.
Proof. intros [[_ H]|[H _]]; [exact H|lia]. Qed.

(** An integer below [2 ^ 24] converts exactly. *)
Lemma f32_of_int_int n : 0 <= n < 2 ^ 24 -> f32_int (f32_of_int n) n.
Proof.
  intros Hn. destruct n as [|z|z]; [left; split; reflexivity| |lia].
  right. split; [lia|].
  change (f32_of_int (Zpos z)) with (binary_round 24 128 false z 0).
  change (Z.pos z * 2 ^ 100) with (Z.pos z * 2 ^ (0 + 100)).
  apply binary_round_between; lia.
Qed.

(** The cast to [int] drops what lies above the integer. *)
Lemma int_of_f32_frac f n : f32_frac f n -> 0 <= n -> int_of_f32 f = n.
Proof.
  intros [[H0 Hf]|(m & e & Hf & Hm & He & Hlo & Hhi)] Hn.
  - subst. reflexivity.
  - subst f. cbn [int_of_f32]. rewrite Z.shiftl_div_pow2 by lia.
    pose proof (pow2_pos (- e) ltac:(lia)) as Ha.
    pose proof (pow2_pos (e + 100) ltac:(lia)) as Hp.
    assert (H100 : 2 ^ 100 = 2 ^ (- e) * 2 ^ (e + 100)).
    { rewrite <- pow2_split by lia. f_equal. lia. }
    assert (Hhi' : Zpos m * 2 ^ (e + 100) < (n + 1) * 2 ^ 100).
    { change (2 ^ 100) with (2 ^ 12 * 2 ^ 88). lia. }
    rewrite H100 in Hlo, Hhi'. rewrite !Z.mul_assoc in *.
    apply scaled_le in Hlo; [|lia]. apply scaled_lt in Hhi'; [|lia].
    symmetry. apply (Z.div_unique_pos _ _ n (Zpos m - n * 2 ^ (- e))); lia.
Qed.

(** The difference of two integers below [2 ^ 24] is exact. *)
Lemma SFsub_int x y a b :
  f32_int x a -> f32_int y b -> 0 <= b <= a -> a < 2 ^ 24 ->
  f32_int (SFsub 24 128 x y) (a - b).
Proof.
  intros Hx Hy Hab Ha.
  destruct (Z.eq_dec b 0) as [Hb0|Hb0].
  - subst b. apply f32_int_zero in Hy. subst y. rewrite Z.sub_0_r.
    destruct Hx as [[H0 Hx]|[H0 (m & e & Hx & Hrest)]]; subst x.
    + cbn. left. split; [exact H0|reflexivity].
    + cbn. right. split; [exact H0|]. exists m, e. split; [reflexivity|exact Hrest].
  - destruct (f32_int_inv x a Hx ltac:(lia)) as (mx & ex & -> & Hmx & Hex & Hvx & _).
    destruct (f32_int_inv y b Hy ltac:(lia)) as (my & ey & -> & Hmy & Hey & Hvy & _).
    cbn [SFsub cond_Zopp].
    set (ez := IntDef.Z.min ex ey).
    assert (Hez : ez = Z.min ex ey) by reflexivity.
    assert (HX : Zpos (fst (shl_align mx ex ez)) * 2 ^ (ez + 100) = a * 2 ^ 100).
    { rewrite shl_align_spec by lia. rewrite <- Hvx, <- Z.mul_assoc, <- pow2_split by lia.
      f_equal. f_equal. lia. }
    assert (HY : Zpos (fst (shl_align my ey ez)) * 2 ^ (ez + 100) = b * 2 ^ 100).
    { rewrite shl_align_spec by lia. rewrite <- Hvy, <- Z.mul_assoc, <- pow2_split by lia.
      f_equal. f_equal. lia. }
    set (X := Zpos (fst (shl_align mx ex ez))) in *.
    set (Y := Zpos (fst (shl_align my ey ez))) in *.
    assert (HD : (X - Y) * 2 ^ (ez + 100) = (a - b) * 2 ^ 100) by lia.
    pose proof (pow2_pos (ez + 100) ltac:(lia)) as Hp.
    destruct (X - Y) as [|z|z] eqn:E.
    + left. split; [lia|reflexivity].
    + right. split; [lia|]. cbn [binary_normalize].
      change ((a - b) * 2 ^ 100) with ((a - b) * 2 ^ (0 + 100)).
      apply binary_round_between; lia.
    + exfalso. assert (0 <= (a - b) * 2 ^ 100) by lia. lia.
Qed.

(** A product below [2 ^ 24] is exact. *)
Lemma SFmul_int x y a b :
  f32_int x a -> f32_int y b -> 0 <= a -> 0 <= b -> a * b < 2 ^ 24 ->
  f32_int (SFmul 24 128 x y) (a * b).
Proof.
  intros Hx Hy Ha Hb Hab.
  destruct (Z.eq_dec a 0) as [Ha0|Ha0].
  { subst a. apply f32_int_zero in Hx. subst x. left. split; [lia|].
    destruct Hy as [[_ Hy]|[_ (m & e & Hy & _)]]; subst y; reflexivity. }
  destruct (Z.eq_dec b 0) as [Hb0|Hb0].
  { subst b. apply f32_int_zero in Hy. subst y. left. split; [lia|].
    destruct Hx as [[_ Hx]|[_ (m & e & Hx & _)]]; subst x; reflexivity. }
  destruct (f32_int_inv x a Hx ltac:(lia)) as (mx & ex & -> & Hmx & Hex & Hvx & _).
  destruct (f32_int_inv y b Hy ltac:(lia)) as (my & ey & -> & Hmy & Hey & Hvy & _).
  right. split; [nia|]. cbn [SFmul xorb].
  assert (Hv : Zpos (mx * my) * 2 ^ (ex + ey + 100) = a * b * 2 ^ 100).
  { pose proof (pow2_pos 100 ltac:(lia)) as Hp.
    apply (Z.mul_reg_r _ _ (2 ^ 100)); [lia|].
    rewrite <- Z.mul_assoc, <- pow2_split by lia.
    replace (ex + ey + 100 + 100) with ((ex + 100) + (ey + 100)) by lia.
    rewrite pow2_split by lia. rewrite Pos2Z.inj_mul.
    transitivity ((Zpos mx * 2 ^ (ex + 100)) * (Zpos my * 2 ^ (ey + 100))); [ring|].
    rewrite Hvx, Hvy. ring. }
  change (a * b * 2 ^ 100) with (a * b * 2 ^ (0 + 100)).
  apply binary_round_aux_between; try lia;
    try (intros Hn; exfalso; apply Hn; reflexivity).
Qed.

Lemma new_location_zero n : new_location n 0 = loc_Exact.
Proof. unfold new_location. destruct (Z.even n); reflexivity. Qed.

(** The division of two mantissas of 24 bits: the dividend is shifted by 24
    bits. *)
Lemma SFdiv_core_binary_spec (mx my : positive) (e1 e2 : Z) :
  2 ^ 23 <= Zpos mx < 2 ^ 24 -> 2 ^ 23 <= Zpos my < 2 ^ 24 ->
  -149 <= e1 - e2 - 24 ->
  SFdiv_core_binary 24 128 (Zpos mx) e1 (Zpos my) e2
  = ((Zpos mx * 2 ^ 24) / Zpos my, e1 - e2 - 24,
     new_location (Zpos my) ((Zpos mx * 2 ^ 24) mod Zpos my)).
Proof.
  intros Hmx Hmy He.
  unfold SFdiv_core_binary. cbn [Zdigits2].
  rewrite (digits2_pos_unique mx 24) by (cbn; lia).
  rewrite (digits2_pos_unique my 24) by (cbn; lia).
  rewrite fexp_normal by lia.
  replace (IntDef.Z.min (24 + e1 - (24 + e2) - 24) (e1 - e2)) with (e1 - e2 - 24)
    by (change IntDef.Z.min with Z.min; lia).
  replace (e1 - e2 - (e1 - e2 - 24)) with 24 by lia.
  cbv iota beta.
  replace (IntDef.Z.shiftl (Zpos mx) 24) with (Zpos mx * 2 ^ 24)
    by (symmetry; apply Z.shiftl_mul_pow2; lia).
  unfold Z.div, Z.modulo.
  change IntDef.Z.div_eucl with Z.div_eucl.
  destruct (Z.div_eucl (Zpos mx * 2 ^ 24) (Zpos my)) as [q r]. reflexivity.
Qed.

(** The integer content of a division of two numbers of 24 bits: the
    quotient of the mantissas lies between the integer quotient and the last
    number of twelve fractional bits below the next integer. *)
Lemma div_bracket (p d a1 a2 mx my q r : Z) :
  mx = p * 2 ^ a1 -> my = d * 2 ^ a2 ->
  0 <= a1 <= 23 -> 0 <= a2 <= 23 ->
  2 ^ 23 <= mx < 2 ^ 24 -> 2 ^ 23 <= my < 2 ^ 24 ->
  0 < d < 2 ^ 12 -> p / d + 1 <= 2 ^ 12 ->
  mx * 2 ^ 24 = my * q + r -> 0 <= r < my ->
  a2 - a1 <= 12
  /\ 2 ^ 23 <= q
  /\ (p / d) * 2 ^ (24 + a1 - a2) <= q
  /\ q < ((p / d + 1) * 2 ^ 12 - 1) * 2 ^ (12 + a1 - a2).
Proof.
  intros Hmx Hmy Ha1 Ha2 Hbx Hby Hd Hn Hdiv Hr.
  set (n := p / d) in *.
  pose proof (Z.div_mod p d ltac:(lia)) as Hpd. fold n in Hpd.
  pose proof (Z.mod_pos_bound p d ltac:(lia)) as Hpm.
  assert (Hlo : d * n <= p) by lia.
  assert (Hhi : p + 1 <= d * (n + 1)) by lia.
  pose proof (pow2_pos a1 ltac:(lia)) as HP1.
  pose proof (pow2_pos a2 ltac:(lia)) as HP2.
  set (P1 := 2 ^ a1) in *. set (P2 := 2 ^ a2) in *.
  assert (Hp : 0 < p) by nia.
  assert (Hgap : a2 - a1 <= 12).
  { destruct (Z_le_gt_dec (a2 - a1) 12) as [H|H]; [exact H|exfalso].
    assert (H1 : 2 ^ (a1 + 13) <= P2) by (apply pow2_le; lia).
    rewrite pow2_split in H1 by lia. fold P1 in H1.
    change (2 ^ 13) with 8192 in H1. change (2 ^ 12) with 4096 in *.
    change (2 ^ 23) with 8388608 in *. change (2 ^ 24) with 16777216 in *.
    assert (H2 : p < d * 4096) by nia.
    assert (H3 : mx < d * 4096 * P1) by nia.
    assert (H4 : d * (P1 * 8192) <= my) by nia.
    nia. }
  split; [exact Hgap|].
  assert (Hq23 : 2 ^ 23 <= q).
  { change (2 ^ 23) with 8388608 in *. change (2 ^ 24) with 16777216 in *.
    destruct (Z_le_gt_dec 8388608 q) as [H|H]; [exact H|exfalso].
    assert ((q + 1) * my <= 8388608 * my) by nia.
    nia. }
  split; [exact Hq23|].
  assert (HK : 2 ^ (24 + a1 - a2) * P2 = 2 ^ 24 * P1).
  { unfold P1, P2. rewrite <- !pow2_split by lia. f_equal. lia. }
  assert (HJ : 2 ^ (12 + a1 - a2) * P2 = 2 ^ 12 * P1).
  { unfold P1, P2. rewrite <- !pow2_split by lia. f_equal. lia. }
  pose proof (pow2_pos (24 + a1 - a2) ltac:(lia)) as HKp.
  pose proof (pow2_pos (12 + a1 - a2) ltac:(lia)) as HJp.
  set (K := 2 ^ (24 + a1 - a2)) in *. set (J := 2 ^ (12 + a1 - a2)) in *.
  change (2 ^ 12) with 4096 in *.
  change (2 ^ 23) with 8388608 in *. change (2 ^ 24) with 16777216 in *.
  set (B := (n + 1) * 4096 - 1).
  assert (HBd : p * 4096 + 1 <= B * d) by (unfold B; nia).
  assert (Hmy0 : 0 < my) by lia.
  assert (HL : n * K * my <= mx * 16777216).
  { subst mx my. fold P1 P2.
    transitivity (d * n * (K * P2)); [apply Z.eq_le_incl; ring|].
    rewrite HK. transitivity (p * (16777216 * P1)); [|apply Z.eq_le_incl; ring].
    apply Z.mul_le_mono_nonneg_r; lia. }
  assert (HU : mx * 16777216 + 4096 * P1 <= B * J * my).
  { subst mx my. fold P1 P2.
    transitivity ((p * 4096 + 1) * (4096 * P1)); [apply Z.eq_le_incl; ring|].
    transitivity (B * d * (J * P2)); [|apply Z.eq_le_incl; ring].
    rewrite HJ. apply Z.mul_le_mono_nonneg_r; lia. }
  split.
  - assert (n * K < q + 1); [|lia].
    apply (Z.mul_lt_mono_pos_r my); [exact Hmy0|]. nia.
  - apply (Z.mul_lt_mono_pos_r my); [exact Hmy0|]. nia.
Qed.

(** The quotient of two integers, rounded, stays between the integer
    quotient and the last number of twelve fractional bits below the next
    integer. *)
Lemma SFdiv_frac x y p d :
  f32_int x p -> f32_int y d -> 0 <= p -> 0 < d < 2 ^ 12 -> p / d + 1 <= 2 ^ 12 ->
  f32_frac (SFdiv 24 128 x y) (p / d).
Proof.
  intros Hx Hy Hp Hd Hn.
  destruct (f32_int_inv y d Hy ltac:(lia)) as (my & e2 & -> & Hmy & He2 & Hvy & Hy').
  destruct (Z.eq_dec p 0) as [Hp0|Hp0].
  { subst p. apply f32_int_zero in Hx. subst x. left.
    split; [apply Z.div_0_l; lia|reflexivity]. }
  destruct (f32_int_inv x p Hx ltac:(lia)) as (mx & e1 & -> & Hmx & He1 & Hvx & Hx').
  right. cbn [SFdiv xorb].
  rewrite SFdiv_core_binary_spec by (try assumption; lia).
  set (q := Zpos mx * 2 ^ 24 / Zpos my).
  set (r := (Zpos mx * 2 ^ 24) mod Zpos my).
  pose proof (Z.div_mod (Zpos mx * 2 ^ 24) (Zpos my) ltac:(lia)) as Hdm.
  pose proof (Z.mod_pos_bound (Zpos mx * 2 ^ 24) (Zpos my) ltac:(lia)) as Hr.
  fold q r in Hdm, Hr.
  destruct (div_bracket p d (- e1) (- e2) (Zpos mx) (Zpos my) q r)
    as (Hgap & Hq23 & Hlo & Hhi); try assumption; try lia.
  replace (24 + - e1 - - e2) with (24 + e2 - e1) in Hlo by lia.
  replace (12 + - e1 - - e2) with (12 + e2 - e1) in Hhi by lia.
  destruct q as [|qq|qq] eqn:Eq; [lia| |lia].
  set (n := p / d) in *.
  set (u := e1 - e2 - 24 + 100).
  assert (Hu : 0 <= u) by (subst u; lia).
  pose proof (pow2_pos u Hu) as Hup.
  assert (HG : n * 2 ^ (0 + 100) = n * 2 ^ (24 + e2 - e1) * 2 ^ u).
  { rewrite <- Z.mul_assoc, <- pow2_split by lia. f_equal. f_equal. subst u. lia. }
  assert (HH : ((n + 1) * 2 ^ 12 - 1) * 2 ^ (-12 + 100)
               = ((n + 1) * 2 ^ 12 - 1) * 2 ^ (12 + e2 - e1) * 2 ^ u).
  { rewrite <- Z.mul_assoc, <- pow2_split by lia. f_equal. f_equal. subst u. lia. }
  assert (Hin : n * 2 ^ (0 + 100) <= Zpos qq * 2 ^ u
                < ((n + 1) * 2 ^ 12 - 1) * 2 ^ (-12 + 100)).
  { rewrite HG, HH. split; [apply Z.mul_le_mono_nonneg_r; lia|].
    apply Z.mul_lt_mono_pos_r; [exact Hup|exact Hhi]. }
  change (n * 2 ^ 100) with (n * 2 ^ (0 + 100)).
  change (2 ^ 88) with (2 ^ (-12 + 100)).
  subst u.
  apply binary_round_aux_between; try lia.
Qed.

(** A mantissa of 24 bits or more is rounded as it is. *)
Lemma binary_round_large (z : positive) (ez : Z) :
  2 ^ 23 <= Zpos z -> -125 <= ez ->
  binary_round 24 128 false z ez = binary_round_aux 24 128 false (Zpos z) ez loc_Exact.
Proof.
  intros Hz He. unfold binary_round.
  pose proof (digits2_pos_ge z 23 Hz) as HD.
  rewrite fexp_normal by lia. unfold shl_align.
  destruct (Z.pos (digits2_pos z) + ez - 24 - ez) as [|d|d] eqn:E; [reflexivity|reflexivity|lia].
Qed.

Lemma frac_exponent m e n :
  2 ^ 23 <= m -> -100 <= e -> 0 <= n -> n + 1 <= 2 ^ 12 ->
  m * 2 ^ (e + 100) <= ((n + 1) * 2 ^ 12 - 1) * 2 ^ 88 -> e <= -12.
Proof.
  intros Hm He Hn Hn' H.
  pose proof (pow2_pos (e + 100) ltac:(lia)) as Hp.
  assert (H1 : 2 ^ 23 * 2 ^ (e + 100) <= m * 2 ^ (e + 100))
    by (apply Z.mul_le_mono_nonneg_r; lia).
  rewrite <- pow2_split in H1 by lia.
  assert (H2 : ((n + 1) * 2 ^ 12 - 1) * 2 ^ 88 < 2 ^ 112).
  { change (2 ^ 112) with (2 ^ 24 * 2 ^ 88). apply Z.mul_lt_mono_pos_r; [reflexivity|].
    change (2 ^ 24) with (2 ^ 12 * 2 ^ 12). nia. }
  assert (H3 : 2 ^ (23 + (e + 100)) < 2 ^ 112) by lia.
  apply pow2_lt_inv in H3; lia.
Qed.

(** Adding an integer keeps the sum below the next integer. *)
Lemma SFadd_frac x y c n :
  f32_int x c -> f32_frac y n -> 0 <= c -> 0 <= n -> c + n + 1 <= 2 ^ 12 ->
  f32_frac (SFadd 24 128 x y) (c + n).
Proof.
  intros Hx Hy Hc Hn Hcn.
  destruct (Z.eq_dec c 0) as [Hc0|Hc0].
  { subst c. apply f32_int_zero in Hx. subst x. rewrite Z.add_0_l.
    destruct Hy as [[H0 Hy]|(m & e & Hy & Hrest)]; subst y.
    - left. split; [exact H0|reflexivity].
    - right. exists m, e. split; [reflexivity|exact Hrest]. }
  destruct (f32_int_inv x c Hx ltac:(lia)) as (mx & ex & -> & Hmx & Hex & Hvx & _).
  right.
  destruct Hy as [[H0 Hy]|(my & ey & Hy & Hmy & Hey & Hvy)]; subst y.
  - subst n. rewrite Z.add_0_r. exists mx, ex. split; [reflexivity|].
    split; [exact Hmx|]. split; [lia|]. rewrite Hvx.
    change (2 ^ 100) with (2 ^ 12 * 2 ^ 88). lia.
  - assert (Hey' : ey <= -12) by (apply (frac_exponent (Zpos my) ey n); lia).
    cbn [SFadd cond_Zopp].
    set (ez := IntDef.Z.min ex ey).
    assert (Hez : ez = Z.min ex ey) by reflexivity.
    assert (HX : Zpos (fst (shl_align mx ex ez)) * 2 ^ (ez + 100) = c * 2 ^ 100).
    { rewrite shl_align_spec by lia. rewrite <- Hvx, <- Z.mul_assoc, <- pow2_split by lia.
      f_equal. f_equal. lia. }
    assert (HY : Zpos (fst (shl_align my ey ez)) * 2 ^ (ez + 100)
                 = Zpos my * 2 ^ (ey + 100)).
    { rewrite shl_align_spec by lia. rewrite <- Z.mul_assoc, <- pow2_split by lia.
      f_equal. f_equal. lia. }
    assert (HXge : Zpos mx <= Zpos (fst (shl_align mx ex ez))).
    { rewrite shl_align_spec by lia.
      pose proof (pow2_pos (ex - ez) ltac:(lia)). nia. }
    set (X := fst (shl_align mx ex ez)) in *.
    set (Y := fst (shl_align my ey ez)) in *.
    change (Z.pos X + Z.pos Y) with (Z.pos (X + Y)).
    cbn [binary_normalize].
    assert (Hsum : 2 ^ 23 <= Zpos (X + Y)) by (rewrite Pos2Z.inj_add; lia).
    rewrite binary_round_large by lia.
    assert (HS : Zpos (X + Y) * 2 ^ (ez + 100) = c * 2 ^ 100 + Zpos my * 2 ^ (ey + 100)).
    { rewrite Pos2Z.inj_add, Z.mul_add_distr_r, HX, HY. reflexivity. }
    assert (HU : c * 2 ^ 100 + ((n + 1) * 2 ^ 12 - 1) * 2 ^ 88
                 = ((c + n + 1) * 2 ^ 12 - 1) * 2 ^ 88).
    { change (2 ^ 100) with (2 ^ 12 * 2 ^ 88). ring. }
    change ((c + n) * 2 ^ 100) with ((c + n) * 2 ^ (0 + 100)).
    change (2 ^ 88) with (2 ^ (-12 + 100)).
    assert (HB : 0 <= (c + n + 1) * 2 ^ 12 - 1 < 2 ^ 24)
      by (change (2 ^ 24) with (2 ^ 12 * 2 ^ 12); nia).
    assert (Hin : (c + n) * 2 ^ (0 + 100) <= Zpos (X + Y) * 2 ^ (ez + 100)
                  <= ((c + n + 1) * 2 ^ 12 - 1) * 2 ^ (-12 + 100)).
    { rewrite HS. change (2 ^ (0 + 100)) with (2 ^ 100).
      change (2 ^ (-12 + 100)) with (2 ^ 88). rewrite <- HU. lia. }
    apply binary_round_aux_between; try lia.
    intros Hne. exfalso. apply Hne. reflexivity.
Qed.

Section VolumeRescale.
Context {FL : CFloat} {PH : PolicyHeader}.

(** A volume index rescaled to its own stream type is returned as it is,
    whatever the floating point unit. *)
Lemma rescaleVolumeIndex_same_stream (m : AudioPolicyManager) (srcIndex : Z)
    (stream : audio_stream_type_t) :
  rescaleVolumeIndex m srcIndex stream stream = srcIndex.
Proof.
  unfold rescaleVolumeIndex. rewrite bool_decide_eq_true_2 by reflexivity. reflexivity.
Qed.

End VolumeRescale.

(** The float expression of [rescaleVolumeIndex] on index ranges below 4096:
    the conversions, both subtractions and the product are exact, the
    quotient and the sum stay below the next integer, and the cast to [int]
    returns the integer quotient. *)
Lemma rescale_expression_binary32 (i minS maxS minD maxD : Z) :
  0 <= minS -> minS < maxS -> maxS < 4096 ->
  0 <= minD -> minD < maxD -> maxD < 4096 ->
  minS <= i <= maxS ->
  int_of_f32
    (SFadd 24 128 (f32_of_int minD)
       (SFdiv 24 128
          (SFmul 24 128 (SFsub 24 128 (f32_of_int i) (f32_of_int minS))
             (SFsub 24 128 (f32_of_int maxD) (f32_of_int minD)))
          (SFsub 24 128 (f32_of_int maxS) (f32_of_int minS))))
  = minD + ((i - minS) * (maxD - minD)) / (maxS - minS).
Proof.
  intros HminS HS HmaxS HminD HD HmaxD Hi.
  assert (H24 : forall n, 0 <= n < 4096 -> 0 <= n < 2 ^ 24)
    by (intros n Hn; change (2 ^ 24) with 16777216; lia).
  pose proof (f32_of_int_int i (H24 i ltac:(lia))) as Fi.
  pose proof (f32_of_int_int minS (H24 minS ltac:(lia))) as FminS.
  pose proof (f32_of_int_int maxS (H24 maxS ltac:(lia))) as FmaxS.
  pose proof (f32_of_int_int minD (H24 minD ltac:(lia))) as FminD.
  pose proof (f32_of_int_int maxD (H24 maxD ltac:(lia))) as FmaxD.
  pose proof (SFsub_int _ _ i minS Fi FminS ltac:(lia)
                ltac:(change (2 ^ 24) with 16777216; lia)) as Fx.
  pose proof (SFsub_int _ _ maxD minD FmaxD FminD ltac:(lia)
                ltac:(change (2 ^ 24) with 16777216; lia)) as FrD.
  pose proof (SFsub_int _ _ maxS minS FmaxS FminS ltac:(lia)
                ltac:(change (2 ^ 24) with 16777216; lia)) as FrS.
  assert (Hprod : (i - minS) * (maxD - minD) < 2 ^ 24)
    by (change (2 ^ 24) with 16777216; nia).
  pose proof (SFmul_int _ _ _ _ Fx FrD ltac:(lia) ltac:(lia) Hprod) as Fp.
  assert (Hquot : (i - minS) * (maxD - minD) / (maxS - minS) <= maxD - minD).
  { apply Z.div_le_upper_bound; [lia|]. nia. }
  assert (Hq0 : 0 <= (i - minS) * (maxD - minD) / (maxS - minS)).
  { apply Z.div_pos; [nia|lia]. }
  pose proof (SFdiv_frac _ _ _ _ Fp FrS ltac:(nia)
                ltac:(change (2 ^ 12) with 4096; lia)
                ltac:(change (2 ^ 12) with 4096; lia)) as Fq.
  pose proof (SFadd_frac _ _ _ _ FminD Fq ltac:(lia) Hq0
                ltac:(change (2 ^ 12) with 4096; lia)) as Fr.
  apply int_of_f32_frac; [exact Fr|lia].
Qed.

(** [rescaleVolumeIndex] under binary32 arithmetic is the integer formula. *)
Lemma rescaleVolumeIndex_binary32 (m : @AudioPolicyManager binary32_float)
    (srcIndex : Z) (srcStream dstStream : audio_stream_type_t) :
  let minSrc := getVolumeIndexMin (mVolumeCurves m) srcStream in
  let maxSrc := getVolumeIndexMax (mVolumeCurves m) srcStream in
  let minDst := getVolumeIndexMin (mVolumeCurves m) dstStream in
  let maxDst := getVolumeIndexMax (mVolumeCurves m) dstStream in
  0 <= minSrc -> minSrc < maxSrc -> maxSrc < 4096 ->
  0 <= minDst -> minDst < maxDst -> maxDst < 4096 ->
  minSrc <= srcIndex <= maxSrc ->
  rescaleVolumeIndex m srcIndex srcStream dstStream
  = minDst + ((srcIndex - minSrc) * (maxDst - minDst)) / (maxSrc - minSrc).
Proof.
  intros minSrc maxSrc minDst maxDst HminS HS HmaxS HminD HD HmaxD Hi.
  unfold rescaleVolumeIndex.
  destruct (decide (srcStream = dstStream)) as [Heq|Hne].
  - rewrite bool_decide_eq_true_2 by exact Heq.
    subst dstStream. subst minDst maxDst. fold minSrc maxSrc.
    rewrite Z.div_mul by lia. lia.
  - rewrite bool_decide_eq_false_2 by exact Hne.
    cbn [int_of_float float_add float_div float_mul float_sub float_of_int binary32_float].
    apply rescale_expression_binary32; assumption.
Qed.

(** The integers of a round trip: scaling [x] from a range of [RA] steps to
    one of [RB] steps and back never gains and loses less than
    [RA / RB + 1] steps. *)
Lemma round_trip_integers (x RA RB : Z) :
  0 < RA -> 0 < RB -> 0 <= x <= RA ->
  let y := (x * RB) / RA in
  let z := (y * RA) / RB in
  0 <= y <= RB /\ 0 <= z <= x /\ (x - z) * RB < RA + RB.
Proof.
  intros HRA HRB Hx y z.
  pose proof (Z.div_mod (x * RB) RA ltac:(lia)) as Hy.
  pose proof (Z.mod_pos_bound (x * RB) RA HRA) as Hym.
  fold y in Hy.
  assert (Hy0 : 0 <= y) by (apply Z.div_pos; [nia|lia]).
  assert (Hy1 : y <= RB) by (apply Z.div_le_upper_bound; [lia|nia]).
  pose proof (Z.div_mod (y * RA) RB ltac:(lia)) as Hz.
  pose proof (Z.mod_pos_bound (y * RA) RB HRB) as Hzm.
  fold z in Hz.
  assert (Hz0 : 0 <= z) by (apply Z.div_pos; [nia|lia]).
  revert Hy Hym Hz Hzm. generalize ((x * RB) mod RA) ((y * RA) mod RB).
  intros r1 r2 Hy Hr1 Hz Hr2.
  assert (Hzx : z <= x) by nia.
  split; [lia|]. split; [lia|]. nia.
Qed.


(** ** Runs on the sample states *)

#[local] Existing Instance reference_header.
#[local] Existing Instance integer_float.

(** With music alone on the deep-buffer output, the selected device is the
    engine's device for MEDIA. *)
Lemma getNewOutputDevice_priority_witness :
  getNewOutputDevice Sample.playing_music Sample.music_output false
  = engine_getDeviceForStrategy (mEngine Sample.playing_music) STRATEGY_MEDIA.
Proof.
  destruct (getNewOutputDevice_priority Sample.playing_music Sample.music_output false)
    as (_ & _ & _ & _ & Hmedia).
  apply Hmedia; try reflexivity.
  - intros strategy Hall Hne. destruct strategy; try reflexivity.
    + cbn in Hall. intuition discriminate.
    + congruence.
  - intros desc [<-|[<-|[]]] _ strategy Hall Hne;
      destruct strategy; try reflexivity; try congruence;
      cbn in Hall; intuition discriminate.
Defined.

(** While a ringtone plays on another output of the module, the output that
    plays music alone is routed for SONIFICATION, not for the first strategy
    active on it. *)
Lemma getNewOutputDevice_not_first_on_stream :
  getNewOutputDevice Sample.music_and_ring Sample.music_output false
  <> specified_output_device Sample.music_and_ring Sample.music_output.
Proof. vm_compute. discriminate. Qed.

Lemma sample_patches_wf : patches_wf Sample.patched_music.
Proof.
  intros key patchDesc H. cbn in H.
  apply lookup_singleton_Some in H as [<- <-]. vm_compute. repeat split; reflexivity.
Qed.

(** Installing a patch for the output that plays through patch 7 updates
    that record: the collection keeps its size and the output its handle. *)
Lemma installPatch_updates_in_place_witness :
  io_registered Sample.patched_music (OutputRef 1)
  /\ size (mAudioPatches
             (fst (installPatch Sample.patched_music None (OutputRef 1)
                     Sample.headset_patch 0)))
     = size (mAudioPatches Sample.patched_music)
  /\ getPatchHandle
       (fst (installPatch Sample.patched_music None (OutputRef 1)
               Sample.headset_patch 0)) (OutputRef 1) = 7.
Proof.
  assert (Hreg : io_registered Sample.patched_music (OutputRef 1))
    by (eexists; reflexivity).
  split; [exact Hreg|].
  destruct (installPatch_updates_in_place Sample.patched_music None (OutputRef 1)
              Sample.headset_patch 0 Hreg sample_patches_wf)
    as (_ & _ & Hupdate & _).
  destruct (Hupdate Sample.speaker_patch eq_refl eq_refl) as (_ & _ & Hsize & Hhandle).
  split; [exact Hsize|exact Hhandle].
Defined.

(** Routing the music output to the headset stores the headset, which it
    supports. *)
Lemma setOutputDevice_device_within_supported_witness :
  exists outputDesc',
    valueFor
      (mOutputs (fst (setOutputDevice Sample.playing_music 1
                        AUDIO_DEVICE_OUT_WIRED_HEADSET false 0 None None true))) 1
    = Some outputDesc'
    /\ mDevice outputDesc' = AUDIO_DEVICE_OUT_WIRED_HEADSET.
Proof.
  destruct (setOutputDevice_device_within_supported Sample.playing_music 1
              Sample.music_output AUDIO_DEVICE_OUT_WIRED_HEADSET false 0 None None true
              eq_refl eq_refl)
    as (_ & d & Hv & _ & _ & Hstore & _).
  exists d. split; [exact Hv|].
  apply Hstore. vm_compute. discriminate.
Defined.


(** A HOTWORD request while the microphone is captured on another input
    fails for CAPTURE. *)
Lemma startInput_concurrency_conflict_witness :
  startInput Sample.hotword_during_capture 32 true
  = (Sample.hotword_during_capture,
     mkStartResult INVALID_OPERATION API_INPUT_CONCURRENCY_CAPTURE).
Proof.
  assert (Hreach : reaches_arbitration Sample.hotword_during_capture 32
                      Sample.new_hotword_input Sample.new_hotword_client)
    by (repeat split).
  destruct (startInput_concurrency_conflict Sample.hotword_during_capture 32 true
              Sample.new_hotword_input Sample.new_hotword_client Hreach)
    as (Hfirst & _).
  destruct (Hfirst [] Sample.mic_input [] API_INPUT_CONCURRENCY_CAPTURE) as (Hrun & _).
  - reflexivity.
  - intros a [].
  - reflexivity.
  - exact Hrun.
Defined.

(** A HOTWORD request fails for HOTWORD against an input that has already
    preempted its session. *)
Lemma startInput_hotword_fails_after_preemption :
  ~ hotword_failure_as_specified Sample.hotword_after_preemption 32 true.
Proof.
  intros H.
  assert (Hreach : reaches_arbitration Sample.hotword_after_preemption 32
                      Sample.new_hotword_input Sample.new_hotword_client)
    by (repeat split).
  destruct (H Sample.new_hotword_input Sample.new_hotword_client Hreach
              eq_refl eq_refl) as (activeDesc & Hin & _ & _ & Hp).
  vm_compute in Hin. destruct Hin as [<-|[]]. vm_compute in Hp. discriminate.
Qed.

(** After the device of the active music output has changed, the two
    stream types of the media strategy are silenced at once and given back
    the volume of index 5 after four times the latency of 20 ms; the mute
    wait is twice the latency. *)
Lemma checkDeviceMuteStrategies_temporary_mute_witness :
  snd (checkDeviceMuteStrategies Sample.playing_music 1 AUDIO_DEVICE_OUT_WIRED_HEADSET 0)
  = 40
  /\ sequencing_calls
       (mTrace (fst (checkDeviceMuteStrategies Sample.playing_music 1
                       AUDIO_DEVICE_OUT_WIRED_HEADSET 0)))
     = [setVolume_call 1 (computeVolume AUDIO_STREAM_SYSTEM 0 AUDIO_DEVICE_OUT_SPEAKER)
          AUDIO_STREAM_SYSTEM AUDIO_DEVICE_OUT_SPEAKER 0 false;
        setVolume_call 1 (computeVolume AUDIO_STREAM_MUSIC 0 AUDIO_DEVICE_OUT_SPEAKER)
          AUDIO_STREAM_MUSIC AUDIO_DEVICE_OUT_SPEAKER 0 false;
        setVolume_call 1 (computeVolume AUDIO_STREAM_SYSTEM 5 AUDIO_DEVICE_OUT_SPEAKER)
          AUDIO_STREAM_SYSTEM AUDIO_DEVICE_OUT_SPEAKER 80 false;
        setVolume_call 1 (computeVolume AUDIO_STREAM_MUSIC 5 AUDIO_DEVICE_OUT_SPEAKER)
          AUDIO_STREAM_MUSIC AUDIO_DEVICE_OUT_SPEAKER 80 false;
        usleep_call 40000].
Proof.
  assert (Hcounts : forall s, 0 <= mMuteCount Sample.music_output s)
    by (intros s; vm_compute; discriminate).
  assert (Hdev : device Sample.playing_music Sample.music_output
                  <> AUDIO_DEVICE_OUT_WIRED_HEADSET)
    by (vm_compute; discriminate).
  assert (Hdelay : 0 <= 0) by lia.
  assert (Hlat : 0 <= latency Sample.playing_music Sample.music_output)
    by (vm_compute; discriminate).
  assert (Hbound : 0 + 4 * latency Sample.playing_music Sample.music_output < 2 ^ 31)
    by reflexivity.
  destruct (checkDeviceMuteStrategies_temporary_mute Sample.playing_music 1
              Sample.music_output AUDIO_DEVICE_OUT_WIRED_HEADSET 0
              eq_refl eq_refl eq_refl Hdev Hcounts Hdelay Hlat Hbound)
    as (_ & Hwait & Hcalls & _).
  split; [exact Hwait|]. rewrite Hcalls. vm_compute. reflexivity.
Defined.

(** Releasing the patch of the music output clears its handle and removes
    record 7. *)
Lemma resetDevice_releases_attached_patch_witness :
  released Sample.patched_music
    (fst (resetOutputDevice Sample.patched_music 1 0 None)) (OutputRef 1)
    Sample.speaker_patch 0.
Proof.
  destruct (resetDevice_releases_attached_patch Sample.patched_music 1 21 0 None)
    as (_ & Hfound & _).
  destruct (Hfound Sample.speaker_patch eq_refl) as (Hreleased & _).
  exact Hreleased.
Defined.

(** Of the two mixer outputs, the one whose profile shares the requested FAST
    flag is selected. *)
Lemma selectOutput_selection_rule_witness :
  selectOutput Sample.playing_music [1; 2] AUDIO_OUTPUT_FLAG_FAST AUDIO_FORMAT_PCM_16_BIT
  = Some 2.
Proof.
  destruct (selectOutput_selection_rule Sample.playing_music [1; 2] AUDIO_OUTPUT_FLAG_FAST
              AUDIO_FORMAT_PCM_16_BIT
              [(1, Sample.music_output); (2, Sample.idle_output)] eq_refl)
    as (Hrun & _).
  exact Hrun.
Defined.

(** For a compressed format no candidate is considered: the first one is
    returned although the second shares the requested flag. *)
Lemma selectOutput_skips_all_for_compressed_format :
  selectOutput Sample.playing_music [1; 2] AUDIO_OUTPUT_FLAG_FAST AUDIO_FORMAT_AC3
  <> selectOutput_as_specified Sample.playing_music [1; 2] AUDIO_OUTPUT_FLAG_FAST
       AUDIO_FORMAT_AC3.
Proof. vm_compute. discriminate. Qed.

(** Setting the VOICE_CALL volume while communication is forced to SCO is
    refused on a stream that is not muted. *)
Lemma checkAndSetVolume_refuses_on_sco_mismatch_witness :
  checkAndSetVolume Sample.idle_on_sco AUDIO_STREAM_VOICE_CALL 5 2 0 0 false
  = (Sample.idle_on_sco, INVALID_OPERATION).
Proof.
  destruct (checkAndSetVolume_refuses_on_sco_mismatch Sample.idle_on_sco
              AUDIO_STREAM_VOICE_CALL 5 2 Sample.idle_output 0 0 false eq_refl)
    as (Hrefused & _).
  apply Hrefused.
  - reflexivity.
  - left. split; reflexivity.
Defined.

(** On a muted VOICE_CALL stream the same request returns [NO_ERROR]. *)
Lemma checkAndSetVolume_muted_is_not_refused :
  ~ refusal_as_specified Sample.muted_call_on_sco AUDIO_STREAM_VOICE_CALL 5 1 0 0 false.
Proof.
  intros H. specialize (H (or_introl (conj eq_refl eq_refl))).
  apply (f_equal snd) in H. vm_compute in H. discriminate.
Qed.



(** ** Outputs that reach a device *)

Section OutputsForDevice.
Context {FL : CFloat} {PH : PolicyHeader}.

Lemma sorted_add_In x y l : In x (sorted_add y l) <-> x = y \/ In x l.
Proof.
  induction l as [|z l IH]; cbn [sorted_add].
  - cbn. intuition congruence.
  - destruct (y <? z) eqn:Hlt; [cbn; intuition congruence|].
    destruct (y =? z) eqn:Heq.
    + apply Z.eqb_eq in Heq. subst z. cbn. intuition congruence.
    + cbn [In]. rewrite IH. intuition congruence.
Qed.

Lemma sorted_add_sorted y l :
  StronglySorted Z.lt l -> StronglySorted Z.lt (sorted_add y l).
Proof.
  induction 1 as [|z l Hs IH Hall]; cbn [sorted_add].
  - repeat constructor.
  - destruct (y <? z) eqn:Hlt.
    + apply Z.ltb_lt in Hlt. constructor.
      * constructor; assumption.
      * constructor; [exact Hlt|].
        apply List.Forall_forall. intros x Hx.
        rewrite List.Forall_forall in Hall. specialize (Hall x Hx). lia.
    + destruct (y =? z) eqn:Heq.
      * constructor; assumption.
      * apply Z.ltb_ge in Hlt. apply Z.eqb_neq in Heq.
        constructor; [exact IH|].
        apply List.Forall_forall. intros x Hx. apply sorted_add_In in Hx.
        destruct Hx as [->|Hx]; [lia|].
        rewrite List.Forall_forall in Hall. exact (Hall x Hx).
Qed.

Lemma getOutputsForDevice_fold m device openOutputs : forall acc h,
  In h (List.fold_left
          (fun outputs desc =>
             if Z.land device (supportedDevices m desc) =? device
             then sorted_add (mIoHandle desc) outputs
             else outputs)
          openOutputs acc)
  <-> In h acc
      \/ exists desc, In desc openOutputs /\ mIoHandle desc = h
                      /\ Z.land device (supportedDevices m desc) = device.
Proof.
  induction openOutputs as [|d l IH]; intros acc h; cbn [List.fold_left].
  - split; [tauto|]. intros [H|(desc & [] & _)]. exact H.
  - rewrite IH. destruct (Z.land device (supportedDevices m d) =? device) eqn:E.
    + apply Z.eqb_eq in E. rewrite sorted_add_In. split.
      * intros [[->|H]|(desc & Hin & Hh & Hs)].
        -- right. exists d. cbn. auto.
        -- left. exact H.
        -- right. exists desc. cbn. auto.
      * intros [H|(desc & [<-|Hin] & Hh & Hs)].
        -- left. right. exact H.
        -- left. left. symmetry. exact Hh.
        -- right. exists desc. auto.
    + apply Z.eqb_neq in E. split.
      * intros [H|(desc & Hin & Hh & Hs)]; [left; exact H|].
        right. exists desc. cbn. auto.
      * intros [H|(desc & [<-|Hin] & Hh & Hs)]; [left; exact H|contradiction|].
        right. exists desc. auto.
Qed.

Lemma getOutputsForDevice_In m device openOutputs h :
  In h (getOutputsForDevice m device openOutputs)
  <-> exists desc, In desc openOutputs /\ mIoHandle desc = h
                   /\ Z.land device (supportedDevices m desc) = device.
Proof.
  unfold getOutputsForDevice. rewrite getOutputsForDevice_fold. cbn [In]. tauto.
Qed.

Lemma getOutputsForDevice_registered m device h :
  In h (getOutputsForDevice m device (mOutputs m)) ->
  is_Some (valueFor (mOutputs m) h).
Proof.
  intros Hin. apply getOutputsForDevice_In in Hin as (desc & Hd & Hh & _).
  unfold valueFor. destruct (List.find _ _) as [d|] eqn:E; [eauto|].
  exfalso. apply (List.find_none _ _ E) in Hd. rewrite Hh, Z.eqb_refl in Hd.
  discriminate.
Qed.

(** X1.  [getOutputsForDevice] returns, in increasing order and without
    repetition, exactly the handles of the open outputs whose supported
    devices include every requested device. *)
Theorem getOutputsForDevice_sorted_selection
    (m : AudioPolicyManager) (device : audio_devices_t)
    (openOutputs : list AudioOutputDescriptor) :
  (forall h,
     In h (getOutputsForDevice m device openOutputs)
     <-> exists desc, In desc openOutputs /\ mIoHandle desc = h
                      /\ Z.land device (supportedDevices m desc) = device)
  /\ StronglySorted Z.lt (getOutputsForDevice m device openOutputs).
Proof.
  split; [intros h; apply getOutputsForDevice_In|].
  unfold getOutputsForDevice.
  assert (H : StronglySorted Z.lt (@nil Z)) by constructor.
  revert H. generalize (@nil Z).
  induction openOutputs as [|d l IH]; intros acc Hacc; cbn [List.fold_left].
  - exact Hacc.
  - apply IH. destruct (_ =? _); [apply sorted_add_sorted|]; exact Hacc.
Qed.

(** *** The output selected among candidates is one of them *)

Lemma selectOutput_step_among L flags format st output outputDesc :
  In output L -> selected_among L st ->
  selected_among L (selectOutput_step flags format st output outputDesc).
Proof.
  intros Hin (Hf & Hfmt & Hp). unfold selectOutput_step, selected_among.
  repeat match goal with
         | |- context [if ?c then _ else _] => destruct c
         end; cbn; tauto.
Qed.

Lemma selectOutput_loop_among m flags format L : forall outputs st st',
  (forall o, In o outputs -> In o L) ->
  selected_among L st ->
  selectOutput_loop m flags format outputs st = Some st' ->
  selected_among L st'.
Proof.
  induction outputs as [|o l IH]; intros st st' Hsub Hst Hloop; cbn in Hloop.
  - injection Hloop as <-. exact Hst.
  - destruct (valueFor (mOutputs m) o) as [d|]; [|discriminate].
    apply (IH _ _ (fun x Hx => Hsub x (or_intror Hx))
             (selectOutput_step_among L flags format st o d (Hsub o (or_introl eq_refl)) Hst)
             Hloop).
Qed.

Lemma selectOutput_loop_total m flags format : forall outputs st,
  (forall o, In o outputs -> is_Some (valueFor (mOutputs m) o)) ->
  is_Some (selectOutput_loop m flags format outputs st).
Proof.
  induction outputs as [|o l IH]; intros st Hreg; cbn.
  - eauto.
  - destruct (Hreg o (or_introl eq_refl)) as [d ->].
    apply IH. intros x Hx. apply Hreg. right. exact Hx.
Qed.

Lemma selectOutput_In m outputs flags format h :
  selectOutput m outputs flags format = Some h ->
  outputs <> [] -> In h outputs.
Proof.
  unfold selectOutput. destruct outputs as [|first [|second rest]]; [congruence| |].
  - intros [= <-] _. left. reflexivity.
  - intros Hsel _.
    destruct (selectOutput_loop m flags format (first :: second :: rest) select_init)
      as [st|] eqn:Hloop; [|discriminate].
    assert (Hamong : selected_among (first :: second :: rest) st).
    { apply (selectOutput_loop_among m flags format (first :: second :: rest)
               (first :: second :: rest) select_init st); auto.
      unfold selected_among, select_init. cbn. tauto. }
    destruct Hamong as (Hf & Hfmt & Hp).
    destruct (outputForFlags st =? AUDIO_IO_HANDLE_NONE) eqn:E1; cbn in Hsel.
    + destruct (outputForFormat st =? AUDIO_IO_HANDLE_NONE) eqn:E2; cbn in Hsel.
      * destruct (outputForPrimary st =? AUDIO_IO_HANDLE_NONE) eqn:E3; cbn in Hsel.
        -- injection Hsel as <-. left. reflexivity.
        -- injection Hsel as <-. apply Z.eqb_neq in E3. tauto.
      * injection Hsel as <-. apply Z.eqb_neq in E2. tauto.
    + injection Hsel as <-. apply Z.eqb_neq in E1. tauto.
Qed.

Lemma selectOutput_total m outputs flags format :
  (forall o, In o outputs -> is_Some (valueFor (mOutputs m) o)) ->
  is_Some (selectOutput m outputs flags format).
Proof.
  intros Hreg. unfold selectOutput.
  destruct outputs as [|first [|second rest]]; [eauto|eauto|].
  destruct (selectOutput_loop_total m flags format (first :: second :: rest) select_init Hreg)
    as [st ->].
  repeat match goal with
         | |- context [if ?c then _ else _] => destruct c
         end; eauto.
Qed.

(** X2.  When every candidate is registered, [selectOutput] returns a handle:
    [AUDIO_IO_HANDLE_NONE] for an empty list, and otherwise one of the
    candidates, whatever the flags and the format requested. *)
Theorem selectOutput_returns_candidate
    (m : AudioPolicyManager) (outputs : list audio_io_handle_t) (flags : Z)
    (format : audio_format_t) :
  (forall o, In o outputs -> is_Some (valueFor (mOutputs m) o)) ->
  exists h,
    selectOutput m outputs flags format = Some h
    /\ (outputs = [] -> h = AUDIO_IO_HANDLE_NONE)
    /\ (outputs <> [] -> In h outputs).
Proof.
  intros Hreg.
  destruct (selectOutput_total m outputs flags format Hreg) as [h Hsel].
  exists h. split; [exact Hsel|]. split.
  - intros ->. cbn in Hsel. congruence.
  - apply (selectOutput_In m outputs flags format h Hsel).
Qed.

(** X3.  [getOutput] always returns: the candidates it hands to
    [selectOutput] are registered.  The handle it returns is
    [AUDIO_IO_HANDLE_NONE] when no open output reaches the device of the
    strategy of the stream, and otherwise the handle of an open output whose
    supported devices include every device of that strategy. *)
Theorem getOutput_reaches_strategy_device
    (m : AudioPolicyManager) (stream : audio_stream_type_t) :
  let device := getDeviceForStrategy m (getStrategy m stream) false in
  exists h,
    getOutput m stream = Some h
    /\ ((h = AUDIO_IO_HANDLE_NONE
         /\ getOutputsForDevice m device (mOutputs m) = [])
        \/ exists desc,
             In desc (mOutputs m) /\ mIoHandle desc = h
             /\ Z.land device (supportedDevices m desc) = device).
Proof.
  intros device. unfold getOutput. fold device.
  set (outputs := getOutputsForDevice m device (mOutputs m)).
  assert (Hreg : forall o, In o outputs -> is_Some (valueFor (mOutputs m) o))
    by (intros o; apply getOutputsForDevice_registered).
  destruct (selectOutput_total m outputs AUDIO_OUTPUT_FLAG_NONE AUDIO_FORMAT_INVALID Hreg)
    as [h Hsel].
  exists h. split; [exact Hsel|].
  destruct outputs as [|first rest] eqn:E.
  - left. cbn in Hsel. split; congruence.
  - right. apply getOutputsForDevice_In. fold outputs. rewrite E.
    apply (selectOutput_In m _ _ _ h Hsel). discriminate.
Qed.

End OutputsForDevice.

(** ** The devices reported for a stream type *)

Section DevicesForStream.
Context {FL : CFloat} {PH : PolicyHeader}.

Lemma fold_left_single {A B : Type} (f : A -> B -> A) (s : B) (l : list B) :
  NoDup l -> In s l ->
  (forall a c, c <> s -> f a c = a) ->
  forall a, List.fold_left f l a = f a s.
Proof.
  intros Hnd Hin Hskip.
  assert (Hnone : forall l', ~ In s l' -> forall a, List.fold_left f l' a = a).
  { induction l' as [|c l' IH]; intros Hn a; cbn; [reflexivity|].
    rewrite Hskip by (intros ->; apply Hn; left; reflexivity).
    apply IH. intros H. apply Hn. right. exact H. }
  induction Hnd as [|c l Hc Hnd IH]; [destruct Hin|].
  intros a. cbn [List.fold_left]. destruct Hin as [->|Hin].
  - apply Hnone. rewrite <- list_elem_of_In. exact Hc.
  - rewrite Hskip.
    + apply IH. exact Hin.
    + intros ->. apply Hc. rewrite list_elem_of_In. exact Hin.
Qed.

Lemma public_stream_In stream :
  stream_index stream < AUDIO_STREAM_PUBLIC_CNT -> In stream policy_streams.
Proof.
  unfold AUDIO_STREAM_PUBLIC_CNT. destruct stream; cbn; intros H; try lia; tauto.
Qed.

Lemma speaker_safe_cleared x :
  Z.land (Z.land x (Z.lnot AUDIO_DEVICE_OUT_SPEAKER_SAFE)) AUDIO_DEVICE_OUT_SPEAKER_SAFE = 0.
Proof.
  rewrite <- Z.land_assoc.
  rewrite (Z.land_comm (Z.lnot _)), Z.land_lnot_diag. apply Z.land_0_r.
Qed.

(** X4.  [getDevicesForStream] reports no device for the stream types that
    are not public (REROUTING and PATCH).  For a public stream type it
    reports the devices of the outputs that reach the device of the strategy
    of the stream and on which the stream is active, or the device of the
    strategy when there is no such output, with SPEAKER_SAFE replaced by
    SPEAKER.  The result never contains SPEAKER_SAFE. *)
Theorem getDevicesForStream_filters_speaker_safe
    (m : AudioPolicyManager) (stream : audio_stream_type_t) :
  let strategyDevice := getDeviceForStrategy m (getStrategy m stream) false in
  let activeDevices :=
    activeDevicesOn m stream (getOutputsForDevice m strategyDevice (mOutputs m))
      AUDIO_DEVICE_NONE in
  let devices :=
    if activeDevices =? AUDIO_DEVICE_NONE then strategyDevice else activeDevices in
  (AUDIO_STREAM_PUBLIC_CNT <= stream_index stream ->
   getDevicesForStream m stream = AUDIO_DEVICE_NONE)
  /\ (stream_index stream < AUDIO_STREAM_PUBLIC_CNT ->
      getDevicesForStream m stream
      = if Z.land devices AUDIO_DEVICE_OUT_SPEAKER_SAFE =? 0 then devices
        else Z.land (Z.lor devices AUDIO_DEVICE_OUT_SPEAKER)
               (Z.lnot AUDIO_DEVICE_OUT_SPEAKER_SAFE))
  /\ Z.land (getDevicesForStream m stream) AUDIO_DEVICE_OUT_SPEAKER_SAFE = 0.
Proof.
  intros strategyDevice activeDevices devices.
  assert (Hout : AUDIO_STREAM_PUBLIC_CNT <= stream_index stream ->
                 getDevicesForStream m stream = AUDIO_DEVICE_NONE).
  { intros Hge. unfold getDevicesForStream.
    apply Z.leb_le in Hge. rewrite Hge, orb_true_r. reflexivity. }
  assert (Hin : stream_index stream < AUDIO_STREAM_PUBLIC_CNT ->
      getDevicesForStream m stream
      = if Z.land devices AUDIO_DEVICE_OUT_SPEAKER_SAFE =? 0 then devices
        else Z.land (Z.lor devices AUDIO_DEVICE_OUT_SPEAKER)
               (Z.lnot AUDIO_DEVICE_OUT_SPEAKER_SAFE)).
  { intros Hlt. unfold getDevicesForStream.
    assert (H0 : (stream_index stream <? 0) = false)
      by (apply Z.ltb_ge; destruct stream; cbn; lia).
    assert (H1 : (AUDIO_STREAM_PUBLIC_CNT <=? stream_index stream) = false)
      by (apply Z.leb_gt; exact Hlt).
    rewrite H0, H1. cbn [orb].
    rewrite (fold_left_single _ stream policy_streams).
    - unfold streamsMatchForvolume.
      rewrite bool_decide_eq_true_2 by reflexivity. cbn [negb].
      fold strategyDevice. fold activeDevices.
      change (Z.lor AUDIO_DEVICE_NONE strategyDevice) with strategyDevice.
      subst devices. destruct (activeDevices =? AUDIO_DEVICE_NONE); cbn [negb];
        destruct (Z.land _ AUDIO_DEVICE_OUT_SPEAKER_SAFE =? 0); reflexivity.
    - apply policy_streams_NoDup.
    - apply public_stream_In. exact Hlt.
    - intros [a d] c Hne. unfold streamsMatchForvolume.
      rewrite bool_decide_eq_false_2 by congruence. reflexivity. }
  split; [exact Hout|]. split; [exact Hin|].
  destruct (Z_lt_le_dec (stream_index stream) AUDIO_STREAM_PUBLIC_CNT) as [Hlt|Hge].
  - rewrite (Hin Hlt).
    destruct (Z.land devices AUDIO_DEVICE_OUT_SPEAKER_SAFE =? 0) eqn:E.
    + apply Z.eqb_eq. exact E.
    + apply speaker_safe_cleared.
  - rewrite (Hout Hge). reflexivity.
Qed.

End DevicesForStream.

(** ** The beacon is muted once on every output *)

Section BeaconMute.
Context {FL : CFloat} {PH : PolicyHeader}.

Lemma update_output_handles m output f :
  (forall d, mIoHandle (f d) = mIoHandle d) ->
  List.map mIoHandle (mOutputs (update_output m output f))
  = List.map mIoHandle (mOutputs m).
Proof.
  intros Hf. unfold update_output. cbn [mOutputs set_mOutputs].
  rewrite List.map_map. apply List.map_ext. intros d.
  destruct (mIoHandle d =? output); [apply Hf|reflexivity].
Qed.

Lemma setStreamMute_handles m stream on output delayMs dev :
  List.map mIoHandle (mOutputs (setStreamMute m stream on output delayMs dev))
  = List.map mIoHandle (mOutputs m).
Proof.
  unfold setStreamMute. destruct (valueFor (mOutputs m) output) as [d|]; [|reflexivity].
  destruct on.
  - rewrite update_output_handles by reflexivity.
    repeat match goal with
           | |- context [if ?c then _ else _] => destruct c
           end; rewrite ?checkAndSetVolume_mOutputs; reflexivity.
  - destruct (mMuteCount d stream =? 0); [reflexivity|].
    destruct (mMuteCount d stream - 1 =? 0);
      rewrite ?checkAndSetVolume_mOutputs; apply update_output_handles; reflexivity.
Qed.

Lemma muteBeacon_positions mute : forall rest pre m maxLatency,
  List.map mIoHandle (mOutputs m) = pre ++ rest ->
  fst (List.fold_left (muteBeaconOnOutput mute) (seq (length pre) (length rest))
         (m, maxLatency))
  = List.fold_left
      (fun m h => setStreamMute m AUDIO_STREAM_TTS mute h 0 AUDIO_DEVICE_NONE)
      rest m.
Proof.
  induction rest as [|h rest IH]; intros pre m maxLatency Hh; [reflexivity|].
  cbn [length seq List.fold_left].
  assert (Hnth : exists desc, nth_error (mOutputs m) (length pre) = Some desc
                              /\ mIoHandle desc = h).
  { assert (H : nth_error (List.map mIoHandle (mOutputs m)) (length pre) = Some h).
    { rewrite Hh, nth_error_app2 by lia. rewrite Nat.sub_diag. reflexivity. }
    rewrite nth_error_map in H.
    destruct (nth_error (mOutputs m) (length pre)) as [desc|]; [|discriminate].
    injection H as H. eauto. }
  destruct Hnth as (desc & Hdesc & Hhandle).
  unfold muteBeaconOnOutput at 2. rewrite Hdesc, Hhandle.
  set (m1 := setStreamMute m AUDIO_STREAM_TTS mute h 0 AUDIO_DEVICE_NONE).
  assert (Hh1 : List.map mIoHandle (mOutputs m1) = (pre ++ [h]) ++ rest).
  { subst m1. rewrite setStreamMute_handles, Hh, <- app_assoc. reflexivity. }
  replace (S (length pre)) with (length (pre ++ [h]))
    by (rewrite length_app; cbn; lia).
  destruct (nth_error (mOutputs m1) (length pre)); apply IH; exact Hh1.
Qed.

Lemma muteBeacon_handles mute : forall hs m h d,
  NoDup hs ->
  valueFor (mOutputs m) h = Some d ->
  valueFor
    (mOutputs
       (List.fold_left
          (fun m h => setStreamMute m AUDIO_STREAM_TTS mute h 0 AUDIO_DEVICE_NONE)
          hs m)) h
  = Some (if bool_decide (h ∈ hs) then beaconMuted mute d else d).
Proof.
  induction hs as [|h0 hs IH]; intros m h d Hnd Hv; cbn [List.fold_left].
  - rewrite bool_decide_eq_false_2 by (apply not_elem_of_nil). exact Hv.
  - apply NoDup_cons in Hnd as [Hnotin Hnd].
    destruct (Z.eq_dec h h0) as [->|Hne].
    + rewrite (IH _ h0 (beaconMuted mute d) Hnd).
      * rewrite bool_decide_eq_false_2 by exact Hnotin.
        rewrite bool_decide_eq_true_2 by (apply elem_of_cons; left; reflexivity).
        reflexivity.
      * rewrite (setStreamMute_output m AUDIO_STREAM_TTS mute h0 0 AUDIO_DEVICE_NONE d Hv).
        unfold beaconMuted. reflexivity.
    + rewrite (IH _ h d Hnd).
      * destruct (bool_decide (h ∈ hs)) eqn:E.
        -- rewrite bool_decide_eq_true_2; [reflexivity|].
           apply elem_of_cons. right. apply bool_decide_eq_true in E. exact E.
        -- rewrite bool_decide_eq_false_2; [reflexivity|].
           apply bool_decide_eq_false in E. rewrite elem_of_cons. tauto.
      * rewrite setStreamMute_valueFor_other by congruence. exact Hv.
Qed.

Lemma muteBeacon_handles_list mute : forall hs m,
  List.map mIoHandle
    (mOutputs
       (List.fold_left
          (fun m h => setStreamMute m AUDIO_STREAM_TTS mute h 0 AUDIO_DEVICE_NONE)
          hs m))
  = List.map mIoHandle (mOutputs m).
Proof.
  induction hs as [|h hs IH]; intros m; cbn [List.fold_left]; [reflexivity|].
  rewrite IH. apply setStreamMute_handles.
Qed.

Lemma valueFor_elem_of outputs h d :
  valueFor outputs h = Some d -> h ∈ List.map mIoHandle outputs.
Proof.
  intros Hv. apply list_elem_of_In, in_map_iff. exists d.
  split; [apply (valueFor_handle _ _ _ Hv)|apply (valueFor_In _ _ _ Hv)].
Qed.

(** A toggling call of [setBeaconMute] mutes or unmutes the TTS stream type
    once on every output. *)
Lemma setBeaconMute_toggle s mute :
  handles_unique (bm_base s) ->
  mBeaconMuted s <> mute ->
  let s' := fst (setBeaconMute s mute) in
  mBeaconMuted s' = mute
  /\ mTtsOutputAvailable s' = mTtsOutputAvailable s
  /\ mBeaconMuteRefCount s' = mBeaconMuteRefCount s
  /\ mBeaconPlayingRefCount s' = mBeaconPlayingRefCount s
  /\ List.map mIoHandle (mOutputs (bm_base s'))
     = List.map mIoHandle (mOutputs (bm_base s))
  /\ forall h d,
       valueFor (mOutputs (bm_base s)) h = Some d ->
       valueFor (mOutputs (bm_base s')) h = Some (beaconMuted mute d).
Proof.
  intros Hnd Hne. unfold setBeaconMute.
  assert (E : Bool.eqb (mBeaconMuted s) mute = false)
    by (destruct (mBeaconMuted s), mute; cbn; congruence).
  rewrite E. cbn [negb].
  pose proof (muteBeacon_positions mute (List.map mIoHandle (mOutputs (bm_base s)))
                [] (bm_base s) 0 eq_refl) as Hfold.
  rewrite length_map in Hfold. cbn [length] in Hfold.
  destruct (List.fold_left _ _ _) as [m maxLatency]. cbn [fst] in *. subst m.
  cbn [mBeaconMuted mTtsOutputAvailable mBeaconMuteRefCount mBeaconPlayingRefCount
         bm_base set_mBeaconMuted set_bm_base].
  repeat split.
  - apply muteBeacon_handles_list.
  - intros h d Hv. rewrite (muteBeacon_handles mute _ _ h d Hnd Hv).
    rewrite bool_decide_eq_true_2 by (apply (valueFor_elem_of _ _ _ Hv)).
    reflexivity.
Qed.

Lemma setBeaconMute_same s mute :
  mBeaconMuted s = mute -> setBeaconMute s mute = (s, 0).
Proof.
  intros <-. unfold setBeaconMute. rewrite Bool.eqb_reflx. reflexivity.
Qed.

Lemma elem_of_valueFor outputs h :
  h ∈ List.map mIoHandle outputs -> is_Some (valueFor outputs h).
Proof.
  intros Hin. apply list_elem_of_In, in_map_iff in Hin as (d & Hh & Hd).
  unfold valueFor. destruct (List.find _ _) as [d'|] eqn:E; [eauto|].
  exfalso. apply (List.find_none _ _ E) in Hd. rewrite Hh, Z.eqb_refl in Hd.
  discriminate.
Qed.

(** The state between the update of the reference counts and the call of
    [setBeaconMute]. *)
Lemma handleEventForBeacon_unfold s event :
  mTtsOutputAvailable s = false ->
  exists s0,
    bm_base s0 = bm_base s
    /\ mBeaconMuted s0 = mBeaconMuted s
    /\ mTtsOutputAvailable s0 = false
    /\ handleEventForBeacon s event = setBeaconMute s0 (beacon_mute_wanted s0).
Proof.
  intros Htts. unfold handleEventForBeacon. rewrite Htts.
  match goal with
  | |- context [if 0 <? mBeaconMuteRefCount ?x then _ else _] => set (s0 := x)
  end.
  exists s0. split; [|split; [|split]].
  - subst s0. destruct event; cbn;
      repeat match goal with |- context [if ?c then _ else _] => destruct c end;
      reflexivity.
  - subst s0. destruct event; cbn;
      repeat match goal with |- context [if ?c then _ else _] => destruct c end;
      reflexivity.
  - subst s0. destruct event; cbn;
      repeat match goal with |- context [if ?c then _ else _] => destruct c end;
      exact Htts.
  - unfold beacon_mute_wanted. destruct (0 <? mBeaconMuteRefCount s0); reflexivity.
Qed.

Lemma handleEventForBeacon_step s event :
  mTtsOutputAvailable s = false ->
  handles_unique (bm_base s) ->
  beacon_accounted s ->
  let s1 := fst (handleEventForBeacon s event) in
  mTtsOutputAvailable s1 = false
  /\ handles_unique (bm_base s1)
  /\ beacon_accounted s1
  /\ mBeaconMuted s1 = beacon_mute_wanted s1
  /\ forall h d,
       valueFor (mOutputs (bm_base s)) h = Some d ->
       exists d',
         valueFor (mOutputs (bm_base s1)) h = Some d'
         /\ mMuteCount d' AUDIO_STREAM_TTS - Z.b2z (mBeaconMuted s1)
            = mMuteCount d AUDIO_STREAM_TTS - Z.b2z (mBeaconMuted s)
         /\ forall stream, stream <> AUDIO_STREAM_TTS ->
                           mMuteCount d' stream = mMuteCount d stream.
Proof.
  intros Htts Hnd Hacc.
  destruct (handleEventForBeacon_unfold s event Htts) as (s0 & Hbase & Hmuted & Htts0 & ->).
  destruct (bool_decide (mBeaconMuted s0 = beacon_mute_wanted s0)) eqn:E.
  - apply bool_decide_eq_true in E. rewrite (setBeaconMute_same s0 _ E). cbn [fst].
    split; [exact Htts0|]. split; [rewrite Hbase; exact Hnd|].
    split; [|split; [exact E|]].
    + intros h d Hv. rewrite Hmuted. rewrite Hbase in Hv. apply (Hacc h d Hv).
    + intros h d Hv. exists d. rewrite Hbase, Hmuted. repeat split. exact Hv.
  - apply bool_decide_eq_false in E.
    assert (Hnd0 : handles_unique (bm_base s0)) by (rewrite Hbase; exact Hnd).
    destruct (setBeaconMute_toggle s0 (beacon_mute_wanted s0) Hnd0 E)
      as (Hm & Ht & Hr & Hp & Hh & Hv').
    cbn zeta in *.
    set (s1 := fst (setBeaconMute s0 (beacon_mute_wanted s0))) in *.
    assert (Hcount : forall d, Z.b2z (mBeaconMuted s) <= mMuteCount d AUDIO_STREAM_TTS ->
              mMuteCount (beaconMuted (beacon_mute_wanted s0) d) AUDIO_STREAM_TTS
              - Z.b2z (beacon_mute_wanted s0)
              = mMuteCount d AUDIO_STREAM_TTS - Z.b2z (mBeaconMuted s)
              /\ forall stream, stream <> AUDIO_STREAM_TTS ->
                   mMuteCount (beaconMuted (beacon_mute_wanted s0) d) stream
                   = mMuteCount d stream).
    { intros d Hd. rewrite <- Hmuted in *. unfold beaconMuted.
      destruct (beacon_mute_wanted s0), (mBeaconMuted s0); try congruence;
        cbn [Z.b2z] in *.
      - cbn [mMuteCount set_mMuteCount]. rewrite array_set_same. split; [lia|].
        intros stream Hs. apply array_set_other. exact Hs.
      - destruct (mMuteCount d AUDIO_STREAM_TTS =? 0) eqn:E0; [zbool; lia|].
        cbn [mMuteCount set_mMuteCount]. rewrite array_set_same. split; [lia|].
        intros stream Hs. apply array_set_other. exact Hs. }
    split; [congruence|]. split; [unfold handles_unique; rewrite Hh, Hbase; exact Hnd|].
    split; [|split].
    + intros h d' Hd'.
      assert (Hin : h ∈ List.map mIoHandle (mOutputs (bm_base s)))
        by (rewrite <- Hbase, <- Hh; apply (valueFor_elem_of _ _ _ Hd')).
      destruct (elem_of_valueFor _ _ Hin) as [d Hd].
      rewrite <- Hbase in Hd. rewrite (Hv' h d Hd) in Hd'. injection Hd' as <-.
      rewrite Hbase in Hd. destruct (Hcount d (Hacc h d Hd)) as [Hc _].
      rewrite Hm. pose proof (Hacc h d Hd).
      destruct (mBeaconMuted s), (beacon_mute_wanted s0); cbn [Z.b2z] in *; lia.
    + rewrite Hm. unfold beacon_mute_wanted. rewrite Hr, Hp. reflexivity.
    + intros h d Hd. exists (beaconMuted (beacon_mute_wanted s0) d).
      split; [apply Hv'; rewrite Hbase; exact Hd|].
      rewrite Hm. apply Hcount. apply (Hacc h d Hd).
Qed.

(** X5.  Without a dedicated TTS output, after any run of beacon events on a
    manager whose outputs have distinct handles, the mute of the beacon is
    counted exactly once in the mute counter of the TTS stream type of every
    output while the beacon is muted, and not at all otherwise; the counters
    of the other stream types are as before.  After the last event of a run
    the beacon is muted exactly when some other playback is counted or no
    beacon is playing. *)
Theorem handleEventForBeacon_mutes_tts_once
    (s : BeaconManager) (events : list beacon_event) :
  mTtsOutputAvailable s = false ->
  handles_unique (bm_base s) ->
  beacon_accounted s ->
  let s' := beacon_run s events in
  (events <> [] -> mBeaconMuted s' = beacon_mute_wanted s')
  /\ forall h d,
       valueFor (mOutputs (bm_base s)) h = Some d ->
       exists d',
         valueFor (mOutputs (bm_base s')) h = Some d'
         /\ mMuteCount d' AUDIO_STREAM_TTS - Z.b2z (mBeaconMuted s')
            = mMuteCount d AUDIO_STREAM_TTS - Z.b2z (mBeaconMuted s)
         /\ forall stream, stream <> AUDIO_STREAM_TTS ->
                           mMuteCount d' stream = mMuteCount d stream.
Proof.
  revert s. unfold beacon_run.
  induction events as [|event events IH]; intros s Htts Hnd Hacc; cbn [List.fold_left].
  - split; [congruence|]. intros h d Hd. exists d. repeat split. exact Hd.
  - destruct (handleEventForBeacon_step s event Htts Hnd Hacc)
      as (Htts1 & Hnd1 & Hacc1 & Hwanted & Hstep).
    cbn zeta in *. set (s1 := fst (handleEventForBeacon s event)) in *.
    destruct (IH s1 Htts1 Hnd1 Hacc1) as (Hlast & Hrun). split.
    + intros _. destruct events as [|e events]; [exact Hwanted|].
      apply Hlast. discriminate.
    + intros h d Hd. destruct (Hstep h d Hd) as (d1 & Hd1 & Hc1 & Ho1).
      destruct (Hrun h d1 Hd1) as (d' & Hd' & Hc' & Ho').
      exists d'. split; [exact Hd'|]. split; [lia|].
      intros stream Hs. rewrite (Ho' stream Hs). apply Ho1. exact Hs.
Qed.

End BeaconMute.

(** ** Closing every input *)

Section CloseAllInputs.
Context {FL : CFloat} {PH : PolicyHeader}.

Lemma closed_inputs_app evs evs' :
  closed_inputs (evs ++ evs') = closed_inputs evs ++ closed_inputs evs'.
Proof. apply List.flat_map_app. Qed.

Lemma released_patches_app evs evs' :
  released_patches (evs ++ evs') = released_patches evs ++ released_patches evs'.
Proof. apply List.flat_map_app. Qed.

Lemma size_delete_present (patches : gmap Z AudioPatch) key patchDesc :
  patches !! key = Some patchDesc ->
  S (size (delete key patches)) = size patches.
Proof.
  intros Hk. rewrite map_size_delete, Hk. cbn.
  assert (size patches <> 0%nat).
  { intros H0. apply map_size_empty_iff in H0. subst patches.
    rewrite lookup_empty in Hk. discriminate. }
  lia.
Qed.

(** The loop of [closeAllInputs]. *)
Lemma closeOneInput_fold : forall inputs m patchRemoved,
  let r := List.fold_left closeOneInput inputs (m, patchRemoved) in
  mAudioPatches (fst r)
  = List.fold_left (fun patches d => delete (in_mPatchHandle d) patches) inputs
      (mAudioPatches m)
  /\ mOutputs (fst r) = mOutputs m
  /\ mInputs (fst r) = mInputs m
  /\ closed_inputs (mTrace (fst r))
     = closed_inputs (mTrace m) ++ List.map in_mIoHandle inputs
  /\ (length (released_patches (mTrace (fst r))) + size (mAudioPatches (fst r))
      = length (released_patches (mTrace m)) + size (mAudioPatches m))%nat.
Proof.
  induction inputs as [|d inputs IH]; intros m patchRemoved; cbn zeta.
  - cbn. rewrite app_nil_r. repeat split.
  - cbn [List.fold_left List.map].
    unfold closeOneInput at 2 4 6 8 10 12. unfold indexOfKey.
    destruct (mAudioPatches m !! in_mPatchHandle d) as [patchDesc|] eqn:Hk.
    + match goal with
      | |- context [List.fold_left closeOneInput inputs (?m1, ?b)] =>
          destruct (IH m1 b) as (Hp & Ho & Hi & Hc & Hr)
      end.
      cbn zeta in *.
      cbn [mAudioPatches mOutputs mInputs mTrace emit set_mTrace set_mAudioPatches]
        in Hp, Ho, Hi, Hc, Hr |- *.
      rewrite !closed_inputs_app in Hc. rewrite !released_patches_app, !length_app in Hr.
      cbn in Hc, Hr. rewrite app_nil_r, <- app_assoc in Hc.
      pose proof (size_delete_present _ _ _ Hk).
      refine (conj Hp (conj Ho (conj Hi (conj Hc _)))). lia.
    + match goal with
      | |- context [List.fold_left closeOneInput inputs (?m1, ?b)] =>
          destruct (IH m1 b) as (Hp & Ho & Hi & Hc & Hr)
      end.
      cbn zeta in *.
      cbn [mAudioPatches mOutputs mInputs mTrace emit set_mTrace set_mAudioPatches]
        in Hp, Ho, Hi, Hc, Hr |- *.
      rewrite !closed_inputs_app in Hc. cbn in Hc.
      rewrite <- app_assoc in Hc.
      rewrite (delete_id _ _ Hk).
      refine (conj Hp (conj Ho (conj Hi (conj Hc _)))).
      rewrite Hr, !released_patches_app, !length_app. cbn. lia.
Qed.

Lemma fold_delete_lookup (inputs : list AudioInputDescriptor) :
  forall (patches : gmap Z AudioPatch) key,
    List.fold_left (fun patches d => delete (in_mPatchHandle d) patches) inputs patches
    !! key
    = if bool_decide (key ∈ List.map in_mPatchHandle inputs) then None
      else patches !! key.
Proof.
  induction inputs as [|d inputs IH]; intros patches key; cbn [List.fold_left List.map].
  - rewrite bool_decide_eq_false_2 by apply not_elem_of_nil. reflexivity.
  - rewrite IH. destruct (bool_decide (key ∈ List.map in_mPatchHandle inputs)) eqn:E.
    + rewrite bool_decide_eq_true_2; [reflexivity|].
      apply elem_of_cons. right. apply bool_decide_eq_true in E. exact E.
    + apply bool_decide_eq_false in E.
      destruct (Z.eq_dec key (in_mPatchHandle d)) as [->|Hne].
      * rewrite lookup_delete_eq.
        rewrite bool_decide_eq_true_2; [reflexivity|]. apply elem_of_cons. auto.
      * rewrite lookup_delete_ne by congruence.
        rewrite bool_decide_eq_false_2; [reflexivity|].
        rewrite elem_of_cons. tauto.
Qed.

(** X6.  [closeAllInputs] leaves no input registered and no patch record
    under the handle of any input, keeps every other patch record and the
    outputs as they were, closes each input once, in registry order, and
    asks the transport for one release per record it removes. *)
Theorem closeAllInputs_clears_inputs_and_patches (m : AudioPolicyManager) :
  let m' := closeAllInputs m in
  mInputs m' = []
  /\ mOutputs m' = mOutputs m
  /\ (forall key,
        mAudioPatches m' !! key
        = if bool_decide (key ∈ List.map in_mPatchHandle (mInputs m)) then None
          else mAudioPatches m !! key)
  /\ closed_inputs (mTrace m')
     = closed_inputs (mTrace m) ++ List.map in_mIoHandle (mInputs m)
  /\ (length (released_patches (mTrace m')) + size (mAudioPatches m')
      = length (released_patches (mTrace m)) + size (mAudioPatches m))%nat.
Proof.
  cbn zeta. unfold closeAllInputs.
  destruct (closeOneInput_fold (mInputs m) m false) as (Hp & Ho & Hi & Hc & Hr).
  cbn zeta in *.
  destruct (List.fold_left closeOneInput (mInputs m) (m, false)) as [m1 patchRemoved].
  cbn [fst] in *.
  assert (Hlookup : forall key,
            mAudioPatches m1 !! key
            = if bool_decide (key ∈ List.map in_mPatchHandle (mInputs m)) then None
              else mAudioPatches m !! key)
    by (intros key; rewrite Hp; apply fold_delete_lookup).
  destruct patchRemoved;
    cbn [mInputs mOutputs mAudioPatches mTrace emit set_mTrace set_mInputs
           nextAudioPortGeneration set_mAudioPortGeneration];
    rewrite ?closed_inputs_app, ?released_patches_app, ?length_app; cbn;
    rewrite ?app_nil_r, ?Nat.add_0_r; repeat split; assumption.
Qed.

End CloseAllInputs.

(** ** Routing an input *)

Section InputRouting.
Context {FL : CFloat} {PH : PolicyHeader}.

Lemma installPatch_at_registries m index patchHandle patch delayMs uid :
  mInputs (fst (installPatch_at m index patchHandle patch delayMs uid)) = mInputs m
  /\ mOutputs (fst (installPatch_at m index patchHandle patch delayMs uid)) = mOutputs m.
Proof.
  unfold installPatch_at.
  destruct (createAudioPatch_answer _ _ _ _ _) as [status af'].
  destruct (status =? NO_ERROR); [|split; reflexivity].
  destruct index as [[key patchDesc]|]; cbn; [split; reflexivity|].
  unfold addAudioPatch. cbn.
  destruct (mAudioPatches m !! mNextPatchHandle m); split; reflexivity.
Qed.

(** [installPatch] on an input changes, in the registries, the patch handle
    of that input at most. *)
Lemma installPatch_input_registries m patchHandle input patch delayMs d :
  inputFor (mInputs m) input = Some d ->
  let m' := fst (installPatch m patchHandle (InputRef input) patch delayMs) in
  mOutputs m' = mOutputs m
  /\ exists handle,
       inputFor (mInputs m') input = Some (set_in_mPatchHandle d handle).
Proof.
  intros Hd. cbn zeta. unfold installPatch.
  match goal with
  | |- context [installPatch_at m ?i ?p ?q ?r ?u] =>
      destruct (installPatch_at_registries m i p q r u) as [Hi Ho];
      destruct (installPatch_at m i p q r u) as [m1 r1]
  end.
  cbn [fst] in *.
  assert (Hsame : mOutputs m1 = mOutputs m
                  /\ exists handle,
                       inputFor (mInputs m1) input = Some (set_in_mPatchHandle d handle)).
  { split; [exact Ho|]. exists (in_mPatchHandle d). rewrite Hi, Hd.
    destruct d; reflexivity. }
  destruct (ir_status r1 =? NO_ERROR); [|exact Hsame].
  destruct (ir_patchDesc r1) as [patchDesc|]; [|exact Hsame].
  cbn [fst setPatchHandle]. unfold update_input. cbn [mOutputs mInputs set_mInputs].
  split; [exact Ho|]. exists (mHandle patchDesc).
  rewrite Hi. apply (inputFor_map_same (fun d => set_in_mPatchHandle d (mHandle patchDesc)));
    [reflexivity|exact Hd].
Qed.

(** X7.  On a registered input, [setInputDevice] does nothing and returns
    [NO_ERROR] when the device is [AUDIO_DEVICE_NONE], or is the current
    device of the input and the call is not forced.  Otherwise it stores the
    device in the input before anything else: the device is stored also when
    no available device matches, in which case no patch is asked for and the
    status is [NO_ERROR], and when the transport refuses the patch.  The
    outputs are never touched. *)
Theorem setInputDevice_stores_device
    (m : AudioPolicyManager) (input : audio_io_handle_t) (dev : audio_devices_t)
    (force : bool) (patchHandle : option audio_patch_handle_t)
    (inputDesc : AudioInputDescriptor) :
  inputFor (mInputs m) input = Some inputDesc ->
  let routed :=
    negb (dev =? AUDIO_DEVICE_NONE)
    && (negb (dev =? in_mDevice inputDesc) || force) in
  exists m' status,
    setInputDevice m input dev force patchHandle = Some (m', status)
    /\ (routed = false -> m' = m /\ status = NO_ERROR)
    /\ mOutputs m' = mOutputs m
    /\ (exists inputDesc',
          inputFor (mInputs m') input = Some inputDesc'
          /\ in_mDevice inputDesc' = (if routed then dev else in_mDevice inputDesc))
    /\ (getDevicesFromTypeMask (mAvailableInputDevices m) dev = [] ->
        mAudioPatches m' = mAudioPatches m /\ mTrace m' = mTrace m
        /\ status = NO_ERROR).
Proof.
  intros Hd routed. unfold setInputDevice. rewrite Hd. fold routed.
  destruct routed eqn:Hr.
  - set (m1 := update_input m input (fun d => set_in_mDevice d dev)).
    assert (Hd1 : inputFor (mInputs m1) input = Some (set_in_mDevice inputDesc dev)).
    { subst m1. unfold update_input. cbn [mInputs set_mInputs].
      apply (inputFor_map_same (fun d => set_in_mDevice d dev)); [reflexivity|exact Hd]. }
    change (mAvailableInputDevices m1) with (mAvailableInputDevices m).
    destruct (getDevicesFromTypeMask (mAvailableInputDevices m) dev) as [|first rest].
    + exists m1, NO_ERROR. split; [reflexivity|]. split; [discriminate|].
      split; [reflexivity|]. split; [eauto|]. intros _. repeat split.
    + match goal with
      | |- context [installPatch m1 ?p ?io ?patch ?delay] =>
          destruct (installPatch_input_registries m1 p input patch delay _ Hd1)
            as (Ho & handle & Hd');
          destruct (installPatch m1 p io patch delay) as [m2 r]
      end.
      cbn [fst] in *. exists m2, (ir_status r).
      split; [reflexivity|]. split; [discriminate|].
      split; [rewrite Ho; reflexivity|].
      split; [|discriminate].
      eexists. split; [exact Hd'|]. reflexivity.
  - exists m, NO_ERROR. split; [reflexivity|]. split; [auto|].
    split; [reflexivity|]. split; [eauto|]. intros _. repeat split.
Qed.

(** X8.  Routing an input that has no patch and releasing the route again
    is a round trip on the patch collection: when the transport accepts the
    patch, [setInputDevice] records it under the handle drawn from the
    generator and attaches the input to it, and [resetInputDevice] then
    removes that record and clears the handle of the input, leaving the
    collection as it was before the two calls. *)
Theorem setInputDevice_reset_round_trip
    (m : AudioPolicyManager) (input : audio_io_handle_t) (dev : audio_devices_t)
    (force : bool) (inputDesc : AudioInputDescriptor)
    (first : DeviceDescriptor) (rest : list DeviceDescriptor) :
  inputFor (mInputs m) input = Some inputDesc ->
  in_mPatchHandle inputDesc = AUDIO_PATCH_HANDLE_NONE ->
  patches_wf m ->
  dev <> AUDIO_DEVICE_NONE ->
  dev <> in_mDevice inputDesc \/ force = true ->
  getDevicesFromTypeMask (mAvailableInputDevices m) dev = first :: rest ->
  let patch := mkPatch [devicePort first] [MixPort (in_mModuleHandle inputDesc) input] in
  fst (createAudioPatch_answer (mpClientInterface m) (mTrace m) patch
         AUDIO_PATCH_HANDLE_NONE 0) = NO_ERROR ->
  exists m1,
    setInputDevice m input dev force None = Some (m1, NO_ERROR)
    /\ getPatchHandle m1 (InputRef input) = mNextPatchHandle m
    /\ (exists patchDesc,
          mAudioPatches m1 !! mNextPatchHandle m = Some patchDesc
          /\ mPatch patchDesc = patch /\ mUid patchDesc = mUidCached m)
    /\ size (mAudioPatches m1) = S (size (mAudioPatches m))
    /\ let m2 := fst (resetInputDevice m1 input None) in
       mAudioPatches m2 = mAudioPatches m
       /\ getPatchHandle m2 (InputRef input) = AUDIO_PATCH_HANDLE_NONE
       /\ released_patches (mTrace m2)
          = released_patches (mTrace m)
            ++ [snd (createAudioPatch_answer (mpClientInterface m) (mTrace m) patch
                       AUDIO_PATCH_HANDLE_NONE 0)].
Proof.
  intros Hd Hnone Hwf Hdev Hchange Hlist patch Hok.
  assert (Hzero : mAudioPatches m !! AUDIO_PATCH_HANDLE_NONE = None).
  { destruct (mAudioPatches m !! AUDIO_PATCH_HANDLE_NONE) as [p|] eqn:E; [|reflexivity].
    destruct (Hwf _ _ E) as [_ Hlt]. unfold AUDIO_PATCH_HANDLE_NONE in Hlt. lia. }
  assert (Hfresh : mAudioPatches m !! mNextPatchHandle m = None).
  { destruct (mAudioPatches m !! mNextPatchHandle m) as [p|] eqn:E; [|reflexivity].
    destruct (Hwf _ _ E) as [_ Hlt]. lia. }
  unfold setInputDevice. rewrite Hd.
  assert (Hgo : negb (dev =? AUDIO_DEVICE_NONE)
                && (negb (dev =? in_mDevice inputDesc) || force) = true).
  { apply Z.eqb_neq in Hdev. rewrite Hdev. cbn [negb andb].
    destruct Hchange as [Hc| ->]; [|apply orb_true_r].
    apply Z.eqb_neq in Hc. rewrite Hc. reflexivity. }
  rewrite Hgo.
  set (m0 := update_input m input (fun d => set_in_mDevice d dev)).
  change (mAvailableInputDevices m0) with (mAvailableInputDevices m). rewrite Hlist.
  fold patch.
  assert (Hd0 : inputFor (mInputs m0) input = Some (set_in_mDevice inputDesc dev)).
  { subst m0. unfold update_input. cbn [mInputs set_mInputs].
    apply (inputFor_map_same (fun d => set_in_mDevice d dev)); [reflexivity|exact Hd]. }
  assert (Hkey : install_key m0 None (InputRef input) = AUDIO_PATCH_HANDLE_NONE).
  { unfold install_key, getPatchHandle. rewrite Hd0. exact Hnone. }
  assert (Hanswer : install_answer m0 None (InputRef input) patch 0
                    = createAudioPatch_answer (mpClientInterface m) (mTrace m) patch
                        AUDIO_PATCH_HANDLE_NONE 0).
  { unfold install_answer. rewrite Hkey.
    change (mAudioPatches m0) with (mAudioPatches m). rewrite Hzero. reflexivity. }
  pose proof (installPatch_create m0 None (InputRef input) patch 0) as Hcreate.
  rewrite Hanswer, Hkey in Hcreate. specialize (Hcreate Hok Hzero Hfresh).
  cbn zeta in Hcreate. rewrite Hcreate.
  set (fresh := mkAudioPatch (mNextPatchHandle m0) patch (mUidCached m0)
                  (snd (createAudioPatch_answer (mpClientInterface m) (mTrace m) patch
                          AUDIO_PATCH_HANDLE_NONE 0))) in *.
  match goal with
  | |- exists m1, Some (?x, _) = _ /\ _ => exists x; set (m1 := x)
  end.
  cbn [ir_status].
  assert (Hreg : io_registered m0 (InputRef input))
    by (unfold io_registered; rewrite Hd0; eauto).
  assert (Hhandle : getPatchHandle m1 (InputRef input) = mNextPatchHandle m).
  { subst m1. apply getPatchHandle_setPatchHandle. exact Hreg. }
  assert (Hpatches : mAudioPatches m1 = <[mNextPatchHandle m := fresh]> (mAudioPatches m)).
  { subst m1. rewrite setPatchHandle_mAudioPatches. reflexivity. }
  split; [reflexivity|]. split; [exact Hhandle|].
  split.
  { exists fresh. rewrite Hpatches, lookup_insert_eq. repeat split. }
  split; [rewrite Hpatches; apply map_size_insert_None; exact Hfresh|].
  cbn zeta. rewrite resetInputDevice_unfold. unfold reset_key.
  rewrite Hhandle, Hpatches, lookup_insert_eq. cbn [fst].
  change (mHandle fresh) with (mNextPatchHandle m).
  split; [|split].
  - cbn [mAudioPatches emit set_mTrace nextAudioPortGeneration set_mAudioPortGeneration
           removeAudioPatch set_mAudioPatches].
    rewrite setPatchHandle_mAudioPatches.
    cbn [mAudioPatches emit set_mTrace]. rewrite Hpatches.
    apply delete_insert_id. exact Hfresh.
  - unfold getPatchHandle.
    cbn [mInputs emit set_mTrace nextAudioPortGeneration set_mAudioPortGeneration
           removeAudioPatch set_mAudioPatches].
    apply (getPatchHandle_cleared _ (InputRef input)).
  - cbn [mTrace emit set_mTrace nextAudioPortGeneration set_mAudioPortGeneration
           removeAudioPatch set_mAudioPatches].
    rewrite setPatchHandle_mTrace. cbn [mTrace emit set_mTrace].
    subst m1. rewrite setPatchHandle_mTrace.
    cbn [mTrace emit set_mTrace nextAudioPortGeneration set_mAudioPortGeneration
           set_mAudioPatches set_mNextPatchHandle].
    rewrite !released_patches_app. cbn. rewrite !app_nil_r. reflexivity.
Qed.

End InputRouting.

(** ** What the mute sequencing leaves untouched *)

Section PatchCore.
Context {FL : CFloat} {PH : PolicyHeader}.

Lemma patch_core_emit m e :
  is_patch_event e = false -> patch_core (emit m e) = patch_core m.
Proof.
  intros He. unfold patch_core, emit. cbn.
  rewrite List.filter_app. cbn. rewrite He, app_nil_r. reflexivity.
Qed.

Lemma patch_core_update_output m h f :
  (forall d, erase_mute (f d) = erase_mute d) ->
  patch_core (update_output m h f) = patch_core m.
Proof.
  intros Hf. unfold patch_core, update_output. cbn.
  f_equal. rewrite List.map_map. apply List.map_ext.
  intros d. destruct (mIoHandle d =? h); [apply Hf|reflexivity].
Qed.

Lemma patch_core_set_mLastVoiceVolume m v :
  patch_core (set_mLastVoiceVolume m v) = patch_core m.
Proof. reflexivity. Qed.

Lemma checkAndSetVolume_patch_core m stream index output dev delayMs force :
  patch_core (fst (checkAndSetVolume m stream index output dev delayMs force))
  = patch_core m.
Proof.
  unfold checkAndSetVolume.
  destruct (valueFor (mOutputs m) output) as [d|]; [|reflexivity].
  destruct (negb (mMuteCount d stream =? 0)); [reflexivity|].
  match goal with |- context [if ?c then (m, INVALID_OPERATION) else _] => destruct c end;
    [reflexivity|].
  cbn [fst].
  destruct (is_voice_stream stream); [|apply patch_core_emit; reflexivity].
  match goal with |- context [if ?c then _ else _] => destruct c end.
  - rewrite patch_core_set_mLastVoiceVolume.
    rewrite !patch_core_emit by reflexivity. reflexivity.
  - apply patch_core_emit. reflexivity.
Qed.

Lemma applyStreamVolumes_patch_core m output dev delayMs force :
  patch_core (applyStreamVolumes m output dev delayMs force) = patch_core m.
Proof.
  unfold applyStreamVolumes. apply fold_left_invariant.
  intros a b. apply checkAndSetVolume_patch_core.
Qed.

Lemma setStreamMute_patch_core m stream on output delayMs dev :
  patch_core (setStreamMute m stream on output delayMs dev) = patch_core m.
Proof.
  unfold setStreamMute.
  destruct (valueFor (mOutputs m) output) as [d|]; [|reflexivity].
  destruct on.
  - rewrite patch_core_update_output by reflexivity.
    destruct (mMuteCount d stream =? 0); [|reflexivity].
    match goal with |- context [if ?c then _ else m] => destruct c end;
      [apply checkAndSetVolume_patch_core|reflexivity].
  - destruct (mMuteCount d stream =? 0); [reflexivity|].
    destruct (mMuteCount d stream - 1 =? 0).
    + rewrite checkAndSetVolume_patch_core. apply patch_core_update_output. reflexivity.
    + apply patch_core_update_output. reflexivity.
Qed.

Lemma setStrategyMute_patch_core m strategy on output delayMs dev :
  patch_core (setStrategyMute m strategy on output delayMs dev) = patch_core m.
Proof.
  unfold setStrategyMute. apply fold_left_invariant.
  intros a b. destruct (bool_decide _); [apply setStreamMute_patch_core|reflexivity].
Qed.

Lemma informInputs_patch_core m dev delayMs :
  patch_core (informInputs m dev delayMs) = patch_core m.
Proof.
  unfold informInputs. generalize (mInputs m). intros l. revert m.
  induction l as [|i l IH]; intros m; [reflexivity|].
  cbn. rewrite IH. destruct (negb _); [apply patch_core_emit|]; reflexivity.
Qed.

Lemma muteStrategyOnOutput_patch_core output i mute delayMs acc j :
  patch_core (fst (muteStrategyOnOutput output i mute delayMs acc j))
  = patch_core (fst acc).
Proof.
  unfold muteStrategyOnOutput. destruct acc as [m w].
  destruct (nth_error (mOutputs m) j) as [desc|]; [|reflexivity].
  destruct (valueFor (mOutputs m) output) as [outputDesc|]; [|reflexivity].
  destruct (_ =? AUDIO_DEVICE_NONE); [reflexivity|].
  destruct (nth_error _ j) as [desc1|].
  - match goal with |- context [if ?c then _ else _] => destruct c end;
      cbn [fst]; apply setStrategyMute_patch_core.
  - cbn [fst]. apply setStrategyMute_patch_core.
Qed.

Lemma muteStrategyByDevice_patch_core output dev shouldMute delayMs acc i :
  patch_core (fst (muteStrategyByDevice output dev shouldMute delayMs acc i))
  = patch_core (fst acc).
Proof.
  unfold muteStrategyByDevice. destruct acc as [m w].
  destruct (valueFor (mOutputs m) output) as [outputDesc|]; [|reflexivity].
  match goal with |- context [if ?c then (true, _) else _] => destruct c end;
    cbv beta iota zeta.
  - rewrite (fold_left_invariant (fun acc => patch_core (fst acc)))
      by (intros; apply muteStrategyOnOutput_patch_core).
    cbn [fst]. apply patch_core_update_output. reflexivity.
  - match goal with |- context [if ?c then (true, _) else _] => destruct c end;
      cbv beta iota zeta; [|reflexivity].
    rewrite (fold_left_invariant (fun acc => patch_core (fst acc)))
      by (intros; apply muteStrategyOnOutput_patch_core).
    cbn [fst]. apply patch_core_update_output. reflexivity.
Qed.

Lemma tempMuteStrategy_patch_core output dev delayMs duration m i :
  patch_core (tempMuteStrategy output dev delayMs duration m i) = patch_core m.
Proof.
  unfold tempMuteStrategy.
  destruct (valueFor (mOutputs m) output) as [outputDesc|]; [|reflexivity].
  destruct (isStrategyActive m outputDesc i); [|reflexivity].
  rewrite !setStrategyMute_patch_core. reflexivity.
Qed.

Lemma checkDeviceMuteStrategies_patch_core m output prevDevice delayMs :
  patch_core (fst (checkDeviceMuteStrategies m output prevDevice delayMs))
  = patch_core m.
Proof.
  unfold checkDeviceMuteStrategies.
  destruct (valueFor (mOutputs m) output) as [outputDesc|]; [|reflexivity].
  destruct (isDuplicated outputDesc); [reflexivity|].
  match goal with |- context [List.fold_left ?f all_strategies (m, 0)] =>
    pose proof (fold_left_invariant (fun acc => patch_core (fst acc)) f all_strategies
                  (fun a b => muteStrategyByDevice_patch_core _ _ _ _ a b) (m, 0)) as H1;
    destruct (List.fold_left f all_strategies (m, 0)) as [m1 w1] end.
  cbn [fst] in H1.
  assert (H2 : forall dur, patch_core
            (List.fold_left (tempMuteStrategy output (device m outputDesc) delayMs dur)
               all_strategies m1) = patch_core m).
  { intros dur. rewrite (fold_left_invariant patch_core)
      by (intros; apply tempMuteStrategy_patch_core). exact H1. }
  destruct (valueFor (mOutputs m1) output) as [outputDesc1|].
  - destruct (isActive outputDesc1 && negb (device m outputDesc =? prevDevice)).
    + match goal with |- context [if ?c then _ else _] => destruct c end;
        cbn [fst]; rewrite ?patch_core_emit by reflexivity; apply H2.
    + destruct (delayMs <? w1); cbn [fst]; rewrite ?patch_core_emit by reflexivity;
        exact H1.
  - destruct (delayMs <? w1); cbn [fst]; rewrite ?patch_core_emit by reflexivity;
      exact H1.
Qed.

(** What can be read through the core. *)
Lemma patch_core_mAudioPatches m m' :
  patch_core m' = patch_core m -> mAudioPatches m' = mAudioPatches m.
Proof. intros H. apply (f_equal mAudioPatches) in H. exact H. Qed.

Lemma patch_core_mNextPatchHandle m m' :
  patch_core m' = patch_core m -> mNextPatchHandle m' = mNextPatchHandle m.
Proof. intros H. apply (f_equal mNextPatchHandle) in H. exact H. Qed.

Lemma patch_core_mInputs m m' :
  patch_core m' = patch_core m -> mInputs m' = mInputs m.
Proof. intros H. apply (f_equal mInputs) in H. exact H. Qed.

Lemma patch_core_patch_events m m' :
  patch_core m' = patch_core m ->
  List.filter is_patch_event (mTrace m') = List.filter is_patch_event (mTrace m).
Proof. intros H. apply (f_equal mTrace) in H. exact H. Qed.

Lemma valueFor_erase_mute outputs h :
  valueFor (List.map erase_mute outputs) h
  = option_map erase_mute (valueFor outputs h).
Proof.
  unfold valueFor. induction outputs as [|x xs IH]; [reflexivity|].
  cbn. destruct (mIoHandle x =? h); [reflexivity|exact IH].
Qed.

Lemma patch_core_valueFor m m' h :
  patch_core m' = patch_core m ->
  option_map erase_mute (valueFor (mOutputs m') h)
  = option_map erase_mute (valueFor (mOutputs m) h).
Proof.
  intros Hc. apply (f_equal mOutputs) in Hc. cbn in Hc.
  rewrite <- !valueFor_erase_mute, Hc. reflexivity.
Qed.

Lemma patch_core_getPatchHandle m m' io :
  patch_core m' = patch_core m -> getPatchHandle m' io = getPatchHandle m io.
Proof.
  intros Hc. destruct io as [h|h]; cbn.
  - pose proof (patch_core_valueFor m m' h Hc) as Hv.
    destruct (valueFor (mOutputs m') h) as [d'|], (valueFor (mOutputs m) h) as [d|];
      cbn in Hv; try congruence.
    assert (He : erase_mute d' = erase_mute d) by congruence.
    apply (f_equal mPatchHandle) in He. exact He.
  - rewrite (patch_core_mInputs m m' Hc). reflexivity.
Qed.

Lemma created_patches_filter evs :
  created_patches (List.filter is_patch_event evs) = created_patches evs.
Proof.
  unfold created_patches.
  induction evs as [|e evs IH]; [reflexivity|].
  cbn [List.filter]. destruct e; cbn; rewrite ?IH; reflexivity.
Qed.

Lemma released_patches_filter evs :
  released_patches (List.filter is_patch_event evs) = released_patches evs.
Proof.
  unfold released_patches.
  induction evs as [|e evs IH]; [reflexivity|].
  cbn [List.filter]. destruct e; cbn; rewrite ?IH; reflexivity.
Qed.

(** X12.  The mute and volume operations change nothing but the mute
    counters and mute flags of the outputs, the last voice volume sent and the
    part of the trace that does not concern patches: the devices, patch
    handles and clients of the outputs, the inputs, the patch collection and
    its handle generator stay as they are, and the transport is asked for no
    patch operation. *)
Theorem mute_and_volume_keep_patch_core
    (m : AudioPolicyManager) (stream : audio_stream_type_t)
    (strategy : routing_strategy) (on : bool) (output : audio_io_handle_t)
    (dev prevDevice : audio_devices_t) (delayMs : Z) (force : bool) :
  patch_core (setStreamMute m stream on output delayMs dev) = patch_core m
  /\ patch_core (setStrategyMute m strategy on output delayMs dev) = patch_core m
  /\ patch_core (applyStreamVolumes m output dev delayMs force) = patch_core m
  /\ patch_core (fst (checkDeviceMuteStrategies m output prevDevice delayMs))
     = patch_core m.
Proof.
  split; [apply setStreamMute_patch_core|].
  split; [apply setStrategyMute_patch_core|].
  split; [apply applyStreamVolumes_patch_core|].
  apply checkDeviceMuteStrategies_patch_core.
Qed.

End PatchCore.

(** ** The stages of [setOutputDevice] *)

Section RoutingStagesFacts.
Context {FL : CFloat} {PH : PolicyHeader}.

(** On an output that is not duplicated, a run of [setOutputDevice] that
    does not return at once stores the device, checks the mutes, takes one
    routing step and applies the volumes. *)
Lemma setOutputDevice_rec_stages fuel m output outputDesc dev force delayMs
    patchHandle address requiresMuteCheck :
  valueFor (mOutputs m) output = Some outputDesc ->
  isDuplicated outputDesc = false ->
  let run :=
    setOutputDevice_rec fuel m output dev force delayMs patchHandle address
      requiresMuteCheck in
  let dev' := Z.land dev (mSupportedDevices outputDesc) in
  run = (m, mkRouteResult 0 patchHandle)
  \/ exists m1 m2 m3,
       (m1 = m \/ m1 = update_output m output (fun d => set_mDevice d dev'))
       /\ patch_core m2 = patch_core m1
       /\ routing_step m2 outputDesc output delayMs patchHandle m3
       /\ patch_core (fst run) = patch_core m3.
Proof.
  intros Hd Hdup run dev'. subst run.
  destruct fuel; cbn [setOutputDevice_rec]; rewrite Hd, Hdup;
    rewrite (supportedDevices_plain _ _ Hdup); fold dev'.
  all: destruct (negb (dev =? AUDIO_DEVICE_NONE) && (dev' =? AUDIO_DEVICE_NONE));
         [left; reflexivity|right].
  all: match goal with
       | |- context [if ?rm then checkDeviceMuteStrategies ?a ?b ?c ?e else _] =>
           exists a;
           pose proof (checkDeviceMuteStrategies_patch_core a b c e) as Hmute;
           assert (Hm1 : a = m \/ a = update_output m output (fun d => set_mDevice d dev'))
             by (destruct (negb (dev' =? AUDIO_DEVICE_NONE)); auto);
           destruct rm;
           [destruct (checkDeviceMuteStrategies a b c e) as [m2 w]; cbn [fst] in Hmute;
            exists m2
           |exists a; clear Hmute;
            assert (Hmute : patch_core a = patch_core a) by reflexivity]
       end.
  all: cbv beta iota zeta.
  all: match goal with
       | |- context [if ?c then (?mm, mkRouteResult _ _) else _] =>
           destruct c;
           [exists mm; cbn [fst]; split; [exact Hm1|]; split; [exact Hmute|];
            split; [left; reflexivity|reflexivity]|]
       end.
  all: destruct (dev' =? AUDIO_DEVICE_NONE); cbv beta iota zeta.
  all: try (eexists; split; [exact Hm1|]; split; [exact Hmute|];
            split; [right; left; reflexivity|];
            cbn [fst]; apply applyStreamVolumes_patch_core).
  all: match goal with
       | |- context [deviceListFor ?mm ?dd ?aa] =>
           destruct (deviceListFor mm dd aa) as [|first rest]
       end.
  all: cbv beta iota zeta.
  all: try (eexists; split; [exact Hm1|]; split; [exact Hmute|];
            split; [left; reflexivity|];
            cbn [fst]; rewrite applyStreamVolumes_patch_core;
            apply informInputs_patch_core).
  all: match goal with
       | |- context [installPatch ?a ?b (OutputRef ?o) ?e ?f] =>
           destruct (installPatch a b (OutputRef o) e f) as [m3 r] eqn:Einst;
           exists m3
       end.
  all: cbv beta iota zeta; cbn [fst].
  all: split; [exact Hm1|]; split; [exact Hmute|].
  all: split;
         [right; right; exists first, rest; unfold outputPatch; rewrite Einst;
          reflexivity|].
  all: rewrite applyStreamVolumes_patch_core; apply informInputs_patch_core.
Qed.

(** *** The patch collection stays well formed *)

Lemma patches_wf_ext m m' :
  mAudioPatches m' = mAudioPatches m ->
  mNextPatchHandle m' = mNextPatchHandle m ->
  patches_wf m -> patches_wf m'.
Proof. intros Hp Hn Hwf key p. rewrite Hp, Hn. apply Hwf. Qed.

Lemma resetOutputDevice_patches m output delayMs patchHandle :
  let m' := fst (resetOutputDevice m output delayMs patchHandle) in
  mNextPatchHandle m' = mNextPatchHandle m
  /\ (mAudioPatches m' = mAudioPatches m
      \/ exists key, mAudioPatches m' = delete key (mAudioPatches m)).
Proof.
  cbn zeta. rewrite resetOutputDevice_unfold.
  destruct (mAudioPatches m !! _) as [patchDesc|]; cbn [fst].
  - split.
    + cbn [mNextPatchHandle emit set_mTrace nextAudioPortGeneration
             set_mAudioPortGeneration removeAudioPatch set_mAudioPatches].
      reflexivity.
    + right. exists (mHandle patchDesc).
      cbn [mAudioPatches emit set_mTrace nextAudioPortGeneration
             set_mAudioPortGeneration removeAudioPatch set_mAudioPatches].
      rewrite setPatchHandle_mAudioPatches. reflexivity.
  - split; [reflexivity|left; reflexivity].
Qed.

Lemma resetOutputDevice_patches_wf m output delayMs patchHandle :
  patches_wf m ->
  patches_wf (fst (resetOutputDevice m output delayMs patchHandle))
  /\ mNextPatchHandle (fst (resetOutputDevice m output delayMs patchHandle))
     = mNextPatchHandle m.
Proof.
  intros Hwf.
  destruct (resetOutputDevice_patches m output delayMs patchHandle) as (Hn & Hp).
  cbn zeta in *. split; [|exact Hn].
  destruct Hp as [Hp|(key & Hp)].
  - apply (patches_wf_ext m); assumption.
  - intros k p. rewrite Hp, Hn. intros Hk.
    apply lookup_delete_Some in Hk as [_ Hk]. apply (Hwf k p Hk).
Qed.

Lemma routing_step_patches_wf m2 outputDesc output delayMs patchHandle m3 :
  routing_step m2 outputDesc output delayMs patchHandle m3 ->
  patches_wf m2 -> 0 < mNextPatchHandle m2 ->
  patches_wf m3 /\ mNextPatchHandle m2 <= mNextPatchHandle m3.
Proof.
  intros [->|[->|(first & rest & ->)]] Hwf Hpos.
  - split; [exact Hwf|lia].
  - destruct (resetOutputDevice_patches_wf m2 output delayMs None Hwf) as [H1 H2].
    split; [exact H1|lia].
  - apply installPatch_patches_wf; assumption.
Qed.

Lemma setOutputDevice_rec_patches_wf fuel : forall m output dev force delayMs
    patchHandle address requiresMuteCheck,
  patches_wf m -> 0 < mNextPatchHandle m ->
  patches_wf
    (fst (setOutputDevice_rec fuel m output dev force delayMs patchHandle address
            requiresMuteCheck))
  /\ mNextPatchHandle m
     <= mNextPatchHandle
          (fst (setOutputDevice_rec fuel m output dev force delayMs patchHandle address
                  requiresMuteCheck)).
Proof.
  assert (Hplain : forall fuel m output outputDesc dev force delayMs patchHandle address
                     requiresMuteCheck,
            valueFor (mOutputs m) output = Some outputDesc ->
            isDuplicated outputDesc = false ->
            patches_wf m -> 0 < mNextPatchHandle m ->
            patches_wf
              (fst (setOutputDevice_rec fuel m output dev force delayMs patchHandle
                      address requiresMuteCheck))
            /\ mNextPatchHandle m
               <= mNextPatchHandle
                    (fst (setOutputDevice_rec fuel m output dev force delayMs
                            patchHandle address requiresMuteCheck))).
  { intros fuel0 m output outputDesc dev force delayMs patchHandle address
      requiresMuteCheck Hd Hdup Hwf Hpos.
    destruct (setOutputDevice_rec_stages fuel0 m output outputDesc dev force delayMs
                patchHandle address requiresMuteCheck Hd Hdup)
      as [->|(m1 & m2 & m3 & Hm1 & Hm2 & Hstep & Hrun)].
    - split; [exact Hwf|cbn; lia].
    - assert (H1 : mAudioPatches m1 = mAudioPatches m
                   /\ mNextPatchHandle m1 = mNextPatchHandle m)
        by (destruct Hm1 as [->| ->]; split; reflexivity).
      destruct H1 as [Hp1 Hn1].
      pose proof (patch_core_mAudioPatches _ _ Hm2) as Hp2.
      pose proof (patch_core_mNextPatchHandle _ _ Hm2) as Hn2.
      assert (Hwf2 : patches_wf m2).
      { apply (patches_wf_ext m); [congruence|congruence|exact Hwf]. }
      destruct (routing_step_patches_wf _ _ _ _ _ _ Hstep Hwf2) as [Hwf3 Hn3];
        [lia|].
      pose proof (patch_core_mAudioPatches _ _ Hrun) as Hp4.
      pose proof (patch_core_mNextPatchHandle _ _ Hrun) as Hn4.
      split; [apply (patches_wf_ext m3); assumption|lia]. }
  induction fuel as [|fuel IH]; intros m output dev force delayMs patchHandle address
    requiresMuteCheck Hwf Hpos.
  - destruct (valueFor (mOutputs m) output) as [outputDesc|] eqn:Hd.
    + destruct (isDuplicated outputDesc) eqn:Hdup.
      * cbn [setOutputDevice_rec]. rewrite Hd, Hdup. cbn [fst]. split; [exact Hwf|lia].
      * apply (Hplain 0%nat m output outputDesc); assumption.
    + cbn [setOutputDevice_rec]. rewrite Hd. cbn [fst]. split; [exact Hwf|lia].
  - destruct (valueFor (mOutputs m) output) as [outputDesc|] eqn:Hd.
    + destruct (isDuplicated outputDesc) eqn:Hdup.
      * cbn [setOutputDevice_rec]. rewrite Hd, Hdup.
        destruct (mOutput1 outputDesc) as [subOutput1|];
          [|cbn [fst]; split; [exact Hwf|lia]].
        destruct (mOutput2 outputDesc) as [subOutput2|];
          [|cbn [fst]; split; [exact Hwf|lia]].
        destruct (IH m subOutput1 dev force delayMs None None requiresMuteCheck Hwf Hpos)
          as [Hwf1 Hn1].
        destruct (setOutputDevice_rec fuel m subOutput1 dev force delayMs None None
                    requiresMuteCheck) as [m1 r1].
        cbn [fst] in *.
        destruct (IH m1 subOutput2 dev force delayMs None None requiresMuteCheck Hwf1)
          as [Hwf2 Hn2]; [lia|].
        destruct (setOutputDevice_rec fuel m1 subOutput2 dev force delayMs None None
                    requiresMuteCheck) as [m2 r2].
        cbn [fst] in *. split; [exact Hwf2|lia].
      * apply (Hplain (S fuel) m output outputDesc); assumption.
    + cbn [setOutputDevice_rec]. rewrite Hd. cbn [fst]. split; [exact Hwf|lia].
Qed.

(** X9.  [setOutputDevice] keeps the patch collection well formed, on
    duplicated outputs too: every record is stored under its own handle,
    which is positive and below the handle generator, and the generator
    never decreases. *)
Theorem setOutputDevice_keeps_patches_wf
    (m : AudioPolicyManager) (output : audio_io_handle_t) (dev : audio_devices_t)
    (force : bool) (delayMs : Z) (patchHandle : option audio_patch_handle_t)
    (address : option string) (requiresMuteCheck : bool) :
  patches_wf m -> 0 < mNextPatchHandle m ->
  let m' :=
    fst (setOutputDevice m output dev force delayMs patchHandle address
           requiresMuteCheck) in
  patches_wf m' /\ mNextPatchHandle m <= mNextPatchHandle m'.
Proof.
  intros Hwf Hpos. apply setOutputDevice_rec_patches_wf; assumption.
Qed.

(** *** The patches asked of the transport *)

Lemma created_patches_app evs evs' :
  created_patches (evs ++ evs') = created_patches evs ++ created_patches evs'.
Proof. apply List.flat_map_app. Qed.

Lemma patch_core_created m m' :
  patch_core m' = patch_core m ->
  created_patches (mTrace m') = created_patches (mTrace m).
Proof.
  intros Hc. rewrite <- (created_patches_filter (mTrace m')),
    <- (created_patches_filter (mTrace m)).
  rewrite (patch_core_patch_events _ _ Hc). reflexivity.
Qed.

Lemma installPatch_created m patchHandle io patch delayMs :
  created_patches (mTrace (fst (installPatch m patchHandle io patch delayMs)))
  = created_patches (mTrace m) ++ [patch].
Proof.
  assert (Hone : forall af d,
            created_patches [createAudioPatch_call patch af d] = [patch])
    by reflexivity.
  assert (Hupd : created_patches [onAudioPatchListUpdate_call] = []) by reflexivity.
  unfold installPatch, installPatch_at.
  destruct (indexOfKey _ _) as [[key patchDesc]|];
    destruct (createAudioPatch_answer _ _ _ _ _) as [status af'];
    destruct (status =? NO_ERROR) eqn:E; cbn [ir_status fst snd]; rewrite ?E;
    cbn [ir_patchDesc fst]; rewrite ?setPatchHandle_mTrace;
    unfold addAudioPatch;
    cbn [mTrace emit set_mTrace nextAudioPortGeneration set_mAudioPortGeneration
           set_mAudioPatches set_mNextPatchHandle mAudioPatches mHandle
           mNextPatchHandle];
    try match goal with
        | |- context [match ?x with Some _ => _ | None => _ end] => destruct x
        end;
    cbn [mTrace emit set_mTrace nextAudioPortGeneration set_mAudioPortGeneration
           set_mAudioPatches set_mNextPatchHandle];
    rewrite !created_patches_app, ?Hone, ?Hupd, ?app_nil_r; reflexivity.
Qed.

Lemma resetOutputDevice_created m output delayMs patchHandle :
  created_patches (mTrace (fst (resetOutputDevice m output delayMs patchHandle)))
  = created_patches (mTrace m).
Proof.
  rewrite resetOutputDevice_unfold.
  destruct (mAudioPatches m !! _) as [patchDesc|]; cbn [fst]; [|reflexivity].
  cbn [mTrace emit set_mTrace nextAudioPortGeneration set_mAudioPortGeneration
         removeAudioPatch set_mAudioPatches].
  rewrite setPatchHandle_mTrace. cbn [mTrace emit set_mTrace].
  rewrite !created_patches_app. cbn. rewrite !app_nil_r. reflexivity.
Qed.

Lemma outputPatch_shape outputDesc output first rest :
  mIoHandle outputDesc = output ->
  output_patch outputDesc (outputPatch outputDesc output (first :: rest)).
Proof.
  intros <-. unfold output_patch, outputPatch. cbn [sources sinks].
  split; [reflexivity|]. split.
  - rewrite length_map, length_firstn. unfold AUDIO_PATCH_PORTS_MAX. cbn [length]. lia.
  - intros sink Hin. apply in_map_iff in Hin as (d & <- & _).
    unfold devicePort. eauto.
Qed.

(** X10.  One run of [setOutputDevice] on an output that is not duplicated
    asks the transport to create at most one patch; that patch has the mix
    of the output as its only source and between one and
    [AUDIO_PATCH_PORTS_MAX] device sinks. *)
Theorem setOutputDevice_creates_at_most_one_patch
    (m : AudioPolicyManager) (output : audio_io_handle_t)
    (outputDesc : AudioOutputDescriptor) (dev : audio_devices_t) (force : bool)
    (delayMs : Z) (patchHandle : option audio_patch_handle_t)
    (address : option string) (requiresMuteCheck : bool) :
  valueFor (mOutputs m) output = Some outputDesc ->
  isDuplicated outputDesc = false ->
  let m' :=
    fst (setOutputDevice m output dev force delayMs patchHandle address
           requiresMuteCheck) in
  exists created,
    created_patches (mTrace m') = created_patches (mTrace m) ++ created
    /\ (length created <= 1)%nat
    /\ forall patch, In patch created -> output_patch outputDesc patch.
Proof.
  intros Hd Hdup. cbn zeta. unfold setOutputDevice.
  destruct (setOutputDevice_rec_stages (S (length (mOutputs m))) m output outputDesc dev
              force delayMs patchHandle address requiresMuteCheck Hd Hdup)
    as [->|(m1 & m2 & m3 & Hm1 & Hm2 & Hstep & Hrun)].
  - exists []. cbn [fst]. rewrite app_nil_r. split; [reflexivity|].
    split; [cbn; lia|intros patch []].
  - rewrite (patch_core_created _ _ Hrun).
    assert (H12 : created_patches (mTrace m2) = created_patches (mTrace m)).
    { rewrite (patch_core_created _ _ Hm2). destruct Hm1 as [->| ->]; reflexivity. }
    destruct Hstep as [->|[->|(first & rest & ->)]].
    + exists []. rewrite app_nil_r. split; [exact H12|].
      split; [cbn; lia|intros patch []].
    + exists []. rewrite app_nil_r, resetOutputDevice_created.
      split; [exact H12|]. split; [cbn; lia|intros patch []].
    + exists [outputPatch outputDesc output (first :: rest)].
      rewrite installPatch_created, H12. split; [reflexivity|].
      split; [cbn; lia|].
      intros patch [<-|[]]. apply outputPatch_shape.
      apply (valueFor_handle _ _ _ Hd).
Qed.

(** *** The patch handle of the routed output *)

Lemma patch_attached_ext m m' output :
  getPatchHandle m' (OutputRef output) = getPatchHandle m (OutputRef output) ->
  mAudioPatches m' = mAudioPatches m ->
  patch_attached m output -> patch_attached m' output.
Proof. unfold patch_attached. intros -> ->. tauto. Qed.

Lemma routing_step_attached m2 outputDesc output delayMs patchHandle m3 :
  routing_step m2 outputDesc output delayMs patchHandle m3 ->
  patches_wf m2 ->
  is_Some (valueFor (mOutputs m2) output) ->
  patch_attached m2 output -> patch_attached m3 output.
Proof.
  intros [->|[->|(first & rest & ->)]] Hwf Hreg Hatt; [exact Hatt| |].
  - rewrite resetOutputDevice_unfold. unfold reset_key.
    destruct (mAudioPatches m2 !! _) as [patchDesc|]; cbn [fst]; [|exact Hatt].
    left. unfold getPatchHandle.
    cbn [mOutputs emit set_mTrace nextAudioPortGeneration set_mAudioPortGeneration
           removeAudioPatch set_mAudioPatches].
    apply (getPatchHandle_cleared _ (OutputRef output)).
  - set (patch := outputPatch outputDesc output (first :: rest)).
    assert (Hfresh : mAudioPatches m2 !! mNextPatchHandle m2 = None).
    { destruct (mAudioPatches m2 !! mNextPatchHandle m2) as [p|] eqn:E; [|reflexivity].
      destruct (Hwf _ _ E) as [_ Hlt]. lia. }
    destruct (Z.eq_dec (fst (install_answer m2 patchHandle (OutputRef output) patch delayMs))
                NO_ERROR) as [Hok|Hko].
    + destruct (mAudioPatches m2 !! install_key m2 patchHandle (OutputRef output))
        as [patchDesc|] eqn:Hkey.
      * rewrite (installPatch_update m2 patchHandle (OutputRef output) patch delayMs
                   patchDesc Hok Hkey). cbn [fst].
        right. rewrite getPatchHandle_setPatchHandle by exact Hreg.
        rewrite setPatchHandle_mAudioPatches.
        cbn [mAudioPatches emit set_mTrace nextAudioPortGeneration
               set_mAudioPortGeneration set_mAudioPatches].
        destruct (Hwf _ _ Hkey) as [-> _]. rewrite lookup_insert_eq. eauto.
      * rewrite (installPatch_create m2 patchHandle (OutputRef output) patch delayMs
                   Hok Hkey Hfresh). cbn [fst].
        right. rewrite getPatchHandle_setPatchHandle by exact Hreg.
        rewrite setPatchHandle_mAudioPatches.
        cbn [mAudioPatches emit set_mTrace nextAudioPortGeneration
               set_mAudioPortGeneration set_mAudioPatches set_mNextPatchHandle].
        rewrite lookup_insert_eq. eauto.
    + rewrite (installPatch_failure m2 patchHandle (OutputRef output) patch delayMs Hko).
      exact Hatt.
Qed.

(** X11.  On an output that is not duplicated, [setOutputDevice] keeps the
    patch handle of the output attached to the patch collection: when the
    handle was [AUDIO_PATCH_HANDLE_NONE] or named a record of a well-formed
    collection before the run, it is [AUDIO_PATCH_HANDLE_NONE] or names a
    record after it, whether a patch was installed, updated, released or the
    transport refused. *)
Theorem setOutputDevice_keeps_patch_attached
    (m : AudioPolicyManager) (output : audio_io_handle_t)
    (outputDesc : AudioOutputDescriptor) (dev : audio_devices_t) (force : bool)
    (delayMs : Z) (patchHandle : option audio_patch_handle_t)
    (address : option string) (requiresMuteCheck : bool) :
  valueFor (mOutputs m) output = Some outputDesc ->
  isDuplicated outputDesc = false ->
  patches_wf m ->
  patch_attached m output ->
  patch_attached
    (fst (setOutputDevice m output dev force delayMs patchHandle address
            requiresMuteCheck)) output.
Proof.
  intros Hd Hdup Hwf Hatt. unfold setOutputDevice.
  destruct (setOutputDevice_rec_stages (S (length (mOutputs m))) m output outputDesc dev
              force delayMs patchHandle address requiresMuteCheck Hd Hdup)
    as [->|(m1 & m2 & m3 & Hm1 & Hm2 & Hstep & Hrun)]; [exact Hatt|].
  assert (H1 : getPatchHandle m1 (OutputRef output) = getPatchHandle m (OutputRef output)
               /\ mAudioPatches m1 = mAudioPatches m
               /\ mNextPatchHandle m1 = mNextPatchHandle m
               /\ is_Some (valueFor (mOutputs m1) output)).
  { destruct Hm1 as [->| ->]; [rewrite Hd; eauto|].
    unfold getPatchHandle, update_output. cbn [mOutputs set_mOutputs].
    rewrite (valueFor_map_same
               (fun d => set_mDevice d (Z.land dev (mSupportedDevices outputDesc)))
               _ _ _ (fun x => eq_refl) Hd), Hd.
    repeat split. eauto. }
  destruct H1 as (Hh1 & Hp1 & Hn1 & Hreg1).
  assert (Hreg2 : is_Some (valueFor (mOutputs m2) output)).
  { pose proof (patch_core_valueFor _ _ output Hm2) as Hv.
    destruct Hreg1 as [d1 Hd1]. rewrite Hd1 in Hv.
    destruct (valueFor (mOutputs m2) output); [eauto|discriminate]. }
  assert (Hwf2 : patches_wf m2).
  { apply (patches_wf_ext m); [| |exact Hwf].
    - rewrite (patch_core_mAudioPatches _ _ Hm2). exact Hp1.
    - rewrite (patch_core_mNextPatchHandle _ _ Hm2). exact Hn1. }
  assert (Hatt2 : patch_attached m2 output).
  { apply (patch_attached_ext m); [| |exact Hatt].
    - rewrite (patch_core_getPatchHandle _ _ _ Hm2). exact Hh1.
    - rewrite (patch_core_mAudioPatches _ _ Hm2). exact Hp1. }
  apply (patch_attached_ext m3).
  - apply patch_core_getPatchHandle. exact Hrun.
  - apply patch_core_mAudioPatches. exact Hrun.
  - apply (routing_step_attached _ _ _ _ _ _ Hstep Hwf2 Hreg2 Hatt2).
Qed.

End RoutingStagesFacts.

(** ** The strategy cache and explicit routes *)

Section StrategyDevices.
Context {FL : CFloat} {PH : PolicyHeader}.

(** X13.  Right after [updateDevicesAndOutputs], a cached lookup of the
    device of a strategy gives what an uncached lookup gives, which is what
    an uncached lookup gave before the update. *)
Theorem updateDevicesAndOutputs_cache_coherent
    (m : AudioPolicyManager) (strategy : routing_strategy) :
  In strategy all_strategies ->
  getDeviceForStrategy (updateDevicesAndOutputs m) strategy true
  = getDeviceForStrategy (updateDevicesAndOutputs m) strategy false
  /\ getDeviceForStrategy (updateDevicesAndOutputs m) strategy false
     = getDeviceForStrategy m strategy false.
Proof.
  intros Hin.
  assert (Hne : strategy <> STRATEGY_NONE)
    by (intros ->; cbn in Hin; intuition discriminate).
  unfold getDeviceForStrategy, updateDevicesAndOutputs.
  cbn [mOutputs mAvailableOutputDevices mDeviceForStrategy mEngine].
  rewrite bool_decide_eq_false_2 by exact Hne.
  unfold getDeviceForStrategy.
  destruct (findPreferredDevice_in _ _ _ _); split; reflexivity.
Qed.

(** *** Explicit routes *)

Lemma filter_length_le {A : Type} (p : A -> bool) (l : list A) :
  (length (List.filter p l) <= length l)%nat.
Proof.
  induction l as [|x l IH]; cbn; [lia|]. destruct (p x); cbn; lia.
Qed.

Lemma filter_length_sub {A : Type} (p q : A -> bool) (l : list A) :
  (forall x, q x = true -> p x = true) ->
  length (List.filter p l) = length (List.filter q l) ->
  forall x, In x l -> p x = true -> q x = true.
Proof.
  intros Hsub. induction l as [|y l IH]; intros Hlen x Hin Hp; [destruct Hin|].
  assert (Hle : (length (List.filter q l) <= length (List.filter p l))%nat).
  { clear -Hsub. induction l as [|z l IH]; cbn; [lia|].
    destruct (q z) eqn:Hq; [rewrite (Hsub z Hq); cbn; lia|].
    destruct (p z); cbn; lia. }
  cbn in Hlen. destruct (p y) eqn:Hpy, (q y) eqn:Hqy; cbn in Hlen.
  - destruct Hin as [->|Hin]; [exact Hqy|]. apply IH; [lia|exact Hin|exact Hp].
  - lia.
  - rewrite (Hsub y Hqy) in Hpy. discriminate.
  - destruct Hin as [->|Hin]; [congruence|]. apply IH; assumption.
Qed.

(** X14.  [findPreferredDevice] honours an explicit route on an output only
    when every active client of the output has one (and, under a strategy
    filter, follows that strategy): the device it returns is the available
    device named by the first active client. *)
Theorem findPreferredDevice_all_clients_routed
    (desc : AudioOutputDescriptor) (filter : routing_strategy)
    (devices : list DeviceDescriptor) (deviceDesc : DeviceDescriptor) :
  fst (findPreferredDevice desc filter devices) = Some deviceDesc ->
  snd (findPreferredDevice desc filter devices) = true
  /\ In deviceDesc devices
  /\ (exists client rest,
        List.filter tc_active (mClients desc) = client :: rest
        /\ dev_id deviceDesc = tc_preferredDeviceId client)
  /\ forall client,
       In client (mClients desc) -> tc_active client = true ->
       tc_preferredDeviceId client <> 0
       /\ (filter = STRATEGY_NONE \/ tc_strategy client = filter).
Proof.
  unfold findPreferredDevice, clientsList. cbn [negb orb andb].
  set (p := fun c : TrackClientDescriptor =>
              tc_active c
              && (bool_decide (STRATEGY_NONE = STRATEGY_NONE)
                  || bool_decide (STRATEGY_NONE = tc_strategy c)) && true).
  set (q := fun c : TrackClientDescriptor =>
              tc_active c
              && (bool_decide (filter = STRATEGY_NONE)
                  || bool_decide (filter = tc_strategy c))
              && negb (tc_preferredDeviceId c =? 0)).
  assert (Hp : forall c, p c = tc_active c).
  { intros c. unfold p. rewrite bool_decide_eq_true_2 by reflexivity.
    cbn. rewrite !andb_true_r. reflexivity. }
  assert (Hsub : forall c, q c = true -> p c = true).
  { intros c Hq. rewrite Hp. unfold q in Hq.
    apply andb_true_iff in Hq as [Hq _]. apply andb_true_iff in Hq as [Hq _].
    exact Hq. }
  destruct (negb (length (List.filter p (mClients desc)) =? 0)%nat) eqn:Hact;
    cbn [andb]; [|discriminate].
  destruct (length (List.filter p (mClients desc))
            =? length (List.filter q (mClients desc)))%nat eqn:Hlen;
    [|discriminate].
  apply Nat.eqb_eq in Hlen.
  destruct (List.filter q (mClients desc)) as [|c routed] eqn:Hq; [discriminate|].
  cbn [fst snd]. intros Hdev. split; [reflexivity|].
  assert (Hall : forall x, In x (mClients desc) -> p x = true -> q x = true).
  { apply filter_length_sub; [exact Hsub|]. rewrite Hq. exact Hlen. }
  split; [|split].
  - unfold getDeviceFromId in Hdev. apply List.find_some in Hdev. tauto.
  - assert (Hfirst : exists rest, List.filter p (mClients desc) = c :: rest).
    { clear Hlen Hact Hdev. revert Hq Hall. generalize (mClients desc).
      induction l as [|x l IH]; intros Hq Hall; [discriminate|].
      cbn in Hq |- *. destruct (p x) eqn:Hpx.
      - rewrite (Hall x (or_introl eq_refl) Hpx) in Hq. injection Hq as -> _. eauto.
      - destruct (q x) eqn:Hqx; [rewrite (Hsub x Hqx) in Hpx; discriminate|].
        apply IH; [exact Hq|]. intros y Hy. apply Hall. right. exact Hy. }
    destruct Hfirst as [rest Hrest]. exists c, rest. split.
    + rewrite <- Hrest. apply List.filter_ext. intros a. symmetry. apply Hp.
    + unfold getDeviceFromId in Hdev. apply List.find_some in Hdev as [_ Hid].
      apply Z.eqb_eq in Hid. exact Hid.
  - intros client Hin Hactive.
    assert (Hqc : q client = true) by (apply Hall; [exact Hin|rewrite Hp; exact Hactive]).
    unfold q in Hqc. apply andb_true_iff in Hqc as [Hqc Hroute].
    apply andb_true_iff in Hqc as [_ Hstrat]. split.
    + apply negb_true_iff, Z.eqb_neq in Hroute. exact Hroute.
    + apply orb_true_iff in Hstrat as [H|H]; apply bool_decide_eq_true in H; auto.
Qed.

End StrategyDevices.

(** ** Muting a strategy *)

Section StrategyMute.
Context {FL : CFloat} {PH : PolicyHeader}.

Lemma setStrategyMute_valueFor_other m strategy on out' delayMs dev output :
  out' <> output ->
  valueFor (mOutputs (setStrategyMute m strategy on out' delayMs dev)) output
  = valueFor (mOutputs m) output.
Proof.
  intros Hne. unfold setStrategyMute.
  apply (fold_left_invariant (fun m => valueFor (mOutputs m) output)).
  intros a s. destruct (bool_decide _); [|reflexivity].
  apply setStreamMute_valueFor_other. exact Hne.
Qed.

(** X15.  [setStrategyMute] moves the mute counters of exactly the stream
    types of the strategy on the output it is given: a mute call increments
    each of them, an unmute call decrements those that are positive; the
    counters of the other stream types, and the other outputs, are as
    before. *)
Theorem setStrategyMute_counts_streams_of_strategy
    (m : AudioPolicyManager) (strategy : routing_strategy) (on : bool)
    (output : audio_io_handle_t) (delayMs : Z) (dev : audio_devices_t)
    (outputDesc : AudioOutputDescriptor) :
  valueFor (mOutputs m) output = Some outputDesc ->
  let m' := setStrategyMute m strategy on output delayMs dev in
  (exists outputDesc',
     valueFor (mOutputs m') output = Some outputDesc'
     /\ forall stream,
          mMuteCount outputDesc' stream
          = if bool_decide (stream ∈ policy_streams /\ getStrategy m stream = strategy)
            then (if on then mMuteCount outputDesc stream + 1
                  else if mMuteCount outputDesc stream =? 0 then 0
                       else mMuteCount outputDesc stream - 1)
            else mMuteCount outputDesc stream)
  /\ forall output', output' <> output ->
       valueFor (mOutputs m') output' = valueFor (mOutputs m) output'.
Proof.
  intros Hd. cbn zeta. split.
  - destruct (setStrategyMute_streams_count policy_streams m strategy on output delayMs
                dev outputDesc AUDIO_STREAM_MUSIC Hd policy_streams_NoDup)
      as (d' & Hd' & _).
    exists d'. split; [exact Hd'|]. intros stream.
    destruct (setStrategyMute_streams_count policy_streams m strategy on output delayMs
                dev outputDesc stream Hd policy_streams_NoDup)
      as (d'' & Hd'' & _ & Hcount).
    unfold setStrategyMute in Hd'. rewrite Hd' in Hd''. injection Hd'' as <-.
    exact Hcount.
  - intros output' Hne. apply setStrategyMute_valueFor_other. congruence.
Qed.

End StrategyMute.

(** ** Closing and releasing an input *)

Section InputClose.
Context {FL : CFloat} {PH : PolicyHeader}.

Lemma inputFor_filter_other inputs input input' :
  input' <> input ->
  inputFor (List.filter (fun d => negb (in_mIoHandle d =? input)) inputs) input'
  = inputFor inputs input'.
Proof.
  intros Hne. unfold inputFor. induction inputs as [|d l IH]; [reflexivity|].
  cbn. destruct (in_mIoHandle d =? input) eqn:E; cbn.
  - apply Z.eqb_eq in E.
    assert (E' : (in_mIoHandle d =? input') = false) by (apply Z.eqb_neq; congruence).
    rewrite E'. exact IH.
  - destruct (in_mIoHandle d =? input'); [reflexivity|exact IH].
Qed.

Lemma inputFor_filter_same inputs input :
  inputFor (List.filter (fun d => negb (in_mIoHandle d =? input)) inputs) input = None.
Proof.
  unfold inputFor. induction inputs as [|d l IH]; [reflexivity|].
  cbn. destruct (in_mIoHandle d =? input) eqn:E; cbn; [exact IH|].
  rewrite E. exact IH.
Qed.

Lemma closeInput_unfold m input inputDesc :
  inputFor (mInputs m) input = Some inputDesc ->
  let m' := closeInput m input in
  mInputs m' = List.filter (fun d => negb (in_mIoHandle d =? input)) (mInputs m)
  /\ mAudioPatches m' = delete (in_mPatchHandle inputDesc) (mAudioPatches m)
  /\ mOutputs m' = mOutputs m
  /\ closed_inputs (mTrace m') = closed_inputs (mTrace m) ++ [input]
  /\ (length (released_patches (mTrace m')) + size (mAudioPatches m')
      = length (released_patches (mTrace m)) + size (mAudioPatches m))%nat.
Proof.
  intros Hd. cbn zeta. unfold closeInput. rewrite Hd. unfold indexOfKey.
  cbn [mAudioPatches nextAudioPortGeneration set_mAudioPortGeneration].
  destruct (mAudioPatches m !! in_mPatchHandle inputDesc) as [patchDesc|] eqn:Hk;
    cbn [mInputs mAudioPatches mOutputs mTrace emit set_mTrace set_mInputs
           set_mAudioPatches nextAudioPortGeneration set_mAudioPortGeneration];
    rewrite !closed_inputs_app, !released_patches_app, ?length_app; cbn;
    rewrite ?app_nil_r.
  - split; [reflexivity|]. split; [reflexivity|]. split; [reflexivity|].
    split; [reflexivity|]. pose proof (size_delete_present _ _ _ Hk). lia.
  - rewrite (delete_id _ _ Hk). split; [reflexivity|]. split; [reflexivity|].
    split; [reflexivity|]. split; [reflexivity|]. lia.
Qed.

(** X16.  [closeInput] leaves the state as it is for a handle that is not
    registered.  For a registered input it removes the input from the
    registry and the patch record of the input from the patch collection,
    asking the transport for one release if there was a record, and closes
    the stream once; the other inputs and the outputs are as before. *)
Theorem closeInput_unregisters_input
    (m : AudioPolicyManager) (input : audio_io_handle_t) :
  (inputFor (mInputs m) input = None -> closeInput m input = m)
  /\ forall inputDesc,
       inputFor (mInputs m) input = Some inputDesc ->
       let m' := closeInput m input in
       inputFor (mInputs m') input = None
       /\ (forall input', input' <> input ->
             inputFor (mInputs m') input' = inputFor (mInputs m) input')
       /\ mAudioPatches m' = delete (in_mPatchHandle inputDesc) (mAudioPatches m)
       /\ mOutputs m' = mOutputs m
       /\ closed_inputs (mTrace m') = closed_inputs (mTrace m) ++ [input]
       /\ (length (released_patches (mTrace m')) + size (mAudioPatches m')
           = length (released_patches (mTrace m)) + size (mAudioPatches m))%nat.
Proof.
  split.
  - intros Hnone. unfold closeInput. rewrite Hnone. reflexivity.
  - intros inputDesc Hd.
    destruct (closeInput_unfold m input inputDesc Hd) as (Hi & Hp & Ho & Hc & Hr).
    cbn zeta in *. rewrite Hi.
    split; [apply inputFor_filter_same|].
    split; [intros input' Hne; apply inputFor_filter_other; exact Hne|].
    repeat split; assumption.
Qed.

(** X17.  [releaseInput] leaves the state as it is for a client that is
    attached to no input.  Otherwise the client leaves its input; the input
    stays registered, with the patch collection and the trace untouched,
    while other clients remain, and it is closed, the transport being told
    of the new port list, when the client was the last one. *)
Theorem releaseInput_closes_after_last_client
    (m : AudioPolicyManager) (portId : audio_port_handle_t) :
  (getInputForClient (mInputs m) portId = None -> releaseInput m portId = m)
  /\ forall inputDesc,
       getInputForClient (mInputs m) portId = Some inputDesc ->
       inputFor (mInputs m) (in_mIoHandle inputDesc) = Some inputDesc ->
       let input := in_mIoHandle inputDesc in
       let remaining :=
         List.filter (fun c => negb (rc_portId c =? portId)) (in_mClients inputDesc) in
       let m' := releaseInput m portId in
       (forall d', inputFor (mInputs m') input = Some d' -> getClient d' portId = None)
       /\ (remaining <> [] ->
           inputFor (mInputs m') input = Some (set_in_mClients inputDesc remaining)
           /\ mAudioPatches m' = mAudioPatches m
           /\ mTrace m' = mTrace m)
       /\ (remaining = [] ->
           inputFor (mInputs m') input = None
           /\ mAudioPatches m' = delete (in_mPatchHandle inputDesc) (mAudioPatches m)
           /\ closed_inputs (mTrace m') = closed_inputs (mTrace m) ++ [input]
           /\ exists evs, mTrace m' = mTrace m ++ evs ++ [onAudioPortListUpdate_call]).
Proof.
  split.
  - intros Hnone. unfold releaseInput. rewrite Hnone. reflexivity.
  - intros inputDesc Hclient Hd input remaining m'.
    subst m'. unfold releaseInput. rewrite Hclient. fold input.
    set (m1 := removeClient m input portId).
    assert (Hd1 : inputFor (mInputs m1) input = Some (set_in_mClients inputDesc remaining)).
    { subst m1. unfold removeClient, update_input. cbn [mInputs set_mInputs].
      apply (inputFor_map_same
               (fun d => set_in_mClients d
                           (List.filter (fun c => negb (rc_portId c =? portId))
                              (in_mClients d))));
        [reflexivity|exact Hd]. }
    rewrite Hd1. cbn [in_mClients set_in_mClients].
    assert (Hgone : getClient (set_in_mClients inputDesc remaining) portId = None).
    { unfold getClient. cbn [in_mClients set_in_mClients].
      destruct (List.find _ remaining) as [c|] eqn:E; [|reflexivity].
      apply List.find_some in E as [Hin Hc]. subst remaining.
      apply List.filter_In in Hin as [_ Hne]. rewrite Hc in Hne. discriminate. }
    destruct remaining as [|c rest] eqn:Hrem; cbn [length Nat.eqb negb].
    + destruct (closeInput_unfold m1 input _ Hd1) as (Hi & Hp & Ho & Hc & Hr).
      cbn zeta in *.
      assert (Hnone : inputFor (mInputs (emit (closeInput m1 input)
                                           onAudioPortListUpdate_call)) input = None).
      { cbn [mInputs emit set_mTrace]. rewrite Hi. apply inputFor_filter_same. }
      split; [intros d'; rewrite Hnone; discriminate|].
      split; [congruence|]. intros _.
      split; [exact Hnone|].
      split; [cbn [mAudioPatches emit set_mTrace]; rewrite Hp; reflexivity|].
      split.
      * cbn [mTrace emit set_mTrace]. rewrite closed_inputs_app, Hc. cbn.
        rewrite app_nil_r. reflexivity.
      * cbn [mTrace emit set_mTrace].
        unfold closeInput. rewrite Hd1. unfold indexOfKey.
        destruct (mAudioPatches (nextAudioPortGeneration m1) !! _) as [patchDesc|];
          cbn [mTrace emit set_mTrace set_mInputs set_mAudioPatches
                 nextAudioPortGeneration set_mAudioPortGeneration];
          change (mTrace m1) with (mTrace m).
        -- exists [releaseAudioPatch_call (mAfPatchHandle patchDesc) 0;
                   onAudioPatchListUpdate_call; closeInput_call input].
           rewrite <- !app_assoc. reflexivity.
        -- exists [closeInput_call input]. rewrite <- !app_assoc. reflexivity.
    + split.
      { intros d' Heq.
        assert (Hd' : d' = set_in_mClients inputDesc (c :: rest)) by congruence.
        subst d'. exact Hgone. }
      split; [intros _; split; [exact Hd1|split; reflexivity]|discriminate].
Qed.

End InputClose.

(** ** Surround formats and channel masks *)

Section SurroundFilters.
Variable add : Z -> list Z -> list Z.
Hypothesis Hadd : add_inserts add.

Lemma nth_error_middle (pre : list Z) x rest :
  nth_error (pre ++ x :: rest) (length pre) = Some x.
Proof. rewrite nth_error_app2 by lia. rewrite Nat.sub_diag. reflexivity. Qed.

Lemma nth_error_end (pre : list Z) : nth_error (pre ++ []) (length pre) = None.
Proof. apply nth_error_None. rewrite app_nil_r. lia. Qed.

Lemma removeAt_middle (pre : list Z) x rest :
  removeAt (pre ++ x :: rest) (length pre) = pre ++ rest.
Proof.
  unfold removeAt. induction pre as [|a pre IH]; [reflexivity|].
  cbn [app length firstn skipn] in *. rewrite IH. reflexivity.
Qed.

Lemma snoc_position (pre : list Z) x rest :
  pre ++ x :: rest = (pre ++ [x]) ++ rest /\ S (length pre) = length (pre ++ [x]).
Proof. rewrite <- app_assoc, length_app. cbn. split; [reflexivity|lia]. Qed.

Lemma analyzeFormats_spec forceUse : forall rest fuel pre s,
  (length rest <= fuel)%nat ->
  analyzeFormats fuel forceUse (pre ++ rest) (length pre) s
  = (pre ++ List.filter
              (fun format =>
                 negb (is_other_surround format
                       && bool_decide
                            (forceUse = AUDIO_POLICY_FORCE_ENCODED_SURROUND_ALWAYS)))
              rest,
     mkSurroundSupport
       (supportsAC3 s || existsb (fun format => format =? AUDIO_FORMAT_AC3) rest)
       (supportsOtherSurround s || existsb is_other_surround rest)
       (supportsIEC61937 s
        || existsb (fun format => format =? AUDIO_FORMAT_IEC61937) rest)).
Proof.
  induction rest as [|x rest IH]; intros fuel pre s Hfuel.
  - destruct s as [a o i]. cbn [List.filter existsb supportsAC3 supportsOtherSurround
                                  supportsIEC61937].
    rewrite !orb_false_r.
    destruct fuel as [|fuel]; cbn [analyzeFormats]; [reflexivity|].
    rewrite nth_error_end. reflexivity.
  - destruct fuel as [|fuel]; [cbn in Hfuel; lia|]. cbn in Hfuel.
    cbn [analyzeFormats]. rewrite nth_error_middle.
    destruct (snoc_position pre x rest) as [Hsplit Hlen].
    cbn [List.filter existsb].
    destruct (x =? AUDIO_FORMAT_AC3) eqn:Eac3.
    { assert (Hother : is_other_surround x = false).
      { apply Z.eqb_eq in Eac3. subst x. reflexivity. }
      assert (Hiec : (x =? AUDIO_FORMAT_IEC61937) = false).
      { apply Z.eqb_eq in Eac3. subst x. reflexivity. }
      rewrite Hother, Hiec. cbn [andb negb orb].
      rewrite Hsplit, Hlen, IH by lia.
      cbn [supportsAC3 supportsOtherSurround supportsIEC61937].
      rewrite <- app_assoc, orb_true_r. reflexivity. }
    destruct (is_other_surround x) eqn:Eother.
    { assert (Hiec : (x =? AUDIO_FORMAT_IEC61937) = false).
      { unfold is_other_surround in Eother.
        destruct (x =? AUDIO_FORMAT_IEC61937) eqn:E; [|reflexivity].
        apply Z.eqb_eq in E. subst x. discriminate. }
      rewrite Hiec. cbn [andb negb orb].
      destruct (bool_decide (forceUse = AUDIO_POLICY_FORCE_ENCODED_SURROUND_ALWAYS)).
      - cbn [negb]. rewrite removeAt_middle, IH by lia.
        cbn [supportsAC3 supportsOtherSurround supportsIEC61937].
        rewrite orb_true_r. reflexivity.
      - cbn [negb]. rewrite Hsplit, Hlen, IH by lia.
        cbn [supportsAC3 supportsOtherSurround supportsIEC61937].
        rewrite <- app_assoc, orb_true_r. reflexivity. }
    cbn [andb negb orb].
    destruct (x =? AUDIO_FORMAT_IEC61937) eqn:Eiec.
    { rewrite Hsplit, Hlen, IH by lia.
      cbn [supportsAC3 supportsOtherSurround supportsIEC61937].
      rewrite <- app_assoc, orb_true_r. reflexivity. }
    rewrite Hsplit, Hlen, IH by lia. rewrite <- app_assoc. reflexivity.
Qed.

Lemma analyzeFormats_run forceUse formats :
  analyzeFormats (length formats) forceUse formats 0
    (mkSurroundSupport false false false)
  = (List.filter
       (fun format =>
          negb (is_other_surround format
                && bool_decide
                     (forceUse = AUDIO_POLICY_FORCE_ENCODED_SURROUND_ALWAYS)))
       formats,
     mkSurroundSupport
       (existsb (fun format => format =? AUDIO_FORMAT_AC3) formats)
       (existsb is_other_surround formats)
       (existsb (fun format => format =? AUDIO_FORMAT_IEC61937) formats)).
Proof.
  exact (analyzeFormats_spec forceUse formats (length formats) []
           (mkSurroundSupport false false false) (le_n _)).
Qed.

Lemma removeSurroundFormats_spec : forall rest fuel pre,
  (length rest <= fuel)%nat ->
  removeSurroundFormats fuel (pre ++ rest) (length pre)
  = pre ++ List.filter (fun format => negb (is_surround format)) rest.
Proof.
  induction rest as [|x rest IH]; intros fuel pre Hfuel.
  - destruct fuel as [|fuel]; cbn [removeSurroundFormats List.filter]; [reflexivity|].
    rewrite nth_error_end. reflexivity.
  - destruct fuel as [|fuel]; [cbn in Hfuel; lia|]. cbn in Hfuel.
    cbn [removeSurroundFormats List.filter]. rewrite nth_error_middle.
    destruct (snoc_position pre x rest) as [Hsplit Hlen].
    destruct (is_surround x); cbn [negb].
    + rewrite removeAt_middle. apply IH. lia.
    + rewrite Hsplit, Hlen, IH by lia. rewrite <- app_assoc. reflexivity.
Qed.

Lemma removeSurroundChannelMasks_spec : forall rest fuel pre,
  (length rest <= fuel)%nat ->
  removeSurroundChannelMasks fuel (pre ++ rest) (length pre)
  = pre ++ List.filter
             (fun channelMask =>
                Z.land channelMask (Z.lnot AUDIO_CHANNEL_OUT_STEREO) =? 0)
             rest.
Proof.
  induction rest as [|x rest IH]; intros fuel pre Hfuel.
  - destruct fuel as [|fuel]; cbn [removeSurroundChannelMasks List.filter];
      [reflexivity|].
    rewrite nth_error_end. reflexivity.
  - destruct fuel as [|fuel]; [cbn in Hfuel; lia|]. cbn in Hfuel.
    cbn [removeSurroundChannelMasks List.filter]. rewrite nth_error_middle.
    destruct (snoc_position pre x rest) as [Hsplit Hlen].
    destruct (Z.land x (Z.lnot AUDIO_CHANNEL_OUT_STEREO) =? 0); cbn [negb].
    + rewrite Hsplit, Hlen, IH by lia. rewrite <- app_assoc. reflexivity.
    + rewrite removeAt_middle. apply IH. lia.
Qed.

Lemma fold_add_In : forall (items acc : list Z) x,
  In x (List.fold_left (fun formats it => add it formats) items acc)
  <-> In x items \/ In x acc.
Proof.
  induction items as [|it items IH]; intros acc x; cbn [List.fold_left In].
  - tauto.
  - rewrite IH, (Hadd it acc x). intuition congruence.
Qed.

Lemma fold_enabled_elem (surroundFormats : gmap Z (list Z)) :
  forall (formats : list Z) (acc : gset Z) x,
    x ∈ List.fold_left
          (fun (enabled : gset Z) format =>
             match surroundFormats !! format with
             | Some _ => {[ format ]} ∪ enabled
             | None => enabled
             end)
          formats acc
    <-> (In x formats /\ is_Some (surroundFormats !! x)) \/ x ∈ acc.
Proof.
  induction formats as [|format formats IH]; intros acc x; cbn [List.fold_left In].
  - tauto.
  - rewrite IH. destruct (surroundFormats !! format) as [sub|] eqn:E.
    + rewrite elem_of_union, elem_of_singleton. split.
      * intros [[Hin Hs]|[->|Hacc]]; eauto.
      * intros [[[->|Hin] Hs]|Hacc]; eauto.
    + split.
      * intros [[Hin Hs]|Hacc]; eauto.
      * intros [[[->|Hin] Hs]|Hacc]; eauto.
        rewrite E in Hs. destruct Hs as [? Hs]. discriminate.
Qed.

Lemma is_surround_cases x :
  is_surround x = true
  <-> x = AUDIO_FORMAT_AC3 \/ x = AUDIO_FORMAT_E_AC3 \/ x = AUDIO_FORMAT_DTS
      \/ x = AUDIO_FORMAT_DTS_HD \/ x = AUDIO_FORMAT_IEC61937.
Proof.
  unfold is_surround, is_other_surround.
  rewrite !orb_true_iff, !Z.eqb_eq. tauto.
Qed.

Lemma is_other_cases x :
  is_other_surround x = true
  <-> x = AUDIO_FORMAT_E_AC3 \/ x = AUDIO_FORMAT_DTS \/ x = AUDIO_FORMAT_DTS_HD.
Proof.
  unfold is_other_surround. rewrite !orb_true_iff, !Z.eqb_eq. tauto.
Qed.

Lemma existsb_none {A} (p : A -> bool) l :
  existsb p l = false -> forall x, In x l -> p x = false.
Proof.
  intros H x Hin. destruct (p x) eqn:E; [|reflexivity].
  assert (existsb p l = true) by (apply existsb_exists; eauto). congruence.
Qed.

Lemma filter_id {A} (p : A -> bool) l :
  (forall x, In x l -> p x = true) -> List.filter p l = l.
Proof.
  induction l as [|a l IH]; intros H; cbn; [reflexivity|].
  rewrite (H a) by (left; reflexivity). f_equal. apply IH. intros x Hx.
  apply H. right. exact Hx.
Qed.

(** X18.  [filterSurroundChannelMasks]: with the NEVER setting exactly the
    masks with a channel outside stereo are removed, the others staying in
    order; with ALWAYS or MANUAL every mask is kept and the result has a
    mask that covers 5.1, which is added only when no mask covered it; with
    any other setting the masks are as before. *)
Theorem filterSurroundChannelMasks_by_setting
    (forceUse : audio_policy_forced_cfg_t) (channelMasks : list Z) :
  let result := filterSurroundChannelMasks add forceUse channelMasks in
  let covers5dot1 channelMask :=
    Z.land channelMask AUDIO_CHANNEL_OUT_5POINT1 = AUDIO_CHANNEL_OUT_5POINT1 in
  (forceUse = AUDIO_POLICY_FORCE_ENCODED_SURROUND_NEVER ->
   result = List.filter
              (fun channelMask =>
                 Z.land channelMask (Z.lnot AUDIO_CHANNEL_OUT_STEREO) =? 0)
              channelMasks)
  /\ (forceUse = AUDIO_POLICY_FORCE_ENCODED_SURROUND_ALWAYS
      \/ forceUse = AUDIO_POLICY_FORCE_ENCODED_SURROUND_MANUAL ->
      (exists channelMask, In channelMask result /\ covers5dot1 channelMask)
      /\ (forall channelMask, In channelMask channelMasks -> In channelMask result)
      /\ (forall channelMask, In channelMask result ->
            In channelMask channelMasks
            \/ (channelMask = AUDIO_CHANNEL_OUT_5POINT1
                /\ forall other, In other channelMasks -> ~ covers5dot1 other))
      /\ ((exists channelMask, In channelMask channelMasks /\ covers5dot1 channelMask) ->
          result = channelMasks))
  /\ (forceUse <> AUDIO_POLICY_FORCE_ENCODED_SURROUND_NEVER ->
      forceUse <> AUDIO_POLICY_FORCE_ENCODED_SURROUND_ALWAYS ->
      forceUse <> AUDIO_POLICY_FORCE_ENCODED_SURROUND_MANUAL ->
      result = channelMasks).
Proof.
  cbn zeta. unfold filterSurroundChannelMasks. split; [|split].
  - intros ->. rewrite bool_decide_eq_true_2 by reflexivity.
    apply (removeSurroundChannelMasks_spec channelMasks (length channelMasks) []).
    lia.
  - intros Hset.
    rewrite (bool_decide_eq_false_2
               (forceUse = AUDIO_POLICY_FORCE_ENCODED_SURROUND_NEVER))
      by (destruct Hset as [-> | ->]; discriminate).
    assert (Hor : bool_decide (forceUse = AUDIO_POLICY_FORCE_ENCODED_SURROUND_ALWAYS)
                  || bool_decide (forceUse = AUDIO_POLICY_FORCE_ENCODED_SURROUND_MANUAL)
                  = true).
    { destruct Hset as [-> | ->]; reflexivity. }
    rewrite Hor.
    destruct (existsb _ channelMasks) eqn:Ex; cbn [negb].
    + apply existsb_exists in Ex as (mask & Hin & Hmask). apply Z.eqb_eq in Hmask.
      repeat split; eauto.
    + pose proof (existsb_none _ _ Ex) as Hnone. cbn beta in Hnone.
      split; [|split; [|split]].
      * exists AUDIO_CHANNEL_OUT_5POINT1. split; [|reflexivity].
        apply Hadd. left. reflexivity.
      * intros mask Hin. apply Hadd. right. exact Hin.
      * intros mask Hin. apply Hadd in Hin as [-> | Hin]; [right|left; exact Hin].
        split; [reflexivity|]. intros other Hother Hcov.
        apply Hnone in Hother. apply Z.eqb_neq in Hother. contradiction.
      * intros (mask & Hin & Hcov). apply Hnone in Hin. apply Z.eqb_neq in Hin.
        contradiction.
  - intros Hn Ha Hm.
    rewrite !bool_decide_eq_false_2 by assumption. reflexivity.
Qed.

(** X19.  [filterSurroundFormats]: with MANUAL the vector becomes the
    enabled surround formats and IEC61937; with NEVER the five surround
    formats are removed, the others staying in order, and no surround
    format is enabled; with ALWAYS the vector gains the five surround
    formats; with any other setting it gains AC3 and IEC61937.  Outside
    MANUAL and NEVER the enabled surround formats become the formats of the
    resulting vector that the configuration lists. *)
Theorem filterSurroundFormats_by_setting
    (forceUse : audio_policy_forced_cfg_t)
    (surroundFormats : gmap audio_format_t (list audio_format_t))
    (mSurroundFormats : gset audio_format_t) (formats : list audio_format_t) :
  let result :=
    filterSurroundFormats add forceUse surroundFormats mSurroundFormats formats in
  (forceUse = AUDIO_POLICY_FORCE_ENCODED_SURROUND_MANUAL ->
   (forall format, In format (fst result)
                   <-> format ∈ mSurroundFormats \/ format = AUDIO_FORMAT_IEC61937)
   /\ snd result = mSurroundFormats)
  /\ (forceUse = AUDIO_POLICY_FORCE_ENCODED_SURROUND_NEVER ->
      fst result = List.filter (fun format => negb (is_surround format)) formats
      /\ snd result = ∅)
  /\ (forceUse = AUDIO_POLICY_FORCE_ENCODED_SURROUND_ALWAYS ->
      forall format, In format (fst result)
                     <-> In format formats \/ is_surround format = true)
  /\ (forceUse <> AUDIO_POLICY_FORCE_ENCODED_SURROUND_MANUAL ->
      forceUse <> AUDIO_POLICY_FORCE_ENCODED_SURROUND_NEVER ->
      forceUse <> AUDIO_POLICY_FORCE_ENCODED_SURROUND_ALWAYS ->
      forall format, In format (fst result)
                     <-> In format formats \/ format = AUDIO_FORMAT_AC3
                         \/ format = AUDIO_FORMAT_IEC61937)
  /\ (forceUse <> AUDIO_POLICY_FORCE_ENCODED_SURROUND_MANUAL ->
      forceUse <> AUDIO_POLICY_FORCE_ENCODED_SURROUND_NEVER ->
      forall format, format ∈ snd result
                     <-> In format (fst result) /\ is_Some (surroundFormats !! format)).
Proof.
  cbn zeta. unfold filterSurroundFormats.
  assert (Hins : forall item items x, In x (add item items) <-> x = item \/ In x items)
    by exact Hadd.
  rewrite analyzeFormats_run.
  cbn [supportsAC3 supportsOtherSurround supportsIEC61937].
  set (hasAC3 := existsb (fun format => format =? AUDIO_FORMAT_AC3) formats).
  set (hasOther := existsb is_other_surround formats).
  set (hasIEC := existsb (fun format => format =? AUDIO_FORMAT_IEC61937) formats).
  assert (HAC3 : hasAC3 = true -> In AUDIO_FORMAT_AC3 formats).
  { intros H. apply existsb_exists in H as (x & Hin & Hx).
    apply Z.eqb_eq in Hx. subst x. exact Hin. }
  assert (HIEC : hasIEC = true -> In AUDIO_FORMAT_IEC61937 formats).
  { intros H. apply existsb_exists in H as (x & Hin & Hx).
    apply Z.eqb_eq in Hx. subst x. exact Hin. }
  split; [|split; [|split; [|split]]].
  - intros ->. rewrite bool_decide_eq_true_2 by reflexivity. cbn [fst snd].
    split; [|reflexivity]. intros format.
    rewrite (Hadd AUDIO_FORMAT_IEC61937 _ format), fold_add_In.
    rewrite <- list_elem_of_In, elem_of_elements. cbn [In]. tauto.
  - intros ->. rewrite bool_decide_eq_false_2 by discriminate.
    rewrite bool_decide_eq_true_2 by reflexivity.
    rewrite (bool_decide_eq_false_2
               (AUDIO_POLICY_FORCE_ENCODED_SURROUND_NEVER
                = AUDIO_POLICY_FORCE_ENCODED_SURROUND_ALWAYS)) by discriminate.
    assert (Hsame : List.filter (fun format => negb (is_other_surround format && false))
                      formats = formats).
    { apply filter_id. intros x _. rewrite andb_false_r. reflexivity. }
    rewrite Hsame.
    destruct (hasAC3 || hasOther || hasIEC) eqn:Eany; cbn [fst snd].
    + split; [|reflexivity].
      apply (removeSurroundFormats_spec formats (length formats) []). lia.
    + split; [|reflexivity]. symmetry. apply filter_id. intros x Hin.
      apply orb_false_iff in Eany as [Eany Ei]. apply orb_false_iff in Eany as [Ea Eo].
      unfold is_surround.
      rewrite (existsb_none _ _ Ea x Hin), (existsb_none _ _ Eo x Hin),
        (existsb_none _ _ Ei x Hin). reflexivity.
  - intros ->. rewrite bool_decide_eq_false_2 by discriminate.
    rewrite bool_decide_eq_false_2 by discriminate.
    rewrite bool_decide_eq_true_2 by reflexivity. cbn [orb andb fst snd].
    intros format.
    assert (Hkept : forall x,
              In x (List.filter
                      (fun format => negb (is_other_surround format && true)) formats)
              <-> In x formats /\ is_other_surround x = false).
    { intros x. rewrite List.filter_In, andb_true_r, negb_true_iff. tauto. }
    assert (Hac3 : is_other_surround AUDIO_FORMAT_AC3 = false) by reflexivity.
    assert (Hiec : is_other_surround AUDIO_FORMAT_IEC61937 = false) by reflexivity.
    assert (Hraw : forall base,
              In format (add AUDIO_FORMAT_DTS_HD
                           (add AUDIO_FORMAT_DTS (add AUDIO_FORMAT_E_AC3 base)))
              <-> is_other_surround format = true \/ In format base).
    { intros base. rewrite !Hins, is_other_cases. tauto. }
    assert (Hfinal : is_other_surround format = true
                     \/ ((In format formats /\ is_other_surround format = false)
                         \/ format = AUDIO_FORMAT_AC3)
                     \/ format = AUDIO_FORMAT_IEC61937
                     <-> In format formats \/ is_surround format = true).
    { clear. unfold is_surround. rewrite !orb_true_iff, !Z.eqb_eq.
      destruct (is_other_surround format); tauto. }
    rewrite <- Hfinal. clear Hfinal.
    destruct hasAC3 eqn:Ea, hasIEC eqn:Ei; cbn [negb orb andb fst snd];
      [rewrite Hraw, Hkept|rewrite Hins, Hraw, Hkept|rewrite Hraw, Hins, Hkept
      |rewrite Hins, Hraw, Hins, Hkept];
      try specialize (HAC3 eq_refl); try specialize (HIEC eq_refl).
    + split; [tauto|].
      intros [H|[[H| ->]| ->]]; [tauto|tauto|right; split; assumption
                                |right; split; assumption].
    + split; [tauto|].
      intros [H|[[H| ->]|H]]; [tauto|tauto|right; right; split; assumption|tauto].
    + split; [tauto|].
      intros [H|[[H|H]| ->]]; [tauto|tauto|tauto|right; right; split; assumption].
    + tauto.
  - intros Hm Hn Ha. rewrite !bool_decide_eq_false_2 by assumption.
    cbn [orb andb fst snd]. intros format.
    assert (Hsame : List.filter (fun format => negb (is_other_surround format && false))
                      formats = formats).
    { apply filter_id. intros x _. rewrite andb_false_r. reflexivity. }
    rewrite Hsame.
    destruct hasAC3 eqn:Ea, hasIEC eqn:Ei; cbn [negb orb andb fst snd];
      rewrite ?Hins; try specialize (HAC3 eq_refl); try specialize (HIEC eq_refl);
      intuition congruence.
  - intros Hm Hn. rewrite !bool_decide_eq_false_2 by assumption.
    intros format.
    destruct (if (true || _) && negb hasAC3 then _ else _) as [formats2 ac3'].
    destruct (if bool_decide _ then _ else _) as [formats3 other'].
    cbn [fst snd]. rewrite fold_enabled_elem. split.
    + intros [H|H]; [exact H|]. exfalso. exact (not_elem_of_empty _ H).
    + intros H. left. exact H.
Qed.

End SurroundFilters.

(** ** The strategies muted by device *)

Section MutedByDevice.
Context {FL : CFloat} {PH : PolicyHeader}.

Lemma count_core_forget_trace m m' :
  forget_trace m' = forget_trace m -> count_core m' = count_core m.
Proof.
  intros H. change (count_core (forget_trace m') = count_core (forget_trace m)).
  rewrite H. reflexivity.
Qed.

Lemma count_core_update_output m h f :
  (forall d, erase_counts (f d) = erase_counts d) ->
  count_core (update_output m h f) = count_core m.
Proof.
  intros Hf. unfold count_core, update_output. cbn.
  f_equal. rewrite List.map_map. apply List.map_ext.
  intros d. destruct (mIoHandle d =? h); [apply Hf|reflexivity].
Qed.

Lemma checkAndSetVolume_count_core m stream index output dev delayMs force :
  count_core (fst (checkAndSetVolume m stream index output dev delayMs force))
  = count_core m.
Proof. apply count_core_forget_trace, checkAndSetVolume_frame. Qed.

Lemma setStreamMute_count_core m stream on output delayMs dev :
  count_core (setStreamMute m stream on output delayMs dev) = count_core m.
Proof.
  unfold setStreamMute.
  destruct (valueFor (mOutputs m) output) as [d|]; [|reflexivity].
  destruct on.
  - rewrite count_core_update_output by reflexivity.
    destruct (mMuteCount d stream =? 0); [|reflexivity].
    match goal with |- context [if ?c then _ else m] => destruct c end;
      [apply checkAndSetVolume_count_core|reflexivity].
  - destruct (mMuteCount d stream =? 0); [reflexivity|].
    destruct (mMuteCount d stream - 1 =? 0).
    + rewrite checkAndSetVolume_count_core. apply count_core_update_output.
      reflexivity.
    + apply count_core_update_output. reflexivity.
Qed.

Lemma setStrategyMute_count_core m strategy on output delayMs dev :
  count_core (setStrategyMute m strategy on output delayMs dev) = count_core m.
Proof.
  unfold setStrategyMute. apply fold_left_invariant.
  intros a b. destruct (bool_decide _); [apply setStreamMute_count_core|reflexivity].
Qed.

Lemma muteStrategyOnOutput_count_core output i mute delayMs acc j :
  count_core (fst (muteStrategyOnOutput output i mute delayMs acc j))
  = count_core (fst acc).
Proof.
  unfold muteStrategyOnOutput. destruct acc as [m w].
  destruct (nth_error (mOutputs m) j) as [desc|]; [|reflexivity].
  destruct (valueFor (mOutputs m) output) as [outputDesc|]; [|reflexivity].
  destruct (_ =? AUDIO_DEVICE_NONE); [reflexivity|].
  destruct (nth_error _ j) as [desc1|].
  - match goal with |- context [if ?c then _ else _] => destruct c end;
      cbn [fst]; apply setStrategyMute_count_core.
  - cbn [fst]. apply setStrategyMute_count_core.
Qed.

Lemma tempMuteStrategy_count_core output dev delayMs duration m i :
  count_core (tempMuteStrategy output dev delayMs duration m i) = count_core m.
Proof.
  unfold tempMuteStrategy.
  destruct (valueFor (mOutputs m) output) as [outputDesc|]; [|reflexivity].
  destruct (isStrategyActive m outputDesc i); [|reflexivity].
  rewrite !setStrategyMute_count_core. reflexivity.
Qed.

Lemma valueFor_erase_counts outputs h :
  valueFor (List.map erase_counts outputs) h
  = option_map erase_counts (valueFor outputs h).
Proof.
  unfold valueFor. induction outputs as [|x xs IH]; [reflexivity|].
  cbn. destruct (mIoHandle x =? h); [reflexivity|exact IH].
Qed.

Lemma count_core_valueFor m m' h d :
  count_core m' = count_core m ->
  valueFor (mOutputs m) h = Some d ->
  exists d', valueFor (mOutputs m') h = Some d' /\ erase_counts d' = erase_counts d.
Proof.
  intros Hc Hd. apply (f_equal mOutputs) in Hc. cbn in Hc.
  apply (f_equal (fun l => valueFor l h)) in Hc.
  rewrite !valueFor_erase_counts, Hd in Hc.
  destruct (valueFor (mOutputs m') h) as [d'|]; [|discriminate].
  exists d'. split; [reflexivity|]. cbn in Hc. congruence.
Qed.

Lemma erase_counts_erase_output d d' :
  erase_counts d' = erase_counts d -> erase_output d' = erase_output d.
Proof.
  intros He. change (erase_output (erase_counts d') = erase_output (erase_counts d)).
  rewrite He. reflexivity.
Qed.

Lemma findPreferredDevice_in_erase filter devices : forall outputs acc,
  findPreferredDevice_in (List.map erase_output outputs) filter devices acc
  = findPreferredDevice_in outputs filter devices acc.
Proof.
  induction outputs as [|d outputs IH]; intros acc; [reflexivity|].
  cbn [List.map findPreferredDevice_in].
  change (findPreferredDevice (erase_output d) filter devices)
    with (findPreferredDevice d filter devices).
  destruct (findPreferredDevice d filter devices) as [[cur|] [|]];
    rewrite ?IH; reflexivity.
Qed.

Lemma getDeviceForStrategy_core m m' i fromCache :
  routing_core m' = routing_core m ->
  getDeviceForStrategy m' i fromCache = getDeviceForStrategy m i fromCache.
Proof.
  intros Hc. unfold getDeviceForStrategy.
  rewrite <- (findPreferredDevice_in_erase i _ (mOutputs m')).
  rewrite <- (findPreferredDevice_in_erase i _ (mOutputs m)).
  rewrite (f_equal mOutputs Hc
           : List.map erase_output (mOutputs m') = List.map erase_output (mOutputs m)).
  rewrite (f_equal mAvailableOutputDevices Hc
           : mAvailableOutputDevices m' = mAvailableOutputDevices m).
  rewrite (f_equal mDeviceForStrategy Hc : mDeviceForStrategy m' = mDeviceForStrategy m).
  rewrite (f_equal mEngine Hc : mEngine m' = mEngine m).
  reflexivity.
Qed.

Lemma muteByDevice_core m m' d d' i :
  routing_core m' = routing_core m ->
  erase_output d' = erase_output d ->
  isDuplicated d = false ->
  muteByDevice m' d' i = muteByDevice m d i.
Proof.
  intros Hc He Hdup.
  assert (Hdup' : isDuplicated d' = false)
    by (rewrite (isDuplicated_core _ _ He); exact Hdup).
  unfold muteByDevice.
  rewrite (device_plain m' d' Hdup'), (device_plain m d Hdup).
  rewrite (supportedDevices_plain m' d' Hdup'), (supportedDevices_plain m d Hdup).
  rewrite (isActive_core _ _ He), (getDeviceForStrategy_core _ _ i false Hc).
  rewrite (f_equal mDevice He : mDevice d' = mDevice d).
  rewrite (f_equal mSupportedDevices He : mSupportedDevices d' = mSupportedDevices d).
  reflexivity.
Qed.

(** One turn of the first loop of [checkDeviceMuteStrategies]: the flag of
    the strategy becomes the value of [mute], the other flags stay. *)
Lemma muteStrategyByDevice_flag output dev shouldMute delayMs m w i d :
  valueFor (mOutputs m) output = Some d ->
  let curDevice :=
    Z.land (getDeviceForStrategy m i false) (supportedDevices m d) in
  let mute :=
    shouldMute && negb (Z.land curDevice dev =? 0) && negb (curDevice =? dev) in
  exists d',
    valueFor (mOutputs (fst (muteStrategyByDevice output dev shouldMute delayMs (m, w) i)))
      output = Some d'
    /\ erase_output d' = erase_output d
    /\ forall j, mStrategyMutedByDevice d' j
                 = if decide (j = i) then mute else mStrategyMutedByDevice d j.
Proof.
  intros Hd curDevice mute. unfold muteStrategyByDevice. rewrite Hd.
  fold curDevice. fold mute.
  assert (Hset : forall b,
            b = mute ->
            exists d',
              valueFor
                (mOutputs
                   (fst (List.fold_left (muteStrategyOnOutput output i mute delayMs)
                           (seq 0 (length
                                     (mOutputs
                                        (update_output m output
                                           (fun d => set_mStrategyMutedByDevice d
                                                       (array_set
                                                          (mStrategyMutedByDevice d)
                                                          i b))))))
                           (update_output m output
                              (fun d => set_mStrategyMutedByDevice d
                                          (array_set (mStrategyMutedByDevice d) i b)),
                            w))))
                output = Some d'
              /\ erase_output d' = erase_output d
              /\ forall j, mStrategyMutedByDevice d' j
                           = if decide (j = i) then mute
                             else mStrategyMutedByDevice d j).
  { intros b Hb.
    set (m1 := update_output m output
                 (fun d => set_mStrategyMutedByDevice d
                             (array_set (mStrategyMutedByDevice d) i b))).
    assert (Hd1 : valueFor (mOutputs m1) output
                  = Some (set_mStrategyMutedByDevice d
                            (array_set (mStrategyMutedByDevice d) i b))).
    { subst m1. unfold update_output. cbn [mOutputs set_mOutputs].
      apply (valueFor_map_same
               (fun d => set_mStrategyMutedByDevice d
                           (array_set (mStrategyMutedByDevice d) i b)));
        [reflexivity|exact Hd]. }
    match goal with |- context [List.fold_left ?f ?l (m1, w)] =>
      pose proof (fold_left_invariant (fun acc => count_core (fst acc)) f l
                    (fun a j => muteStrategyOnOutput_count_core _ _ _ _ a j) (m1, w))
        as Hcore
    end.
    cbn [fst] in Hcore.
    destruct (count_core_valueFor _ _ output _ Hcore Hd1) as (d' & Hd' & He).
    exists d'. split; [exact Hd'|]. split.
    - rewrite (erase_counts_erase_output _ _ He). reflexivity.
    - intros j. rewrite (f_equal mStrategyMutedByDevice He
                         : mStrategyMutedByDevice d' = _).
      cbn. unfold array_set. rewrite Hb. reflexivity. }
  destruct mute eqn:Emute, (mStrategyMutedByDevice d i) eqn:Eflag;
    cbn [andb negb]; cbv beta iota zeta.
  - exists d. split; [exact Hd|]. split; [reflexivity|].
    intros j. destruct (decide (j = i)) as [->|]; [exact Eflag|reflexivity].
  - apply (Hset true). reflexivity.
  - apply (Hset false). reflexivity.
  - exists d. split; [exact Hd|]. split; [reflexivity|].
    intros j. destruct (decide (j = i)) as [->|]; [exact Eflag|reflexivity].
Qed.

Lemma all_strategies_NoDup : NoDup all_strategies.
Proof.
  unfold all_strategies.
  repeat (apply NoDup_cons_2;
          [rewrite ?elem_of_cons, elem_of_nil; intuition discriminate|]).
  apply NoDup_nil_2.
Qed.

(** The first loop of [checkDeviceMuteStrategies] over a list of strategies. *)
Lemma muteStrategyByDevice_fold m0 d0 output delayMs :
  isDuplicated d0 = false ->
  forall l, NoDup l -> forall m w d,
    routing_core m = routing_core m0 ->
    valueFor (mOutputs m) output = Some d ->
    erase_output d = erase_output d0 ->
    exists d',
      valueFor
        (mOutputs
           (fst (List.fold_left
                   (muteStrategyByDevice output (device m0 d0)
                      (isActive d0 && (2 <=? popcount (device m0 d0))) delayMs)
                   l (m, w))))
        output = Some d'
      /\ erase_output d' = erase_output d0
      /\ routing_core
           (fst (List.fold_left
                   (muteStrategyByDevice output (device m0 d0)
                      (isActive d0 && (2 <=? popcount (device m0 d0))) delayMs)
                   l (m, w)))
         = routing_core m0
      /\ forall j, mStrategyMutedByDevice d' j
                   = if decide (j ∈ l) then muteByDevice m0 d0 j
                     else mStrategyMutedByDevice d j.
Proof.
  intros Hdup. induction l as [|i l IH]; intros Hnd m w d Hc Hd He.
  - exists d. cbn [List.fold_left fst].
    split; [exact Hd|]. split; [exact He|]. split; [exact Hc|].
    intros j. rewrite decide_False; [reflexivity|apply not_elem_of_nil].
  - apply NoDup_cons in Hnd as [Hnotin Hnd].
    cbn [List.fold_left].
    assert (Hdupd : isDuplicated d = false)
      by (rewrite (isDuplicated_core _ _ He); exact Hdup).
    pose proof (muteStrategyByDevice_flag output (device m0 d0)
                  (isActive d0 && (2 <=? popcount (device m0 d0))) delayMs m w i d Hd)
      as Hstep.
    cbv zeta in Hstep.
    rewrite (getDeviceForStrategy_core _ _ i false Hc) in Hstep.
    rewrite (supportedDevices_plain m d Hdupd) in Hstep.
    rewrite (f_equal mSupportedDevices He : mSupportedDevices d = mSupportedDevices d0)
      in Hstep.
    rewrite <- (supportedDevices_plain m0 d0 Hdup) in Hstep.
    change (isActive d0 && (2 <=? popcount (device m0 d0))
            && negb (Z.land (Z.land (getDeviceForStrategy m0 i false)
                               (supportedDevices m0 d0)) (device m0 d0) =? 0)
            && negb (Z.land (getDeviceForStrategy m0 i false) (supportedDevices m0 d0)
                     =? device m0 d0))
      with (muteByDevice m0 d0 i) in Hstep.
    destruct Hstep as (d1 & Hd1 & He1 & Hflag1).
    pose proof (muteStrategyByDevice_core output (device m0 d0)
                  (isActive d0 && (2 <=? popcount (device m0 d0))) delayMs (m, w) i)
      as Hc1.
    cbn [fst] in Hc1.
    destruct (muteStrategyByDevice output (device m0 d0)
                (isActive d0 && (2 <=? popcount (device m0 d0))) delayMs (m, w) i)
      as [m1 w1].
    cbn [fst] in Hd1, Hc1.
    assert (Hc1' : routing_core m1 = routing_core m0) by (rewrite Hc1; exact Hc).
    assert (He1' : erase_output d1 = erase_output d0) by (rewrite He1; exact He).
    destruct (IH Hnd m1 w1 d1 Hc1' Hd1 He1') as (d' & Hd' & He' & Hc' & Hflag').
    exists d'. split; [exact Hd'|]. split; [exact He'|]. split; [exact Hc'|].
    intros j. rewrite Hflag', Hflag1.
    destruct (decide (j ∈ l)) as [Hin|Hout].
    + rewrite decide_True by (apply elem_of_cons; right; exact Hin). reflexivity.
    + destruct (decide (j = i)) as [->|Hne].
      * rewrite decide_True by (apply elem_of_cons; left; reflexivity). reflexivity.
      * rewrite decide_False; [reflexivity|].
        intros Hin. apply elem_of_cons in Hin as [?|?]; contradiction.
Qed.

Lemma fold_left_fixed {A B : Type} (f : A -> B -> A) (l : list B) (a : A) :
  (forall b, In b l -> f a b = a) -> List.fold_left f l a = a.
Proof.
  induction l as [|b l IH]; intros H; [reflexivity|].
  cbn. rewrite (H b) by (left; reflexivity). apply IH.
  intros b' Hb'. apply H. right. exact Hb'.
Qed.

(** When every flag has the value of [mute] and the device has not changed,
    [checkDeviceMuteStrategies] has nothing to do. *)
Lemma checkDeviceMuteStrategies_settled m output d delayMs :
  valueFor (mOutputs m) output = Some d ->
  isDuplicated d = false ->
  (forall i, In i all_strategies -> mStrategyMutedByDevice d i = muteByDevice m d i) ->
  0 <= delayMs ->
  checkDeviceMuteStrategies m output (device m d) delayMs = (m, 0).
Proof.
  intros Hd Hdup Hsync Hdelay. unfold checkDeviceMuteStrategies.
  rewrite Hd, Hdup.
  rewrite fold_left_fixed.
  - rewrite Hd, Z.eqb_refl, andb_false_r.
    replace (delayMs <? 0) with false by (symmetry; apply Z.ltb_ge; exact Hdelay).
    reflexivity.
  - intros i Hin. unfold muteStrategyByDevice. rewrite Hd.
    rewrite (Hsync i Hin). unfold muteByDevice. cbv zeta.
    match goal with |- context [if ?x && negb ?x then _ else _] => destruct x end;
      reflexivity.
Qed.

(** The flags after [checkDeviceMuteStrategies] on an output that is not
    duplicated. *)
Lemma checkDeviceMuteStrategies_flags m output prevDevice delayMs d :
  valueFor (mOutputs m) output = Some d ->
  isDuplicated d = false ->
  exists d',
    valueFor (mOutputs (fst (checkDeviceMuteStrategies m output prevDevice delayMs)))
      output = Some d'
    /\ erase_output d' = erase_output d
    /\ forall i, In i all_strategies ->
         mStrategyMutedByDevice d' i = muteByDevice m d i.
Proof.
  intros Hd Hdup. unfold checkDeviceMuteStrategies. rewrite Hd, Hdup. cbv zeta.
  destruct (muteStrategyByDevice_fold m d output delayMs Hdup all_strategies
              all_strategies_NoDup m 0 d eq_refl Hd eq_refl)
    as (d1 & Hd1 & He1 & Hc1 & Hflag1).
  destruct (List.fold_left
              (muteStrategyByDevice output (device m d)
                 (isActive d && (2 <=? popcount (device m d))) delayMs)
              all_strategies (m, 0)) as [m1 w1].
  cbn [fst] in Hd1, Hc1. rewrite Hd1.
  assert (Hdone : forall m2,
            count_core m2 = count_core m1 ->
            exists d',
              valueFor (mOutputs m2) output = Some d'
              /\ erase_output d' = erase_output d
              /\ forall i, In i all_strategies ->
                   mStrategyMutedByDevice d' i = muteByDevice m d i).
  { intros m2 Hc2.
    destruct (count_core_valueFor _ _ output _ Hc2 Hd1) as (d2 & Hd2 & He2).
    exists d2. split; [exact Hd2|]. split.
    - rewrite (erase_counts_erase_output _ _ He2). exact He1.
    - intros i Hin.
      rewrite (f_equal mStrategyMutedByDevice He2
               : mStrategyMutedByDevice d2 = mStrategyMutedByDevice d1).
      rewrite Hflag1. apply decide_True. apply list_elem_of_In. exact Hin. }
  destruct (isActive d1 && negb (device m d =? prevDevice)).
  - assert (Hs : count_core
                   (List.fold_left
                      (tempMuteStrategy output (device m d) delayMs
                         (u32 (latency m1 d1 * 4)))
                      all_strategies m1) = count_core m1).
    { apply (fold_left_invariant count_core).
      intros a b. apply tempMuteStrategy_count_core. }
    revert Hs.
    generalize (List.fold_left
                  (tempMuteStrategy output (device m d) delayMs
                     (u32 (latency m1 d1 * 4)))
                  all_strategies m1).
    intros m2 Hs.
    match goal with |- context [if ?c then _ else _] => destruct c end;
      cbn [fst]; apply Hdone; exact Hs.
  - destruct (delayMs <? w1); cbn [fst]; apply Hdone; reflexivity.
Qed.

(** X20.  [checkDeviceMuteStrategies] settles the by-device mute flags: on a
    registered output that is not duplicated, after the call the flag of
    every strategy is the value the mute condition had at entry.  A second
    call right after it, for the device the output is on, changes nothing
    and asks for no wait. *)
Theorem checkDeviceMuteStrategies_settles_flags
    (m : AudioPolicyManager) (output : audio_io_handle_t)
    (prevDevice : audio_devices_t) (delayMs delayMs' : Z) :
  0 <= delayMs' ->
  let m' := fst (checkDeviceMuteStrategies m output prevDevice delayMs) in
  (forall outputDesc,
     valueFor (mOutputs m) output = Some outputDesc ->
     isDuplicated outputDesc = false ->
     exists outputDesc',
       valueFor (mOutputs m') output = Some outputDesc'
       /\ forall i, In i all_strategies ->
            mStrategyMutedByDevice outputDesc' i = muteByDevice m outputDesc i)
  /\ forall outputDesc',
       valueFor (mOutputs m') output = Some outputDesc' ->
       checkDeviceMuteStrategies m' output (device m' outputDesc') delayMs' = (m', 0).
Proof.
  intros Hdelay. cbn zeta.
  pose proof (checkDeviceMuteStrategies_flags m output prevDevice delayMs) as Hflags.
  pose proof (checkDeviceMuteStrategies_core m output prevDevice delayMs) as Hcore.
  assert (Hsame : valueFor (mOutputs m) output = None
                  \/ (exists d, valueFor (mOutputs m) output = Some d
                                 /\ isDuplicated d = true) ->
                  fst (checkDeviceMuteStrategies m output prevDevice delayMs) = m).
  { intros [Hnone|(d & Hd & Hdup)]; unfold checkDeviceMuteStrategies.
    - rewrite Hnone. reflexivity.
    - rewrite Hd, Hdup. reflexivity. }
  revert Hflags Hcore Hsame.
  generalize (fst (checkDeviceMuteStrategies m output prevDevice delayMs)).
  intros m' Hflags Hcore Hsame.
  split.
  - intros d Hd Hdup. destruct (Hflags d Hd Hdup) as (d' & Hd' & _ & Hsync).
    exists d'. split; [exact Hd'|exact Hsync].
  - intros d' Hd'.
    destruct (valueFor (mOutputs m) output) as [d|] eqn:Hd.
    + destruct (isDuplicated d) eqn:Hdup.
      * assert (Heq : m' = m) by (apply Hsame; right; eauto).
        subst m'. rewrite Hd in Hd'. injection Hd' as <-.
        unfold checkDeviceMuteStrategies. rewrite Hd, Hdup. reflexivity.
      * destruct (Hflags d eq_refl Hdup) as (d'' & Hd'' & He & Hsync).
        rewrite Hd' in Hd''. injection Hd'' as <-.
        assert (Hdup' : isDuplicated d' = false)
          by (rewrite (isDuplicated_core _ _ He); exact Hdup).
        apply checkDeviceMuteStrategies_settled; [exact Hd'|exact Hdup'| |exact Hdelay].
        intros i Hin. rewrite (Hsync i Hin). symmetry.
        apply muteByDevice_core; [exact Hcore|exact He|exact Hdup].
    + assert (Heq : m' = m) by (apply Hsame; left; reflexivity).
      subst m'. rewrite Hd in Hd'. discriminate.
Qed.

End MutedByDevice.

(** ** Further runs on the sample states *)

#[local] Existing Instance reference_header.
#[local] Existing Instance integer_float.

Lemma vector_add_inserts : add_inserts vector_add.
Proof.
  intros item items x. unfold vector_add. rewrite in_app_iff. cbn.
  intuition congruence.
Qed.

Lemma sample2_patches_wf : patches_wf Sample2.capture_ready.
Proof. intros key patchDesc H. cbn in H. rewrite lookup_empty in H. discriminate. Qed.

(** Among the two outputs of the music sample, [selectOutput] returns one of
    the two. *)
Lemma selectOutput_returns_candidate_witness :
  exists h,
    selectOutput Sample.playing_music [1; 2] AUDIO_OUTPUT_FLAG_NONE AUDIO_FORMAT_INVALID
    = Some h
    /\ In h [1; 2].
Proof.
  destruct (selectOutput_returns_candidate Sample.playing_music [1; 2]
              AUDIO_OUTPUT_FLAG_NONE AUDIO_FORMAT_INVALID) as (h & Hsel & _ & Hin).
  - intros o [<-|[<-|[]]]; eexists; reflexivity.
  - exists h. split; [exact Hsel|]. apply Hin. discriminate.
Defined.

(** A playback starts, a beacon starts and the playback stops: the beacon
    ends unmuted and the TTS mute counter of the music output is as it was. *)
Lemma handleEventForBeacon_mutes_tts_once_witness :
  let s' := beacon_run Sample2.beacon_at_rest
              [STARTING_OUTPUT; STARTING_BEACON; STOPPING_OUTPUT] in
  mBeaconMuted s' = beacon_mute_wanted s'
  /\ exists d',
       valueFor (mOutputs (bm_base s')) 1 = Some d'
       /\ mMuteCount d' AUDIO_STREAM_TTS - Z.b2z (mBeaconMuted s')
          = mMuteCount Sample.music_output AUDIO_STREAM_TTS - 0.
Proof.
  destruct (handleEventForBeacon_mutes_tts_once Sample2.beacon_at_rest
              [STARTING_OUTPUT; STARTING_BEACON; STOPPING_OUTPUT])
    as [Hmuted Hcount].
  - reflexivity.
  - apply NoDup_cons_2; [|apply NoDup_cons_2; [|apply NoDup_nil_2]].
    + intros Hin. apply elem_of_cons in Hin as [Hin|Hin]; [discriminate|].
      exact (not_elem_of_nil _ Hin).
    + apply not_elem_of_nil.
  - intros h d Hd. apply valueFor_In in Hd.
    destruct Hd as [<-|[<-|[]]]; cbn; lia.
  - cbn zeta. split; [apply Hmuted; discriminate|].
    destruct (Hcount 1 Sample.music_output eq_refl) as (d' & Hd' & Hc & _).
    exists d'. split; [exact Hd'|exact Hc].
Defined.

(** Routing the captured input of the sample to the microphone it is
    already on, forced: the device is stored, and no patch is asked for
    because no input device is available. *)
Lemma setInputDevice_stores_device_witness :
  exists m' status,
    setInputDevice Sample.hotword_during_capture 21 AUDIO_DEVICE_IN_BUILTIN_MIC true None
    = Some (m', status)
    /\ mOutputs m' = mOutputs Sample.hotword_during_capture
    /\ mAudioPatches m' = mAudioPatches Sample.hotword_during_capture
    /\ status = NO_ERROR.
Proof.
  destruct (setInputDevice_stores_device Sample.hotword_during_capture 21
              AUDIO_DEVICE_IN_BUILTIN_MIC true None Sample.mic_input eq_refl)
    as (m' & status & Hrun & _ & Ho & _ & Hnone).
  exists m', status. split; [exact Hrun|]. split; [exact Ho|].
  destruct (Hnone eq_refl) as (Hp & _ & Hs). split; [exact Hp|exact Hs].
Defined.

(** Routing the idle input to the available microphone and resetting it
    leaves the patch collection as it was. *)
Lemma setInputDevice_reset_round_trip_witness :
  exists m1,
    setInputDevice Sample2.capture_ready 21 AUDIO_DEVICE_IN_BUILTIN_MIC false None
    = Some (m1, NO_ERROR)
    /\ getPatchHandle m1 (InputRef 21) = 8
    /\ mAudioPatches (fst (resetInputDevice m1 21 None))
       = mAudioPatches Sample2.capture_ready.
Proof.
  destruct (setInputDevice_reset_round_trip Sample2.capture_ready 21
              AUDIO_DEVICE_IN_BUILTIN_MIC false Sample2.idle_input
              Sample2.builtin_mic [])
    as (m1 & Hrun & Hh & _ & _ & Hback & _).
  - reflexivity.
  - reflexivity.
  - exact sample2_patches_wf.
  - discriminate.
  - left. discriminate.
  - reflexivity.
  - reflexivity.
  - exists m1. split; [exact Hrun|]. split; [exact Hh|exact Hback].
Defined.

(** Routing the patched music output to the headset keeps the patch
    collection well formed. *)
Lemma setOutputDevice_keeps_patches_wf_witness :
  patches_wf
    (fst (setOutputDevice Sample.patched_music 1 AUDIO_DEVICE_OUT_WIRED_HEADSET false 0
            None None true)).
Proof.
  destruct (setOutputDevice_keeps_patches_wf Sample.patched_music 1
              AUDIO_DEVICE_OUT_WIRED_HEADSET false 0 None None true
              sample_patches_wf) as [Hwf _].
  - reflexivity.
  - exact Hwf.
Defined.

(** Routing the music output to the headset asks for at most one patch. *)
Lemma setOutputDevice_creates_at_most_one_patch_witness :
  exists created,
    created_patches
      (mTrace (fst (setOutputDevice Sample.playing_music 1
                      AUDIO_DEVICE_OUT_WIRED_HEADSET false 0 None None true)))
    = created_patches (mTrace Sample.playing_music) ++ created
    /\ (length created <= 1)%nat.
Proof.
  destruct (setOutputDevice_creates_at_most_one_patch Sample.playing_music 1
              Sample.music_output AUDIO_DEVICE_OUT_WIRED_HEADSET false 0 None None true
              eq_refl eq_refl) as (created & Hc & Hlen & _).
  exists created. split; [exact Hc|exact Hlen].
Defined.

(** Routing the patched music output to the headset leaves its handle
    attached. *)
Lemma setOutputDevice_keeps_patch_attached_witness :
  patch_attached
    (fst (setOutputDevice Sample.patched_music 1 AUDIO_DEVICE_OUT_WIRED_HEADSET false 0
            None None true)) 1.
Proof.
  apply (setOutputDevice_keeps_patch_attached Sample.patched_music 1
           Sample.patched_music_output AUDIO_DEVICE_OUT_WIRED_HEADSET false 0 None None
           true eq_refl eq_refl sample_patches_wf).
  right. eexists. reflexivity.
Defined.

(** After the update the cached device of MEDIA on the music sample is the
    uncached one. *)
Lemma updateDevicesAndOutputs_cache_coherent_witness :
  getDeviceForStrategy (updateDevicesAndOutputs Sample.playing_music) STRATEGY_MEDIA true
  = getDeviceForStrategy (updateDevicesAndOutputs Sample.playing_music) STRATEGY_MEDIA
      false.
Proof.
  destruct (updateDevicesAndOutputs_cache_coherent Sample.playing_music STRATEGY_MEDIA)
    as [Hsame _].
  - cbn. tauto.
  - exact Hsame.
Defined.

(** Both active clients of the routed output ask for the headset, which is
    the device found. *)
Lemma findPreferredDevice_all_clients_routed_witness :
  snd (findPreferredDevice Sample2.routed_output STRATEGY_NONE
         [Sample.speaker; Sample.headset]) = true
  /\ In Sample.headset [Sample.speaker; Sample.headset].
Proof.
  destruct (findPreferredDevice_all_clients_routed Sample2.routed_output STRATEGY_NONE
              [Sample.speaker; Sample.headset] Sample.headset eq_refl)
    as (Hactive & Hin & _).
  split; [exact Hactive|exact Hin].
Defined.

(** Muting MEDIA on the music output counts one mute of the music stream
    type on it. *)
Lemma setStrategyMute_counts_streams_of_strategy_witness :
  exists outputDesc',
    valueFor (mOutputs (setStrategyMute Sample.playing_music STRATEGY_MEDIA true 1 0
                          AUDIO_DEVICE_NONE)) 1 = Some outputDesc'
    /\ mMuteCount outputDesc' AUDIO_STREAM_MUSIC = 1
    /\ mMuteCount outputDesc' AUDIO_STREAM_RING = 0.
Proof.
  destruct (setStrategyMute_counts_streams_of_strategy Sample.playing_music
              STRATEGY_MEDIA true 1 0 AUDIO_DEVICE_NONE Sample.music_output eq_refl)
    as ((d' & Hd' & Hcount) & _).
  exists d'. split; [exact Hd'|]. split.
  - rewrite (Hcount AUDIO_STREAM_MUSIC). reflexivity.
  - rewrite (Hcount AUDIO_STREAM_RING). reflexivity.
Defined.

(** Closing the capturing input of the sample unregisters it and closes the
    stream once. *)
Lemma closeInput_unregisters_input_witness :
  inputFor (mInputs (closeInput Sample.hotword_during_capture 21)) 21 = None
  /\ closed_inputs (mTrace (closeInput Sample.hotword_during_capture 21)) = [21].
Proof.
  destruct (closeInput_unregisters_input Sample.hotword_during_capture 21)
    as [_ Hclose].
  destruct (Hclose Sample.mic_input eq_refl) as (Hgone & _ & _ & _ & Hclosed & _).
  split; [exact Hgone|exact Hclosed].
Defined.

(** Releasing the only client of the capturing input closes the input. *)
Lemma releaseInput_closes_after_last_client_witness :
  inputFor (mInputs (releaseInput Sample.hotword_during_capture 31)) 21 = None.
Proof.
  destruct (releaseInput_closes_after_last_client Sample.hotword_during_capture 31)
    as [_ Hrelease].
  destruct (Hrelease Sample.mic_input eq_refl eq_refl) as (_ & _ & Hlast).
  destruct (Hlast eq_refl) as (Hgone & _). exact Hgone.
Defined.

(** With the ALWAYS setting a stereo-only list of masks gains a mask that
    covers 5.1. *)
Lemma filterSurroundChannelMasks_by_setting_witness :
  exists channelMask,
    In channelMask
      (filterSurroundChannelMasks vector_add AUDIO_POLICY_FORCE_ENCODED_SURROUND_ALWAYS
         [AUDIO_CHANNEL_OUT_STEREO])
    /\ Z.land channelMask AUDIO_CHANNEL_OUT_5POINT1 = AUDIO_CHANNEL_OUT_5POINT1.
Proof.
  destruct (filterSurroundChannelMasks_by_setting vector_add vector_add_inserts
              AUDIO_POLICY_FORCE_ENCODED_SURROUND_ALWAYS [AUDIO_CHANNEL_OUT_STEREO])
    as (_ & Halways & _).
  destruct (Halways (or_introl eq_refl)) as (Hcover & _). exact Hcover.
Defined.

(** With the NEVER setting AC3 leaves a list of formats and PCM stays. *)
Lemma filterSurroundFormats_by_setting_witness :
  fst (filterSurroundFormats vector_add AUDIO_POLICY_FORCE_ENCODED_SURROUND_NEVER ∅ ∅
         [AUDIO_FORMAT_PCM_16_BIT; AUDIO_FORMAT_AC3])
  = [AUDIO_FORMAT_PCM_16_BIT].
Proof.
  destruct (filterSurroundFormats_by_setting vector_add vector_add_inserts
              AUDIO_POLICY_FORCE_ENCODED_SURROUND_NEVER ∅ ∅
              [AUDIO_FORMAT_PCM_16_BIT; AUDIO_FORMAT_AC3])
    as (_ & Hnever & _).
  destruct (Hnever eq_refl) as [Hformats _]. rewrite Hformats. reflexivity.
Defined.

(** After the mute check that follows a move of the music output from the
    headset to the speaker, a second check for the speaker does nothing. *)
Lemma checkDeviceMuteStrategies_settles_flags_witness :
  let m' :=
    fst (checkDeviceMuteStrategies Sample.playing_music 1 AUDIO_DEVICE_OUT_WIRED_HEADSET
           0) in
  exists outputDesc',
    valueFor (mOutputs m') 1 = Some outputDesc'
    /\ checkDeviceMuteStrategies m' 1 (device m' outputDesc') 0 = (m', 0).
Proof.
  destruct (checkDeviceMuteStrategies_settles_flags Sample.playing_music 1
              AUDIO_DEVICE_OUT_WIRED_HEADSET 0 0) as [Hsync Hidem].
  - lia.
  - destruct (Hsync Sample.music_output eq_refl eq_refl) as (d' & Hd' & _).
    exists d'. split; [exact Hd'|]. apply Hidem. exact Hd'.
Defined.
